(* ===== verification/_CoqProject ===== *)
-Q . S2P
Prelude.v
Values.v
Leadership.v
Job.v
Node.v
Float64.v
FloatOrder.v
RateLimiter.v
Scheduler.v
Execution.v
ApiKey.v
Worker.v
Db.v
Prog.v
Repos.v
Keys.v
Services.v
WorkerLoop.v
Http.v
Agent.v
AgentRun.v
Frame.v
Cluster.v
Invariant.v
Tenancy.v
Holding.v
Outcome.v
Scheduling.v
Driving.v
System.v
Server.v
Access.v
Guarantees.v
AgentServer.v
Resilient.v
Text.v
Routes.v
Calendar.v
Stores.v
Sqlite.v
Memory.v
Tenants.v
Observability.v
Migrations.v
Url.v
Startup.v
Pipeline.v
Csv.v
Diff.v
Rehearsal.v
Signals.v
Readme.v
Backends.v
Contracts.v
KeyContracts.v
EventContracts.v
FleetContracts.v
WorkerContracts.v
MockPartner.v
Findings.v
