(* ===== verification/Prelude.v ===== *)
(** * AetherGrid: the control plane of a compute cluster

    The program (src/app) schedules jobs onto nodes.  Clients submit jobs over
    HTTP; a background loop places queued jobs on nodes and leases each to a
    worker; the worker starts the job, renews its lease, and reports the outcome;
    a reconciliation loop takes jobs back from workers whose lease ran out or
    whose node fell silent.  A worker is driven by the server itself or by an agent
    (src/scripts/run_agent.py), an HTTP client on a machine of its own.  Several
    server processes may run; they elect one whose background loop is active.  All
    state is in PostgreSQL tables, which a migration runner brings up to date.  Every
    tenant has its own jobs, nodes, workers and API keys.

    ** Parts and files

    Foundations
    - [Prelude] (this file): computations with state and exceptions, their
      weakest preconditions [wp] and invariants [preserves], lemmas on lists, maps
      and integers.
    - [Values]: domain/value_objects, domain/enums, domain/exceptions.
    - [Float64]: Python's float, as binary64; [FloatOrder]: its values as
      integers over a common scale, and that its operations round monotonically.

    Entities and domain services (src/app/domain)
    - [Job]: entities/job.py, services/job_lifecycle.py.
    - [Node]: entities/node.py.
    - [Scheduler]: services/scheduler.py.
    - [Worker]: entities/worker.py, lease.py, event.py.
    - [ApiKey]: entities/api_key.py, value_objects/api_key_scope.py,
      services/key_authorization.py, job_authorization.py.

    Storage (src/app/infrastructure/repositories)
    - [Db]: the tables with the constraints of schema.sql, and one definition
      per statement the Postgres repositories send.
    - [Prog]: programs that send statements, read the clock and draw
      identifiers, and the environment [Env] they run in.
    - [Repos]: postgres_job_repository.py, postgres_node_repository.py,
      postgres_worker_repository.py, postgres_lease_repository.py,
      postgres_event_repository.py.

    - [Tenants]: domain/entities/tenant.py, postgres_tenant_repository.py,
      in_memory_tenant_repository.py.
    - [Stores]: the contract [Store] of a repository, a table of entities with a
      tenant each, and that two implementations of it cannot be told apart.
    - [Sqlite]: sqlite_job_repository.py, sqlite_node_repository.py,
      sqlite_event_repository.py: a connection, its transaction and its file; rows
      of texts and numbers; the upgrades at startup.  [Text] and [Calendar] are
      the encodings: identifiers, JSON, ISO 8601 timestamps.
    - [Memory]: in_memory_*_repository.py: a heap of objects that the callers share and
      a dict of references to them.
    - [Backends]: the three backends as instances of the contract.
    - [Contracts], [KeyContracts], [EventContracts], [FleetContracts],
      [WorkerContracts]: the abstract classes of src/app/domain/repositories (leases;
      API keys; events and tenants; jobs and nodes; workers) as interfaces with laws,
      the implementations as instances, and clients that rely on the laws alone.
    - [Migrations]: infrastructure/migrations: reading the files, planning,
      applying, the check at startup.

    Services and routes
    - [Services]: the [execute] methods of src/app/application/services and
      src/app/application/reconciliation that write.
    - [Keys]: issuing, authenticating, revoking and listing API keys
      (create_api_key_service.py, authenticate_api_key_service.py,
      revoke_api_key_service.py, list_issued_api_keys_service.py,
      presentation/auth.py), and what these promise while other connections use
      the key table.
    - [RateLimiter]: application/services/rate_limiter_service.py.
    - [Http]: presentation/routers, one module per router and one definition
      per handler, with the read services behind them; [gateway] puts
      authentication and rate limit in front.  [Routes]: the paths of the routers and
      the identifiers in them, as texts.  [Pipeline]: presentation/api.py, a request from
      the socket through middleware, dependencies and handler and back.

    Processes
    - [Leadership]: infrastructure/postgres_scheduler_leadership.py, a call as the
      tree of its requests, and the server and processes that interleave them.
    - [Execution]: application/services/job_execution_service.py and
      job_supervisor.py: a command, its process group, pipes and signals.
    - [WorkerLoop]: application/workers/worker_execution_loop.py,
      services/cluster_tick_service.py and the background tick of
      presentation/api.py.
    - [Agent]: scripts/run_agent.py; [AgentRun]: what an agent does whatever it
      meets; [AgentServer]: the agent and the modelled server, joined by a network.
    - [Startup]: presentation/dependencies.py and api.py: the choice of the backend,
      the lifespan of a server, health probes; migrations/cli.py;
      scripts/issue_api_key.py.  [Url]: infrastructure/database_credentials.py, and
      the parsing of URLs behind it.
    - [Observability]: the log formatter of api.py, request_logging_service.py,
      error_tracking_service.py, request_logging_middleware.py.
    - [Resilient]: integrations/resilient_client/resilient_api_client.py, a client
      for the APIs of others; it shares nothing with the rest but floats.
      [MockPartner]: mock_partner_server.py, the server it is tried on, and both
      joined by a network.
    - [Rehearsal]: scripts/upgrade_rehearsal.py, with csv and difflib of the standard
      library in [Csv] and [Diff]; [Signals]: the same script under SIGTERM and SIGHUP;
      [Readme]: scripts/readme_blocks.py.

    Proofs
    - [Frame]: the interface [Frame J], by which a property of the state that
      no effect of a service disturbs is kept by every service.
    - [Cluster]: [consistent], the invariant between the tables.
    - [Invariant], [Holding], [Outcome], [Scheduling], [Driving]: each service,
      and the loop that drives a worker, keeps it.
    - [Tenancy]: each service confines its writes to the tenant it is given.
    - [System]: sequences of calls, and calls interleaved with other
      connections.
    - [Server]: requests with credentials, background passes, bootstrapped keys.
    - [Guarantees], [Access], [Findings]: the theorems about whole runs.

    ** Correspondence

    An entity is a record with the fields of the Python class, an enum an
    inductive type.  A method that mutates its object is a computation
    [stM object exception result]; it keeps the assignments it made before it
    raised.  A service is a computation on a [world]: the database and a count of
    the effects performed.  Each SQL statement, each [utc_now()], each
    [uuid.uuid4()] and each random draw is one effect, in the order of the source.
    A row of a table is the entity it stores; a worker row stores the identifiers
    of its node and its job and reading it loads both by further statements, as
    the repository does.

    What the code does not decide is a field of the class [Env] and so an argument
    of every service: the clock, [uuid4], [secrets.token_urlsafe], SHA-256, the
    random part of a node's name, the order in which a SELECT without ORDER BY
    returns rows, and [interfere], what other connections do to the tables
    between two statements.  Assumed of them: [uuid4] and the secrets never repeat,
    distinct secrets have distinct hashes, secrets are URL-safe, a SELECT returns
    a permutation of the rows.  [System.calm] is an instance.  Theorems about all
    schedules take an arbitrary [interfere] made of repository statements
    ([System.concurrent], [Keys.KeysRely]); theorems about one call at a time take
    [Quiet E], an environment in which nothing intervenes.

    The other processes have parameters of their own, classes whose fields give the
    answer to each numbered effect: [OS] the host a command runs on, [Site] what an
    agent meets (the server among it; [AgentServer.connected] is an instance),
    [Partner] the API a resilient client calls, [Database] the schema that migrations
    change and the statements that fail, [Rehearsal.Machine] the commands and answers of
    a rehearsal.  A thread that only shares events with
    another (the renewal threads of [WorkerLoop] and [Agent]) takes its turns first
    and the other sees the events as they were at each of its own effects; the
    heartbeat thread of the agent runs between any two exchanges; requests of
    processes that elect a leader interleave freely.

    Integers are unbounded as in Python; a column of type INTEGER refuses values
    outside its 32 bits ([Db]).  Timestamps are microseconds; durations exact.
    Fit scores are binary64 with the rounding of the hardware.  Strings are code
    points below 256.  Every definition is executable.  Loops of the services run over
    lists.  The others take fuel, and running out is a result of its own, told apart
    from everything the code does: [Execution.wait_loop], which
    [execution_terminates] shows to end (the server gives it [overdue_from] turns,
    which is enough); [Agent.call_with_retry] and [Agent.poll_loop], which in the code
    run for as long as the outage lasts or for ever, so that [Unfinished] means still
    running; [Migrations._take_lock], which the code ends after a minute;
    [Rehearsal.wait_loop], which [wait_loop_spec] shows to end once the clock passes the
    deadline.

    ** What the theorems show

    - [Job], [Node], [Scheduler]: jobs stay well formed, finished jobs stay
      finished, executions are bounded by the retries; a node has handed out
      exactly what is held on it; the chosen node is the first suitable one with
      the smallest score.
    - [Guarantees]: leases, workers, jobs and node resources agree after any
      sequence of calls; leases are exclusive under any interleaving; a report
      without the current lease changes nothing, one with it settles everything;
      reconciliation recovers every expired lease, disturbs no live one, and never
      raises.
    - [Routes]: whatever a request says, it changes rows of its own tenant only; the
      request of a route reaches its handler.
    - [Access]: the server keeps its invariant; revoked keys stay
      revoked under any interleaving; scopes cannot be obtained over HTTP; a key
      that was issued authenticates; who may revoke what.
    - [Execution], [Guarantees]: an execution ends, in one of the specified ways,
      and leaves no process or pipe behind; the loop that drives a worker settles its
      job, drops results whose lease is gone, passes cancellations on.
    - [Leadership]: at most one process leads; leadership changes hands.
    - [RateLimiter]: bursts are bounded, and waiting as told is enough.
    - [AgentRun], [AgentServer]: the agent keeps to the protocol of a job, survives
      every outage, and its reports are recorded exactly once over a lossy network.
    - [Migrations]: a run leaves whole migrations behind wherever it fails; the check
      at startup accepts exactly the histories it should.
    - [Resilient], [MockPartner]: requests are replayed only when safe; the circuit
      breaker works; a payment posted over a lossy network is made once.
    - [Sqlite], [Backends]: old database files are upgraded wherever earlier startups
      died; what was saved is read back exactly; the backends answer alike.
    - [Contracts] and its companions: whatever the backend, a lease that was reclaimed
      cannot be renewed and one that was renewed is not reclaimed before it runs out; a
      revoked key is refused; the history of a job is what was recorded; accepted jobs
      are listed, removed nodes are not offered; a bootstrap can be repeated.
    - [Url], [Observability], [Startup], [Tenants]: the key of a rehearsal goes to the
      loopback address only; logging changes no answer; [Pipeline]: a request leaves one
      line, which names who was let in and what was answered; the order of a server's
      lifespan, the exit codes of the migrator, how saving a tenant ends.
    - [Rehearsal], [Readme]: a rehearsal that passes has compared what it says and
      cleaned up; the README extractor accepts exactly the documents of its grammar.
      [Signals]: a signal while a rehearsal runs does not keep it from cleaning up, one
      while it cleans up does.
    - [Findings]: runs in which the code leaves the cluster in a state its
      comments do not intend.

    ** Not modelled

    JSON: bodies arrive as their request models read them, responses are values; the
    construction of each service from its repositories
    (presentation/dependencies.py, one line per service: the services take the
    repositories as they are) and the CORS settings; argument parsing, progress lines
    and the compose override of the scripts; the dashboard, which is TypeScript.  Texts are code points below 256, except where a file is read: there
    a text is its UTF-8 encoding.

    ** What could follow

    The remaining services over the in-memory repositories, where a saved object is
    still the caller's, against the interfaces of [Contracts] and its companions as
    [KeyContracts] does for authentication and revocation; JSON bodies and
    responses. *)
From stdpp Require Export prelude gmap strings list fin_maps.
From Stdlib Require Export ZArith Lia Sorting.Sorted.

(** * State and exceptions

    Python code runs on mutable objects and raises.  A computation takes the
    current state and returns the state it leaves behind, together with either
    the exception it raised or the value it returned.  The state is kept on
    the raising path: nothing is rolled back. *)

Definition stM (S E A : Type) : Type := S → S * (E + A).

#[global] Instance stM_ret {S E} : MRet (stM S E) := λ A a s, (s, inr a).

#[global] Instance stM_bind {S E} : MBind (stM S E) := λ A B f m s,
  match m s with
  | (s', inl e) => (s', inl e)
  | (s', inr a) => f a s'
  end.

Definition raise {S E A} (e : E) : stM S E A := λ s, (s, inl e).
Definition getS {S E} : stM S E S := λ s, (s, inr s).
Definition gets {S E A} (f : S → A) : stM S E A := λ s, (s, inr (f s)).
Definition modify {S E} (f : S → S) : stM S E unit := λ s, (f s, inr tt).

(** [try m except h]: [h] returns [None] for an exception it does not catch. *)
Definition try_except {S E A} (m : stM S E A) (h : E → option (stM S E A)) : stM S E A := λ s,
  match m s with
  | (s', inl e) => match h e with Some k => k s' | None => (s', inl e) end
  | r => r
  end.

(** [for x in l: body x] *)
Fixpoint for_each {S E X} (l : list X) (body : X → stM S E unit) : stM S E unit :=
  match l with
  | [] => mret tt
  | x :: l' => body x ;; for_each l' body
  end.

Ltac stM_unfold :=
  unfold mbind, stM_bind, mret, stM_ret, raise, getS, gets, modify, try_except in *.

(** Evaluate the decisions in the goal whose propositions are closed. *)
Ltac eval_closed_decisions :=
  repeat match goal with
  | |- context [bool_decide ?P] =>
      let b := eval vm_compute in (bool_decide P) in
      lazymatch b with
      | true => change (bool_decide P) with true
      | false => change (bool_decide P) with false
      end
  end.

(** * A small program logic

    [triple P m Q R]: from a state satisfying [P], [m] either returns a value
    and a state related by [Q], or raises and leaves a state related by [R]. *)

Definition triple {S E A} (P : S → Prop) (m : stM S E A)
    (Q : A → S → Prop) (R : E → S → Prop) : Prop :=
  ∀ s, P s →
    match m s with
    | (s', inr a) => Q a s'
    | (s', inl e) => R e s'
    end.

(** [preserves I m]: every outcome of [m], an exception included, leaves a
    state in [I]. *)
Definition preserves {S E A} (I : S → Prop) (m : stM S E A) : Prop :=
  triple I m (λ _, I) (λ _, I).

Section triple_rules.
Context {S E : Type}.
Implicit Types P : S → Prop.
Implicit Types R : E → S → Prop.

Lemma triple_ret {A} P (a : A) R : triple P (mret a : stM S E A) (λ a' s, a' = a ∧ P s) R.
Proof. by intros s Hs. Qed.

Lemma triple_ret' {A} P (a : A) (Q : A → S → Prop) R :
  (∀ s, P s → Q a s) → triple P (mret a : stM S E A) Q R.
Proof. intros H s Hs. cbn. by apply H. Qed.

Lemma triple_raise {A} P (e : E) (Q : A → S → Prop) R :
  (∀ s, P s → R e s) → triple P (raise e : stM S E A) Q R.
Proof. intros H s Hs. cbn. by apply H. Qed.

Lemma triple_bind {A B} P (m : stM S E A) (k : A → stM S E B)
    (Q : A → S → Prop) (Q' : B → S → Prop) R :
  triple P m Q R → (∀ a, triple (Q a) (k a) Q' R) → triple P (m ≫= k) Q' R.
Proof.
  intros Hm Hk s Hs. specialize (Hm s Hs). unfold mbind, stM_bind.
  destruct (m s) as [s' [e|a]]; [done|]. by apply Hk.
Qed.

Lemma triple_conseq {A} (P P' : S → Prop) (m : stM S E A)
    (Q Q' : A → S → Prop) (R R' : E → S → Prop) :
  triple P' m Q' R' →
  (∀ s, P s → P' s) → (∀ a s, Q' a s → Q a s) → (∀ e s, R' e s → R e s) →
  triple P m Q R.
Proof.
  intros H HP HQ HR s Hs. specialize (H s (HP s Hs)).
  destruct (m s) as [s' [e|a]]; auto.
Qed.

Lemma triple_try {A} P (m : stM S E A) h (Q : A → S → Prop) (R R' : E → S → Prop) :
  triple P m Q R' →
  (∀ e k, h e = Some k → triple (R' e) k Q R) →
  (∀ e s, h e = None → R' e s → R e s) →
  triple P (try_except m h) Q R.
Proof.
  intros Hm Hh Hn s Hs. specialize (Hm s Hs). unfold try_except.
  destruct (m s) as [s' [e|a]]; [|done].
  destruct (h e) as [k|] eqn:He; [|by apply Hn]. by apply (Hh e k He).
Qed.

Lemma triple_for {X} (l : list X) (body : X → stM S E unit) (I : S → Prop) R :
  (∀ x, x ∈ l → triple I (body x) (λ _, I) R) →
  triple I (for_each l body) (λ _, I) R.
Proof.
  induction l as [|x l IH]; intros Hb; [by apply triple_ret'|].
  cbn. eapply triple_bind; [apply Hb; left|].
  intros []. apply IH. intros y Hy. apply Hb. by right.
Qed.

Lemma preserves_ret {A} (I : S → Prop) (a : A) : preserves I (mret a : stM S E A).
Proof. by apply triple_ret'. Qed.

Lemma preserves_raise {A} (I : S → Prop) e : preserves I (raise e : stM S E A).
Proof. by apply triple_raise. Qed.

Lemma preserves_bind {A B} (I : S → Prop) (m : stM S E A) (k : A → stM S E B) :
  preserves I m → (∀ a, preserves I (k a)) → preserves I (m ≫= k).
Proof. intros Hm Hk. eapply triple_bind; [apply Hm|apply Hk]. Qed.

Lemma preserves_for {X} (l : list X) (body : X → stM S E unit) (I : S → Prop) :
  (∀ x, preserves I (body x)) → preserves I (for_each l body).
Proof. intros Hb. apply triple_for. intros x _. apply Hb. Qed.

Lemma preserves_try {A} (I : S → Prop) (m : stM S E A) h :
  preserves I m → (∀ e k, h e = Some k → preserves I k) → preserves I (try_except m h).
Proof. intros Hm Hh. eapply triple_try; [apply Hm|apply Hh|done]. Qed.

Lemma preserves_gets {A} (I : S → Prop) (f : S → A) : preserves I (gets f : stM S E A).
Proof. by intros s Hs. Qed.

Lemma preserves_match_option {A X} (I : S → Prop) (o : option X)
    (m1 : X → stM S E A) (m2 : stM S E A) :
  (∀ x, preserves I (m1 x)) → preserves I m2 →
  preserves I (match o with Some x => m1 x | None => m2 end).
Proof. by destruct o. Qed.

Lemma preserves_if {A} (I : S → Prop) (b : bool) (m1 m2 : stM S E A) :
  preserves I m1 → preserves I m2 → preserves I (if b then m1 else m2).
Proof. by destruct b. Qed.
End triple_rules.

Create HintDb prog discriminated.
#[export] Hint Resolve preserves_ret preserves_raise preserves_gets : prog.

(** * Weakest preconditions

    [wp m Q R s]: run from [s], [m] ends in a state satisfying [Q] with the value
    it returns, or [R] with the exception it raises.  Used to execute a program
    symbolically, one effect after the other. *)

Definition wp {S E A} (m : stM S E A) (Q : A → S → Prop) (R : E → S → Prop) (s : S) : Prop :=
  match m s with
  | (s', inr a) => Q a s'
  | (s', inl e) => R e s'
  end.

(** The postcondition of code that must not raise. *)
Definition no_exn {S E} : E → S → Prop := λ _ _, False.

Section wp_rules.
Context {S E : Type}.

Lemma wp_ret {A} (a : A) (Q : A → S → Prop) (R : E → S → Prop) s :
  Q a s → wp (mret a) Q R s.
Proof. done. Qed.

Lemma wp_raise {A} (e : E) (Q : A → S → Prop) (R : E → S → Prop) s :
  R e s → wp (raise e) Q R s.
Proof. done. Qed.

Lemma wp_bind {A B} (m : stM S E A) (k : A → stM S E B) Q (R : E → S → Prop) s :
  wp m (λ a s', wp (k a) Q R s') R s → wp (m ≫= k) Q R s.
Proof. unfold wp, mbind, stM_bind. by destruct (m s) as [s' [e|a]]. Qed.

Lemma wp_mono {A} (m : stM S E A) (Q Q' : A → S → Prop) (R R' : E → S → Prop) s :
  wp m Q' R' s → (∀ a s', Q' a s' → Q a s') → (∀ e s', R' e s' → R e s') → wp m Q R s.
Proof. unfold wp. destruct (m s) as [s' [e|a]]; auto. Qed.

Lemma wp_try {A} (m : stM S E A) h Q (R : E → S → Prop) s :
  wp m Q (λ e s', match h e with Some k => wp k Q R s' | None => R e s' end) s →
  wp (try_except m h) Q R s.
Proof.
  unfold wp, try_except. destruct (m s) as [s' [e|a]]; [|done]. by destruct (h e).
Qed.

(** A loop whose body keeps an invariant indexed by the items left. *)
Lemma wp_for {X} (I : list X → S → Prop) (R : E → S → Prop) body l s :
  (∀ x l' s, I (x :: l') s → wp (body x) (λ _, I l') R s) →
  I l s → wp (for_each l body) (λ _, I []) R s.
Proof.
  intros Hb. revert s. induction l as [|x l IH]; intros s Hs; [done|].
  cbn. apply wp_bind. eapply wp_mono; [apply Hb, Hs| |done]. intros [] s'. apply IH.
Qed.

Lemma wp_triple {A} P (m : stM S E A) Q (R : E → S → Prop) :
  triple P m Q R ↔ ∀ s, P s → wp m Q R s.
Proof. done. Qed.
End wp_rules.

(** * Sums over a table

    [msum f m] adds [f] over the rows of [m]. *)

Definition msum {K V} `{Countable K} (f : V → Z) (m : gmap K V) : Z :=
  map_fold (λ _ v acc, (f v + acc)%Z) 0%Z m.

Section msum.
Context {K V : Type} `{Countable K}.
Implicit Types (m : gmap K V) (f g : V → Z).
Local Open Scope Z_scope.

Lemma msum_empty f : msum f (∅ : gmap K V) = 0.
Proof. unfold msum. by rewrite map_fold_empty. Qed.

Lemma msum_insert_None f m k v :
  m !! k = None → msum f (<[k:=v]> m) = f v + msum f m.
Proof. intros Hk. unfold msum. rewrite map_fold_insert_L; [done|lia|done]. Qed.

Lemma msum_delete f m k v : m !! k = Some v → msum f (delete k m) = msum f m - f v.
Proof.
  intros Hk. rewrite <- (insert_id m k v Hk) at 2.
  rewrite <- insert_delete_eq, msum_insert_None by apply lookup_delete_eq. lia.
Qed.

Lemma msum_insert_Some f m k v v' :
  m !! k = Some v → msum f (<[k:=v']> m) = msum f m - f v + f v'.
Proof.
  intros Hk. rewrite <- insert_delete_eq, msum_insert_None by apply lookup_delete_eq.
  rewrite (msum_delete f m k v Hk). lia.
Qed.

Lemma msum_ext f g m :
  (∀ k v, m !! k = Some v → f v = g v) → msum f m = msum g m.
Proof.
  induction m as [|k v m Hk IH] using map_ind; intros Hfg.
  - by rewrite !msum_empty.
  - rewrite !msum_insert_None by done. rewrite (Hfg k v) by apply lookup_insert_eq.
    rewrite IH; [done|]. intros k' v' Hk'. apply (Hfg k').
    rewrite lookup_insert_ne; [done|]. congruence.
Qed.

Lemma msum_zero f m : (∀ k v, m !! k = Some v → f v = 0) → msum f m = 0.
Proof.
  induction m as [|k v m Hk IH] using map_ind; intros Hf; [apply msum_empty|].
  rewrite msum_insert_None, (Hf k v) by (done || apply lookup_insert_eq). rewrite IH; [done|].
  intros k' v' Hk'. apply (Hf k'). rewrite lookup_insert_ne; [done|congruence].
Qed.

Lemma msum_nonneg f m : (∀ k v, m !! k = Some v → 0 <= f v) → 0 <= msum f m.
Proof.
  induction m as [|k v m Hk IH] using map_ind; intros Hf.
  - by rewrite msum_empty.
  - rewrite msum_insert_None by done.
    pose proof (Hf k v (lookup_insert_eq _ _ _)).
    assert (0 <= msum f m); [|lia]. apply IH. intros k' v' Hk'. apply (Hf k').
    rewrite lookup_insert_ne; [done|]. congruence.
Qed.

Lemma msum_elem_le f m k v :
  (∀ k v, m !! k = Some v → 0 <= f v) → m !! k = Some v → f v <= msum f m.
Proof.
  intros Hf Hk. pose proof (msum_delete f m k v Hk).
  assert (0 <= msum f (delete k m)); [|lia].
  apply msum_nonneg. intros k' v' Hk'. apply (Hf k').
  by apply lookup_delete_Some in Hk' as [_ ?].
Qed.

(** Rows that count for nothing may be filtered out. *)
Lemma msum_filter f (P : K * V → Prop) `{!∀ x, Decision (P x)} m :
  (∀ k v, m !! k = Some v → ¬ P (k, v) → f v = 0) → msum f (filter P m) = msum f m.
Proof.
  induction m as [|k v m Hk IH] using map_ind; intros Hf.
  - by rewrite map_filter_empty.
  - assert (msum f (filter P m) = msum f m) as IH'.
    { apply IH. intros k' v' Hk'. apply (Hf k'). rewrite lookup_insert_ne; [done|]. congruence. }
    rewrite msum_insert_None by done. destruct (decide (P (k, v))) as [HP|HP].
    + rewrite map_filter_insert_True, msum_insert_None, IH' by (done || by apply map_lookup_filter_None; left).
      done.
    + rewrite map_filter_insert_False by done. rewrite delete_id by done.
      rewrite IH', (Hf k v) by (done || apply lookup_insert_eq). lia.
Qed.
End msum.

(** * Stable sorting

    [sorted(xs, key=key, reverse=True)] of Python: decreasing keys, elements
    with equal keys in their original order. *)

Section sort_desc.
Context {A : Type} (key : A → Z).

Fixpoint insert_desc (x : A) (l : list A) : list A :=
  match l with
  | [] => [x]
  | y :: l' => if (key y <=? key x)%Z then x :: l else y :: insert_desc x l'
  end.

Definition sort_desc (l : list A) : list A := foldr insert_desc [] l.

Lemma insert_desc_perm x l : insert_desc x l ≡ₚ x :: l.
Proof.
  induction l as [|y l IH]; cbn; [done|].
  destruct (_ <=? _)%Z; [done|]. rewrite IH. constructor.
Qed.

Lemma sort_desc_perm l : sort_desc l ≡ₚ l.
Proof.
  induction l as [|x l IH]; cbn; [done|]. by rewrite insert_desc_perm, IH.
Qed.

Lemma insert_desc_sorted x l :
  Sorted (λ a b, (key b <= key a)%Z) l → Sorted (λ a b, (key b <= key a)%Z) (insert_desc x l).
Proof.
  induction 1 as [|y l Hl IH Hy]; cbn; [by repeat constructor|].
  destruct (Z.leb_spec (key y) (key x)); [by repeat constructor|].
  constructor; [done|]. inversion Hy; subst; cbn; [by constructor; lia|].
  destruct (Z.leb_spec (key b) (key x)); constructor; lia.
Qed.

Lemma sort_desc_sorted l : Sorted (λ a b, (key b <= key a)%Z) (sort_desc l).
Proof. induction l; cbn; [constructor|]. by apply insert_desc_sorted. Qed.

Lemma insert_desc_filter (x : A) (k : Z) l :
  Sorted (λ a b, (key b <= key a)%Z) l →
  filter (λ a, key a = k) (insert_desc x l) = filter (λ a, key a = k) (x :: l).
Proof.
  induction 1 as [|y l Hl IH Hy]; [done|]. cbn [insert_desc].
  destruct (Z.leb_spec (key y) (key x)); [done|].
  rewrite filter_cons, IH, !filter_cons. repeat case_decide; try done; lia.
Qed.

(** Stability: elements of one key keep their original order. *)
Lemma sort_desc_stable l k :
  filter (λ a, key a = k) (sort_desc l) = filter (λ a, key a = k) l.
Proof.
  induction l as [|x l IH]; [done|]. cbn [sort_desc foldr].
  change (foldr insert_desc [] l) with (sort_desc l).
  rewrite insert_desc_filter by apply sort_desc_sorted.
  rewrite !filter_cons, IH. by case_decide.
Qed.
End sort_desc.
