(* ===== verification/Values.v ===== *)
(** Identifiers, enumerations, value objects and exceptions of the domain
    (src/app/domain/value_objects, enums, exceptions).  A UUID is a number; each
    identifier class is a type of its own, as in the source (the [id] of a lease is a
    bare UUID there, compared with no other identifier; here it is a [LeaseId]).  A [datetime] is a
    number of microseconds since the epoch and a [timedelta] a number of
    microseconds, the resolution both Python and TIMESTAMPTZ have. *)
From S2P Require Import Prelude.
Local Open Scope Z_scope.

(** * Identifiers *)

Abbreviation uuid := N (only parsing).

Record JobId := mkJobId { job_uuid : uuid }.
Record NodeId := mkNodeId { node_uuid : uuid }.
Record WorkerId := mkWorkerId { worker_uuid : uuid }.
Record LeaseId := mkLeaseId { lease_uuid : uuid }.
Record TenantId := mkTenantId { tenant_uuid : uuid }.
Record EventId := mkEventId { event_uuid : uuid }.
Record ApiKeyId := mkApiKeyId { api_key_uuid : uuid }.

#[global] Instance JobId_eq_dec : EqDecision JobId. Proof. solve_decision. Defined.
#[global] Instance NodeId_eq_dec : EqDecision NodeId. Proof. solve_decision. Defined.
#[global] Instance WorkerId_eq_dec : EqDecision WorkerId. Proof. solve_decision. Defined.
#[global] Instance LeaseId_eq_dec : EqDecision LeaseId. Proof. solve_decision. Defined.
#[global] Instance TenantId_eq_dec : EqDecision TenantId. Proof. solve_decision. Defined.
#[global] Instance EventId_eq_dec : EqDecision EventId. Proof. solve_decision. Defined.
#[global] Instance ApiKeyId_eq_dec : EqDecision ApiKeyId. Proof. solve_decision. Defined.

#[global] Instance JobId_countable : Countable JobId.
Proof. by refine (inj_countable' job_uuid mkJobId _); intros []. Defined.
#[global] Instance NodeId_countable : Countable NodeId.
Proof. by refine (inj_countable' node_uuid mkNodeId _); intros []. Defined.
#[global] Instance WorkerId_countable : Countable WorkerId.
Proof. by refine (inj_countable' worker_uuid mkWorkerId _); intros []. Defined.
#[global] Instance LeaseId_countable : Countable LeaseId.
Proof. by refine (inj_countable' lease_uuid mkLeaseId _); intros []. Defined.
#[global] Instance TenantId_countable : Countable TenantId.
Proof. by refine (inj_countable' tenant_uuid mkTenantId _); intros []. Defined.
#[global] Instance EventId_countable : Countable EventId.
Proof. by refine (inj_countable' event_uuid mkEventId _); intros []. Defined.
#[global] Instance ApiKeyId_countable : Countable ApiKeyId.
Proof. by refine (inj_countable' api_key_uuid mkApiKeyId _); intros []. Defined.

(** * Time *)

Abbreviation datetime := Z (only parsing).
Abbreviation timedelta := Z (only parsing).

Definition seconds (n : Z) : timedelta := n * 1000000.
Definition minutes (n : Z) : timedelta := seconds (n * 60).
Definition hours (n : Z) : timedelta := minutes (n * 60).

(** * Enumerations *)

(** app/domain/enums/job_status.py *)
Inductive JobStatus :=
  SUBMITTED | QUEUED | SCHEDULED | RUNNING | CANCELLING | COMPLETED | FAILED | CANCELLED.

#[global] Instance JobStatus_eq_dec : EqDecision JobStatus.
Proof. solve_decision. Defined.

(** [JobStatus.is_terminal] *)
Definition is_terminal (s : JobStatus) : bool :=
  match s with COMPLETED | FAILED | CANCELLED => true | _ => false end.

(** app/domain/enums/worker_status.py *)
Inductive WorkerStatus := STARTING | IDLE | BUSY | DRAINING | OFFLINE.

#[global] Instance WorkerStatus_eq_dec : EqDecision WorkerStatus.
Proof. solve_decision. Defined.

(** app/domain/enums/worker_management.py *)
Inductive WorkerManagement := DASHBOARD | AGENT.

#[global] Instance WorkerManagement_eq_dec : EqDecision WorkerManagement.
Proof. solve_decision. Defined.

(** * Exceptions

    One constructor per exception class the modelled code raises or catches,
    with the argument it carries where code inspects it. *)

Inductive exn :=
  | ValueError (msg : string)
  | TypeError (msg : string)
  | RuntimeError (msg : string)
  | ZeroDivisionError
  | OverflowError
  | InvalidJobTransition
  | InsufficientNodeCapacityError
  | NoAvailableNodeError
  | LeaseTenantMismatchError
  | WorkerNotFoundError (w : WorkerId)
  | WorkerJobMismatchError
  | NoActiveLeaseError (w : WorkerId)
  | LeaseNotFoundError (l : LeaseId)
  | JobNotFoundError (j : JobId)
  | NodeNotFoundError (n : NodeId)
  | NodeStillAliveError
  | JobTenantConflictError
  | NodeTenantConflictError
  | ScopeDeniedError (scope : string)
  | UnknownApiKeyScopeError (scope : string)
  | ApiKeyNotFoundError (k : ApiKeyId)
  | ApiKeyAlreadyRevokedError (k : ApiKeyId)
  | ApiKeyTenantConflictError
  | TenantNotFoundError
  | TenantAlreadyExistsError
  | InvalidApiKeyError
  | RateLimitExceededError (k : ApiKeyId)
  (* raised by the routers: the status of the response *)
  | HTTPException (status_code : Z)
  (* raised by the database driver *)
  | ForeignKeyViolation (constraint : string)
  | UniqueViolation (constraint : string)
  | NumericValueOutOfRange
  (* raised by the operating system: a supervisor that cannot be started *)
  | HostFault.

#[global] Instance exn_eq_dec : EqDecision exn.
Proof. solve_decision. Defined.

(** * Resources *)

(** app/domain/value_objects/resource_requirements.py *)
Record ResourceRequirements := mkResources {
  cpu_cores : Z;
  memory_mib : Z;
  vram_mib : Z;
}.

#[global] Instance ResourceRequirements_eq_dec : EqDecision ResourceRequirements.
Proof. solve_decision. Defined.

(** What [__post_init__] accepts. *)
Definition resources_ok (r : ResourceRequirements) : Prop :=
  0 <= cpu_cores r ∧ 0 <= memory_mib r ∧ 0 <= vram_mib r.

#[global] Instance resources_ok_dec r : Decision (resources_ok r).
Proof. unfold resources_ok. apply _. Defined.

(** The constructor: [ResourceRequirements(cpu_cores=..., ...)] *)
Definition new_resources (c m v : Z) : exn + ResourceRequirements :=
  if c <? 0 then inl (ValueError "cpu_cores cannot be negative")
  else if m <? 0 then inl (ValueError "memory_mib cannot be negative")
  else if v <? 0 then inl (ValueError "vram_mib cannot be negative")
  else inr (mkResources c m v).

(** Componentwise order and arithmetic, for stating properties. *)
Definition resources_le (a b : ResourceRequirements) : Prop :=
  cpu_cores a <= cpu_cores b ∧ memory_mib a <= memory_mib b ∧ vram_mib a <= vram_mib b.

#[global] Instance resources_le_dec a b : Decision (resources_le a b).
Proof. unfold resources_le. apply _. Defined.

Definition resources_add (a b : ResourceRequirements) : ResourceRequirements :=
  mkResources (cpu_cores a + cpu_cores b) (memory_mib a + memory_mib b) (vram_mib a + vram_mib b).

Definition resources_sub (a b : ResourceRequirements) : ResourceRequirements :=
  mkResources (cpu_cores a - cpu_cores b) (memory_mib a - memory_mib b) (vram_mib a - vram_mib b).

(** The constructor accepts exactly the bundles without a negative dimension. *)
Lemma new_resources_spec c m v :
  match new_resources c m v with
  | inr r => r = mkResources c m v ∧ resources_ok r
  | inl _ => ¬ resources_ok (mkResources c m v)
  end.
Proof.
  unfold new_resources, resources_ok. cbn.
  destruct (Z.ltb_spec c 0); [lia|]. destruct (Z.ltb_spec m 0); [lia|].
  destruct (Z.ltb_spec v 0); [lia|]. cbn. repeat split; lia.
Qed.

Lemma new_resources_ok c m v :
  0 <= c → 0 <= m → 0 <= v → new_resources c m v = inr (mkResources c m v).
Proof.
  intros. unfold new_resources.
  repeat (rewrite (proj2 (Z.ltb_ge _ _)) by lia). done.
Qed.

Lemma resources_ext a b :
  cpu_cores a = cpu_cores b → memory_mib a = memory_mib b → vram_mib a = vram_mib b → a = b.
Proof. destruct a, b; cbn. by intros -> -> ->. Qed.
