(* ===== verification/Leadership.v ===== *)
(** Which process runs the cluster tick: PostgresSchedulerLeadership
    (src/app/infrastructure/postgres_scheduler_leadership.py), the contract it
    implements (src/app/application/scheduler_leadership.py) and the leadership of
    a deployment with one process (in_memory_scheduler_leadership.py).

    A call is a sequence of requests to the database.  It is written as the tree of
    its requests and of what it does with each answer, so that the calls of many
    processes can be interleaved request by request, with connections that break
    and answers that get lost. *)
From S2P Require Import Prelude.

(** A session of the database server; a connection object is named by it. *)
Definition session := nat.

(** What a call does: its requests, each with a continuation.  [None] and [false]
    stand for a psycopg.Error. *)
Inductive calls (A : Type) :=
  | Return (a : A)
  | Connect (k : option session → calls A)
  | TryLock (c : session) (k : option bool → calls A)   (* pg_try_advisory_lock *)
  | Ping (c : session) (k : bool → calls A)             (* SELECT 1 *)
  | Unlock (c : session) (k : bool → calls A)           (* pg_advisory_unlock *)
  | Close (c : session) (k : calls A).
Arguments Return {A}.
Arguments Connect {A}.
Arguments TryLock {A}.
Arguments Ping {A}.
Arguments Unlock {A}.
Arguments Close {A}.

(** * PostgresSchedulerLeadership *)

Record leadership := mkLeadership { _connection : option session; _unreachable : bool }.

Definition new_leadership : leadership := mkLeadership None false.

Definition set_connection (c : option session) (self : leadership) : leadership :=
  mkLeadership c (_unreachable self).
Definition _note_unreachable (self : leadership) : leadership := mkLeadership (_connection self) true.
Definition _note_reachable (self : leadership) : leadership := mkLeadership (_connection self) false.

Definition _take_lock (self : leadership) : calls (leadership * bool) :=
  Connect (λ connected,
    match connected with
    | None => Return (_note_unreachable self, false)
    | Some c =>
        TryLock c (λ row,
          match row with
          | None => Close c (Return (_note_unreachable self, false))
          | Some got =>
              let self := _note_reachable self in
              if got then Return (set_connection (Some c) self, true)
              else Close c (Return (self, false))
          end)
    end).

Definition _still_connected {A} (c : session) (k : bool → calls A) : calls A := Ping c k.

Definition try_acquire (self : leadership) : calls (leadership * bool) :=
  match _connection self with
  | Some c =>
      _still_connected c (λ connected,
        if connected then Return (self, true)
        else Close c (_take_lock (set_connection None self)))
  | None => _take_lock self
  end.

(** The boolean is only there to give both calls one type. *)
Definition release (self : leadership) : calls (leadership * bool) :=
  match _connection self with
  | None => Return (self, false)
  | Some c => Unlock c (λ _, Close c (Return (set_connection None self, false)))
  end.

(** InMemorySchedulerLeadership *)
Definition in_memory_try_acquire : bool := true.

(** * Many processes and one server *)

(** The server: the sessions that are open and the one that holds the lock. *)
Record server := mkServer { sessions : gset session; holder : option session; next_session : session }.

(** A process: the object, the call under way, and the connections it has opened
    and not closed. *)
Record process := mkProcess { self : leadership; running : option (calls (leadership * bool)); opened : gset session }.

Record cluster := mkCluster { srv : server; procs : gmap nat process }.

Definition end_session (s : session) (v : server) : server :=
  mkServer (sessions v ∖ {[s]}) (if decide (holder v = Some s) then None else holder v) (next_session v).
Definition take (s : session) (v : server) : server := mkServer (sessions v) (Some s) (next_session v).
Definition free (s : session) (v : server) : server :=
  mkServer (sessions v) (if decide (holder v = Some s) then None else holder v) (next_session v).
Definition open_session (v : server) : server :=
  mkServer ({[next_session v]} ∪ sessions v) (holder v) (S (next_session v)).

(** Whether a session may take the lock: free, or held by itself. *)
Definition available (s : session) (v : server) : Prop := holder v = None ∨ holder v = Some s.

(** One request of a call, answered or not.  When the answer is lost the server may
    have acted on the request. *)
Inductive request_step : calls (leadership * bool) → gset session → server →
    calls (leadership * bool) → gset session → server → Prop :=
  | connect_ok k O v :
      request_step (Connect k) O v (k (Some (next_session v))) ({[next_session v]} ∪ O) (open_session v)
  | connect_lost k O v : request_step (Connect k) O v (k None) O v
  | connect_orphan k O v : request_step (Connect k) O v (k None) O (open_session v)
  | lock_ok c k O v : c ∈ sessions v → available c v → request_step (TryLock c k) O v (k (Some true)) O (take c v)
  | lock_refused c k O v : c ∈ sessions v → ¬ available c v → request_step (TryLock c k) O v (k (Some false)) O v
  | lock_lost c k O v : request_step (TryLock c k) O v (k None) O v
  | lock_unheard c k O v : c ∈ sessions v → available c v → request_step (TryLock c k) O v (k None) O (take c v)
  | ping_ok c k O v : c ∈ sessions v → request_step (Ping c k) O v (k true) O v
  | ping_lost c k O v : request_step (Ping c k) O v (k false) O v
  | unlock_ok c k O v : c ∈ sessions v → request_step (Unlock c k) O v (k true) O (free c v)
  | unlock_lost c k O v : request_step (Unlock c k) O v (k false) O v
  | unlock_unheard c k O v : c ∈ sessions v → request_step (Unlock c k) O v (k false) O (free c v)
  | close_ok c k O v : request_step (Close c k) O v k (O ∖ {[c]}) (end_session c v)
  | close_lost c k O v : request_step (Close c k) O v k (O ∖ {[c]}) v.

(** A process starts a call when none is under way (the guard), performs a request,
    or ends the call; a session ends at any time. *)
Inductive cluster_step : cluster → cluster → Prop :=
  | begin_acquire p a v P :
      P !! p = Some a → running a = None →
      cluster_step (mkCluster v P) (mkCluster v (<[p := mkProcess (self a) (Some (try_acquire (self a))) (opened a)]> P))
  | begin_release p a v P :
      P !! p = Some a → running a = None →
      cluster_step (mkCluster v P) (mkCluster v (<[p := mkProcess (self a) (Some (release (self a))) (opened a)]> P))
  | request p a c c' O' v v' P :
      P !! p = Some a → running a = Some c → request_step c (opened a) v c' O' v' →
      cluster_step (mkCluster v P) (mkCluster v' (<[p := mkProcess (self a) (Some c') O']> P))
  | finish p a s b v P :
      P !! p = Some a → running a = Some (Return (s, b)) →
      cluster_step (mkCluster v P) (mkCluster v (<[p := mkProcess s None (opened a)]> P))
  | session_ends s v P : cluster_step (mkCluster v P) (mkCluster (end_session s v) P).

(** Processes that have just started, before a server nobody uses. *)
Definition fresh_cluster (n : nat) : cluster :=
  mkCluster (mkServer ∅ None 0) (list_to_map ((λ p, (p, mkProcess new_leadership None ∅)) <$> seq 0 n)).

(** * The invariant *)

Definition conn_set (self : leadership) : gset session :=
  match _connection self with Some c => {[c]} | None => ∅ end.

(** A call that may go on when the connections [O] are open and every session in
    [H] that is still alive holds the lock: it ends with exactly the connection it
    keeps, that one holds the lock, and it answers true only if it keeps one. *)
Fixpoint proper (H O : gset session) (c : calls (leadership * bool)) : Prop :=
  match c with
  | Return (s, b) => O = conn_set s ∧ conn_set s ⊆ H ∧ (b = true → _connection s ≠ None)
  | Connect k => proper H O (k None) ∧ ∀ s, s ∉ O → proper H ({[s]} ∪ O) (k (Some s))
  | TryLock c k => c ∈ O ∧ proper ({[c]} ∪ H) O (k (Some true)) ∧ proper H O (k (Some false)) ∧ proper H O (k None)
  | Ping c k => proper H O (k true) ∧ proper H O (k false)
  | Unlock c k => c ∈ O ∧ proper (H ∖ {[c]}) O (k true) ∧ proper (H ∖ {[c]}) O (k false)
  | Close c k => proper (H ∖ {[c]}) (O ∖ {[c]}) k
  end.

Lemma take_lock_proper s : proper ∅ ∅ (_take_lock (set_connection None s)).
Proof.
  cbn. split; [set_solver|]. intros c _. split_and!; try set_solver.
Qed.

Lemma try_acquire_proper s : proper (conn_set s) (conn_set s) (try_acquire s).
Proof.
  unfold try_acquire, conn_set. destruct (_connection s) as [c|] eqn:Hc.
  - split; cbn -[_take_lock].
    + unfold conn_set. by rewrite Hc.
    + replace ({[c]} ∖ {[c]} : gset session) with (∅ : gset session) by set_solver. apply take_lock_proper.
  - pose proof (take_lock_proper s) as H. by destruct s; cbn in Hc; subst.
Qed.

Lemma release_proper s : proper (conn_set s) (conn_set s) (release s).
Proof.
  unfold release, conn_set. destruct (_connection s) as [c|] eqn:Hc; cbn; unfold conn_set; cbn; rewrite ?Hc;
    split_and!; set_solver.
Qed.

(** What is known of a process: the connections [H] hold the lock if they live. *)
Record process_ok (v : server) (a : process) (H : gset session) : Prop := mkProcessOk {
  po_open : H ⊆ opened a;
  po_held s : s ∈ H → s ∈ sessions v → holder v = Some s;
  po_call : match running a with
            | None => opened a = conn_set (self a) ∧ conn_set (self a) ⊆ H
            | Some c => proper H (opened a) c
            end;
}.

Record cluster_ok (C : cluster) : Prop := mkClusterOk {
  ck_procs p a : procs C !! p = Some a → ∃ H, process_ok (srv C) a H;
  ck_fresh p a s : procs C !! p = Some a → s ∈ opened a → (s < next_session (srv C))%nat;
  ck_disjoint p q a b s : procs C !! p = Some a → procs C !! q = Some b → s ∈ opened a → s ∈ opened b → p = q;
  ck_holder s : holder (srv C) = Some s → s ∈ sessions (srv C);
}.

(** Another process goes on: it may only take the lock when it is free. *)
Lemma request_keeps_others c O v c' O' v' (H : gset session) :
  request_step c O v c' O' v' → (∀ s, s ∈ H → s ∉ O) → (∀ s, s ∈ H → (s < next_session v)%nat) →
  (match c with TryLock s _ | Unlock s _ => s ∈ O | _ => True end) →
  (∀ s, s ∈ H → s ∈ sessions v → holder v = Some s) → ∀ s, s ∈ H → s ∈ sessions v' → holder v' = Some s.
Proof.
  intros Hstep Hdis Hlt Hc Hh s Hs Hal. assert (s ∉ O) as Hno by auto. assert (s < next_session v)%nat as Hs' by auto.
  assert (s ∈ sessions v → holder v = Some s) as Hs'' by auto. clear Hdis Hlt Hh H Hs.
  destruct Hstep as [k O v|k O v|k O v|c k O v Hin Hav|c k O v Hin Hav|c k O v|c k O v Hin Hav|c k O v Hin|c k O v|
    c k O v Hin|c k O v|c k O v Hin|c k O v|c k O v]; cbn in *; try by auto.
  - apply elem_of_union in Hal as [->%elem_of_singleton|Hal]; [lia|auto].
  - apply elem_of_union in Hal as [->%elem_of_singleton|Hal]; [lia|auto].
  - specialize (Hs'' Hal). destruct Hav; congruence.
  - specialize (Hs'' Hal). destruct Hav; congruence.
  - specialize (Hs'' Hal). rewrite decide_False; [done|congruence].
  - specialize (Hs'' Hal). rewrite decide_False; [done|congruence].
  - apply elem_of_difference in Hal as [Hal Hne]. specialize (Hs'' Hal). rewrite decide_False; [done|set_solver].
Qed.

(** The process itself: its call stays proper, and what it counts on holds. *)
Lemma request_keeps_own c O v c' O' v' H :
  request_step c O v c' O' v' → proper H O c → H ⊆ O → (∀ s, s ∈ O → (s < next_session v)%nat) →
  (∀ s, s ∈ H → s ∈ sessions v → holder v = Some s) →
  ∃ H', proper H' O' c' ∧ H' ⊆ O' ∧ ∀ s, s ∈ H' → s ∈ sessions v' → holder v' = Some s.
Proof.
  intros Hstep Hp HO Hlt Hh.
  destruct Hstep as [k O v|k O v|k O v|c k O v Hin Hav|c k O v Hin Hav|c k O v|c k O v Hin Hav|c k O v Hin|c k O v|
    c k O v Hin|c k O v|c k O v Hin|c k O v|c k O v]; cbn in Hp.
  - exists H. split_and!; [apply Hp; intros Hn%Hlt; lia|set_solver|]. cbn. intros s Hs Hal. apply Hh; [done|].
    apply HO, Hlt in Hs. set_unfold. destruct Hal; [lia|done].
  - exists H. by split_and!; [apply Hp|..].
  - exists H. split_and!; [apply Hp|done|]. cbn. intros s Hs Hal. apply Hh; [done|].
    apply HO, Hlt in Hs. set_unfold. destruct Hal; [lia|done].
  - exists ({[c]} ∪ H). destruct Hp as (Hc & Hp & _). split_and!; [done|set_solver|]. cbn. intros s Hs Hal.
    destruct (decide (s = c)) as [->|Hne]; [done|]. assert (holder v = Some s) by set_solver. destruct Hav; congruence.
  - exists H. by split_and!; [apply Hp|..].
  - exists H. by split_and!; [apply Hp|..].
  - exists H. destruct Hp as (Hc & _ & _ & Hp). split_and!; [done|done|]. cbn. intros s Hs Hal.
    specialize (Hh s Hs Hal). destruct Hav; congruence.
  - exists H. by split_and!; [apply Hp|..].
  - exists H. by split_and!; [apply Hp|..].
  - exists (H ∖ {[c]}). destruct Hp as (Hc & Hp & _). split_and!; [done|set_solver|]. cbn. intros s Hs Hal.
    rewrite decide_False; set_solver.
  - exists (H ∖ {[c]}). destruct Hp as (Hc & _ & Hp). split_and!; [done|set_solver|]. set_solver.
  - exists (H ∖ {[c]}). destruct Hp as (Hc & _ & Hp). split_and!; [done|set_solver|]. cbn. intros s Hs Hal.
    rewrite decide_False; set_solver.
  - exists (H ∖ {[c]}). split_and!; [done|set_solver|]. cbn. intros s Hs Hal.
    rewrite decide_False; set_solver.
  - exists (H ∖ {[c]}). split_and!; [done|set_solver|]. set_solver.
Qed.

(** What a request does to the sets the invariant speaks of. *)
Lemma request_opened c O v c' O' v' s :
  request_step c O v c' O' v' → s ∈ O' → s ∈ O ∨ (s = next_session v ∧ next_session v' = S (next_session v)).
Proof. destruct 1; cbn; set_solver. Qed.

Lemma request_next c O v c' O' v' : request_step c O v c' O' v' → (next_session v ≤ next_session v')%nat.
Proof. destruct 1; cbn; lia. Qed.

Lemma request_holder c O v c' O' v' :
  request_step c O v c' O' v' → (∀ s, holder v = Some s → s ∈ sessions v) → ∀ s, holder v' = Some s → s ∈ sessions v'.
Proof.
  intros Hstep Hv s. destruct Hstep; cbn; try (by apply Hv); try (by intros [= <-]); try (by case_decide; [|apply Hv]).
  - intros Hs%Hv. set_solver.
  - intros Hs%Hv. set_solver.
  - case_decide; [done|]. intros Hs. assert (s ∈ sessions v) by auto. set_solver.
Qed.

Lemma proper_own H O c :
  proper H O c → match c with TryLock s _ | Unlock s _ => s ∈ O | _ => True end.
Proof. destruct c; cbn; naive_solver. Qed.

(** A process changes its mind, not its connections. *)
Lemma cluster_ok_local v P p a a' H :
  cluster_ok (mkCluster v P) → P !! p = Some a → opened a' = opened a → process_ok v a' H →
  cluster_ok (mkCluster v (<[p := a']> P)).
Proof.
  intros [Hp Hf Hd Hh] Ha Eo Hok. split; cbn in *; [| | |done]; intros *; rewrite !lookup_insert.
  - case_decide; [|apply Hp]. intros [= <-]. by exists H.
  - case_decide; [|apply Hf]. intros [= <-]. rewrite Eo. by eapply Hf.
  - repeat case_decide; subst; intros; simplify_eq; rewrite ?Eo in *; eauto.
Qed.

Lemma cluster_ok_request v v' P p a c c' O' :
  cluster_ok (mkCluster v P) → P !! p = Some a → running a = Some c → request_step c (opened a) v c' O' v' →
  cluster_ok (mkCluster v' (<[p := mkProcess (self a) (Some c') O']> P)).
Proof.
  intros [Hp Hf Hd Hh] Ha Hr Hreq. cbn in *.
  destruct (Hp p a Ha) as [H [Hop Hheld Hcall]]. rewrite Hr in Hcall.
  pose proof (request_next _ _ _ _ _ _ Hreq) as Hnext.
  assert (∀ s, s ∈ O' → (s < next_session v')%nat ∧ (s ∈ opened a ∨ s = next_session v)) as HO'.
  { intros s Hs. destruct (request_opened _ _ _ _ _ _ s Hreq Hs) as [Ho|[-> E]]; [|split; [lia|by right]].
    apply (Hf p a) in Ho as Ho'; [|done]. split; [lia|by left]. }
  split; cbn; [| | |by eapply request_holder]; intros *; rewrite !lookup_insert.
  - case_decide; subst.
    + intros [= <-]. destruct (request_keeps_own _ _ _ _ _ _ H Hreq) as (H' & ? & ? & ?); eauto. by exists H'.
    + intros Hb. destruct (Hp _ _ Hb) as [Hb' [Hop' Hheld' Hcall']]. exists Hb'. split; [done| |done].
      eapply (request_keeps_others _ _ _ _ _ _ Hb' Hreq); [|naive_solver|by eapply proper_own|done].
      intros s Hs Hs'. apply Hop' in Hs. by assert (p = p0) by eauto.
  - case_decide; [intros [= <-] ?; by apply HO'|]. intros Hb Hs. specialize (Hf _ _ _ Hb Hs). lia.
  - repeat case_decide; subst; intros; simplify_eq/=; try done; eauto.
    + destruct (HO' s) as [_ [Hs| ->]]; [done|eauto|]. specialize (Hf _ _ _ H2 H4). lia.
    + destruct (HO' s) as [_ [Hs| ->]]; [done|eauto|]. specialize (Hf _ _ _ H1 H3). lia.
Qed.

Lemma cluster_ok_end s v P : cluster_ok (mkCluster v P) → cluster_ok (mkCluster (end_session s v) P).
Proof.
  intros [Hp Hf Hd Hh]. split; cbn in *; [|done|done|].
  - intros p a Ha. destruct (Hp p a Ha) as [H [Hop Hheld Hcall]]. exists H. split; [done| |done].
    cbn. intros s' Hs' [Hal Hne]%elem_of_difference. specialize (Hheld s' Hs' Hal).
    rewrite decide_False; [done|]. rewrite Hheld. set_solver.
  - intros s'. case_decide; [done|]. intros E. assert (s' ∈ sessions v) by auto. set_solver.
Qed.

Lemma cluster_step_ok C C' : cluster_step C C' → cluster_ok C → cluster_ok C'.
Proof.
  intros Hstep Hok.
  destruct Hstep as [p a v P Ha Hr|p a v P Ha Hr|p a c c' O' v v' P Ha Hr Hreq|p a s b v P Ha Hr|s v P].
  - destruct (ck_procs _ Hok p a Ha) as [H [Hop Hheld Hcall]]. rewrite Hr in Hcall. destruct Hcall as [Eo Hsub].
    eapply (cluster_ok_local _ _ _ _ _ (conn_set (self a))); [done..|].
    split; cbn; [set_solver|set_solver|]. rewrite Eo. apply try_acquire_proper.
  - destruct (ck_procs _ Hok p a Ha) as [H [Hop Hheld Hcall]]. rewrite Hr in Hcall. destruct Hcall as [Eo Hsub].
    eapply (cluster_ok_local _ _ _ _ _ (conn_set (self a))); [done..|].
    split; cbn; [set_solver|set_solver|]. rewrite Eo. apply release_proper.
  - by eapply cluster_ok_request.
  - destruct (ck_procs _ Hok p a Ha) as [H [Hop Hheld Hcall]]. rewrite Hr in Hcall. destruct Hcall as (Eo & Hsub & _).
    by eapply (cluster_ok_local _ _ _ _ _ H).
  - by apply cluster_ok_end.
Qed.

Lemma fresh_cluster_ok n : cluster_ok (fresh_cluster n).
Proof.
  assert (∀ p a, procs (fresh_cluster n) !! p = Some a → a = mkProcess new_leadership None ∅) as Hn.
  { intros p a Ha%elem_of_list_to_map_2. by apply list_elem_of_fmap in Ha as (q & [= -> ->] & _). }
  split; cbn; [|intros * ->%Hn; set_solver|intros * ->%Hn; set_solver|done].
  intros p a ->%Hn. exists ∅. by split.
Qed.

Lemma reachable_ok n C : rtc cluster_step (fresh_cluster n) C → cluster_ok C.
Proof.
  intros HC. cut (cluster_ok (fresh_cluster n) → cluster_ok C); [intros H; apply H, fresh_cluster_ok|].
  induction HC as [|C C1 C2 Hstep _ IH]; [done|]. intros H. by eapply IH, cluster_step_ok.
Qed.

(** * A database that answers *)

#[global] Instance available_dec s v : Decision (available s v).
Proof. unfold available. apply _. Defined.

(** Run a call against a server that answers every request; a request on a session
    that has ended fails. *)
Fixpoint answered (c : calls (leadership * bool)) (Os : gset session) (v : server) :
    (leadership * bool) * gset session * server :=
  match c with
  | Return r => (r, Os, v)
  | Connect k => answered (k (Some (next_session v))) ({[next_session v]} ∪ Os) (open_session v)
  | TryLock c k =>
      if decide (c ∈ sessions v) then
        if decide (available c v) then answered (k (Some true)) Os (take c v) else answered (k (Some false)) Os v
      else answered (k None) Os v
  | Ping c k => answered (k (bool_decide (c ∈ sessions v))) Os v
  | Unlock c k => if decide (c ∈ sessions v) then answered (k true) Os (free c v) else answered (k false) Os v
  | Close c k => answered k (Os ∖ {[c]}) (end_session c v)
  end.

(** Such a run is one of the runs of the cluster. *)
Definition reaches (c : calls (leadership * bool)) (Os : gset session) (v : server) (out : (leadership * bool) * gset session * server) : Prop :=
  ∀ P p s, P !! p = Some (mkProcess s (Some c) Os) →
    rtc cluster_step (mkCluster v P) (mkCluster (out.2) (<[p := mkProcess s (Some (Return out.1.1)) out.1.2]> P)).

Lemma reaches_step c Os v c1 O1 v1 out : request_step c Os v c1 O1 v1 → reaches c1 O1 v1 out → reaches c Os v out.
Proof.
  intros Hstep Hrest P p s Hp. eapply rtc_l; [by eapply (request p)|]. cbn.
  specialize (Hrest (<[p := mkProcess s (Some c1) O1]> P) p s (lookup_insert_eq _ _ _)).
  by rewrite insert_insert_eq in Hrest.
Qed.

Lemma answered_reaches c Os v : reaches c Os v (answered c Os v).
Proof.
  revert Os v. induction c as [r|k IH|c k IH|c k IH|c k IH|c k IH]; intros Os v; cbn.
  - intros P p s Hp. by rewrite insert_id.
  - eapply reaches_step; [constructor|apply IH].
  - repeat case_decide; (eapply reaches_step; [|apply IH]); by constructor.
  - case_bool_decide; (eapply reaches_step; [|apply IH]); by constructor.
  - case_decide; (eapply reaches_step; [|apply IH]); by constructor.
  - eapply reaches_step; [constructor|apply IH].
Qed.

(** One whole call of a process. *)
Lemma acquire_reaches v P p s Os :
  P !! p = Some (mkProcess s None Os) →
  let out := answered (try_acquire s) Os v in
  rtc cluster_step (mkCluster v P) (mkCluster (out.2) (<[p := mkProcess (out.1.1.1) None out.1.2]> P)).
Proof.
  intros Hp out. eapply rtc_l; [by eapply (begin_acquire p)|]. cbn. eapply rtc_r.
  - eapply (answered_reaches (try_acquire s) Os v). apply lookup_insert_eq.
  - fold out. rewrite insert_insert_eq.
    pose proof (finish p (mkProcess s (Some (Return out.1.1)) out.1.2) (out.1.1.1) (out.1.1.2) (out.2)
      (<[p := mkProcess s (Some (Return out.1.1)) out.1.2]> P) (lookup_insert_eq _ _ _)) as H.
    rewrite insert_insert_eq in H. apply H. cbn. by destruct (out.1.1).
Qed.

(** Asking for the lock on a new connection. *)
Lemma take_lock_free s v :
  holder v = None →
  answered (_take_lock s) ∅ v =
    (mkLeadership (Some (next_session v)) false, true, {[next_session v]}, take (next_session v) (open_session v)).
Proof.
  intros Hv. cbn. rewrite (decide_True (P := _ ∈ _)) by set_solver.
  rewrite decide_True by (by left). by rewrite union_empty_r_L.
Qed.

Lemma take_lock_taken s v h :
  holder v = Some h → h ≠ next_session v →
  answered (_take_lock s) ∅ v =
    (mkLeadership (_connection s) false, false, ∅, end_session (next_session v) (open_session v)).
Proof.
  intros Hv Hne. cbn. rewrite (decide_True (P := _ ∈ _)) by set_solver.
  rewrite decide_False by (intros [E|E]; cbn in E; congruence).
  by replace (({[next_session v]} ∪ ∅) ∖ {[next_session v]} : gset session) with (∅ : gset session) by set_solver.
Qed.

Lemma release_held s c v :
  _connection s = Some c → c ∈ sessions v →
  answered (release s) {[c]} v = (set_connection None s, false, ∅, end_session c (free c v)).
Proof.
  intros Hs Hc. unfold release. rewrite Hs. cbn. rewrite (decide_True (P := _ ∈ _)) by done.
  by replace ({[c]} ∖ {[c]} : gset session) with (∅ : gset session) by set_solver.
Qed.

(** * Theorems *)

(** C26: At most one leader.  However the calls of any number of processes
    interleave, whichever connections break and whichever answers are lost, no two
    processes hold a connection that is still alive at the server: a process that
    keeps one holds the advisory lock with it.  A call of [try_acquire] that answers
    true keeps a connection, and no process keeps a connection it has forgotten. *)
Theorem one_leader n C p q a b :
  rtc cluster_step (fresh_cluster n) C → procs C !! p = Some a → procs C !! q = Some b →
  (∀ s s', _connection (self a) = Some s → running a = None → s ∈ sessions (srv C) →
     _connection (self b) = Some s' → running b = None → s' ∈ sessions (srv C) → p = q) ∧
  (∀ s', running a = Some (Return (s', true)) → ∃ c, _connection s' = Some c ∧ (c ∈ sessions (srv C) → holder (srv C) = Some c)) ∧
  (running a = None → opened a = conn_set (self a)).
Proof.
  intros [Hp Hf Hd Hh]%reachable_ok Ha Hb.
  destruct (Hp p a Ha) as [H [Hop Hheld Hcall]], (Hp q b Hb) as [H' [Hop' Hheld' Hcall']]. split_and!.
  - intros s s' Hs Hra Hal Hs' Hrb Hal'. rewrite Hra in Hcall. rewrite Hrb in Hcall'. unfold conn_set in *.
    rewrite Hs in Hcall. rewrite Hs' in Hcall'. destruct Hcall as [Eo Hsub], Hcall' as [Eo' Hsub'].
    assert (s = s') as <-.
    { assert (holder (srv C) = Some s) by set_solver. assert (holder (srv C) = Some s') by set_solver. congruence. }
    eapply (Hd p q a b s); set_solver.
  - intros s' Hr. rewrite Hr in Hcall. destruct Hcall as (Eo & Hsub & Hc). unfold conn_set in *.
    destruct (_connection s') as [c|]; [|by destruct Hc]. exists c. set_solver.
  - intros Hr. rewrite Hr in Hcall. apply Hcall.
Qed.

(** Two processes of which the first has asked for leadership, then the second. *)
Definition elected_cluster : cluster :=
  let one := answered (try_acquire new_leadership) ∅ (srv (fresh_cluster 2)) in
  let two := answered (try_acquire new_leadership) ∅ (one.2) in
  mkCluster (two.2) (<[1 := mkProcess (two.1.1.1) None two.1.2]> (<[0 := mkProcess (one.1.1.1) None one.1.2]> (procs (fresh_cluster 2)))).

Lemma one_leader_witness :
  (_connection <$> (self <$> procs elected_cluster !! 0) = Some (Some 0) ∧
   _connection <$> (self <$> procs elected_cluster !! 1) = Some None) ∧
  ∀ a b, procs elected_cluster !! 0 = Some a → procs elected_cluster !! 1 = Some b → opened a = conn_set (self a).
Proof.
  split; [split; vm_compute; reflexivity|]. intros a b Ha Hb.
  apply (one_leader 2 elected_cluster 0 1 a b); [|exact Ha|exact Hb|].
  - etransitivity; [apply (acquire_reaches _ _ 0 new_leadership ∅); reflexivity|].
    apply (acquire_reaches _ _ 1 new_leadership ∅). reflexivity.
  - vm_compute in Ha. injection Ha as <-. reflexivity.
Defined.

(** Leadership changes hands cleanly.  Against a database that answers, a
    process that asks for the free lock leads, and asking again it keeps leading
    with the same connection; a second process that asks meanwhile is told it does
    not lead and leaves nothing open; once the first has released the lock,
    or once its session has ended, the second gets it when it asks next. *)
Theorem leadership_handover v s1 s2 :
  holder v = None → _connection s1 = None → _connection s2 = None →
  ∃ c s1' v1,
    answered (try_acquire s1) ∅ v = (s1', true, {[c]}, v1) ∧ _connection s1' = Some c ∧
    answered (try_acquire s1') {[c]} v1 = (s1', true, {[c]}, v1) ∧
    ∃ s2' v2, answered (try_acquire s2) ∅ v1 = (s2', false, ∅, v2) ∧ _connection s2' = None ∧
      (let '(s1'', _, O1, v3) := answered (release s1') {[c]} v2 in
       _connection s1'' = None ∧ O1 = ∅ ∧ ∃ s2'' c' v4, answered (try_acquire s2') ∅ v3 = (s2'', true, {[c']}, v4)) ∧
      ∃ s2'' c' v4, answered (try_acquire s2') ∅ (end_session c v2) = (s2'', true, {[c']}, v4).
Proof.
  intros Hv H1 H2. set (c := next_session v).
  assert (∀ s w, _connection s = None → holder w = None → ∃ s' c' w', answered (try_acquire s) ∅ w = (s', true, {[c']}, w')) as Hget.
  { intros s w Hs Hw. unfold try_acquire. rewrite Hs, (take_lock_free _ _ Hw). eauto. }
  exists c, (mkLeadership (Some c) false), (take c (open_session v)).
  split; [unfold try_acquire; by rewrite H1, take_lock_free|]. split; [done|]. split.
  { cbn. by rewrite bool_decide_eq_true_2 by set_solver. }
  exists (mkLeadership None false), (end_session (S c) (open_session (take c (open_session v)))).
  split; [|split; [done|split]].
  - unfold try_acquire. rewrite H2. rewrite (take_lock_taken _ _ c); [by rewrite H2|done|cbn; lia].
  - rewrite release_held; [|done|cbn; assert (c ≠ S c) by lia; set_solver].
    split_and!; [done|done|]. apply Hget; [done|]. cbn. repeat case_decide; naive_solver.
  - apply Hget; [done|]. cbn. repeat case_decide; naive_solver.
Qed.

Lemma leadership_handover_witness :
  ∃ c s v1, answered (try_acquire new_leadership) ∅ (mkServer ∅ None 0) = (s, true, {[c]}, v1) ∧ _connection s = Some c.
Proof.
  destruct (leadership_handover (mkServer ∅ None 0) new_leadership new_leadership eq_refl eq_refl eq_refl)
    as (c & s & v1 & H1 & H2 & _).
  exists c, s, v1. split; [exact H1|exact H2].
Defined.
