(* ===== verification/Job.v ===== *)
(** The [Job] aggregate and its state machine (src/app/domain/entities/job.py),
    and the [JobLifecycle] domain service.

    A method that mutates the job is a computation on the job object: it returns
    the object it leaves behind and either [None] of Python or the exception.
    Several methods assign fields before they check the transition, so a refused
    call leaves those fields changed; the model keeps that. *)
From S2P Require Import Prelude Values.
Local Open Scope Z_scope.

Definition DEFAULT_EXECUTION_TIMEOUT : timedelta := hours 1.

Record job := mkJob {
  j_id : JobId;
  j_resources : ResourceRequirements;
  j_tenant_id : TenantId;
  j_priority : Z;
  j_constraints : gmap string string;
  j_max_retries : Z;
  j_retry_count : Z;
  j_execution_timeout : timedelta;
  j_status : JobStatus;
  j_assigned_node_id : option NodeId;
  j_submitted_at : datetime;
  j_started_at : option datetime;
  j_completed_at : option datetime;
  j_cancellation_requested_at : option datetime;
  j_command : option (list string);
  j_exit_code : option Z;
}.

#[global] Instance job_eq_dec : EqDecision job.
Proof. solve_decision. Defined.

(** Field assignments. *)
Definition set_status (s : JobStatus) (j : job) : job :=
  mkJob (j_id j) (j_resources j) (j_tenant_id j) (j_priority j) (j_constraints j)
    (j_max_retries j) (j_retry_count j) (j_execution_timeout j) s (j_assigned_node_id j)
    (j_submitted_at j) (j_started_at j) (j_completed_at j) (j_cancellation_requested_at j)
    (j_command j) (j_exit_code j).
Definition set_retry_count (n : Z) (j : job) : job :=
  mkJob (j_id j) (j_resources j) (j_tenant_id j) (j_priority j) (j_constraints j)
    (j_max_retries j) n (j_execution_timeout j) (j_status j) (j_assigned_node_id j)
    (j_submitted_at j) (j_started_at j) (j_completed_at j) (j_cancellation_requested_at j)
    (j_command j) (j_exit_code j).
Definition set_assigned_node_id (n : option NodeId) (j : job) : job :=
  mkJob (j_id j) (j_resources j) (j_tenant_id j) (j_priority j) (j_constraints j)
    (j_max_retries j) (j_retry_count j) (j_execution_timeout j) (j_status j) n
    (j_submitted_at j) (j_started_at j) (j_completed_at j) (j_cancellation_requested_at j)
    (j_command j) (j_exit_code j).
Definition set_started_at (t : option datetime) (j : job) : job :=
  mkJob (j_id j) (j_resources j) (j_tenant_id j) (j_priority j) (j_constraints j)
    (j_max_retries j) (j_retry_count j) (j_execution_timeout j) (j_status j) (j_assigned_node_id j)
    (j_submitted_at j) t (j_completed_at j) (j_cancellation_requested_at j)
    (j_command j) (j_exit_code j).
Definition set_completed_at (t : option datetime) (j : job) : job :=
  mkJob (j_id j) (j_resources j) (j_tenant_id j) (j_priority j) (j_constraints j)
    (j_max_retries j) (j_retry_count j) (j_execution_timeout j) (j_status j) (j_assigned_node_id j)
    (j_submitted_at j) (j_started_at j) t (j_cancellation_requested_at j)
    (j_command j) (j_exit_code j).
Definition set_cancellation_requested_at (t : option datetime) (j : job) : job :=
  mkJob (j_id j) (j_resources j) (j_tenant_id j) (j_priority j) (j_constraints j)
    (j_max_retries j) (j_retry_count j) (j_execution_timeout j) (j_status j) (j_assigned_node_id j)
    (j_submitted_at j) (j_started_at j) (j_completed_at j) t
    (j_command j) (j_exit_code j).
Definition set_exit_code (c : option Z) (j : job) : job :=
  mkJob (j_id j) (j_resources j) (j_tenant_id j) (j_priority j) (j_constraints j)
    (j_max_retries j) (j_retry_count j) (j_execution_timeout j) (j_status j) (j_assigned_node_id j)
    (j_submitted_at j) (j_started_at j) (j_completed_at j) (j_cancellation_requested_at j)
    (j_command j) c.

Abbreviation jobM := (stM job exn).

(** * Construction *)

(** [Job(id=..., resources=..., tenant_id=..., command=...)], every other field
    at its default; [now] is the [submitted_at] default. *)
Definition new_job (id : JobId) (resources : ResourceRequirements) (tenant_id : TenantId)
    (command : option (list string)) (now : datetime) : exn + job :=
  if cpu_cores resources <=? 0 then inl (ValueError "Job must request at least one CPU core.")
  else if memory_mib resources <=? 0
  then inl (ValueError "Job must request a positive amount of memory.")
  else inr (mkJob id resources tenant_id 0 ∅ 0 0 DEFAULT_EXECUTION_TIMEOUT SUBMITTED None
              now None None None command None).

(** [__post_init__], run by every constructor call, also when a row is loaded. *)
Definition job_post_init (j : job) : exn + job :=
  if cpu_cores (j_resources j) <=? 0
  then inl (ValueError "Job must request at least one CPU core.")
  else if memory_mib (j_resources j) <=? 0
  then inl (ValueError "Job must request a positive amount of memory.")
  else inr j.

(** * Transitions *)

Definition _ALLOWED_TRANSITIONS (s : JobStatus) : list JobStatus :=
  match s with
  | SUBMITTED => [QUEUED]
  | QUEUED => [SCHEDULED; CANCELLED]
  | SCHEDULED => [RUNNING; CANCELLED; QUEUED; FAILED]
  | RUNNING => [COMPLETED; FAILED; QUEUED; CANCELLING]
  | CANCELLING => [COMPLETED; FAILED; CANCELLED]
  | COMPLETED => []
  | FAILED => [QUEUED]
  | CANCELLED => []
  end.

Definition allowed (s s' : JobStatus) : bool := bool_decide (s' ∈ _ALLOWED_TRANSITIONS s).

Definition _transition_to (new_status : JobStatus) : jobM unit :=
  st ← gets j_status;
  if allowed st new_status then modify (set_status new_status)
  else raise InvalidJobTransition.

(** * Queries *)

Definition is_submitted (j : job) : bool := bool_decide (j_status j = SUBMITTED).
Definition is_queued (j : job) : bool := bool_decide (j_status j = QUEUED).
Definition is_scheduled (j : job) : bool := bool_decide (j_status j = SCHEDULED).
Definition is_running (j : job) : bool := bool_decide (j_status j = RUNNING).
Definition is_completed (j : job) : bool := bool_decide (j_status j = COMPLETED).
Definition is_failed (j : job) : bool := bool_decide (j_status j = FAILED).
Definition is_cancelled (j : job) : bool := bool_decide (j_status j = CANCELLED).
Definition is_cancelling (j : job) : bool := bool_decide (j_status j = CANCELLING).

Definition has_timed_out (now : datetime) (j : job) : bool :=
  match j_started_at j with
  | None => false
  | Some t => j_execution_timeout j <=? now - t
  end.

Definition can_retry (j : job) : bool := j_retry_count j <? j_max_retries j.

(** * Commands; [now] is the reading of [utc_now] the method makes *)

Definition queue : jobM unit := _transition_to QUEUED.

Definition assign_to (node_id : NodeId) : jobM unit :=
  modify (set_assigned_node_id (Some node_id)) ;;
  _transition_to SCHEDULED.

Definition unschedule : jobM unit :=
  sched ← gets is_scheduled;
  if negb sched then raise InvalidJobTransition else
  modify (set_assigned_node_id None) ;;
  _transition_to QUEUED.

Definition start (now : datetime) : jobM unit :=
  modify (set_started_at (Some now)) ;;
  _transition_to RUNNING.

Definition complete (exit_code : option Z) (now : datetime) : jobM unit :=
  modify (set_completed_at (Some now)) ;;
  modify (set_exit_code exit_code) ;;
  _transition_to COMPLETED.

Definition fail (exit_code : option Z) (now : datetime) : jobM unit :=
  modify (set_completed_at (Some now)) ;;
  modify (set_exit_code exit_code) ;;
  _transition_to FAILED.

Definition cancel : jobM unit := _transition_to CANCELLED.

Definition request_cancellation (now : datetime) : jobM unit :=
  modify (set_cancellation_requested_at (Some now)) ;;
  _transition_to CANCELLING.

Definition confirm_cancelled (exit_code : option Z) (now : datetime) : jobM unit :=
  modify (set_completed_at (Some now)) ;;
  modify (set_exit_code exit_code) ;;
  _transition_to CANCELLED.

Definition record_retry : jobM unit :=
  can ← gets can_retry;
  if negb can then raise (ValueError "Job has exhausted all retries.") else
  modify (λ j, set_retry_count (j_retry_count j + 1) j).

Definition retry : jobM unit :=
  failed ← gets is_failed;
  if negb failed then raise InvalidJobTransition else
  record_retry ;;
  modify (set_assigned_node_id None) ;;
  modify (set_started_at None) ;;
  modify (set_completed_at None) ;;
  modify (set_exit_code None) ;;
  modify (set_cancellation_requested_at None) ;;
  _transition_to QUEUED.

Definition reclaim (now : datetime) : jobM unit :=
  cancelling ← gets is_cancelling;
  if (cancelling : bool) then
    modify (set_assigned_node_id None) ;;
    modify (set_completed_at (Some now)) ;;
    _transition_to CANCELLED
  else
  held ← gets (λ j, is_scheduled j || is_running j);
  if negb held then raise InvalidJobTransition else
  can ← gets can_retry;
  if negb can then
    modify (set_assigned_node_id None) ;;
    modify (set_completed_at (Some now)) ;;
    _transition_to FAILED
  else
  record_retry ;;
  modify (set_assigned_node_id None) ;;
  modify (set_started_at None) ;;
  modify (set_completed_at None) ;;
  modify (set_exit_code None) ;;
  _transition_to QUEUED.

(** * Lifecycle service (app/domain/services/job_lifecycle.py) *)
Module JobLifecycle.
Definition queue : jobM unit := Job.queue.
Definition schedule (node_id : NodeId) : jobM unit := Job.assign_to node_id.
Definition unschedule : jobM unit := Job.unschedule.
Definition start (now : datetime) : jobM unit := Job.start now.
Definition complete (now : datetime) : jobM unit := Job.complete None now.
Definition fail (now : datetime) : jobM unit := Job.fail None now.
Definition retry : jobM unit := Job.retry.
End JobLifecycle.

(** * The methods as one alphabet of operations *)

Inductive job_op :=
  | OpQueue
  | OpAssign (n : NodeId)
  | OpUnschedule
  | OpStart (now : datetime)
  | OpComplete (code : option Z) (now : datetime)
  | OpFail (code : option Z) (now : datetime)
  | OpCancel
  | OpRequestCancellation (now : datetime)
  | OpConfirmCancelled (code : option Z) (now : datetime)
  | OpRetry
  | OpReclaim (now : datetime).

Definition run_op (op : job_op) : jobM unit :=
  match op with
  | OpQueue => queue
  | OpAssign n => assign_to n
  | OpUnschedule => unschedule
  | OpStart now => start now
  | OpComplete code now => complete code now
  | OpFail code now => fail code now
  | OpCancel => cancel
  | OpRequestCancellation now => request_cancellation now
  | OpConfirmCancelled code now => confirm_cancelled code now
  | OpRetry => retry
  | OpReclaim now => reclaim now
  end.

(** The fields no method ever assigns. *)
Definition same_identity (j j' : job) : Prop :=
  j_id j' = j_id j ∧ j_resources j' = j_resources j ∧ j_tenant_id j' = j_tenant_id j ∧
  j_priority j' = j_priority j ∧ j_constraints j' = j_constraints j ∧
  j_max_retries j' = j_max_retries j ∧ j_execution_timeout j' = j_execution_timeout j ∧
  j_submitted_at j' = j_submitted_at j ∧ j_command j' = j_command j.

#[global] Instance same_identity_preorder : PreOrder same_identity.
Proof. split; unfold same_identity; [done|]. intros x y z ??. destruct_and!. by repeat split; etrans. Qed.

Ltac job_unfold :=
  unfold run_op, queue, assign_to, unschedule, start, complete, fail, cancel,
    request_cancellation, confirm_cancelled, retry, reclaim, record_retry, _transition_to,
    is_scheduled, is_running, is_failed, is_cancelling, can_retry, allowed in *;
  stM_unfold.

(** Evaluate a method on a job by cases on its status and its retry budget. *)
Ltac job_cases j :=
  let maxr := fresh "maxr" in let rc := fresh "rc" in let st := fresh "st" in
  destruct j as [? ? ? ? ? maxr rc ? st ? ? ? ? ? ? ?]; destruct st; cbn;
  eval_closed_decisions; cbn; eval_closed_decisions; cbn;
  let Hrc := fresh "Hrc" in
  destruct (rc <? maxr) eqn:Hrc;
  [apply Z.ltb_lt in Hrc as Hrc' | apply Z.ltb_ge in Hrc as Hrc'];
  repeat (first [progress cbn | progress eval_closed_decisions | rewrite Hrc]).

(** Every method either raises and keeps the status, or moves it along an edge
    of [_ALLOWED_TRANSITIONS]; no method touches the identity of the job. *)
Lemma run_op_sound op j :
  let '(j', r) := run_op op j in
  same_identity j j' ∧
  match r with
  | inr _ => allowed (j_status j) (j_status j') = true
  | inl _ => j_status j' = j_status j
  end.
Proof. destruct op; job_unfold; job_cases j; done. Qed.

(** What is raised: [InvalidJobTransition], or the exhausted-retries error of
    [retry]. *)
Lemma run_op_raises op j j' e :
  run_op op j = (j', inl e) →
  e = InvalidJobTransition ∨ (op = OpRetry ∧ e = ValueError "Job has exhausted all retries.").
Proof. destruct op; job_unfold; job_cases j; naive_solver. Qed.

(** * Well-formedness

    The fields agree with the status.  A queued job is on no node and carries
    nothing of an earlier attempt; a started job has its start time; a finished
    one its completion time; a cancellation request is on record exactly when
    the job is CANCELLING or has been. *)

Definition retries_ok (j : job) : Prop :=
  0 <= j_retry_count j ∧ j_retry_count j <= Z.max 0 (j_max_retries j).

Definition fields_ok (j : job) : Prop :=
  match j_status j with
  | SUBMITTED | QUEUED =>
      j_assigned_node_id j = None ∧ j_started_at j = None ∧ j_completed_at j = None ∧
      j_exit_code j = None ∧ j_cancellation_requested_at j = None
  | SCHEDULED =>
      j_started_at j = None ∧ j_completed_at j = None ∧
      j_exit_code j = None ∧ j_cancellation_requested_at j = None
  | RUNNING =>
      is_Some (j_started_at j) ∧ j_completed_at j = None ∧
      j_exit_code j = None ∧ j_cancellation_requested_at j = None
  | CANCELLING =>
      is_Some (j_started_at j) ∧ j_completed_at j = None ∧
      j_exit_code j = None ∧ is_Some (j_cancellation_requested_at j)
  | COMPLETED => is_Some (j_started_at j) ∧ is_Some (j_completed_at j)
  | FAILED => is_Some (j_completed_at j)
  | CANCELLED => is_Some (j_started_at j) → is_Some (j_completed_at j)
  end.

Definition job_wf (j : job) : Prop :=
  0 < cpu_cores (j_resources j) ∧ 0 < memory_mib (j_resources j) ∧
  0 <= vram_mib (j_resources j) ∧ retries_ok j ∧ fields_ok j.

(** [queue] is a bare transition: on a job that already ran it would requeue it
    without consuming a retry.  [cancel] on a CANCELLING job would finalise it
    without a completion time.  The services call the first on a new job only and
    guard the second ([CancelJobService]). *)
Definition op_in_use (op : job_op) (j : job) : Prop :=
  (op = OpQueue → j_status j = SUBMITTED) ∧ (op = OpCancel → j_status j ≠ CANCELLING).

Lemma new_job_wf id r t c now j :
  resources_ok r → new_job id r t c now = inr j → job_wf j ∧ j_status j = SUBMITTED.
Proof.
  unfold new_job, resources_ok, job_wf, retries_ok, fields_ok. intros Hr.
  destruct (Z.leb_spec (cpu_cores r) 0); [done|].
  destruct (Z.leb_spec (memory_mib r) 0); [done|]. intros [= <-]. cbn. repeat split; lia.
Qed.

Lemma run_op_wf op j j' :
  job_wf j → op_in_use op j → run_op op j = (j', inr tt) → job_wf j'.
Proof.
  unfold job_wf, retries_ok, fields_ok, op_in_use. intros Hwf [Hq Hc] Hrun.
  revert Hwf Hq Hc Hrun. destruct op; job_unfold; job_cases j; intros Hwf Hq Hc [= <-]; cbn;
    try (by discriminate (Hq eq_refl)); try (by destruct (Hc eq_refl));
    destruct_and?; repeat split; try done; try lia; naive_solver.
Qed.

(** * Sequences of operations on one job

    [run_ops] performs the operations in order.  One that raises leaves the
    object as the method left it, and the next one runs on it.  The counter
    counts the successful [start] calls, that is the executions of the job. *)

Fixpoint run_ops (ops : list job_op) (j : job) : job * nat :=
  match ops with
  | [] => (j, 0%nat)
  | op :: ops' =>
      let '(j1, r) := run_op op j in
      let '(j2, n) := run_ops ops' j1 in
      (j2, (match op, r with OpStart _, inr _ => S n | _, _ => n end)%nat)
  end.

(** 1 once the current attempt has started, 0 before. *)
Definition attempt_started (s : JobStatus) : Z :=
  match s with SUBMITTED | QUEUED | SCHEDULED => 0 | _ => 1 end.

Lemma run_op_starts op j :
  op ≠ OpQueue →
  let '(j', r) := run_op op j in
  (match op, r with OpStart _, inr _ => 1 | _, _ => 0 end)
    <= (j_retry_count j' + attempt_started (j_status j'))
       - (j_retry_count j + attempt_started (j_status j)).
Proof. intros Hq. destruct op; try done; job_unfold; job_cases j; lia. Qed.

Lemma run_op_retries_ok op j : retries_ok j → retries_ok (run_op op j).1.
Proof. unfold retries_ok. destruct op; job_unfold; job_cases j; lia. Qed.

Lemma run_ops_starts ops j :
  Forall (λ op, op ≠ OpQueue) ops → retries_ok j →
  let '(j', n) := run_ops ops j in
  retries_ok j' ∧ same_identity j j' ∧
  Z.of_nat n <= (j_retry_count j' + attempt_started (j_status j'))
                - (j_retry_count j + attempt_started (j_status j)).
Proof.
  revert j. induction ops as [|op ops IH]; intros j Hops Hj; cbn; [split_and!; [done|done|lia]|].
  apply Forall_cons in Hops as [Hop Hops].
  pose proof (run_op_starts op j Hop) as Hs. pose proof (run_op_retries_ok op j Hj) as Hr.
  pose proof (run_op_sound op j) as Hid.
  destruct (run_op op j) as [j1 r] eqn:E. cbn in Hr. destruct Hid as [Hid _].
  specialize (IH j1 Hops Hr). destruct (run_ops ops j1) as [j2 n].
  destruct IH as (? & Hid' & ?). split_and!; [done|by etrans|].
  destruct op, r; lia.
Qed.

(** * Properties *)

(** A step of the persisted job: a method that succeeds is saved, one that
    raises is not. *)
Inductive saved_step (j : job) : job → Prop :=
  | SavedStep op j' : op_in_use op j → run_op op j = (j', inr tt) → saved_step j j'.




Definition sample_job (max_retries : Z) : job :=
  mkJob (mkJobId 1) (mkResources 2 512 0) (mkTenantId 1) 0 ∅ max_retries 0
    DEFAULT_EXECUTION_TIMEOUT QUEUED None 0 None None None None None.


Lemma final_op_raises op j :
  j_status j = COMPLETED ∨ j_status j = CANCELLED ∨
    (j_status j = FAILED ∧ can_retry j = false ∧ op ≠ OpQueue) →
  ∃ e, (run_op op j).2 = inl e ∧ j_status (run_op op j).1 = j_status j ∧
       j_retry_count (run_op op j).1 = j_retry_count j ∧
       j_max_retries (run_op op j).1 = j_max_retries j.
Proof. destruct op; job_unfold; job_cases j; naive_solver. Qed.

(** A finished job stays finished: from COMPLETED, from CANCELLED, and from
    FAILED once the retries are used up, every later call raises and the status
    never changes again. *)
Theorem job_finished_is_final ops j :
  Forall (λ op, op ≠ OpQueue) ops →
  j_status j = COMPLETED ∨ j_status j = CANCELLED ∨ (j_status j = FAILED ∧ can_retry j = false) →
  j_status (run_ops ops j).1 = j_status j ∧ (run_ops ops j).2 = 0%nat.
Proof.
  revert j. induction ops as [|op ops IH]; intros j Hops Hj; [done|]. cbn.
  apply Forall_cons in Hops as [Hop Hops].
  destruct (final_op_raises op j) as (e & He & Hst & Hrc & Hmr); [naive_solver|].
  destruct (run_op op j) as [j1 r] eqn:E. cbn in *. subst r.
  destruct (IH j1 Hops) as [IH1 IH2].
  { rewrite Hst. destruct Hj as [?|[?|[? Hcan]]]; [auto|auto|right; right].
    split; [done|]. unfold can_retry in *. by rewrite Hrc, Hmr. }
  destruct (run_ops ops j1) as [j2 n]. cbn in *. split; [congruence|]. by destruct op.
Qed.

Lemma job_finished_is_final_witness :
  let j := set_status FAILED (sample_job 0) in
  j_status (run_ops [OpRetry; OpReclaim 3; OpStart 4] j).1 = FAILED ∧
  (run_ops [OpRetry; OpReclaim 3; OpStart 4] j).2 = 0%nat.
Proof.
  intros j. apply (job_finished_is_final [OpRetry; OpReclaim 3; OpStart 4] j).
  - repeat (apply Forall_cons; split; [discriminate|]). apply Forall_nil. exact I.
  - right; right. split; reflexivity.
Defined.

(** The job [reclaim] leaves when it requeues. *)
Definition requeued (j : job) : job :=
  set_status QUEUED (set_exit_code None (set_completed_at None (set_started_at None
    (set_assigned_node_id None (set_retry_count (j_retry_count j + 1) j))))).

(** A job [reclaim] refuses is left as it was. *)
Lemma reclaim_refused now j : (∃ e, (reclaim now j).2 = inl e) → (reclaim now j).1 = j.
Proof. intros [e He]. revert He. job_unfold. job_cases j; done. Qed.

(** What [reclaim] does on every branch: a CANCELLING job is finalised as
    CANCELLED and no retry is consumed; a SCHEDULED or RUNNING job goes back to
    the queue off its node with one retry consumed while the budget lasts, and
    fails once it is used up; any other job is refused and left exactly as it
    was. *)
Theorem reclaim_spec now j :
  reclaim now j =
  match j_status j with
  | CANCELLING =>
      (set_status CANCELLED (set_completed_at (Some now) (set_assigned_node_id None j)), inr tt)
  | SCHEDULED | RUNNING =>
      if j_retry_count j <? j_max_retries j then (requeued j, inr tt)
      else (set_status FAILED (set_completed_at (Some now) (set_assigned_node_id None j)), inr tt)
  | _ => (j, inl InvalidJobTransition)
  end.
Proof. job_unfold. unfold requeued. job_cases j; done. Qed.
