(* ===== verification/Node.v ===== *)
(** The [Node] aggregate (src/app/domain/entities/node.py): a compute node, its
    capacity, what is free of it, and its liveness. *)
From S2P Require Import Prelude Values.
Local Open Scope Z_scope.

Definition NODE_HEARTBEAT_TIMEOUT : timedelta := minutes 1.

Definition _NAME_ADJECTIVES : list string :=
  ["swift"; "quiet"; "bold"; "steady"; "bright"; "calm";
   "sharp"; "brisk"; "keen"; "solid"; "clever"; "eager";
   "loyal"; "quick"; "sturdy"; "vivid"; "wise"; "agile";
   "gentle"; "fierce"]%string.

Definition _NAME_NOUNS : list string :=
  ["falcon"; "otter"; "badger"; "heron"; "lynx"; "wren";
   "marten"; "kestrel"; "osprey"; "raven"; "sparrow"; "vole";
   "ferret"; "grouse"; "harrier"; "plover"; "shrike"; "stoat";
   "tern"; "weasel"]%string.

(** One lower-case hexadecimal digit, and [f"{k:04x}"]. *)
Definition hex_digit (d : Z) : string :=
  default "0" (["0"; "1"; "2"; "3"; "4"; "5"; "6"; "7"; "8"; "9"; "a"; "b"; "c"; "d"; "e"; "f"]
               !! Z.to_nat d)%string.

Definition hex4 (k : Z) : string :=
  (hex_digit (k / 4096 mod 16) ++ hex_digit (k / 256 mod 16) ++
   hex_digit (k / 16 mod 16) ++ hex_digit (k mod 16))%string.

(** The three draws of [generate_node_name] from [random]: an index into the
    adjectives, one into the nouns, and [randint(0, 0xFFFF)].  The draws are
    reduced into range, so any numbers stand for a possible outcome. *)
Record name_draw := mkDraw { draw_adjective : nat; draw_noun : nat; draw_suffix : Z }.

Definition generate_node_name (d : name_draw) : string :=
  (default "" (_NAME_ADJECTIVES !! (draw_adjective d mod length _NAME_ADJECTIVES)%nat)
   ++ "-" ++ default "" (_NAME_NOUNS !! (draw_noun d mod length _NAME_NOUNS)%nat)
   ++ "-" ++ hex4 (draw_suffix d mod 65536))%string.

Record node := mkNode {
  n_id : NodeId;
  n_capacity : ResourceRequirements;
  n_tenant_id : TenantId;
  n_name : string;
  n_labels : gmap string string;
  n_last_seen_at : datetime;
  n_draining : bool;
  n_available : ResourceRequirements;
}.

#[global] Instance node_eq_dec : EqDecision node.
Proof. solve_decision. Defined.

Definition set_available (r : ResourceRequirements) (n : node) : node :=
  mkNode (n_id n) (n_capacity n) (n_tenant_id n) (n_name n) (n_labels n) (n_last_seen_at n)
    (n_draining n) r.
Definition set_last_seen_at (t : datetime) (n : node) : node :=
  mkNode (n_id n) (n_capacity n) (n_tenant_id n) (n_name n) (n_labels n) t
    (n_draining n) (n_available n).
Definition set_draining (b : bool) (n : node) : node :=
  mkNode (n_id n) (n_capacity n) (n_tenant_id n) (n_name n) (n_labels n) (n_last_seen_at n)
    b (n_available n).
Definition set_name (s : string) (n : node) : node :=
  mkNode (n_id n) (n_capacity n) (n_tenant_id n) s (n_labels n) (n_last_seen_at n)
    (n_draining n) (n_available n).

Abbreviation nodeM := (stM node exn).

(** [__post_init__], run by every constructor call. *)
Definition node_post_init (n : node) : exn + node :=
  if cpu_cores (n_capacity n) <? cpu_cores (n_available n)
  then inl (ValueError "available cpu_cores cannot exceed capacity")
  else if memory_mib (n_capacity n) <? memory_mib (n_available n)
  then inl (ValueError "available memory_mib cannot exceed capacity")
  else if vram_mib (n_capacity n) <? vram_mib (n_available n)
  then inl (ValueError "available vram_mib cannot exceed capacity")
  else inr n.

(** [Node.register]: [name or generate_node_name()] treats a missing and an empty
    name alike. *)
Definition register (id : NodeId) (capacity : ResourceRequirements) (tenant_id : TenantId)
    (name : option string) (d : name_draw) (now : datetime) : exn + node :=
  let name' := match name with
               | Some s => if decide (s = ""%string) then generate_node_name d else s
               | None => generate_node_name d
               end in
  node_post_init (mkNode id capacity tenant_id name' ∅ now false capacity).

Definition heartbeat (now : datetime) (n : node) : node := set_last_seen_at now n.

Definition is_alive (now : datetime) (n : node) : bool :=
  now - n_last_seen_at n <=? NODE_HEARTBEAT_TIMEOUT.

Definition drain (n : node) : node := set_draining true n.

Definition is_draining (n : node) : bool := n_draining n.

Definition can_host (requirements : ResourceRequirements) (n : node) : bool :=
  (cpu_cores requirements <=? cpu_cores (n_available n)) &&
  (memory_mib requirements <=? memory_mib (n_available n)) &&
  (vram_mib requirements <=? vram_mib (n_available n)).

(** [self.available = ResourceRequirements(...)]: the constructor may raise. *)
Definition assign_available (r : exn + ResourceRequirements) : nodeM unit :=
  match r with
  | inl e => raise e
  | inr a => modify (set_available a)
  end.

Definition allocate (requirements : ResourceRequirements) : nodeM unit :=
  n ← getS;
  if negb (can_host requirements n) then raise InsufficientNodeCapacityError else
  assign_available (new_resources
    (cpu_cores (n_available n) - cpu_cores requirements)
    (memory_mib (n_available n) - memory_mib requirements)
    (vram_mib (n_available n) - vram_mib requirements)).

Definition release (requirements : ResourceRequirements) : nodeM unit :=
  n ← getS;
  assign_available (new_resources
    (Z.min (cpu_cores (n_available n) + cpu_cores requirements) (cpu_cores (n_capacity n)))
    (Z.min (memory_mib (n_available n) + memory_mib requirements) (memory_mib (n_capacity n)))
    (Z.min (vram_mib (n_available n) + vram_mib requirements) (vram_mib (n_capacity n)))).

(** * The invariant: what is free lies between nothing and the capacity. *)
Definition node_wf (n : node) : Prop :=
  resources_ok (n_available n) ∧ resources_le (n_available n) (n_capacity n).

#[global] Instance node_wf_dec n : Decision (node_wf n).
Proof. unfold node_wf. apply _. Defined.

(** What the node has handed out. *)
Definition in_use (n : node) : ResourceRequirements :=
  resources_sub (n_capacity n) (n_available n).

Lemma can_host_spec r n : can_host r n = true ↔ resources_le r (n_available n).
Proof. unfold can_host, resources_le. rewrite !andb_true_iff, !Z.leb_le. tauto. Qed.

Lemma allocate_spec r n :
  resources_ok r → node_wf n →
  allocate r n =
    if can_host r n then (set_available (resources_sub (n_available n) r) n, inr tt)
    else (n, inl InsufficientNodeCapacityError).
Proof.
  intros Hr Hn. unfold allocate. stM_unfold. destruct (can_host r n) eqn:Hc; [|done].
  cbn. apply can_host_spec in Hc as (? & ? & ?).
  rewrite new_resources_ok by lia. done.
Qed.

(** The capacity caps what a release gives back. *)
Definition released (r : ResourceRequirements) (n : node) : ResourceRequirements :=
  mkResources (Z.min (cpu_cores (n_available n) + cpu_cores r) (cpu_cores (n_capacity n)))
    (Z.min (memory_mib (n_available n) + memory_mib r) (memory_mib (n_capacity n)))
    (Z.min (vram_mib (n_available n) + vram_mib r) (vram_mib (n_capacity n))).

Lemma release_spec r n :
  resources_ok r → node_wf n → release r n = (set_available (released r n) n, inr tt).
Proof.
  intros (? & ? & ?) [(? & ? & ?) (? & ? & ?)]. unfold release. stM_unfold.
  rewrite new_resources_ok by lia. done.
Qed.

Lemma allocate_wf r n n' : resources_ok r → node_wf n → allocate r n = (n', inr tt) → node_wf n'.
Proof.
  intros Hr Hn. rewrite allocate_spec by done. destruct (can_host r n) eqn:Hc; [|done].
  apply can_host_spec in Hc as (? & ? & ?). intros [= <-].
  destruct Hr as (? & ? & ?), Hn as [(? & ? & ?) (? & ? & ?)].
  unfold node_wf, resources_ok, resources_le. cbn. lia.
Qed.

Lemma release_wf r n n' res : resources_ok r → node_wf n → release r n = (n', res) → node_wf n'.
Proof.
  intros Hr Hn. rewrite release_spec by done. intros [= <- _].
  destruct Hr as (? & ? & ?), Hn as [(? & ? & ?) (? & ? & ?)].
  unfold node_wf, resources_ok, resources_le. cbn. lia.
Qed.

Lemma register_wf id c t nm d now n :
  resources_ok c → register id c t nm d now = inr n →
  node_wf n ∧ in_use n = mkResources 0 0 0 ∧ n_name n ≠ ""%string.
Proof.
  intros Hc. unfold register, node_post_init. cbn. rewrite !Z.ltb_irrefl. intros [= <-].
  unfold node_wf, in_use, resources_sub, resources_le. cbn. split_and!; try done.
  - by apply resources_ext; cbn; lia.
  - destruct nm as [s|]; [case_decide|]; try done;
    unfold generate_node_name;
    generalize (default ""%string
      (_NAME_ADJECTIVES !! (draw_adjective d mod length _NAME_ADJECTIVES)%nat));
    by intros [].
Qed.

(** * Histories of one node

    [node_history n held]: [n] was registered and then went through allocations,
    refused ones included, heartbeats, draining and releases of allocations it
    still held; [held] lists the allocations outstanding. *)
Inductive node_history : node → list ResourceRequirements → Prop :=
  | HistRegister id c t nm d now n :
      resources_ok c → register id c t nm d now = inr n → node_history n []
  | HistAllocate n held r n' :
      node_history n held → resources_ok r → allocate r n = (n', inr tt) →
      node_history n' (r :: held)
  | HistRefused n held r n' e :
      node_history n held → resources_ok r → allocate r n = (n', inl e) →
      node_history n' held
  | HistRelease n held1 r held2 n' :
      node_history n (held1 ++ r :: held2) → release r n = (n', inr tt) →
      node_history n' (held1 ++ held2)
  | HistHeartbeat n held now :
      node_history n held → node_history (heartbeat now n) held
  | HistDrain n held :
      node_history n held → node_history (drain n) held.

Definition total (rs : list ResourceRequirements) : ResourceRequirements :=
  foldr resources_add (mkResources 0 0 0) rs.

Lemma total_app l1 l2 : total (l1 ++ l2) = resources_add (total l1) (total l2).
Proof.
  unfold total. induction l1 as [|r l1 IH]; cbn [foldr app]; [|rewrite IH];
    apply resources_ext; cbn; lia.
Qed.

Lemma total_ok rs : Forall resources_ok rs → resources_ok (total rs).
Proof.
  unfold resources_ok, total.
  induction 1 as [|r rs (? & ? & ?) _ (? & ? & ?)]; cbn [foldr]; cbn; lia.
Qed.

(** C17: Resource accounting on a node: after any history the node's invariant
    holds (nothing negative, nothing above capacity) and what it has handed out
    is exactly the sum of the allocations outstanding, so a release never clips
    at the capacity and an allocation never overcommits the node. *)
Theorem node_accounting n held :
  node_history n held →
  node_wf n ∧ in_use n = total held ∧ resources_le (total held) (n_capacity n).
Proof.
  assert (∀ n held, node_history n held →
    node_wf n ∧ Forall resources_ok held ∧ in_use n = total held) as Hmain.
  { clear. induction 1 as [id c t nm d now n Hc Hreg|n held r n' _ (Hwf & Hok & Huse) Hr Ha
      |n held r n' e _ (Hwf & Hok & Huse) Hr Ha|n h1 r h2 n' _ (Hwf & Hok & Huse) Ha
      |n held now _ IH|n held _ IH].
    - destruct (register_wf _ _ _ _ _ _ _ Hc Hreg) as (? & ? & _). done.
    - split_and!; [by eapply allocate_wf|by constructor|].
      rewrite allocate_spec in Ha by done. destruct (can_host r n); [|done].
      injection Ha as <-. change (total (r :: held)) with (resources_add r (total held)).
      rewrite <- Huse. apply resources_ext; cbn; lia.
    - rewrite allocate_spec in Ha by done. destruct (can_host r n); [done|]. by injection Ha as <- _.
    - apply Forall_app in Hok as [Hok1 [Hr Hok2]%Forall_cons].
      split_and!; [by eapply release_wf|by apply Forall_app|].
      rewrite release_spec in Ha by done. injection Ha as <-.
      rewrite total_app in Huse |- *.
      pose proof (total_ok _ Hok1) as (? & ? & ?). pose proof (total_ok _ Hok2) as (? & ? & ?).
      unfold in_use, resources_sub, resources_add in Huse. injection Huse as ? ? ?. cbn in *.
      unfold in_use, released, resources_sub, resources_add. cbn. f_equal; lia.
    - exact IH.
    - exact IH. }
  intros H. destruct (Hmain n held H) as (Hwf & Hok & Huse). split_and!; [done|done|].
  rewrite <- Huse. destruct Hwf as [(? & ? & ?) _]. unfold resources_le, in_use. cbn. lia.
Qed.

Lemma node_accounting_witness :
  let r1 := mkResources 2 1024 0 in let r2 := mkResources 1 512 4096 in
  let c := mkResources 8 8192 8192 in
  ∃ n, node_history n [r2] ∧ node_wf n ∧ in_use n = total [r2] ∧
       resources_le (total [r2]) (n_capacity n).
Proof.
  intros r1 r2 c.
  pose (n0 := mkNode (mkNodeId 1) c (mkTenantId 1) "gpu" ∅ 5 false c).
  pose (n1 := (allocate r1 n0).1). pose (n2 := (allocate r2 n1).1). pose (n3 := (release r1 n2).1).
  exists n3.
  assert (node_history n3 [r2]) as H.
  { apply (HistRelease n2 [r2] r1 [] n3); [|vm_compute; reflexivity].
    apply (HistAllocate n1 [r1] r2 n2); [|unfold resources_ok; cbn; lia|vm_compute; reflexivity].
    apply (HistAllocate n0 [] r1 n1); [|unfold resources_ok; cbn; lia|vm_compute; reflexivity].
    apply (HistRegister (mkNodeId 1) c (mkTenantId 1) (Some "gpu"%string) (mkDraw 0 0 0) 5);
      [unfold resources_ok; cbn; lia|vm_compute; reflexivity]. }
  split; [exact H|]. exact (node_accounting n3 [r2] H).
Defined.
