(* ===== verification/Float64.v ===== *)
(** Python's [float] as IEEE 754 binary64, on the axiom-free specification
    [SpecFloat] of the standard library: true division of integers, addition and
    comparison, and the order facts [min(..., key=...)] relies on. *)
From S2P Require Import Prelude Values.
From Stdlib Require Import Floats.SpecFloat.
Local Open Scope Z_scope.

Abbreviation float := spec_float.

Definition fadd (x y : float) : float := SFadd 53 1024 x y.
Definition fmul (x y : float) : float := SFmul 53 1024 x y.
Definition fdiv (x y : float) : float := SFdiv 53 1024 x y.
Definition flt (x y : float) : bool := SFltb x y.
Definition fsub (x y : float) : float := SFsub 53 1024 x y.
Definition fle (x y : float) : bool := SFleb x y.

(** [min(x, y)] and [max(x, y)] of Python keep the first of two equal values. *)
Definition fmin (x y : float) : float := if flt y x then y else x.
Definition fmax (x y : float) : float := if flt x y then y else x.

Definition ffinite (x : float) : bool :=
  match x with S754_zero _ | S754_finite _ _ _ => true | _ => false end.

Definition fzero : float := S754_zero false.

(** An integer as an exact dyadic number, not rounded. *)
Definition exact_of_Z (z : Z) : float :=
  match z with
  | Z0 => S754_zero false
  | Zpos p => S754_finite false p 0
  | Zneg p => S754_finite true p 0
  end.

(** [a / b] on Python integers: the correctly rounded quotient. *)
Definition int_truediv (a b : Z) : exn + float :=
  if b =? 0 then inl ZeroDivisionError else
  match SFdiv 53 1024 (exact_of_Z a) (exact_of_Z b) with
  | S754_infinity _ => inl OverflowError
  | q => inr q
  end.

(** * Non-negative floats: not NaN and not below zero *)

Definition fnonneg (x : float) : Prop :=
  match x with
  | S754_zero _ | S754_infinity false | S754_finite false _ _ => True
  | _ => False
  end.

Lemma shr_1_nonneg r : 0 <= shr_m r → 0 <= shr_m (shr_1 r).
Proof. destruct r as [[|[]|[]] ? ?]; cbn; lia. Qed.

Lemma iter_shr_nonneg p r : 0 <= shr_m r → 0 <= shr_m (iter_pos shr_1 p r).
Proof. revert r. induction p; intros r Hr; cbn; auto using shr_1_nonneg. Qed.

Lemma shr_fexp_nonneg prec emax m e l : 0 <= m → 0 <= shr_m (shr_fexp prec emax m e l).1.
Proof.
  intros Hm. unfold shr_fexp, shr.
  assert (0 <= shr_m (shr_record_of_loc m l)) by (by destruct l as [|[]]).
  destruct (_ - e); cbn; [done|by apply iter_shr_nonneg|done].
Qed.

Lemma round_nearest_even_nonneg m l : 0 <= m → 0 <= round_nearest_even m l.
Proof. destruct l as [|[]]; cbn; try lia. destruct (Z.even m); lia. Qed.

Lemma binary_round_aux_nonneg m e l : 0 <= m → fnonneg (binary_round_aux 53 1024 false m e l).
Proof.
  intros Hm. unfold binary_round_aux.
  pose proof (shr_fexp_nonneg 53 1024 m e l Hm) as H1.
  destruct (shr_fexp 53 1024 m e l) as [r1 e1]. cbn in H1.
  pose proof (shr_fexp_nonneg 53 1024 _ e1 loc_Exact
    (round_nearest_even_nonneg _ (loc_of_shr_record r1) H1)) as H2.
  destruct (shr_fexp 53 1024 (round_nearest_even (shr_m r1) (loc_of_shr_record r1)) e1 loc_Exact)
    as [r2 e2]. cbn in H2.
  destruct (shr_m r2); [done| |lia]. by destruct (_ <=? _).
Qed.

Lemma SFdiv_nonneg a b : 0 <= a → 0 < b → fnonneg (SFdiv 53 1024 (exact_of_Z a) (exact_of_Z b)).
Proof.
  intros Ha Hb. destruct b as [|q|q]; [lia| |lia].
  destruct a as [|p|p]; [done| |lia]. cbn -[binary_round_aux SFdiv_core_binary].
  unfold SFdiv_core_binary. cbn -[binary_round_aux Z.div_eucl Z.shiftl fexp Zdigits2].
  set (s := 0 - 0 - Z.min _ _).
  assert (0 <= match s with Z0 => Z.pos p | Z.pos _ => Z.shiftl (Z.pos p) s | Z.neg _ => 0 end) as Hm.
  { destruct s; [lia| |lia]. rewrite Z.shiftl_nonneg. lia. }
  set (m := match s with Z0 => _ | _ => _ end) in *. clearbody m s.
  pose proof (Z_div_mod m (Z.pos q) ltac:(lia)) as Hd.
  destruct (Z.div_eucl m (Z.pos q)) as [d r]. apply binary_round_aux_nonneg. nia.
Qed.

Lemma shl_align_pos p e e' : 0 < Zpos (shl_align p e e').1.
Proof. lia. Qed.

Lemma fadd_nonneg x y : fnonneg x → fnonneg y → fnonneg (fadd x y).
Proof.
  unfold fadd. destruct x as [[]|[]| |[] mx ex]; try done;
    destruct y as [[]|[]| |[] my ey]; try done.
  intros _ _. cbn -[shl_align binary_normalize].
  destruct (Z.add _ _) as [|p|p] eqn:E; [done| |].
  - cbn -[binary_round_aux]. unfold binary_round. destruct (shl_align p _ _).
    apply binary_round_aux_nonneg. lia.
  - exfalso. cbn in E. lia.
Qed.

(** * The order of [flt] on floats that are not NaN *)

Ltac fold_pos_compare :=
  repeat match goal with
  | |- context [PosDef.Pos.compare_cont Eq ?a ?b] =>
      change (PosDef.Pos.compare_cont Eq a b) with (a ?= b)%positive
  end.

Lemma flt_irrefl x : flt x x = false.
Proof.
  unfold flt, SFltb, SFcompare. destruct x as [[]|[]| |[] m e]; try done;
    rewrite Z.compare_refl; fold_pos_compare; rewrite Pos.compare_refl; done.
Qed.

(** "Not less" is transitive: [flt] is a strict weak order. *)
Lemma not_flt_trans x y z :
  fnonneg x → fnonneg y → fnonneg z → flt y x = false → flt z y = false → flt z x = false.
Proof.
  unfold flt, SFltb, SFcompare. intros Hx Hy Hz.
  destruct x as [[]|[]| |[] mx ex]; try done;
  destruct y as [[]|[]| |[] my ey]; try done;
  destruct z as [[]|[]| |[] mz ez]; try done.
  fold_pos_compare.
  destruct (Z.compare_spec ey ex), (Z.compare_spec ez ey), (Z.compare_spec ez ex); subst; try done; try lia;
  destruct (Pos.compare_spec my mx), (Pos.compare_spec mz my), (Pos.compare_spec mz mx); subst; try done; lia.
Qed.

Lemma flt_asym x y : fnonneg x → fnonneg y → flt x y = true → flt y x = false.
Proof.
  unfold flt, SFltb, SFcompare. intros Hx Hy.
  destruct x as [[]|[]| |[] mx ex]; try done; destruct y as [[]|[]| |[] my ey]; try done.
  fold_pos_compare. rewrite (Z.compare_antisym ex ey), (Pos.compare_antisym mx my).
  destruct (ex ?= ey); cbn; try done. by destruct (mx ?= my)%positive.
Qed.

(** * A quotient of at most one does not overflow *)

Lemma digits2_size p : digits2_pos p = Pos.size p.
Proof. induction p as [p IH|p IH|]; cbn; [| |done]; by rewrite IH. Qed.

Lemma Zdigits2_le m k : 0 <= k → 0 <= m <= 2 ^ k → Zdigits2 m <= k + 1.
Proof.
  intros Hk [Hm Hmk]. destruct m as [|p|p]; cbn; [lia| |lia]. rewrite digits2_size.
  pose proof (Pos.size_le p) as Hs. apply Pos2Z.pos_le_pos in Hs.
  rewrite Pos2Z.inj_pow, (Pos2Z.inj_xO p) in Hs.
  assert (2 ^ Z.pos (Pos.size p) <= 2 ^ (k + 1)) as Hle.
  { rewrite Z.pow_add_r by lia. change (2 ^ 1) with 2. lia. }
  apply Z.pow_le_mono_r_iff in Hle; lia.
Qed.

Lemma shr_1_half r : 0 <= shr_m r → shr_m (shr_1 r) = shr_m r / 2.
Proof.
  destruct r as [[|[p|p|]|q] rb sb]; cbn [shr_m]; intros Hr; [done| | |done|lia].
  - cbn [shr_1 shr_m]. rewrite Pos2Z.inj_xI. apply (Z.div_unique _ _ _ 1); lia.
  - cbn [shr_1 shr_m]. rewrite Pos2Z.inj_xO. apply (Z.div_unique _ _ _ 0); lia.
Qed.

Lemma iter_shr_div p r : 0 <= shr_m r → shr_m (iter_pos shr_1 p r) = shr_m r / 2 ^ Z.pos p.
Proof.
  revert r. induction p as [p IH|p IH|]; intros r Hr; cbn -[Z.pow shr_1];
    rewrite ?IH, ?shr_1_half by eauto using shr_1_nonneg, iter_shr_nonneg; [| |done].
  - rewrite !Z.div_div by lia. f_equal.
    rewrite <- !Z.pow_add_r by lia. rewrite <- Z.pow_succ_r by lia. f_equal. lia.
  - rewrite !Z.div_div by lia. f_equal. rewrite <- !Z.pow_add_r by lia. f_equal. lia.
Qed.

Lemma shr_fexp_bound B m e l :
  -1000 <= B → e <= B → 0 <= m <= 2 ^ (B - e) →
  (shr_fexp 53 1024 m e l).2 <= B ∧
  shr_m (shr_fexp 53 1024 m e l).1 <= 2 ^ (B - (shr_fexp 53 1024 m e l).2).
Proof.
  intros HB He [Hm Hmb]. unfold shr_fexp, shr.
  assert (shr_m (shr_record_of_loc m l) = m) as Hr by (by destruct l as [|[]]).
  pose proof (Zdigits2_le m (B - e) ltac:(lia) (conj Hm Hmb)) as Hd.
  assert (fexp 53 1024 (Zdigits2 m + e) <= B) as Hf by (unfold fexp, emin; lia).
  remember (fexp 53 1024 (Zdigits2 m + e) - e) as s eqn:Hs.
  destruct s as [|p|p]; cbn [fst snd]; rewrite ?Hr; [lia| |lia].
  split; [lia|]. rewrite iter_shr_div by lia. rewrite Hr.
  apply Z.div_le_upper_bound; [lia|]. rewrite <- Z.pow_add_r by lia.
  replace (Z.pos p + (B - (e + Z.pos p))) with (B - e) by lia. done.
Qed.

Lemma binary_round_aux_finite B s m e l :
  -1000 <= B <= 900 → e <= B → 0 <= m <= 2 ^ (B - e) →
  match binary_round_aux 53 1024 s m e l with S754_infinity _ => False | _ => True end.
Proof.
  intros HB He Hm. unfold binary_round_aux.
  pose proof (shr_fexp_bound B m e l ltac:(lia) He Hm) as [He1 Hm1].
  pose proof (shr_fexp_nonneg 53 1024 m e l ltac:(lia)) as Hn1.
  destruct (shr_fexp 53 1024 m e l) as [r1 e1]. cbn [fst snd] in *.
  set (m1 := round_nearest_even _ _).
  assert (0 <= m1 <= 2 ^ (B + 1 - e1)) as Hm1'.
  { split; [by apply round_nearest_even_nonneg|].
    replace (B + 1 - e1) with (Z.succ (B - e1)) by lia. rewrite Z.pow_succ_r by lia.
    assert (m1 <= shr_m r1 + 1).
    { subst m1. destruct (loc_of_shr_record r1) as [|[]]; cbn; try lia.
      destruct (Z.even _); lia. }
    pose proof (Z.pow_pos_nonneg 2 (B - e1) ltac:(lia) ltac:(lia)). lia. }
  pose proof (shr_fexp_bound (B + 1) m1 e1 loc_Exact ltac:(lia) ltac:(lia) Hm1') as [He2 _].
  destruct (shr_fexp 53 1024 m1 e1 loc_Exact) as [r2 e2]. cbn [fst snd] in *.
  destruct (shr_m r2); [done| |done]. destruct (Z.leb_spec e2 (1024 - 53)); [done|lia].
Qed.

(** [a / b] with [0 <= a <= b] is a non-negative float and raises nothing. *)
Lemma int_truediv_unit a b :
  0 <= a <= b → 0 < b → ∃ q, int_truediv a b = inr q ∧ fnonneg q.
Proof.
  intros Ha Hb. pose proof (SFdiv_nonneg a b ltac:(lia) Hb) as Hn.
  unfold int_truediv. destruct (Z.eqb_spec b 0); [lia|].
  enough (match SFdiv 53 1024 (exact_of_Z a) (exact_of_Z b) with
          | S754_infinity _ => False | _ => True end) as Hi.
  { destruct (SFdiv _ _ _ _); try done; eauto. }
  destruct b as [|q|q]; [lia| |lia]. destruct a as [|p|p]; [done| |lia].
  cbn -[binary_round_aux SFdiv_core_binary].
  unfold SFdiv_core_binary. cbn -[binary_round_aux Z.div_eucl Z.shiftl fexp Zdigits2].
  set (e' := Z.min _ _). assert (e' <= 0) by (subst e'; lia). clearbody e'.
  set (m := match _ with Z0 => _ | _ => _ end).
  assert (m = Z.pos p * 2 ^ (- e')) as Hm.
  { subst m. replace (0 - 0 - e') with (- e') by lia.
    destruct e' as [|k|k]; [symmetry; apply Z.mul_1_r|lia|].
    cbn [Z.opp]. by rewrite Z.shiftl_mul_pow2 by lia. }
  clearbody m. pose proof (Z_div_mod m (Z.pos q) ltac:(lia)) as Hd.
  destruct (Z.div_eucl m (Z.pos q)) as [d r].
  apply (binary_round_aux_finite 0); [lia|lia|]. rewrite Z.sub_0_l.
  pose proof (Z.pow_pos_nonneg 2 (- e') ltac:(lia) ltac:(lia)). nia.
Qed.
