(* ===== verification/FloatOrder.v ===== *)
(** Binary64 arithmetic is monotone.

    A non-negative float that is not NaN has a value, an integer multiple of
    [2 ^ E0]; comparing floats is comparing values; addition, subtraction and
    multiplication compute the exact result and round it, and rounding is monotone
    and leaves what is representable alone.  This is what bounds on computations with
    floats rest on. *)
From S2P Require Import Prelude Values Float64.
From Stdlib Require Import Floats.SpecFloat.
Local Open Scope Z_scope.

(** A unit below every exponent that sums and products of floats can have. *)
Definition E0 : Z := -4000.

(** * Rounding integers *)

(** [V / 2 ^ s], rounded to the nearest integer, ties to even. *)
Definition rne (V s : Z) : Z :=
  let q := V / 2 ^ s in
  let t := V mod 2 ^ s in
  if 2 * t <? 2 ^ s then q else if 2 ^ s <? 2 * t then q + 1 else if Z.even q then q else q + 1.

Ltac div_mod V s :=
  let q := fresh "q" in let t := fresh "t" in
  pose proof (Z.div_mod V (2 ^ s)); pose proof (Z.mod_pos_bound V (2 ^ s));
  set (q := V / 2 ^ s) in *; set (t := V mod 2 ^ s) in *; clearbody q t.

Lemma pow2_pos s : 0 <= s → 0 < 2 ^ s.
Proof. intros. by apply Z.pow_pos_nonneg. Qed.

Lemma rne_bounds V s : V / 2 ^ s <= rne V s <= V / 2 ^ s + 1.
Proof. unfold rne. repeat case_match; lia. Qed.

Lemma rne_mono V V' s : 0 <= s → V <= V' → rne V s <= rne V' s.
Proof.
  intros Hs HV. pose proof (pow2_pos s Hs) as Hp. pose proof (Z.div_le_mono V V' (2 ^ s) Hp HV) as Hq.
  destruct (Z.eq_dec (V / 2 ^ s) (V' / 2 ^ s)) as [E|Hne].
  - unfold rne. rewrite E. pose proof (Z.div_mod V (2 ^ s) ltac:(lia)). pose proof (Z.div_mod V' (2 ^ s) ltac:(lia)).
    rewrite E in *. repeat case_match; lia.
  - pose proof (rne_bounds V s). pose proof (rne_bounds V' s). lia.
Qed.

Lemma rne_exact q s : 0 <= s → rne (q * 2 ^ s) s = q.
Proof.
  intros Hs. pose proof (pow2_pos s Hs). unfold rne. rewrite Z.div_mul, Z.mod_mul by lia.
  destruct (Z.ltb_spec (2 * 0) (2 ^ s)); [done|lia].
Qed.

(** Trailing zeros do not matter. *)
Lemma rne_scale m s k : 0 <= s → 0 <= k → rne (m * 2 ^ k) (s + k) = rne m s.
Proof.
  intros Hs Hk. pose proof (pow2_pos s Hs). pose proof (pow2_pos k Hk). unfold rne.
  rewrite Z.pow_add_r, Z.div_mul_cancel_r, Z.mul_mod_distr_r by lia.
  assert (∀ a b, (a * 2 ^ k <? b * 2 ^ k) = (a <? b)) as E.
  { intros a b. apply Bool.eq_iff_eq_true. rewrite !Z.ltb_lt. symmetry. apply Z.mul_lt_mono_pos_r. lia. }
  by rewrite Z.mul_assoc, !E.
Qed.

(** * Shifting records *)

Record shifted (m k : Z) (r : shr_record) : Prop := mkShifted {
  sh_q : shr_m r = m / 2 ^ k;
  sh_t : let t := m mod 2 ^ k in
         match shr_r r, shr_s r with
         | false, false => t = 0
         | false, true => 0 < 2 * t < 2 ^ k
         | true, false => 2 * t = 2 ^ k
         | true, true => 2 ^ k < 2 * t
         end;
}.

Lemma shr_1_shifted m k r : 0 <= m → 0 <= k → shifted m k r → shifted m (k + 1) (shr_1 r).
Proof.
  intros Hm Hk [Hq Ht]. pose proof (pow2_pos k Hk) as Hp.
  assert (2 ^ (k + 1) = 2 * 2 ^ k) as Ep by (rewrite Z.pow_add_r by lia; lia).
  pose proof (Z.div_pos m (2 ^ k) Hm Hp). pose proof (Z.mod_pos_bound m (2 ^ k) Hp).
  assert (m / 2 ^ (k + 1) = (m / 2 ^ k) / 2) as Eq by (rewrite Ep, Z.mul_comm, Z.div_div; lia).
  assert (m mod 2 ^ (k + 1) = 2 ^ k * ((m / 2 ^ k) mod 2) + m mod 2 ^ k) as Et.
  { rewrite Ep, (Z.mul_comm 2), Z.rem_mul_r by lia. lia. }
  destruct r as [M r s]. cbn in Hq, Ht. subst M.
  assert (shr_1 {| shr_m := m / 2 ^ k; shr_r := r; shr_s := s |} =
    {| shr_m := (m / 2 ^ k) / 2; shr_r := Z.odd (m / 2 ^ k); shr_s := r || s |}) as ->.
  { destruct (m / 2 ^ k) as [|[p|p|]|p] eqn:E; cbn -[Z.div]; try done; try lia; f_equal.
    - rewrite Pos2Z.inj_xI. apply (Z.div_unique_pos _ _ _ 1); lia.
    - rewrite Pos2Z.inj_xO. apply (Z.div_unique_pos _ _ _ 0); lia. }
  split; cbn; [done|]. rewrite Et, Ep. set (t := m mod 2 ^ k) in *. clearbody t.
  rewrite (Zmod_odd (m / 2 ^ k)). destruct (Z.odd _), r, s; cbn; lia.
Qed.

Lemma iter_shr_shifted p m k r : 0 <= m → 0 <= k → shifted m k r → shifted m (k + Z.pos p) (iter_pos shr_1 p r).
Proof.
  revert k r. induction p as [p IH|p IH|]; intros k r Hm Hk Hr; cbn [iter_pos].
  - replace (k + Z.pos p~1) with (k + 1 + Z.pos p + Z.pos p) by lia.
    apply IH; [done|lia|]. apply IH; [done|lia|]. by apply shr_1_shifted.
  - replace (k + Z.pos p~0) with (k + Z.pos p + Z.pos p) by lia. apply IH; [done|lia|]. by apply IH.
  - by apply shr_1_shifted.
Qed.

Lemma shifted_round m k r :
  0 <= k → shifted m k r → round_nearest_even (shr_m r) (loc_of_shr_record r) = rne m k.
Proof.
  intros Hk [Hq Ht]. pose proof (pow2_pos k Hk). unfold rne. destruct r as [M [|] [|]]; cbn in *; subst M;
    repeat case_match; rewrite ?Z.ltb_lt, ?Z.ltb_ge in *; try done; lia.
Qed.

(** * Digits *)

Lemma digits_bounds m : 0 < m → 0 < Zdigits2 m ∧ 2 ^ (Zdigits2 m - 1) <= m < 2 ^ Zdigits2 m.
Proof.
  intros Hm. destruct m as [|p|p]; try lia. cbn [Zdigits2]. rewrite digits2_size.
  pose proof (Pos.size_gt p) as H1. pose proof (Pos.size_le p) as H2.
  apply Pos2Z.pos_lt_pos in H1. apply Pos2Z.pos_le_pos in H2.
  rewrite Pos2Z.inj_pow in H1, H2. rewrite (Pos2Z.inj_xO p) in H2.
  split; [lia|]. split; [|done].
  replace (Z.pos (Pos.size p)) with (Z.succ (Z.pos (Pos.size p) - 1)) in H2 by lia.
  rewrite Z.pow_succ_r in H2 by lia. lia.
Qed.

Lemma digits_unique m k : 0 < k → 2 ^ (k - 1) <= m < 2 ^ k → Zdigits2 m = k.
Proof.
  intros Hk [H1 H2]. pose proof (pow2_pos (k - 1) ltac:(lia)).
  destruct (digits_bounds m ltac:(lia)) as (Hd & H3 & H4).
  assert (Zdigits2 m - 1 < k) by (apply (Z.pow_lt_mono_r_iff 2); lia).
  assert (k - 1 < Zdigits2 m) by (apply (Z.pow_lt_mono_r_iff 2); lia). lia.
Qed.

Lemma digits_shift m k : 0 < m → 0 <= k → Zdigits2 (m * 2 ^ k) = Zdigits2 m + k.
Proof.
  intros Hm Hk. destruct (digits_bounds m Hm) as (Hd & H1 & H2). apply digits_unique; [lia|].
  replace (Zdigits2 m + k - 1) with (Zdigits2 m - 1 + k) by lia. rewrite !Z.pow_add_r by lia.
  pose proof (pow2_pos k Hk). split; [by apply Z.mul_le_mono_nonneg_r; lia|by apply Z.mul_lt_mono_pos_r].
Qed.

Lemma digits_le m m' : 0 < m → m <= m' → Zdigits2 m <= Zdigits2 m'.
Proof.
  intros Hm Hle. destruct (digits_bounds m Hm) as (? & ? & ?). destruct (digits_bounds m' ltac:(lia)) as (? & ? & ?).
  assert (Zdigits2 m - 1 < Zdigits2 m') by (apply (Z.pow_lt_mono_r_iff 2); lia). lia.
Qed.

(** * Rounding exact values to binary64 *)

(** The exact value [V * 2 ^ E0], rounded: [V] loses its last [ulp V] bits. *)
Definition ulp (V : Z) : Z := Z.max (Zdigits2 V - 53) (-1074 - E0).
Definition rndv (V : Z) : Z := rne V (ulp V) * 2 ^ ulp V.
Definition INF : Z := 2 ^ (1024 - E0).

Lemma ulp_pos V : 0 < ulp V.
Proof. unfold ulp, E0. lia. Qed.

Lemma rndv_exact V q : V = q * 2 ^ ulp V → rndv V = V.
Proof. intros E. unfold rndv. rewrite E at 1. rewrite rne_exact by (pose proof (ulp_pos V); lia). done. Qed.

Lemma rndv_mono V V' : 0 <= V → V <= V' → rndv V <= rndv V'.
Proof.
  intros H0 Hle. pose proof (ulp_pos V) as Hu. pose proof (ulp_pos V') as Hu'. unfold rndv.
  destruct (Z.eq_dec (ulp V) (ulp V')) as [->|Hne].
  { apply Z.mul_le_mono_nonneg_r; [pose proof (pow2_pos (ulp V')); lia|apply rne_mono; lia]. }
  assert (0 < V') as HV' by (destruct (Z.eq_dec V' 0) as [->|]; [replace V with 0 in Hne by lia|]; lia).
  assert (Zdigits2 V <= Zdigits2 V') as Hd.
  { destruct (Z.eq_dec V 0) as [->|]; [|by apply digits_le; lia]. destruct (digits_bounds V' HV'). cbn. lia. }
  assert (ulp V < ulp V' ∧ ulp V' = Zdigits2 V' - 53 ∧ Zdigits2 V < Zdigits2 V') as (Hlt & EV' & Hdl)
    by (unfold ulp in *; lia).
  set (P := 2 ^ (Zdigits2 V' - 1)).
  assert (∀ s, 0 <= s <= ulp V' → rne P s * 2 ^ s = P) as HP.
  { intros s Hs. assert (P = 2 ^ (Zdigits2 V' - 1 - s) * 2 ^ s) as E by (rewrite <- Z.pow_add_r by lia; unfold P; f_equal; lia).
    rewrite E at 1. by rewrite rne_exact by lia. }
  assert (V <= P <= V') as [HVP HPV].
  { split; [|apply digits_bounds; lia]. destruct (Z.eq_dec V 0) as [->|].
    - pose proof (pow2_pos (Zdigits2 V' - 1)). lia.
    - destruct (digits_bounds V ltac:(lia)) as (? & ? & ?). apply Z.lt_le_incl, (Z.lt_le_trans _ (2 ^ Zdigits2 V)); [done|].
      apply Z.pow_le_mono_r; lia. }
  transitivity P.
  - rewrite <- (HP (ulp V)) by lia. apply Z.mul_le_mono_nonneg_r; [pose proof (pow2_pos (ulp V)); lia|apply rne_mono; lia].
  - rewrite <- (HP (ulp V')) at 1 by lia. apply Z.mul_le_mono_nonneg_r; [pose proof (pow2_pos (ulp V')); lia|apply rne_mono; lia].
Qed.

Lemma rndv_INF : rndv INF = INF.
Proof. apply (rndv_exact _ (2 ^ 52)). vm_compute. reflexivity. Qed.

Lemma rndv_0 : rndv 0 = 0.
Proof. done. Qed.

Lemma rndv_nonneg V : 0 <= V → 0 <= rndv V.
Proof. intros. rewrite <- rndv_0. by apply rndv_mono. Qed.

(** * Values of floats *)

(** Floats that are neither NaN nor negative, in the form arithmetic leaves them. *)
Definition canon (x : float) : Prop :=
  match x with
  | S754_zero _ | S754_infinity false => True
  | S754_finite false m e => bounded 53 1024 m e = true
  | _ => False
  end.

Definition fval (x : float) : Z :=
  match x with
  | S754_finite _ m e => Zpos m * 2 ^ (e - E0)
  | S754_infinity _ => INF
  | _ => 0
  end.

Lemma bounded_spec m e :
  bounded 53 1024 m e = true ↔
  e <= 971 ∧ -1074 <= e ∧ Zpos m < 2 ^ 53 ∧ (-1074 < e → 2 ^ 52 <= Zpos m).
Proof.
  unfold bounded, canonical_mantissa. rewrite andb_true_iff, Z.leb_le.
  rewrite <- Zeq_is_eq_bool. change (Z.pos (digits2_pos m)) with (Zdigits2 (Zpos m)).
  destruct (digits_bounds (Zpos m) ltac:(lia)) as (Hd & H1 & H2). unfold fexp, emin. split.
  - intros [Hf He]. split_and!; [lia|lia| |].
    + apply (Z.lt_le_trans _ _ _ H2), Z.pow_le_mono_r; lia.
    + intros Hlt. etransitivity; [|exact H1]. apply Z.pow_le_mono_r; lia.
  - intros (He & He' & Hm & Hm'). split; [|lia].
    assert (Zdigits2 (Z.pos m) - 1 < 53) by (apply (Z.pow_lt_mono_r_iff 2); lia).
    destruct (Z.eq_dec e (-1074)) as [->|]; [lia|]. specialize (Hm' ltac:(lia)).
    assert (52 < Zdigits2 (Z.pos m)) by (apply (Z.pow_lt_mono_r_iff 2); lia). lia.
Qed.

Lemma canon_nonneg x : canon x → fnonneg x.
Proof. by destruct x as [[]|[]| |[] m e]. Qed.

Lemma fval_nonneg x : 0 <= fval x.
Proof.
  destruct x as [| | |s m e]; cbn [fval]; try done. apply Z.mul_nonneg_nonneg; [lia|]. apply Z.pow_nonneg. lia.
Qed.

(** A finite value is a multiple of a power of two, and it is less than infinity. *)
Lemma fval_finite s m e :
  bounded 53 1024 m e = true → let V := fval (S754_finite s m e) in
  0 < V < INF ∧ ulp V = e - E0 ∧ rndv V = V.
Proof.
  intros Hb. cbn [fval]. cbn zeta. pose proof Hb as (He & He' & Hm & Hm')%bounded_spec.
  assert (ulp (Zpos m * 2 ^ (e - E0)) = e - E0) as Eu.
  { unfold ulp. rewrite digits_shift by (unfold E0; lia).
    unfold bounded, canonical_mantissa in Hb. rewrite andb_true_iff in Hb. destruct Hb as [Hb _].
    rewrite <- Zeq_is_eq_bool in Hb. change (Z.pos (digits2_pos m)) with (Zdigits2 (Zpos m)) in Hb.
    unfold fexp, emin in Hb. lia. }
  pose proof (pow2_pos (e - E0) ltac:(unfold E0; lia)) as Hp.
  split_and!; [nia| |done|by apply (rndv_exact _ (Zpos m)); rewrite Eu].
  unfold INF. replace (1024 - E0) with (53 + (971 - e) + (e - E0)) by lia.
  rewrite Z.pow_add_r by (unfold E0; lia). apply Z.mul_lt_mono_pos_r; [done|].
  apply (Z.lt_le_trans _ _ _ Hm), Z.pow_le_mono_r; lia.
Qed.

Lemma fval_bound x : canon x → fval x <= INF.
Proof. destruct x as [| | |[] m e]; try done. intros H. apply (fval_finite false) in H as [[] _]. lia. Qed.

Lemma fval_exact x : canon x → rndv (fval x) = fval x.
Proof.
  destruct x as [| | |[] m e]; intros H; [apply rndv_0|apply rndv_INF|by apply rndv_0|done|].
  by apply (fval_finite false) in H as (_ & _ & ?).
Qed.

(** Comparing floats is comparing values. *)
Lemma flt_val x y : canon x → canon y → flt x y = (fval x <? fval y).
Proof.
  intros Hx Hy.
  assert (0 < INF) by done.
  assert (∀ m e m' e', bounded 53 1024 m e = true → bounded 53 1024 m' e' = true → e < e' →
    Zpos m * 2 ^ (e - E0) < Zpos m' * 2 ^ (e' - E0)) as Hexp.
  { intros m e m' e' (_ & Hel & Hm & _)%bounded_spec (_ & _ & _ & Hm')%bounded_spec Hlt.
    specialize (Hm' ltac:(lia)). pose proof (pow2_pos (e - E0) ltac:(unfold E0; lia)).
    replace (e' - E0) with (1 + (e' - e - 1) + (e - E0)) by lia. rewrite !Z.pow_add_r by (unfold E0; lia).
    pose proof (pow2_pos (e' - e - 1) ltac:(lia)). rewrite Z.mul_assoc. apply Z.mul_lt_mono_pos_r; [done|]. nia. }
  unfold flt, SFltb, SFcompare.
  destruct x as [sx|[]| |[] m e]; try done; destruct y as [sy|[]| |[] m' e']; try done; cbn [canon] in *.
  - cbn [fval]. symmetry. apply Z.ltb_lt. by apply (fval_finite false) in Hy as [[] _].
  - by apply (fval_finite false) in Hy as [[] _]; cbn [fval] in *; symmetry; apply Z.ltb_ge; lia.
  - by apply (fval_finite false) in Hx as [[] _]; cbn [fval] in *; symmetry; apply Z.ltb_ge; lia.
  - by apply (fval_finite false) in Hx as [[] _]; cbn [fval] in *; symmetry; apply Z.ltb_lt; lia.
  - fold_pos_compare. cbn [fval]. destruct (Z.compare_spec e e') as [->|Hlt|Hlt].
    + pose proof (pow2_pos (e' - E0)) as Hp. apply bounded_spec in Hx as (_ & ? & _).
      specialize (Hp ltac:(unfold E0; lia)).
      destruct (Pos.compare_spec m m'); symmetry; [apply Z.ltb_ge; subst; lia|apply Z.ltb_lt|apply Z.ltb_ge]; nia.
    + symmetry. by apply Z.ltb_lt, Hexp.
    + symmetry. by apply Z.ltb_ge, Z.lt_le_incl, Hexp.
Qed.

(** * The operations round the exact result *)

(** What a float is, as the rounding of an exact value. *)
Definition rounds_to (x : float) (V : Z) : Prop := canon x ∧ fval x = Z.min (rndv V) INF.

Lemma shr_fexp_shifted m e :
  0 <= m → e <= fexp 53 1024 (Zdigits2 m + e) →
  let '(r, e') := shr_fexp 53 1024 m e loc_Exact in
  e' = fexp 53 1024 (Zdigits2 m + e) ∧ shifted m (e' - e) r.
Proof.
  intros Hm He. unfold shr_fexp, shr. set (f := fexp 53 1024 _) in *. clearbody f. cbn [shr_record_of_loc].
  assert (shifted m 0 {| shr_m := m; shr_r := false; shr_s := false |}) as H0.
  { split; cbn; [by rewrite Z.div_1_r|by rewrite Z.mod_1_r]. }
  destruct (f - e) as [|p|p] eqn:E; [|split; [lia|]|lia].
  - split; [lia|]. by replace (e - e) with 0 by lia.
  - replace (e + Z.pos p - e) with (0 + Z.pos p) by lia. by apply iter_shr_shifted.
Qed.

(** A mantissa that fits, or the next power of two. *)
Lemma renormalize q e :
  0 < q → -1074 <= e → q <= 2 ^ 53 → (-1074 < e → 2 ^ 52 <= q) →
  let x := match shr_m (shr_fexp 53 1024 q e loc_Exact).1 with
           | Z0 => S754_zero false
           | Zpos m => if (shr_fexp 53 1024 q e loc_Exact).2 <=? 1024 - 53
                       then S754_finite false m (shr_fexp 53 1024 q e loc_Exact).2 else S754_infinity false
           | _ => S754_nan
           end in
  canon x ∧ fval x = Z.min (q * 2 ^ (e - E0)) INF.
Proof.
  intros Hq He Hub Hlb.
  assert (∃ m e', shr_m (shr_fexp 53 1024 q e loc_Exact).1 = Zpos m ∧ (shr_fexp 53 1024 q e loc_Exact).2 = e' ∧
    -1074 <= e' ∧ Zpos m < 2 ^ 53 ∧ (-1074 < e' → 2 ^ 52 <= Zpos m) ∧
    Zpos m * 2 ^ (e' - E0) = q * 2 ^ (e - E0)) as (m & e' & Em & Ee & He' & Hm & Hm' & EV).
  { destruct (Z.eq_dec q (2 ^ 53)) as [->|Hne].
    - exists (2 ^ 52)%positive, (e + 1). assert (Zdigits2 (2 ^ 53) = 54) as Hd by done.
      unfold shr_fexp. rewrite Hd. replace (fexp 53 1024 (54 + e) - e) with 1 by (unfold fexp, emin; lia).
      cbn [shr fst snd iter_pos]. split_and!; try done; [lia|].
      replace (e + 1 - E0) with (1 + (e - E0)) by lia. rewrite (Z.pow_add_r 2 1) by (unfold E0; lia). lia.
    - destruct q as [|p|p]; try lia. exists p, e. destruct (digits_bounds (Zpos p) ltac:(lia)) as (? & ? & ?).
      assert (Zdigits2 (Zpos p) - 1 < 53) by (apply (Z.pow_lt_mono_r_iff 2); lia).
      unfold shr_fexp. assert (fexp 53 1024 (Zdigits2 (Zpos p) + e) - e <= 0) by (unfold fexp, emin; lia).
      destruct (fexp 53 1024 (Zdigits2 (Zpos p) + e) - e); [|lia|]; cbn; split_and!; try done; lia. }
  cbn zeta. rewrite Em, Ee, <- EV. destruct (Z.leb_spec e' (1024 - 53)) as [Hle|Hgt].
  - assert (bounded 53 1024 m e' = true) as Hb by (apply bounded_spec; split_and!; [lia|done..]).
    split; [done|]. cbn [fval]. symmetry. apply Z.min_l. by apply (fval_finite false) in Hb as [[] _]; cbn [fval] in *; lia.
  - split; [done|]. cbn [fval]. symmetry. apply Z.min_r. specialize (Hm' ltac:(lia)).
    unfold INF. transitivity (2 ^ 52 * 2 ^ (e' - E0)).
    + rewrite <- Z.pow_add_r by (unfold E0; lia). apply Z.pow_le_mono_r; lia.
    + apply Z.mul_le_mono_nonneg_r; [apply Z.pow_nonneg; lia|done].
Qed.

Lemma binary_round_aux_val m e :
  0 < m → E0 <= e → e <= fexp 53 1024 (Zdigits2 m + e) →
  rounds_to (binary_round_aux 53 1024 false m e loc_Exact) (m * 2 ^ (e - E0)).
Proof.
  intros Hm HE He. pose proof (shr_fexp_shifted m e ltac:(lia) He) as H1. unfold rounds_to, binary_round_aux.
  destruct (shr_fexp 53 1024 m e loc_Exact) as [r1 e1]. destruct H1 as [Ee1 Hr1].
  rewrite (shifted_round m (e1 - e) r1) by (lia || done). clear Hr1.
  destruct (digits_bounds m Hm) as (Hd & Hlo & Hhi).
  assert (-1074 <= e1 ∧ Zdigits2 m + e - 53 <= e1 ∧ (-1074 < e1 → e1 = Zdigits2 m + e - 53)) as (He1 & Hdig & Hdig')
    by (subst e1; unfold fexp, emin; lia).
  assert (rndv (m * 2 ^ (e - E0)) = rne m (e1 - e) * 2 ^ (e1 - E0)) as ->.
  { assert (ulp (m * 2 ^ (e - E0)) = e1 - E0) as Eu.
    { unfold ulp. rewrite digits_shift by lia. subst e1. unfold fexp, emin. lia. }
    unfold rndv. rewrite Eu. f_equal. replace (e1 - E0) with (e1 - e + (e - E0)) by lia. apply rne_scale; lia. }
  set (q := rne m (e1 - e)).
  assert (q <= 2 ^ 53) as Hq.
  { unfold q. rewrite <- (rne_exact (2 ^ 53) (e1 - e)) by lia. apply rne_mono; [lia|].
    rewrite <- Z.pow_add_r by lia. apply Z.lt_le_incl, (Z.lt_le_trans _ _ _ Hhi), Z.pow_le_mono_r; lia. }
  assert (-1074 < e1 → 2 ^ 52 <= q) as Hq'.
  { intros Hlt. unfold q. rewrite <- (rne_exact (2 ^ 52) (e1 - e)) by lia. apply rne_mono; [lia|].
    rewrite <- Z.pow_add_r by lia. etransitivity; [|exact Hlo]. apply Z.pow_le_mono_r; lia. }
  assert (0 <= q) as Hq0.
  { unfold q. rewrite <- (rne_exact 0 (e1 - e)) by lia. apply rne_mono; lia. }
  destruct (Z.eq_dec q 0) as [->|Hne].
  - unfold shr_fexp. cbn [Zdigits2].
    assert (∀ p r, shr_m r = 0 → shr_m (iter_pos shr_1 p r) = 0) as H0.
    { intros p r Hr. rewrite iter_shr_div by lia. by rewrite Hr. }
    destruct (fexp 53 1024 (0 + e1) - e1); cbn -[iter_pos]; rewrite ?H0 by done; done.
  - pose proof (renormalize q e1 ltac:(lia) He1 Hq Hq') as H2.
    destruct (shr_fexp 53 1024 q e1 loc_Exact) as [r2 e2]. exact H2.
Qed.

(** A mantissa shifted left by as much as it lacks. *)
Lemma shl_align_val m e e' :
  let '(m', e'') := shl_align m e e' in
  Zpos m' = Zpos m * 2 ^ (e - e'') ∧ e'' = Z.min e e'.
Proof.
  unfold shl_align. destruct (e' - e) as [|p|p] eqn:E; [rewrite Z.sub_diag; lia|rewrite Z.sub_diag; lia|].
  split; [|lia]. replace (e - e') with (Z.pos p) by lia. clear E.
  induction p as [|p IH] using Pos.peano_ind; [cbn; lia|].
  rewrite Pos.iter_succ, (Pos2Z.inj_xO (Pos.iter _ _ _)), IH, Pos2Z.inj_succ, Z.pow_succ_r by lia. lia.
Qed.

Lemma binary_round_val m e :
  E0 <= e → rounds_to (binary_round 53 1024 false m e) (Zpos m * 2 ^ (e - E0)).
Proof.
  intros HE. unfold binary_round.
  set (f := fexp 53 1024 _). pose proof (shl_align_val m e f) as Ha.
  destruct (shl_align m e f) as [m' e'']. destruct Ha as [Em Ee].
  assert (E0 <= e'') as HE' by (subst e'' f; unfold fexp, emin, E0 in *; lia).
  replace (Zpos m * 2 ^ (e - E0)) with (Zpos m' * 2 ^ (e'' - E0)).
  - apply binary_round_aux_val; [done..|]. rewrite Em, digits_shift by lia.
    change (Z.pos (digits2_pos m)) with (Zdigits2 (Zpos m)) in f.
    replace (Zdigits2 (Z.pos m) + (e - e'') + e'') with (Zdigits2 (Z.pos m) + e) by lia. subst f. lia.
  - rewrite Em, <- Z.mul_assoc, <- Z.pow_add_r by lia. do 2 f_equal. lia.
Qed.

Lemma rounds_exact x V : canon x → fval x = V → rounds_to x V.
Proof. intros Hx <-. split; [done|]. rewrite fval_exact by done. symmetry. apply Z.min_l. by apply fval_bound. Qed.

Lemma rounds_big x V : canon x → fval x = INF → INF <= V → rounds_to x V.
Proof.
  intros Hx E HV. split; [done|]. rewrite E. symmetry. apply Z.min_r. rewrite <- rndv_INF at 1.
  by apply rndv_mono.
Qed.

Lemma align_val m e ez : ez <= e → Zpos (shl_align m e ez).1 = Zpos m * 2 ^ (e - ez).
Proof.
  intros He. pose proof (shl_align_val m e ez) as H. destruct (shl_align m e ez) as [m' e'']. destruct H as [Em ->].
  cbn. by rewrite Z.min_r in Em by done.
Qed.

Lemma big_plus V : 0 <= V → INF <= INF + V ∧ INF <= V + INF.
Proof. generalize INF. lia. Qed.

Lemma fadd_val x y : canon x → canon y → rounds_to (fadd x y) (fval x + fval y).
Proof.
  intros Hx Hy. pose proof (fval_nonneg x) as Hvx. pose proof (fval_nonneg y) as Hvy.
  destruct x as [sx|[]| |[] m e]; try (exfalso; done); destruct y as [sy|[]| |[] m' e']; try (exfalso; done); unfold fadd, SFadd.
  - by destruct sx, sy; apply rounds_exact.
  - apply rounds_exact; [done|]. symmetry. apply Z.add_0_l.
  - apply rounds_exact; [done|]. symmetry. apply Z.add_0_l.
  - apply rounds_exact; [done|]. symmetry. apply Z.add_0_r.
  - apply rounds_big; [done|reflexivity|]. apply (big_plus _ Hvy).
  - apply rounds_big; [done|reflexivity|]. apply (big_plus _ Hvy).
  - apply rounds_exact; [done|]. symmetry. apply Z.add_0_r.
  - apply rounds_big; [done|reflexivity|]. apply (big_plus _ Hvx).
  - cbn [fval cond_Zopp]. rewrite !align_val by lia.
    apply bounded_spec in Hx as (_ & ? & _). apply bounded_spec in Hy as (_ & ? & _).
    set (ez := Z.min e e'). assert (E0 <= ez) by (unfold E0, ez; lia).
    assert (∀ p k, ez <= k → Zpos p * 2 ^ (k - E0) = Zpos p * 2 ^ (k - ez) * 2 ^ (ez - E0)) as Hs.
    { intros p k Hk. rewrite <- Z.mul_assoc, <- Z.pow_add_r by lia. do 2 f_equal. lia. }
    rewrite !Hs by lia. rewrite <- Z.mul_add_distr_r.
    pose proof (pow2_pos (e - ez) ltac:(lia)). pose proof (pow2_pos (e' - ez) ltac:(lia)).
    destruct (Z.pos m * 2 ^ (e - ez) + Z.pos m' * 2 ^ (e' - ez)) as [|p|p] eqn:E; [nia| |nia].
    by apply binary_round_val.
Qed.

(** Subtracting from a finite value one that is not larger. *)
Lemma fsub_val x y : canon x → canon y → fval x < INF → fval y <= fval x → rounds_to (fsub x y) (fval x - fval y).
Proof.
  intros Hx Hy Hfin Hle.
  destruct x as [sx|[]| |[] m e]; try done; destruct y as [sy|[]| |[] m' e']; try done; unfold fsub, SFsub.
  - by destruct sx, sy; apply rounds_exact.
  - apply (fval_finite false) in Hy as [[] _]. cbn [fval] in *. lia.
  - apply rounds_exact; [done|]. cbn [fval]. lia.
  - change (fval (S754_infinity false)) with INF in *. lia.
  - cbn [fval cond_Zopp] in *. rewrite !align_val by lia.
    apply bounded_spec in Hx as (_ & ? & _). apply bounded_spec in Hy as (_ & ? & _).
    set (ez := Z.min e e'). assert (E0 <= ez) by (unfold E0, ez; lia).
    assert (∀ p k, ez <= k → Zpos p * 2 ^ (k - E0) = Zpos p * 2 ^ (k - ez) * 2 ^ (ez - E0)) as Hs.
    { intros p k Hk. rewrite <- Z.mul_assoc, <- Z.pow_add_r by lia. do 2 f_equal. lia. }
    rewrite !Hs in * by lia. rewrite <- Z.mul_sub_distr_r.
    pose proof (pow2_pos (ez - E0) ltac:(lia)).
    destruct (Z.pos m * 2 ^ (e - ez) - Z.pos m' * 2 ^ (e' - ez)) as [|p|p] eqn:E; [by apply rounds_exact| |nia].
    by apply binary_round_val.
Qed.

(** The product of two values, in the unit of values. *)
Definition val_mul (V V' : Z) : Z := V * V' / 2 ^ (- E0).

Lemma fmul_val x y : canon x → canon y → fval x < INF → fval y < INF → rounds_to (fmul x y) (val_mul (fval x) (fval y)).
Proof.
  intros Hx Hy Hfx Hfy.
  destruct x as [sx|[]| |[] m e]; try done; destruct y as [sy|[]| |[] m' e']; try done; unfold fmul, SFmul;
    try (change (fval (S754_infinity false)) with INF in *; lia);
    try (by apply rounds_exact; [done|]; cbn [fval]; unfold val_mul; rewrite ?Z.mul_0_r).
  pose proof Hx as (_ & ? & _ & Hnx)%bounded_spec. pose proof Hy as (_ & ? & _ & Hny)%bounded_spec.
  cbn [xorb fval]. unfold val_mul.
  replace (Z.pos m * 2 ^ (e - E0) * (Z.pos m' * 2 ^ (e' - E0))) with
    (Z.pos (m * m') * 2 ^ (e + e' - E0) * 2 ^ (- E0)).
  2:{ rewrite Pos2Z.inj_mul. rewrite <- (Z.mul_assoc _ (2 ^ (e + e' - E0))), <- Z.pow_add_r by (unfold E0; lia).
      replace (e + e' - E0 + - E0) with ((e - E0) + (e' - E0)) by lia. rewrite Z.pow_add_r by (unfold E0; lia). lia. }
  rewrite Z.div_mul by done. apply binary_round_aux_val; [lia|unfold E0; lia|].
  destruct (Z.eq_dec e (-1074)) as [->|Hne]; [destruct (Z.eq_dec e' (-1074)) as [->|Hne']|].
  - unfold fexp, emin. lia.
  - specialize (Hny ltac:(lia)). destruct (digits_bounds (Z.pos (m * m')) ltac:(lia)) as (? & _ & Hd).
    assert (52 < Zdigits2 (Z.pos (m * m'))) by (apply (Z.pow_lt_mono_r_iff 2); nia). unfold fexp, emin. lia.
  - specialize (Hnx ltac:(lia)). destruct (digits_bounds (Z.pos (m * m')) ltac:(lia)) as (? & _ & Hd).
    assert (52 < Zdigits2 (Z.pos (m * m'))) by (apply (Z.pow_lt_mono_r_iff 2); nia). unfold fexp, emin. lia.
Qed.

Lemma rounds_le x y V V' : rounds_to x V → rounds_to y V' → 0 <= V → V <= V' → fval x <= fval y.
Proof. intros [_ ->] [_ ->] H0 Hle. pose proof (rndv_mono V V' H0 Hle). lia. Qed.

Lemma rounds_le_canon x V y : rounds_to x V → canon y → 0 <= V → V <= fval y → fval x <= fval y.
Proof. intros Hx Hy. eapply rounds_le; [done|]. by apply rounds_exact. Qed.

Lemma rounds_ge_canon x V y : rounds_to x V → canon y → fval y <= V → fval y <= fval x.
Proof. intros Hx Hy HV. eapply rounds_le; [by apply rounds_exact|done| |done]. apply fval_nonneg. Qed.

Lemma val_mul_mono V V' W W' : 0 <= V → V <= V' → 0 <= W → W <= W' → val_mul V W <= val_mul V' W'.
Proof. intros. unfold val_mul. apply Z.div_le_mono; [done|nia]. Qed.

Lemma fmin_val x y : canon x → canon y → canon (fmin x y) ∧ fval (fmin x y) = Z.min (fval x) (fval y).
Proof. intros Hx Hy. unfold fmin. rewrite flt_val by done. destruct (Z.ltb_spec (fval y) (fval x)); split; (done || lia). Qed.

Lemma fmax_val x y : canon x → canon y → canon (fmax x y) ∧ fval (fmax x y) = Z.max (fval x) (fval y).
Proof. intros Hx Hy. unfold fmax. rewrite flt_val by done. destruct (Z.ltb_spec (fval x) (fval y)); split; (done || lia). Qed.

(** A quotient of at most one is a number. *)
Lemma fdiv_unit x y : canon x → canon y → 0 < fval y < INF → fval x <= fval y → fnonneg (fdiv x y) ∧ ffinite (fdiv x y) = true.
Proof.
  intros Hx Hy [Hy0 Hyf] Hle. destruct y as [sy|[]| |[] m2 e2]; try done.
  destruct x as [sx|[]| |[] m1 e1]; try done;
    try (change (fval (S754_infinity false)) with INF in *; lia).
  pose proof Hx as (_ & ? & _)%bounded_spec. pose proof Hy as (_ & ? & _)%bounded_spec. cbn [fval] in Hle.
  unfold fdiv, SFdiv, SFdiv_core_binary. cbn [xorb].
  destruct (digits_bounds (Zpos m1) ltac:(lia)) as (? & Hd1 & _). destruct (digits_bounds (Zpos m2) ltac:(lia)) as (? & _ & Hd2).
  set (e' := Z.min _ _).
  assert (Zdigits2 (Z.pos m1) - 1 + (e1 - E0) < Zdigits2 (Z.pos m2) + (e2 - E0)) as Hdig.
  { apply (Z.pow_lt_mono_r_iff 2); [lia|unfold E0; lia|]. rewrite !Z.pow_add_r by (unfold E0; lia).
    pose proof (pow2_pos (e1 - E0) ltac:(unfold E0; lia)). pose proof (pow2_pos (e2 - E0) ltac:(unfold E0; lia)). nia. }
  assert (e' <= 0 ∧ e' <= e1 - e2) as [He' He''] by (unfold e', fexp, emin; lia). clearbody e'.
  set (m := match e1 - e2 - e' with Z0 => _ | _ => _ end).
  assert (m = Zpos m1 * 2 ^ (e1 - e2 - e')) as Em.
  { unfold m. destruct (e1 - e2 - e') as [|k|k] eqn:E; [lia| |lia]. by rewrite Z.shiftl_mul_pow2 by lia. }
  clearbody m. pose proof (Z_div_mod m (Zpos m2) ltac:(lia)) as Hd.
  destruct (Z.div_eucl m (Zpos m2)) as [q r]. destruct Hd as [Hd Hr].
  assert (m <= Zpos m2 * 2 ^ (- e')) as Hm.
  { rewrite Em. apply (Z.mul_le_mono_pos_r _ _ (2 ^ (e2 - E0))); [apply pow2_pos; unfold E0; lia|].
    rewrite <- !Z.mul_assoc, <- !Z.pow_add_r by (unfold E0; lia).
    replace (e1 - e2 - e' + (e2 - E0)) with (- e' + (e1 - E0)) by lia. rewrite !Z.pow_add_r by (unfold E0; lia).
    pose proof (pow2_pos (- e') ltac:(lia)). nia. }
  assert (0 <= m) by (rewrite Em; apply Z.mul_nonneg_nonneg; [lia|apply Z.pow_nonneg; lia]).
  assert (0 <= q <= 2 ^ (0 - e')) as Hq by (rewrite Z.sub_0_l; nia).
  pose proof (binary_round_aux_nonneg q e' (new_location (Zpos m2) r) ltac:(lia)) as Hnn.
  pose proof (binary_round_aux_finite 0 false q e' (new_location (Zpos m2) r) ltac:(lia) He' Hq) as Hfin.
  split; [done|]. by destruct (binary_round_aux 53 1024 false q e' _) as [|[]| |].
Qed.
