(* ===== verification/RateLimiter.v ===== *)
(** RateLimiterService (src/app/application/services/rate_limiter_service.py), the
    dependency in front of every route (require_rate_limit in
    src/app/presentation/auth.py) and the deployed limiter (dependencies.py).

    A call of [check] reads the clock before it takes the lock; [check now] is the
    part under the lock, given that reading.  Tokens and times are binary64. *)
From S2P Require Import Prelude Values Float64 FloatOrder.
From Stdlib Require Import Floats.SpecFloat.
Local Open Scope Z_scope.

Record bucket := mkBucket { tokens : float; last_refilled_at : float }.

Record limiter := mkLimiter {
  capacity : Z;
  refill_rate_per_second : float;
  buckets : gmap ApiKeyId bucket;
}.

Definition set_buckets (m : gmap ApiKeyId bucket) (L : limiter) : limiter :=
  mkLimiter (capacity L) (refill_rate_per_second L) m.

(** 1.0, and [float(z)] *)
Definition fone : float := S754_finite false (2 ^ 52) (-52).

Definition float_of_int (z : Z) : exn + float :=
  match binary_normalize 53 1024 z 0 false with
  | S754_infinity _ => inl OverflowError
  | x => inr x
  end.

(** RateLimiterService.__init__ *)
Definition new_limiter (capacity : Z) (refill_rate_per_second : float) : exn + limiter :=
  if capacity <=? 0 then inl (ValueError "capacity must be a positive number of tokens.")
  else if fle refill_rate_per_second fzero then inl (ValueError "refill_rate_per_second must be positive.")
  else inr (mkLimiter capacity refill_rate_per_second ∅).

(** What [check] raises. *)
Inductive limit_exn :=
  | RateLimitExceeded (api_key_id : ApiKeyId) (retry_after_seconds : float)
  | LimiterRaised (e : exn).

Abbreviation limitM := (stM limiter limit_exn).

(** RateLimiterService.check *)
Definition check (now : float) (api_key_id : ApiKeyId) : limitM unit := λ L,
  match float_of_int (capacity L) with
  | inl e => (L, inl (LimiterRaised e))
  | inr full =>
      let b := default (mkBucket full now) (buckets L !! api_key_id) in
      let elapsed := fsub now (last_refilled_at b) in
      let t := fmin full (fadd (tokens b) (fmul elapsed (refill_rate_per_second L))) in
      let save t' := set_buckets (<[api_key_id := mkBucket t' now]> (buckets L)) L in
      if flt t fone then
        (save t, inl (RateLimitExceeded api_key_id (fdiv (fsub fone t) (refill_rate_per_second L))))
      else (save (fsub t fone), inr tt)
  end.

(** [int(x)]: towards zero *)
Definition int_of_float (x : float) : exn + Z :=
  match x with
  | S754_zero _ => inr 0
  | S754_infinity _ => inl OverflowError
  | S754_nan => inl (ValueError "cannot convert float NaN to integer")
  | S754_finite s m e =>
      let z := if 0 <=? e then Zpos m * 2 ^ e else Zpos m / 2 ^ (- e) in
      inr (if s then - z else z)
  end.

(** What the dependency raises: 429 with its Retry-After header, or an
    exception no route maps. *)
Inductive throttled := TooManyRequests (retry_after : Z) | Unmapped (e : exn).

(** require_rate_limit *)
Definition require_rate_limit (now : float) (caller_id : ApiKeyId) : stM limiter throttled unit := λ L,
  match check now caller_id L with
  | (L', inr _) => (L', inr tt)
  | (L', inl (LimiterRaised e)) => (L', inl (Unmapped e))
  | (L', inl (RateLimitExceeded _ retry)) =>
      (L', inl match int_of_float retry with inl e => Unmapped e | inr z => TooManyRequests (z + 1) end)
  end.

(** The limiter of the deployed server: 60 requests, 10.0 a second *)
Definition ften : float := S754_finite false (10 * 2 ^ 49) (-49).
Definition _rate_limiter_service : exn + limiter := new_limiter 60 ften.

(** A sequence of calls, with the time each read. *)
Definition check_all (calls : list (float * ApiKeyId)) (L : limiter) : limiter :=
  foldl (λ L c, (check c.1 c.2 L).1) L calls.

(** How many requests of [k] are let through when the requests of [ks] arrive at
    one instant, in this order. *)
Fixpoint admitted (now : float) (k : ApiKeyId) (ks : list ApiKeyId) (L : limiter) : nat :=
  match ks with
  | [] => 0
  | k' :: ks =>
      let '(L', r) := check now k' L in
      (if bool_decide (k' = k) then match r with inr _ => 1 | inl _ => 0 end else 0) + admitted now k ks L'
  end.

(** Times the clock can read, and one that comes no earlier than another. *)
Definition reading (x : float) : Prop := canon x ∧ fval x < INF.
Definition not_before (x y : float) : Prop := fval x <= fval y.

(** [n] seconds later *)
Definition later (n : Z) (x y : float) : Prop := fval x + n * fval fone <= fval y.

(** Calls whose clock readings never go backwards, the last not after [now]. *)
Fixpoint in_order (calls : list (float * ApiKeyId)) (now : float) : Prop :=
  match calls with
  | [] => reading now
  | c :: rest => reading (c.1) ∧ in_order rest now ∧ not_before (c.1) (default now (head (rest.*1)))
  end.

(** * Whole numbers of tokens *)

Definition one : Z := fval fone.

Lemma one_pow : one = 2 ^ (- E0).
Proof. vm_compute. reflexivity. Qed.

Lemma one_pos : 0 < one < INF.
Proof. by vm_compute. Qed.

Lemma canon_fone : canon fone.
Proof. done. Qed.

(** Whole numbers up to [2 ^ 53] are represented exactly. *)
Lemma rndv_int c : 0 <= c < 2 ^ 53 → rndv (c * one) = c * one ∧ c * one < INF.
Proof.
  intros [Hc Hc']. rewrite one_pow. destruct (Z.eq_dec c 0) as [->|]; [done|].
  split.
  - set (u := ulp (c * 2 ^ (- E0))). assert (u <= - E0) as Hu.
    { unfold u, ulp. rewrite digits_shift by (unfold E0; lia). destruct (digits_bounds c ltac:(lia)) as (? & ? & _).
      assert (Zdigits2 c - 1 < 53) by (apply (Z.pow_lt_mono_r_iff 2); lia). unfold E0. lia. }
    apply (rndv_exact _ (c * 2 ^ (- E0 - u))). fold u. pose proof (ulp_pos (c * 2 ^ (- E0))).
    rewrite <- Z.mul_assoc, <- Z.pow_add_r by lia. do 2 f_equal. lia.
  - unfold INF. replace (1024 - E0) with (1024 + - E0) by lia. rewrite Z.pow_add_r by done.
    apply Z.mul_lt_mono_pos_r; [done|]. etransitivity; [done|]. by apply Z.pow_lt_mono_r.
Qed.

Lemma float_of_int_val c : 0 < c < 2 ^ 53 → ∃ full, float_of_int c = inr full ∧ canon full ∧ fval full = c * one.
Proof.
  intros [Hc Hc']. destruct c as [|p|p]; try lia. unfold float_of_int. cbn [binary_normalize].
  destruct (binary_round_val p 0 ltac:(done)) as [Hcan Hval].
  destruct (rndv_int (Zpos p) ltac:(lia)) as [Hr Hlt].
  replace (0 - E0) with (- E0) in Hval by done. rewrite <- one_pow, Hr, Z.min_l in Hval by lia.
  exists (binary_round 53 1024 false p 0).
  destruct (binary_round 53 1024 false p 0) as [|[]| |]; try done. cbn [fval] in Hval. lia.
Qed.

(** * Buckets stay between empty and full *)

Section limiter.
Context (c : Z) (rate : float).
Context (Hc : 0 < c < 2 ^ 53) (Hrate : canon rate ∧ fval rate < INF).

Record bucket_ok (b : bucket) (now : float) : Prop := mkBucketOk {
  bo_tokens : canon (tokens b);
  bo_full : fval (tokens b) <= c * one;
  bo_read : reading (last_refilled_at b);
  bo_past : not_before (last_refilled_at b) now;
}.

Record limiter_ok (L : limiter) (now : float) : Prop := mkLimiterOk {
  lo_capacity : capacity L = c;
  lo_rate : refill_rate_per_second L = rate;
  lo_buckets : map_Forall (λ _ b, bucket_ok b now) (buckets L);
}.

(** The tokens the key [k] has to spend at [now]. *)
Definition level (L : limiter) (now : float) (k : ApiKeyId) (t : float) : Prop :=
  ∃ full, float_of_int (capacity L) = inr full ∧
    let b := default (mkBucket full now) (buckets L !! k) in
    t = fmin full (fadd (tokens b) (fmul (fsub now (last_refilled_at b)) (refill_rate_per_second L))).

Lemma check_level L now k t :
  level L now k t →
  check now k L =
    let save t' := set_buckets (<[k := mkBucket t' now]> (buckets L)) L in
    if flt t fone then (save t, inl (RateLimitExceeded k (fdiv (fsub fone t) (refill_rate_per_second L))))
    else (save (fsub t fone), inr tt).
Proof using. intros (full & E & ->). unfold check. by rewrite E. Qed.

(** The refill is the exact one, rounded, and never takes tokens away. *)
Lemma refill_val b now full :
  bucket_ok b now → reading now → canon full → fval full = c * one →
  let added := fmul (fsub now (last_refilled_at b)) rate in
  let t := fmin full (fadd (tokens b) added) in
  canon added ∧ canon t ∧ fval t <= c * one ∧ Z.min (c * one) (fval (tokens b)) <= fval t ∧
  (fval added <= fval full → fval added <= fval t) ∧
  fval t = Z.min (c * one) (fval (fadd (tokens b) added)) ∧
  (last_refilled_at b = now → fval t = fval (tokens b)).
Proof using Hc Hrate.
  intros [Ht Htf [Hl Hlf] Hp] [Hn Hnf] Hfc Hf. cbn zeta. destruct Hrate as [Hr Hrf].
  pose proof (fval_nonneg (tokens b)). pose proof (fval_nonneg (last_refilled_at b)).
  destruct (fsub_val now (last_refilled_at b) Hn Hl Hnf Hp) as [Hec He].
  set (el := fsub now (last_refilled_at b)) in *.
  assert (fval el < INF) as Hef.
  { apply (Z.le_lt_trans _ (fval now)); [|done]. eapply rounds_le_canon; [split; eassumption|done|..]; unfold not_before in *; lia. }
  destruct (fmul_val el rate Hec Hr Hef Hrf) as [Hac Ha]. set (ad := fmul el rate) in *.
  pose proof (fval_nonneg ad). destruct (fadd_val (tokens b) ad Ht Hac) as [Hsc Hs].
  destruct (fmin_val full (fadd (tokens b) ad) Hfc Hsc) as [Hmc Hm]. rewrite Hm, Hf.
  assert (fval (tokens b) <= fval (fadd (tokens b) ad)) as Hge
    by (eapply rounds_ge_canon; [split; eassumption|done|lia]).
  assert (fval ad <= fval (fadd (tokens b) ad)) as Hge'
    by (eapply rounds_ge_canon; [split; eassumption|done|lia]).
  split_and!; try done; try lia. intros Heq.
  rewrite Heq, Z.sub_diag in He. assert (fval el = 0) as E0' by (rewrite He, rndv_0; pose proof one_pos; lia).
  rewrite E0' in Ha. unfold val_mul in Ha. rewrite Z.mul_0_l, Z.div_0_l, rndv_0 in Ha by done.
  assert (fval ad = 0) as Ea by (pose proof one_pos; lia).
  rewrite Ea, Z.add_0_r, fval_exact in Hs by done. rewrite Hs. pose proof (fval_bound _ Ht). lia.
Qed.

(** A bucket that was just used, or that is made now. *)
Lemma fresh_bucket_ok now full : reading now → canon full → fval full = c * one → bucket_ok (mkBucket full now) now.
Proof using. intros Hn Hf Ef. split; cbn [tokens last_refilled_at]; [done|lia|done|unfold not_before; lia]. Qed.

Lemma level_exists L now k :
  limiter_ok L now → reading now →
  ∃ t, level L now k t ∧ canon t ∧ fval t <= c * one ∧ (buckets L !! k = None → fval t = c * one).
Proof using Hc Hrate.
  intros [Ec Er Hb] Hn. destruct (float_of_int_val c Hc) as (full & Ef & Hfc & Hf).
  set (b := default (mkBucket full now) (buckets L !! k)).
  assert (bucket_ok b now) as Hbo.
  { unfold b. destruct (buckets L !! k) as [b'|] eqn:E; [exact (Hb _ _ E)|by apply fresh_bucket_ok]. }
  destruct (refill_val b now full Hbo Hn Hfc Hf) as (_ & Htc & Htf & _ & _ & _ & Hsame).
  eexists. split; [exists full; by rewrite Ec, Er|]. split_and!; try done.
  intros E. rewrite <- Hf. unfold b in Hsame. rewrite E in Hsame |- *. by apply Hsame.
Qed.

(** What a call leaves: the bucket of its key, with the tokens not spent. *)
Lemma check_ok L now k t :
  limiter_ok L now → reading now → level L now k t → canon t → fval t <= c * one →
  ∃ t' r, check now k L = (set_buckets (<[k := mkBucket t' now]> (buckets L)) L, r) ∧
    canon t' ∧ fval t' <= c * one ∧
    (if flt t fone then t' = t ∧ r = inl (RateLimitExceeded k (fdiv (fsub fone t) rate))
     else rounds_to t' (fval t - one) ∧ r = inr tt).
Proof using Hc.
  intros [Ec Er Hb] Hn Hlv Htc Htf. rewrite (check_level L now k t Hlv). cbn zeta. rewrite flt_val by done.
  destruct (Z.ltb_spec (fval t) (fval fone)) as [Hlt|Hge]; [exists t; eexists; by rewrite Er|].
  change (fval fone) with one in *. pose proof one_pos.
  assert (rounds_to (fsub t fone) (fval t - one)) as [H1 H2].
  { apply fsub_val; try done. destruct (rndv_int c ltac:(lia)) as [_ ?]. lia. }
  exists (fsub t fone). eexists. split_and!; [done|done| |done|done].
  etransitivity; [|exact Htf]. eapply rounds_le_canon; [split; eassumption|done|lia..].
Qed.

Lemma limiter_ok_check L now k : limiter_ok L now → reading now → limiter_ok (check now k L).1 now.
Proof using Hc Hrate.
  intros HL Hn. destruct (level_exists L now k HL Hn) as (t & Hlv & Htc & Htf & _).
  destruct (check_ok L now k t HL Hn Hlv Htc Htf) as (t' & r & -> & Ht'c & Ht'f & _). destruct HL as [Ec Er Hb].
  split; try done. cbn. apply map_Forall_insert_2; [|done]. split; cbn [tokens last_refilled_at]; [done..|]. unfold not_before. lia.
Qed.

Lemma limiter_ok_later L now now' : limiter_ok L now → not_before now now' → limiter_ok L now'.
Proof using.
  intros [Ec Er Hb] Hle. split; try done. intros k b E. destruct (Hb k b E) as [? ? ? ?].
  split; try done. unfold not_before in *. lia.
Qed.

Lemma check_all_ok calls now L :
  in_order calls now → limiter_ok L (default now (head (calls.*1))) → limiter_ok (check_all calls L) now.
Proof using Hc Hrate.
  revert L. induction calls as [|[n k] calls IH]; intros L Ho HL; [done|].
  destruct Ho as (Hn & Ho & Hnb). cbn in *. apply IH; [done|]. eapply limiter_ok_later; [|done]. by apply limiter_ok_check.
Qed.

Lemma check_other L now k k' : k ≠ k' → buckets (check now k L).1 !! k' = buckets L !! k'.
Proof using. intros Hne. unfold check. repeat case_match; cbn; try done; by rewrite lookup_insert_ne. Qed.

Lemma check_all_other calls L k :
  k ∉ calls.*2 → buckets (check_all calls L) !! k = buckets L !! k.
Proof using.
  revert L. induction calls as [|[n k'] calls IH]; intros L Hk; [done|]. apply not_elem_of_cons in Hk as [Hne Hk].
  change (buckets (check_all calls (check n k' L).1) !! k = buckets L !! k).
  rewrite IH by done. by apply check_other, not_eq_sym.
Qed.

Lemma level_other L now k k' t :
  k ≠ k' → level L now k' t → limiter_ok L now → limiter_ok (check now k L).1 now → level (check now k L).1 now k' t.
Proof using.
  intros Hne (full & E & ->) [Ec Er _] [Ec' Er' _]. exists full. rewrite Ec', Er', check_other by done.
  rewrite Ec in E. by rewrite Er.
Qed.

(** After a call the level at the same instant is what the call left. *)
Lemma level_same L now k t' :
  limiter_ok L now → reading now → canon t' → fval t' <= c * one →
  ∃ t2, level (set_buckets (<[k := mkBucket t' now]> (buckets L)) L) now k t2 ∧ canon t2 ∧ fval t2 = fval t'.
Proof using Hc Hrate.
  intros [Ec Er Hb] Hn Htc Htf. destruct (float_of_int_val c Hc) as (full & Ef & Hfc & Hf).
  assert (bucket_ok (mkBucket t' now) now) as Hbo by (split; cbn [tokens last_refilled_at]; [done..|unfold not_before; lia]).
  destruct (refill_val (mkBucket t' now) now full Hbo Hn Hfc Hf) as (_ & H1 & _ & _ & _ & _ & H2).
  eexists. split; [exists full; cbn; rewrite lookup_insert_eq; cbn; by rewrite Ec, Er|].
  split; [done|]. by apply H2.
Qed.

(** Rounding does not leave an interval between whole numbers. *)
Lemma rounds_between t V lo hi :
  rounds_to t V → 0 <= V → 0 <= lo → 0 <= hi < 2 ^ 53 → lo * one <= V <= hi * one → lo * one <= fval t <= hi * one.
Proof using.
  intros [_ ->] HV Hlo Hhi [H1 H2]. pose proof one_pos.
  destruct (rndv_int hi Hhi) as [Eh Hh]. destruct (rndv_int lo) as [El Hl]; [split; [done|]; nia|].
  apply rndv_mono in H2 as H2'; [|done]. apply rndv_mono in H1 as H1'; [|nia]. rewrite Eh in H2'. rewrite El in H1'. lia.
Qed.

(** At one instant a key spends what it has, whatever other keys do meanwhile. *)
Lemma burst_between now k ks L t lo hi :
  limiter_ok L now → reading now → level L now k t → canon t → Z.of_nat hi <= c →
  Z.of_nat lo * one <= fval t <= Z.of_nat hi * one →
  (min lo (length (filter (.= k) ks)) ≤ admitted now k ks L ≤ min hi (length (filter (.= k) ks)))%nat.
Proof using Hc Hrate.
  intros HL Hn. revert L t lo hi HL. induction ks as [|k' ks IH]; intros L t lo hi HL Hlv Htc Hhi Hb; [cbn; lia|].
  pose proof one_pos. pose proof (limiter_ok_check L now k' HL Hn) as HL'. cbn [admitted].
  rewrite filter_cons. case_bool_decide as Hk.
  2:{ rewrite decide_False by done. pose proof (level_other L now k' k t Hk Hlv HL HL') as Hlv'.
      destruct (check now k' L) as [L' r]. by apply (IH L' t lo hi). }
  subst k'. rewrite decide_True by done. cbn [length].
  destruct (check_ok L now k t HL Hn Hlv Htc ltac:(nia)) as (t' & r & E & Ht'c & Ht'f & Hr).
  rewrite E in *. cbn [fst] in HL'.
  destruct (level_same L now k t' HL Hn Ht'c Ht'f) as (t2 & Hlv2 & Ht2c & Et2).
  rewrite flt_val in Hr by done. destruct (Z.ltb_spec (fval t) (fval fone)) as [Hlt|Hge];
    change (fval fone) with one in *; destruct Hr as [Hr ->].
  - subst t'. assert (lo = 0)%nat as -> by nia.
    specialize (IH _ t2 0%nat hi HL' Hlv2 Ht2c Hhi ltac:(rewrite Et2; lia)). lia.
  - assert (1 <= Z.of_nat hi) by nia.
    assert (Z.of_nat (pred lo) * one <= fval t' <= Z.of_nat (pred hi) * one) as Hb'.
    { apply (rounds_between t' (fval t - one)); [done|lia..|]. split; nia. }
    specialize (IH _ t2 (pred lo) (pred hi) HL' Hlv2 Ht2c ltac:(lia) ltac:(by rewrite Et2)). lia.
Qed.
End limiter.

Lemma new_limiter_ok c rate L now : new_limiter c rate = inr L → limiter_ok c rate L now ∧ 0 < c ∧ buckets L = ∅.
Proof.
  unfold new_limiter. destruct (Z.leb_spec c 0); [done|]. destruct (fle rate fzero); [done|]. intros [= <-].
  split; [|done]. by split.
Qed.

(** C27: A burst is bounded by the capacity, and an idle caller gets all of it.
    Take a limiter with a capacity below 2^53, after any calls whose clock readings
    never went backwards, and any requests that arrive at one instant, of any
    callers in any order.  Of the requests of one caller no more than [capacity] are
    admitted; and if the caller has not been seen before, exactly its first
    [capacity] requests are admitted, however the requests of others are spread
    among them. *)
Theorem burst_bounded c rate L past now k burst :
  new_limiter c rate = inr L → c < 2 ^ 53 → reading rate → in_order past now →
  let n := admitted now k burst (check_all past L) in
  Z.of_nat n <= c ∧
  (k ∉ past.*2 → n = min (Z.to_nat c) (length (filter (.= k) burst))).
Proof.
  intros Hnew Hc Hrate Ho. destruct (new_limiter_ok c rate L (default now (head (past.*1))) Hnew) as (HL & Hpos & He).
  assert (reading now) as Hn by (clear -Ho; induction past as [|p past IH]; [done|by apply IH, Ho]).
  pose proof (check_all_ok c rate (conj Hpos Hc) Hrate past now L Ho HL) as HL1.
  destruct (level_exists c rate (conj Hpos Hc) Hrate _ now k HL1 Hn) as (t & Hlv & Htc & Htf & Hfull).
  pose proof (burst_between c rate (conj Hpos Hc) Hrate now k burst (check_all past L) t) as Hbb. cbn zeta. split.
  - specialize (Hbb 0%nat (Z.to_nat c) HL1 Hn Hlv Htc ltac:(lia)).
    rewrite Z2Nat.id in Hbb by lia. specialize (Hbb ltac:(pose proof (fval_nonneg t); lia)). lia.
  - intros Hk. rewrite check_all_other, He in Hfull by done. specialize (Hfull (lookup_empty k)).
    specialize (Hbb (Z.to_nat c) (Z.to_nat c) HL1 Hn Hlv Htc ltac:(lia)).
    rewrite Z2Nat.id in Hbb by lia. specialize (Hbb ltac:(lia)). lia.
Qed.

(** Three tokens, one a second.  Key 1 spends two at time 1.0; key 2 arrives at
    time 2.0 with five requests mixed with two of key 1. *)
Definition key1 : ApiKeyId := mkApiKeyId 1.
Definition key2 : ApiKeyId := mkApiKeyId 2.
Definition small_limiter : limiter := mkLimiter 3 fone ∅.
Definition ftwo : float := S754_finite false (2 ^ 52) (-51).
Definition a_burst : list ApiKeyId := [key2; key1; key2; key2; key1; key2; key2].

Lemma burst_bounded_witness :
  let n := admitted ftwo key2 a_burst (check_all [(fone, key1); (fone, key1)] small_limiter) in
  n = 3%nat ∧ Z.of_nat n <= 3 ∧ (key2 ∉ [key1; key1] → n = min (Z.to_nat 3) (length (filter (.= key2) a_burst))).
Proof.
  split; [vm_compute; reflexivity|].
  apply (burst_bounded 3 fone small_limiter [(fone, key1); (fone, key1)] ftwo key2 a_burst); by vm_compute.
Defined.

(** * Waiting as told *)

Lemma int_of_float_nonneg x : fnonneg x → ffinite x = true → ∃ z, int_of_float x = inr z ∧ 0 <= z.
Proof.
  destruct x as [| | |[] m e]; try done; intros _ _; eexists; (split; [done|]); [lia|].
  destruct (Z.leb_spec 0 e); [apply Z.mul_nonneg_nonneg; [lia|by apply Z.pow_nonneg]|]. apply Z.div_pos; [lia|apply pow2_pos; lia].
Qed.

Section waiting.
Context (c : Z) (rate : float) (Hc : 0 < c < 2 ^ 53) (Hrate : reading rate) (Hfast : one <= fval rate).

(** A refusal names a time, at least one second. *)
Lemma refusal_time L now k t :
  limiter_ok c rate L now → reading now → level L now k t → canon t → fval t <= c * one →
  match require_rate_limit now k L with
  | (_, inr _) => one <= fval t
  | (_, inl (Unmapped _)) => False
  | (L1, inl (TooManyRequests h)) => 1 <= h ∧ L1 = set_buckets (<[k := mkBucket t now]> (buckets L)) L
  end.
Proof using All.
  intros HL Hn Hlv Htc Htf. unfold require_rate_limit.
  destruct (check_ok c rate Hc L now k t HL Hn Hlv Htc Htf) as (t' & r & -> & _ & _ & Hr).
  rewrite flt_val in Hr by done. pose proof one_pos. destruct (Z.ltb_spec (fval t) (fval fone)) as [Hlt|Hge];
    change (fval fone) with one in *; [|by destruct Hr as [_ ->]]. destruct Hr as [-> ->].
  pose proof (fval_nonneg t).
  assert (rounds_to (fsub fone t) (one - fval t)) as Hsub by (apply fsub_val; try done; change (fval fone) with one; lia).
  assert (fval (fsub fone t) <= one) as Hle by (apply (rounds_le_canon _ _ fone Hsub); [done|lia|change (fval fone) with one; lia]).
  destruct (fdiv_unit (fsub fone t) rate) as [Hnn Hfin]; [apply Hsub|apply Hrate|split; [lia|apply Hrate]|lia|].
  destruct (int_of_float_nonneg _ Hnn Hfin) as (z & -> & Hz). split; [lia|done].
Qed.

(** A second is enough to earn a token. *)
Lemma second_earns L now now' k t :
  limiter_ok c rate (set_buckets (<[k := mkBucket t now]> (buckets L)) L) now' → reading now' → later 1 now now' →
  reading now → canon t → fval t <= c * one →
  ∃ t', level (set_buckets (<[k := mkBucket t now]> (buckets L)) L) now' k t' ∧ canon t' ∧ one <= fval t' <= c * one.
Proof using All.
  intros [Ec Er Hb] Hn' Hlater Hn Htc Htf. cbn [set_buckets capacity refill_rate_per_second] in Ec, Er. destruct (float_of_int_val c Hc) as (full & Ef & Hfc & Hf).
  assert (bucket_ok c (mkBucket t now) now') as Hbo by (apply (Hb k); cbn; by rewrite lookup_insert_eq).
  destruct (refill_val c rate Hc Hrate _ now' full Hbo Hn' Hfc Hf) as (Hac & Htc' & Htf' & _ & _ & Hval & _).
  cbn [tokens last_refilled_at] in *.
  eexists. split; [exists full; cbn; rewrite lookup_insert_eq; cbn; by rewrite Ec, Er|].
  split; [done|]. split; [|done]. rewrite Hval. unfold later in Hlater. change (fval fone) with one in *.
  pose proof one_pos. pose proof (fval_nonneg t). pose proof (fval_nonneg now).
  assert (rounds_to (fsub now' now) (fval now' - fval now)) as Hel by (apply fsub_val; [apply Hn'|apply Hn|apply Hn'|lia]).
  assert (one <= fval (fsub now' now)) as Hel1 by (eapply (rounds_ge_canon _ _ fone); [done..|]; change (fval fone) with one; lia).
  assert (fval (fsub now' now) < INF) as Helf.
  { apply (Z.le_lt_trans _ (fval now')); [|apply Hn']. eapply rounds_le_canon; [done|apply Hn'|lia..]. }
  assert (one <= fval (fmul (fsub now' now) rate)) as Hmul.
  { destruct Hrate as [Hr1 Hr2]. eapply (rounds_ge_canon _ _ fone); [apply fmul_val; try done; apply Hel|done|].
    change (fval fone) with one. transitivity (val_mul one one); [|by apply val_mul_mono; lia].
    unfold val_mul. rewrite one_pow at 2. by rewrite Z.div_mul. }
  assert (one <= fval (fadd t (fmul (fsub now' now) rate))); [|nia].
  etransitivity; [exact Hmul|]. eapply rounds_ge_canon; [by apply fadd_val|done|lia].
Qed.
End waiting.

Lemma in_order_reading calls now : in_order calls now → reading now.
Proof. induction calls as [|p calls IH]; [done|]. intros (_ & H & _). auto. Qed.

(** C28: Waiting as told is enough.  For a limiter that refills at least one token a
    second, as the deployed one does, after any calls whose clock readings never
    went backwards: require_rate_limit either admits the request or answers 429
    with a Retry-After of at least one second, and raises nothing else.  If the
    caller then sends nothing for that many seconds, its next request is admitted,
    whatever the other callers did meanwhile. *)
Theorem retry_after_honoured c rate L past now k :
  new_limiter c rate = inr L → c < 2 ^ 53 → reading rate → fval fone <= fval rate → in_order past now →
  match require_rate_limit now k (check_all past L) with
  | (_, inr _) => True
  | (_, inl (Unmapped _)) => False
  | (L1, inl (TooManyRequests h)) =>
      1 <= h ∧
      ∀ others now', in_order others now' → not_before now (default now' (head (others.*1))) →
        k ∉ others.*2 → later h now now' →
        (require_rate_limit now' k (check_all others L1)).2 = inr tt
  end.
Proof.
  intros Hnew Hc Hrate Hfast Ho. destruct (new_limiter_ok c rate L (default now (head (past.*1))) Hnew) as (HL & Hpos & _).
  pose proof (in_order_reading _ _ Ho) as Hn. pose proof (conj Hpos Hc) as Hc2.
  pose proof (check_all_ok c rate Hc2 Hrate past now L Ho HL) as HL1. set (M := check_all past L) in *. clearbody M.
  destruct (level_exists c rate Hc2 Hrate M now k HL1 Hn) as (t & Hlv & Htc & Htf & _).
  pose proof (refusal_time c rate Hc2 Hrate Hfast M now k t HL1 Hn Hlv Htc Htf) as Href.
  destruct (require_rate_limit now k M) as [L1 [[h|e]|[]]]; [|done..]. destruct Href as [Hh ->].
  split; [done|]. intros others now' Ho' Hnb Hk Hlater. pose proof (in_order_reading _ _ Ho') as Hn'.
  set (N := set_buckets _ M) in *.
  assert (limiter_ok c rate N now) as HN.
  { destruct HL1 as [Ec Er Hb]. split; try done. apply map_Forall_insert_2; [|done].
    split; cbn [tokens last_refilled_at]; [done..|unfold not_before; lia]. }
  pose proof (check_all_ok c rate Hc2 Hrate others now' N Ho' (limiter_ok_later c rate N now _ HN Hnb)) as HN'.
  pose proof (check_all_other others N k Hk) as HNk.
  assert (later 1 now now') as Hlater1 by (unfold later in *; change (fval fone) with one in *; pose proof one_pos; nia).
  assert (check_all others N = set_buckets (<[k := mkBucket t now]> (buckets (check_all others N))) (check_all others N)) as EN.
  { unfold set_buckets. rewrite insert_id; [by destruct (check_all others N)|]. rewrite HNk. unfold N. cbn. by rewrite lookup_insert_eq. }
  rewrite EN in HN' |- *.
  destruct (second_earns c rate Hc2 Hrate Hfast _ now now' k t HN' Hn' Hlater1 Hn Htc Htf) as (t' & Hlv' & Ht'c & Ht'1 & Ht'2).
  destruct (check_ok c rate Hc2 _ now' k t' HN' Hn' Hlv' Ht'c Ht'2) as (t2 & r & E2 & _ & _ & Hr2).
  unfold require_rate_limit. rewrite E2. rewrite flt_val in Hr2 by done.
  destruct (Z.ltb_spec (fval t') (fval fone)); [change (fval fone) with one in *; lia|]. by destruct Hr2 as [_ ->].
Qed.

(** The deployed limiter: the 61st request of key 1 at time 1.0 is told to wait one
    second; key 2 calls meanwhile; at 2.0 key 1 is let in. *)
Definition deployed : limiter := mkLimiter 60 ften ∅.
Definition sixty : list (float * ApiKeyId) := replicate 60 (fone, key1).

Lemma in_order_at_once n x k : reading x → in_order (replicate n (x, k)) x.
Proof.
  intros Hx. induction n as [|n IH]; [done|]. split_and!; [done..|]. unfold not_before. by destruct n.
Qed.

Lemma retry_after_honoured_witness :
  (require_rate_limit fone key1 (check_all sixty deployed)).2 = inl (TooManyRequests 1) ∧
  (require_rate_limit ftwo key1 (check_all [(fone, key2)] (require_rate_limit fone key1 (check_all sixty deployed)).1)).2 = inr tt.
Proof.
  assert (reading fone) as Hone by (by vm_compute). assert (reading ften ∧ fval fone <= fval ften) as [H1 H2] by (by vm_compute).
  pose proof (retry_after_honoured 60 ften deployed sixty fone key1 eq_refl ltac:(lia) H1 H2 (in_order_at_once 60 fone key1 Hone)) as H.
  assert ((require_rate_limit fone key1 (check_all sixty deployed)).2 = inl (TooManyRequests 1)) as E by (vm_compute; reflexivity).
  split; [exact E|].
  destruct (require_rate_limit fone key1 (check_all sixty deployed)) as [L1 r]. cbn in E. subst r. cbn [fst].
  apply H; [by vm_compute..| |by vm_compute]. by apply not_elem_of_cons; split; [|apply not_elem_of_nil].
Defined.

(** Two threads serve requests of one caller.  The first reads the clock at 1.0 and
    loses the processor; the second reads 8.0, gets the lock and leaves 59 of 60
    tokens.  When the first gets the lock, its reading lies in the past: the refill
    is negative, the request is refused with 59 tokens unspent, and the level is
    below zero. *)
Definition feight : float := S754_finite false (2 ^ 52) (-49).

Lemma late_reading_refused :
  let L1 := (check feight key1 deployed).1 in
  let '(L2, r) := check fone key1 L1 in
  option_map tokens (buckets L1 !! key1) = Some (S754_finite false (59 * 2 ^ 47) (-47)) ∧
  (∃ retry, r = inl (RateLimitExceeded key1 retry)) ∧
  option_map tokens (buckets L2 !! key1) = Some (S754_finite true (11 * 2 ^ 49) (-49)).
Proof. vm_compute. split; [done|]. split; [by eexists|done]. Qed.
