(* ===== verification/Scheduler.v ===== *)
(** The [Scheduler] domain service (src/app/domain/services/scheduler.py): which
    node a job is placed on. *)
From stdpp Require Import sorting.
From S2P Require Import Prelude Values Job Node Float64.
Local Open Scope Z_scope.

(** [_matches_constraints]: every constraint of the job is a label of the node. *)
Definition _matches_constraints (j : job) (n : node) : bool :=
  forallb (λ kv, bool_decide (n_labels n !! kv.1 = Some kv.2)) (map_to_list (j_constraints j)).

Definition _same_tenant (j : job) (n : node) : bool :=
  bool_decide (n_tenant_id n = j_tenant_id j).

(** [score += (available - requested) / capacity] for a requested dimension. *)
Definition add_dimension (requested available capacity : Z) (score : float) : exn + float :=
  if requested <=? 0 then inr score else
  match int_truediv (available - requested) capacity with
  | inl e => inl e
  | inr q => inr (fadd score q)
  end.

Definition _fit_score (j : job) (n : node) : exn + float :=
  let r := j_resources j in
  match add_dimension (cpu_cores r) (cpu_cores (n_available n)) (cpu_cores (n_capacity n)) fzero with
  | inl e => inl e
  | inr s =>
      match add_dimension (memory_mib r) (memory_mib (n_available n)) (memory_mib (n_capacity n)) s with
      | inl e => inl e
      | inr s' =>
          add_dimension (vram_mib r) (vram_mib (n_available n)) (vram_mib (n_capacity n)) s'
      end
  end.

(** The filter of the comprehension, [now] being the clock reading of this
    node's [is_alive]. *)
Definition eligible (now : datetime) (j : job) (n : node) : bool :=
  _same_tenant j n && is_alive now n && negb (is_draining n) &&
  _matches_constraints j n && can_host (j_resources j) n.

(** The candidates with their positions in the list.  The position stands for
    the identity of the node object: the caller mutates the node it gets.  The
    [i]-th node is examined at clock reading [now i]. *)
Fixpoint candidates_from (i : nat) (now : nat → datetime) (j : job) (nodes : list node)
    : list (nat * node) :=
  match nodes with
  | [] => []
  | n :: rest =>
      if eligible (now i) j n then (i, n) :: candidates_from (S i) now j rest
      else candidates_from (S i) now j rest
  end.

(** Python's [min(xs, key=score)]: the first element whose key no later key is
    below; the key of each element is computed once, in order. *)
Fixpoint min_loop (j : job) (best : nat * node) (key : float) (l : list (nat * node))
    : exn + (nat * node) :=
  match l with
  | [] => inr best
  | x :: l' =>
      match _fit_score j x.2 with
      | inl e => inl e
      | inr k => if flt k key then min_loop j x k l' else min_loop j best key l'
      end
  end.

Definition select_node (now : nat → datetime) (j : job) (nodes : list node)
    : exn + option (nat * node) :=
  match candidates_from 0 now j nodes with
  | [] => inr None
  | x :: l =>
      match _fit_score j x.2 with
      | inl e => inl e
      | inr k => match min_loop j x k l with inl e => inl e | inr b => inr (Some b) end
      end
  end.

(** * Scores of candidates *)

Lemma add_dimension_nonneg r a c s :
  0 <= r → r <= a → a <= c → fnonneg s → ∃ s', add_dimension r a c s = inr s' ∧ fnonneg s'.
Proof.
  intros Hr Ha Hc Hs. unfold add_dimension. destruct (Z.leb_spec r 0); [by eauto|].
  destruct (int_truediv_unit (a - r) c) as (q & -> & Hq); [lia|lia|].
  eauto using fadd_nonneg.
Qed.

(** A node that can host the job has a score: no division by zero, no overflow. *)
Lemma fit_score_ok j n :
  resources_ok (j_resources j) → node_wf n → can_host (j_resources j) n = true →
  ∃ s, _fit_score j n = inr s ∧ fnonneg s.
Proof.
  intros (? & ? & ?) [_ (? & ? & ?)] (? & ? & ?)%can_host_spec. unfold _fit_score.
  edestruct (add_dimension_nonneg (cpu_cores (j_resources j)) (cpu_cores (n_available n))
    (cpu_cores (n_capacity n)) fzero) as (s1 & -> & ?); [lia..|done|].
  edestruct (add_dimension_nonneg (memory_mib (j_resources j)) (memory_mib (n_available n))
    (memory_mib (n_capacity n)) s1) as (s2 & -> & ?); [lia..|done|].
  by apply add_dimension_nonneg.
Qed.

Lemma eligible_can_host now j n : eligible now j n = true → can_host (j_resources j) n = true.
Proof. unfold eligible. by rewrite !andb_true_iff; intros [_ ?]. Qed.

(** * Candidates *)

Lemma candidates_from_elem i now j nodes k n :
  (k, n) ∈ candidates_from i now j nodes ↔
  (i <= k)%nat ∧ nodes !! (k - i)%nat = Some n ∧ eligible (now k) j n = true.
Proof.
  revert i. induction nodes as [|m nodes IH]; intros i; cbn [candidates_from].
  { rewrite elem_of_nil, lookup_nil. naive_solver. }
  assert ((k, n) ∈ candidates_from (S i) now j nodes ↔
    (i < k)%nat ∧ (m :: nodes) !! (k - i)%nat = Some n ∧ eligible (now k) j n = true) as Hrest.
  { rewrite IH. split; intros (? & ? & ?); split_and!; try done; try lia;
    [replace (k - i)%nat with (S (k - S i)) by lia
    |replace (k - i)%nat with (S (k - S i)) in * by lia]; done. }
  destruct (eligible (now i) j m) eqn:He; rewrite ?elem_of_cons, Hrest;
    destruct (decide (k = i)) as [->|]; rewrite ?Nat.sub_diag; cbn;
    split; naive_solver (congruence || lia).
Qed.

Lemma candidates_from_sorted i now j nodes :
  StronglySorted (λ a b, (a.1 < b.1)%nat) (candidates_from i now j nodes).
Proof.
  revert i. induction nodes as [|m nodes IH]; intros i; cbn; [constructor|].
  destruct (eligible _ _ _); [|done]. constructor; [done|].
  apply Forall_forall. intros [k n] (Hk & _)%candidates_from_elem. cbn. lia.
Qed.

(** [best] is the first of the smallest scores among [l]. *)
Definition best_of (j : job) (l : list (nat * node)) (b : nat * node) (kb : float) : Prop :=
  b ∈ l ∧ _fit_score j b.2 = inr kb ∧ fnonneg kb ∧
  ∀ x, x ∈ l → ∃ k, _fit_score j x.2 = inr k ∧ fnonneg k ∧ flt k kb = false ∧
    ((x.1 < b.1)%nat → flt kb k = true).

Lemma best_of_step j l b kb x k :
  best_of j l b kb → (∀ y, y ∈ l → (y.1 < x.1)%nat) → _fit_score j x.2 = inr k → fnonneg k →
  if flt k kb then best_of j (l ++ [x]) x k else best_of j (l ++ [x]) b kb.
Proof.
  intros (Hb & Hkb & Hn & Hall) Hlt Hx Hk. destruct (flt k kb) eqn:Hc.
  - split_and!; [set_solver|done|done|]. intros y [Hy| ->%list_elem_of_singleton]%elem_of_app.
    + destruct (Hall y Hy) as (ky & ? & Hny & Hle & _). exists ky. split_and!; [done|done| |].
      * apply (not_flt_trans k kb ky); auto using flt_asym.
      * intros _. destruct (flt k ky) eqn:E; [done|].
        by rewrite (not_flt_trans kb ky k) in Hc.
    + exists k. split_and!; auto using flt_irrefl. lia.
  - split_and!; [set_solver|done|done|]. intros y [Hy| ->%list_elem_of_singleton]%elem_of_app; [auto|].
    exists k. split_and!; [done..|]. specialize (Hlt b Hb). lia.
Qed.

Lemma min_loop_best j l : ∀ pre b kb,
  best_of j pre b kb → StronglySorted (λ a b, (a.1 < b.1)%nat) (pre ++ l) →
  (∀ x, x ∈ l → ∃ k, _fit_score j x.2 = inr k ∧ fnonneg k) →
  ∃ b' kb', min_loop j b kb l = inr b' ∧ best_of j (pre ++ l) b' kb'.
Proof.
  induction l as [|x l IH]; intros pre b kb Hbest Hsort Hs; cbn [min_loop].
  { rewrite app_nil_r. eauto. }
  destruct (Hs x) as (k & Hk & Hn); [left|]. rewrite Hk.
  assert (∀ y, y ∈ pre → (y.1 < x.1)%nat) as Hlt.
  { intros y Hy. apply (StronglySorted_app_1_elem_of (λ a b : nat * node, (a.1 < b.1)%nat) pre (x :: l));
    [done|done|left]. }
  pose proof (best_of_step j pre b kb x k Hbest Hlt Hk Hn) as Hstep.
  replace (pre ++ x :: l) with ((pre ++ [x]) ++ l) in * by (by rewrite <- app_assoc).
  destruct (flt k kb); (apply (IH (pre ++ [x])); [done|done|]); intros y Hy; apply Hs; by right.
Qed.

Lemma select_node_best now j nodes :
  resources_ok (j_resources j) → Forall node_wf nodes →
  match candidates_from 0 now j nodes with
  | [] => select_node now j nodes = inr None
  | c => ∃ b kb, select_node now j nodes = inr (Some b) ∧ best_of j c b kb
  end.
Proof.
  intros Hr Hwf. unfold select_node.
  pose proof (candidates_from_sorted 0 now j nodes) as Hsort.
  assert (∀ x, x ∈ candidates_from 0 now j nodes → ∃ k, _fit_score j x.2 = inr k ∧ fnonneg k) as Hs.
  { intros [k n] (_ & Hk & He)%candidates_from_elem. apply fit_score_ok; [done| |].
    - by eapply Forall_lookup_1 in Hk.
    - by eapply eligible_can_host. }
  destruct (candidates_from 0 now j nodes) as [|x l]; [done|].
  destruct (Hs x) as (k & Hk & Hn); [left|]. rewrite Hk.
  destruct (min_loop_best j l [x] x k) as (b & kb & -> & Hb).
  - split_and!; [by left|done|done|]. intros y ->%list_elem_of_singleton.
    exists k. split_and!; auto using flt_irrefl. lia.
  - done.
  - intros y Hy. apply Hs. by right.
  - eauto.
Qed.

Lemma select_node_some now j nodes i n :
  resources_ok (j_resources j) → Forall node_wf nodes →
  select_node now j nodes = inr (Some (i, n)) →
  nodes !! i = Some n ∧ eligible (now i) j n = true.
Proof.
  intros Hr Hwf Hsel. pose proof (select_node_best now j nodes Hr Hwf) as H.
  destruct (candidates_from 0 now j nodes) as [|x l] eqn:Hc; [congruence|].
  destruct H as (b & kb & Hb & (Hin & _)). assert (b = (i, n)) as -> by congruence.
  rewrite <- Hc, candidates_from_elem, Nat.sub_0_r in Hin. tauto.
Qed.

(** The declarative reading of the filter. *)
Definition suitable (now : datetime) (j : job) (n : node) : Prop :=
  n_tenant_id n = j_tenant_id j ∧
  now - n_last_seen_at n <= NODE_HEARTBEAT_TIMEOUT ∧
  n_draining n = false ∧
  j_constraints j ⊆ n_labels n ∧
  resources_le (j_resources j) (n_available n).

Lemma matches_constraints_spec j n :
  _matches_constraints j n = true ↔ j_constraints j ⊆ n_labels n.
Proof.
  unfold _matches_constraints. rewrite forallb_forall, map_subseteq_spec. split.
  - intros H k v Hk. specialize (H (k, v)). rewrite bool_decide_eq_true in H. apply H.
    by apply list_elem_of_In, elem_of_map_to_list.
  - intros H [k v] Hin%list_elem_of_In%elem_of_map_to_list. apply bool_decide_eq_true. by apply H.
Qed.

Lemma eligible_spec now j n : eligible now j n = true ↔ suitable now j n.
Proof.
  unfold eligible, suitable, _same_tenant, is_alive, is_draining.
  rewrite !andb_true_iff, bool_decide_eq_true, Z.leb_le, negb_true_iff,
    matches_constraints_spec, can_host_spec. tauto.
Qed.

(** C16: Best-fit placement.  For a job and any list of well-formed nodes,
    [select_node] never raises (no division by zero).  It returns no node exactly
    when no node of the list belongs to the job's tenant, is alive, is not
    draining, carries the job's constraints among its labels and has the
    resources free.  Otherwise it returns such a node whose binary64 fit score no
    suitable node beats, the first one in the list among equals. *)
Theorem select_node_best_fit now j nodes :
  resources_ok (j_resources j) → Forall node_wf nodes →
  (select_node now j nodes = inr None ∧
     ∀ i n, nodes !! i = Some n → ¬ suitable (now i) j n) ∨
  ∃ i n score, select_node now j nodes = inr (Some (i, n)) ∧
    nodes !! i = Some n ∧ suitable (now i) j n ∧ _fit_score j n = inr score ∧
    ∀ i' n', nodes !! i' = Some n' → suitable (now i') j n' →
      ∃ score', _fit_score j n' = inr score' ∧ flt score' score = false ∧
        ((i' < i)%nat → flt score score' = true).
Proof.
  intros Hr Hwf. pose proof (select_node_best now j nodes Hr Hwf) as H.
  assert (∀ i n, nodes !! i = Some n ∧ suitable (now i) j n ↔
                 (i, n) ∈ candidates_from 0 now j nodes) as Hin.
  { intros i n. rewrite candidates_from_elem, Nat.sub_0_r, eligible_spec.
    pose proof (Nat.le_0_l i). tauto. }
  destruct (candidates_from 0 now j nodes) as [|x l].
  - left. split; [done|]. intros i n Hi Hs.
    by eapply elem_of_nil, Hin.
  - right. destruct H as ([i n] & score & Hsel & (Hb & Hscore & _ & Hall)).
    apply Hin in Hb as [Hi Hsuit]. exists i, n, score. split_and!; try done.
    intros i' n' Hi' Hs'. destruct (Hall (i', n')) as (k & ? & _ & ? & ?); [by apply Hin|].
    eauto.
Qed.

Definition sample_node (id : N) (cpu mem : Z) : node :=
  mkNode (mkNodeId id) (mkResources cpu mem 0) (mkTenantId 1) "n" ∅ 0 false (mkResources cpu mem 0).

Lemma select_node_best_fit_witness :
  let nodes := [sample_node 1 16 8192; sample_node 2 4 1024; sample_node 3 2 512] in
  let j := sample_job 0 in
  select_node (λ _, 0) j nodes = inr (Some (2%nat, sample_node 3 2 512)) ∧
  ((select_node (λ _, 0) j nodes = inr None ∧
     ∀ i n, nodes !! i = Some n → ¬ suitable 0 j n) ∨
  ∃ i n score, select_node (λ _, 0) j nodes = inr (Some (i, n)) ∧
    nodes !! i = Some n ∧ suitable 0 j n ∧ _fit_score j n = inr score ∧
    ∀ i' n', nodes !! i' = Some n' → suitable 0 j n' →
      ∃ score', _fit_score j n' = inr score' ∧ flt score' score = false ∧
        ((i' < i)%nat → flt score score' = true)).
Proof.
  intros nodes j. split; [vm_compute; reflexivity|].
  apply (select_node_best_fit (λ _, 0) j nodes).
  - unfold resources_ok; cbn; lia.
  - repeat (apply Forall_cons; split; [unfold node_wf, resources_ok, resources_le; cbn; lia|]).
    apply Forall_nil. exact I.
Defined.
