(* ===== verification/Execution.v ===== *)
(** Running the command of a job: JobExecutionService
    (src/app/application/services/job_execution_service.py) and the supervisor it
    starts (job_supervisor.py).

    The operating system is a parameter, the class [OS]: the readings of the
    monotonic clock, whether a pipe or a process could be made, what a bounded wait
    returns.  An effect is numbered, and the answers depend on its number and on
    the timeout given.  The service keeps a log of what it does to the process
    group, and the set of descriptors it holds. *)
From S2P Require Import Prelude Values Float64.
From Stdlib Require Import Floats.SpecFloat.
Local Open Scope Z_scope.

(** timedelta.total_seconds *)
Definition total_seconds (d : timedelta) : float := SFdiv 53 1024 (exact_of_Z d) (exact_of_Z 1000000).

Record os_error := OSError { errno : option Z; strerror : string; filename : string }.

(** What escapes the service.  [OutOfFuel] is not an exception of the code: it
    marks a loop that was cut off. *)
Inductive fault := OSErrorRaised (e : os_error) | KeyboardInterrupt | OutOfFuel.

Inductive signal := SIGTERM | SIGKILL.

Inductive descriptor := watch_read | watch_write | status_read | status_write.
#[global] Instance descriptor_eq_dec : EqDecision descriptor.
Proof. solve_decision. Defined.

(** What a wait for the supervisor and its pipes comes to. *)
Inductive waited := Finished (stdout stderr : string) (code : Z) | TimeoutExpired | Interrupted.

(** What the status pipe holds when it closes: nothing, a report of the failure,
    or something else. *)
Inductive report := NoReport | Report (e : os_error) | Unreadable.

(** The log: the supervisor was started; a signal was sent to its group; a wait
    returned or ran out of time; the process was waited for at the end, or only
    briefly because of a KeyboardInterrupt. *)
Inductive os_action := Spawned | Signalled (s : signal) | WaitDone | WaitExpired | Reaped | ReapedBriefly.

Class OS := {
  monotonic : nat → float;
  pipe_fails : nat → option os_error;
  spawn_fails : nat → option os_error;
  select_ready : nat → float → option bool;
  status_report : nat → report;
  communicate_result : nat → float → waited;
  poll_result : nat → option Z;
  str_of_error : os_error → string;
}.

Record os_state := mkOs {
  os_step : nat;
  os_open : list descriptor;
  returncode : option Z;
  os_log : list os_action }.

Definition os_start : os_state := mkOs 0 [] None [].

Abbreviation osM := (stM os_state fault).

(** * Effects *)

Definition ticked (s : os_state) : os_state := mkOs (S (os_step s)) (os_open s) (returncode s) (os_log s).
Definition logged (a : os_action) (s : os_state) : os_state :=
  mkOs (S (os_step s)) (os_open s) (returncode s) (a :: os_log s).
Definition exited (code : Z) (s : os_state) : os_state :=
  mkOs (os_step s) (os_open s) (Some (default code (returncode s))) (os_log s).

Section execution.
Context `{OS}.

Definition time_monotonic : osM float := λ s, (ticked s, inr (monotonic (os_step s))).

(** threading.Event.is_set, on an event that may be absent: other threads set
    the event at a time of their own. *)
Definition is_set (event : option (nat → bool)) : osM bool :=
  match event with
  | None => mret false
  | Some f => λ s, (ticked s, inr (f (os_step s)))
  end.

Definition os_pipe (r w : descriptor) : osM unit := λ s,
  match pipe_fails (os_step s) with
  | Some e => (ticked s, inl (OSErrorRaised e))
  | None => (mkOs (S (os_step s)) (r :: w :: os_open s) (returncode s) (os_log s), inr tt)
  end.

Definition os_close (d : descriptor) : osM unit := λ s,
  (mkOs (S (os_step s)) (filter (λ x, x ≠ d) (os_open s)) (returncode s) (os_log s), inr tt).

(** subprocess.Popen of the supervisor *)
Definition popen : osM unit := λ s,
  match spawn_fails (os_step s) with
  | Some e => (ticked s, inl (OSErrorRaised e))
  | None => (logged Spawned s, inr tt)
  end.

(** _signal_group: a group that is gone and a refused signal are no errors *)
Definition _signal_group (sig : signal) : osM unit := λ s, (logged (Signalled sig) s, inr tt).

(** Popen.communicate: [None] for TimeoutExpired *)
Definition communicate (timeout : float) : osM (option (string * string)) := λ s,
  match communicate_result (os_step s) timeout with
  | Finished out err code => (exited code (logged WaitDone s), inr (Some (out, err)))
  | TimeoutExpired => (logged WaitExpired s, inr None)
  | Interrupted => (ticked s, inl KeyboardInterrupt)
  end.

(** Popen.poll *)
Definition poll : osM (option Z) := λ s,
  match returncode s with
  | Some c => (ticked s, inr (Some c))
  | None =>
      match poll_result (os_step s) with
      | Some c => (exited c (ticked s), inr (Some c))
      | None => (ticked s, inr None)
      end
  end.

(** select.select on the status pipe, and reading it to its end *)
Definition select_status (timeout : float) : osM bool := λ s,
  match select_ready (os_step s) timeout with
  | None => (ticked s, inl KeyboardInterrupt)
  | Some b => (ticked s, inr b)
  end.
Definition read_status : osM report := λ s, (ticked s, inr (status_report (os_step s))).

(** [try: m finally: f]; what [f] does may depend on the exception under way. *)
Definition finally {A} (m : osM A) (f : option fault → osM unit) : osM A := λ s,
  let '(s', r) := m s in
  match f (match r with inl e => Some e | inr _ => None end) s' with
  | (s'', inl e) => (s'', inl e)
  | (s'', inr _) => (s'', r)
  end.

(** Popen.__exit__ *)
Definition process_exit (e : option fault) : osM unit := λ s,
  (logged (match e with Some KeyboardInterrupt => ReapedBriefly | _ => Reaped end) s, inr tt).

(** * JobExecutionService *)

Record JobExecutionResult := mkResult {
  exit_code : option Z;
  timed_out : bool;
  cancelled : bool;
  duration : float;
  stdout : string;
  stderr : string;
  lease_lost : bool }.

Definition succeeded (r : JobExecutionResult) : bool :=
  negb (timed_out r) && negb (cancelled r) && negb (lease_lost r) && bool_decide (exit_code r = Some 0).

Definition DEFAULT_TERMINATION_GRACE_PERIOD : timedelta := 5000000.
Definition DEFAULT_POLL_INTERVAL : timedelta := 200000.

(** OSError picks its subclass by errno: ENOENT is a FileNotFoundError, EPERM
    and EACCES are PermissionErrors, ENOTDIR is a NotADirectoryError. *)
Definition _LAUNCH_FAULTS (e : os_error) : bool :=
  match errno e with
  | Some 2 | Some 1 | Some 13 | Some 20 => true
  | _ => false
  end.

Definition _start_supervised : osM unit :=
  os_pipe watch_read watch_write ;;
  os_pipe status_read status_write ;;
  finally
    (try_except popen (λ e, Some (os_close watch_write ;; os_close status_read ;; raise e)))
    (λ _, os_close watch_read ;; os_close status_write).

Inductive launch := _PENDING | LaunchFailed (e : os_error) | Launched.

Definition _read_launch_failure (deadline : float) : osM launch :=
  now ← time_monotonic;
  let remaining := fmax fzero (fsub deadline now) in
  ready ← select_status remaining;
  if negb ready then mret _PENDING else
  data ← read_status;
  match data with
  | NoReport => mret Launched
  | Report e => mret (LaunchFailed e)
  | Unreadable => mret Launched
  end.

Definition _could_not_start (error : os_error) (start : float) : osM JobExecutionResult :=
  now ← time_monotonic;
  mret (mkResult None false false (fsub now start) ""
          ("The command could not be started: " +:+ str_of_error error +:+ String (Ascii.ascii_of_nat 10) EmptyString)
          false).

Section service.
Context (termination_grace_period poll_interval : timedelta).

Definition _terminate_early (start : float) (timed_out cancelled lease_lost : bool) : osM JobExecutionResult :=
  _signal_group SIGTERM ;;
  first ← communicate (total_seconds termination_grace_period);
  out ← match first with
        | Some o => mret o
        | None =>
            _signal_group SIGKILL ;;
            second ← communicate (total_seconds termination_grace_period);
            mret (default (EmptyString, EmptyString) second)
        end;
  now ← time_monotonic;
  code ← gets returncode;
  mret (mkResult code timed_out cancelled (fsub now start) (out.1) (out.2) lease_lost).

Definition _collect_after_supervisor_ended (start : float) : osM JobExecutionResult :=
  _signal_group SIGKILL ;;
  r ← communicate (total_seconds termination_grace_period);
  let out := default (EmptyString, EmptyString) r in
  code ← gets returncode;
  now ← time_monotonic;
  mret (mkResult code false false (fsub now start) (out.1) (out.2) false).

(** The [while True] of execute, at most [fuel] times. *)
Fixpoint wait_loop (fuel : nat) (start deadline : float) (cancel_event lease_lost_event : option (nat → bool))
    (launch_pending : bool) : osM JobExecutionResult :=
  match fuel with
  | O => raise OutOfFuel
  | S fuel =>
      now ← time_monotonic;
      let remaining := fsub deadline now in
      if fle remaining fzero then _terminate_early start true false false else
      lost ← is_set lease_lost_event;
      if (lost : bool) then _terminate_early start false false true else
      cancel ← is_set cancel_event;
      if (cancel : bool) then _terminate_early start false true false else
      let wait_for := fmin (total_seconds poll_interval) remaining in
      if launch_pending then
        now' ← time_monotonic;
        failure ← _read_launch_failure (fadd now' wait_for);
        match failure with
        | _PENDING => wait_loop fuel start deadline cancel_event lease_lost_event true
        | LaunchFailed e =>
            if negb (_LAUNCH_FAULTS e) then raise (OSErrorRaised e) else _could_not_start e start
        | Launched => wait_loop fuel start deadline cancel_event lease_lost_event false
        end
      else
        r ← communicate wait_for;
        match r with
        | Some out =>
            now' ← time_monotonic;
            code ← gets returncode;
            mret (mkResult code false false (fsub now' start) (out.1) (out.2) false)
        | None =>
            ended ← poll;
            match ended with
            | None => wait_loop fuel start deadline cancel_event lease_lost_event false
            | Some _ => _collect_after_supervisor_ended start
            end
        end
  end.

(** JobExecutionService.execute *)
Definition execute (fuel : nat) (command : option (list string)) (timeout : timedelta)
    (cancel_event lease_lost_event : option (nat → bool)) : osM JobExecutionResult :=
  match command with
  | None => mret (mkResult (Some 0) false false fzero "" "" false)
  | Some _ =>
      start ← time_monotonic;
      let deadline := fadd start (total_seconds timeout) in
      _start_supervised ;;
      finally
        (finally
          (finally
            (wait_loop fuel start deadline cancel_event lease_lost_event true)
            (λ _, _signal_group SIGKILL))
          (λ _, os_close watch_write ;; os_close status_read))
        process_exit
  end.
End service.
End execution.

(** * What an execution comes to *)

Inductive stop_reason := TimedOut | LeaseLost | Cancelled.

#[global] Instance stop_reason_eq_dec : EqDecision stop_reason.
Proof. solve_decision. Defined.

Definition stopped_for (why : stop_reason) (r : JobExecutionResult) : Prop :=
  timed_out r = bool_decide (why = TimedOut) ∧ lease_lost r = bool_decide (why = LeaseLost) ∧
  cancelled r = bool_decide (why = Cancelled).

Lemma stopped_flagged why r :
  stopped_for why r → timed_out r = false → cancelled r = false → lease_lost r = false → False.
Proof.
  intros (H1 & H2 & H3). destruct why; [rewrite H1|rewrite H2|rewrite H3]; by rewrite bool_decide_eq_true_2.
Qed.

Section endings.
Context `{OS}.

(** The reason to stop is there at effect [i]. *)
Definition due (deadline : float) (cancel_event lease_lost_event : option (nat → bool))
    (why : stop_reason) (i : nat) : Prop :=
  match why with
  | TimedOut => fle (fsub deadline (monotonic i)) fzero = true
  | LeaseLost => ∃ f, lease_lost_event = Some f ∧ f i = true
  | Cancelled => ∃ f, cancel_event = Some f ∧ f i = true
  end.

(** How an execution ends, with what it does to the process group after its
    last fruitless poll, latest first. *)
Inductive ending (deadline : float) (cancel_event lease_lost_event : option (nat → bool)) :
    JobExecutionResult → list os_action → Prop :=
  | EndNatural r c : (* everything closed its pipes and the supervisor ended *)
      exit_code r = Some c → timed_out r = false → cancelled r = false → lease_lost r = false →
      ending deadline cancel_event lease_lost_event r [WaitDone]
  | EndCollected r c a : (* the supervisor ended, someone kept the pipes *)
      exit_code r = Some c → timed_out r = false → cancelled r = false → lease_lost r = false →
      a = WaitDone ∨ a = WaitExpired →
      ending deadline cancel_event lease_lost_event r [a; Signalled SIGKILL]
  | EndNotStarted r : (* the command does not exist or may not be run *)
      exit_code r = None → timed_out r = false → cancelled r = false → lease_lost r = false →
      ending deadline cancel_event lease_lost_event r []
  | EndGracefully r why i c : (* asked to stop, and stopped in time *)
      stopped_for why r → due deadline cancel_event lease_lost_event why i → exit_code r = Some c →
      ending deadline cancel_event lease_lost_event r [WaitDone; Signalled SIGTERM]
  | EndForced r why i a : (* asked to stop, and killed when the grace period was over *)
      stopped_for why r → due deadline cancel_event lease_lost_event why i →
      a = WaitDone ∨ (a = WaitExpired ∧ exit_code r = None) →
      ending deadline cancel_event lease_lost_event r [a; Signalled SIGKILL; WaitExpired; Signalled SIGTERM].
End endings.

(** * Executing the model symbolically *)

(** Every effect either changes nothing but the step, the log and the code. *)
Section rules.
Context `{OS}.

Lemma wp_monotonic Q R s : Q (monotonic (os_step s)) (ticked s) → wp time_monotonic Q R s.
Proof. done. Qed.

(** Nothing but time has passed. *)
Definition only_later (s s' : os_state) : Prop :=
  (os_step s ≤ os_step s')%nat ∧ os_open s' = os_open s ∧ os_log s' = os_log s ∧ returncode s' = returncode s.

Lemma wp_is_set event (Q : bool → os_state → Prop) R s :
  (∀ s', only_later s s' → (∀ f, event = Some f → f (os_step s) = false) → Q false s') →
  (∀ f, event = Some f → f (os_step s) = true → Q true (ticked s)) → wp (is_set event) Q R s.
Proof.
  intros H1 H2. destruct event as [f|]; [|by apply H1]. unfold wp, is_set.
  destruct (f (os_step s)) eqn:E; [by apply (H2 f)|]. apply H1; [|congruence].
  split; cbn; [lia|done].
Qed.

Lemma wp_signal sig (Q : unit → os_state → Prop) R s : Q tt (logged (Signalled sig) s) → wp (_signal_group sig) Q R s.
Proof. done. Qed.

Lemma wp_communicate t (Q : option (string * string) → os_state → Prop) (R : fault → os_state → Prop) s :
  (∀ out err c, Q (Some (out, err)) (exited c (logged WaitDone s))) →
  Q None (logged WaitExpired s) → R KeyboardInterrupt (ticked s) → wp (communicate t) Q R s.
Proof. intros. unfold wp, communicate. by destruct (communicate_result _ _). Qed.

Lemma wp_poll (Q : option Z → os_state → Prop) R s :
  returncode s = None → Q None (ticked s) → (∀ c, Q (Some c) (exited c (ticked s))) → wp poll Q R s.
Proof. intros Hc ??. unfold wp, poll. rewrite Hc. by destruct (poll_result _). Qed.

Lemma wp_poll_step (Q : option Z → os_state → Prop) R s :
  (∀ o s', os_step s' = S (os_step s) → Q o s') → wp poll Q R s.
Proof.
  intros HQ. unfold wp, poll. destruct (returncode s); [by apply HQ|].
  destruct (poll_result _); by apply HQ.
Qed.

Lemma wp_select t (Q : bool → os_state → Prop) (R : fault → os_state → Prop) s :
  (∀ b, Q b (ticked s)) → R KeyboardInterrupt (ticked s) → wp (select_status t) Q R s.
Proof. intros. unfold wp, select_status. by destruct (select_ready _ _). Qed.

Lemma wp_field {A} (f : os_state → A) (Q : A → os_state → Prop) (R : fault → os_state → Prop) s :
  Q (f s) s → wp (gets f) Q R s.
Proof. done. Qed.

Lemma wp_read_status (Q : report → os_state → Prop) R s :
  (∀ r, Q r (ticked s)) → wp read_status Q R s.
Proof. intros HQ. apply HQ. Qed.

Lemma wp_finally {A} (m : osM A) f (Q : A → os_state → Prop) R s :
  wp m (λ a s', wp (f None) (λ _, Q a) R s') (λ e s', wp (f (Some e)) (λ _, R e) R s') s →
  wp (finally m f) Q R s.
Proof.
  unfold wp, finally. destruct (m s) as [s' [e|a]];
    [destruct (f (Some e) s') as [s'' [e'|[]]]|destruct (f None s') as [s'' [e'|[]]]]; done.
Qed.
End rules.

Ltac os_step :=
  lazymatch goal with
  | |- wp (_ ≫= _) _ _ _ => apply wp_bind
  | |- wp (mret _) _ _ _ => apply wp_ret
  | |- wp (raise _) _ _ _ => apply wp_raise
  | |- wp (gets _) _ _ _ => apply wp_field
  | |- wp time_monotonic _ _ _ => apply wp_monotonic
  | |- wp (is_set _) _ _ _ => apply wp_is_set; intros
  | |- wp (_signal_group _) _ _ _ => apply wp_signal
  | |- wp (communicate _) _ _ _ => apply wp_communicate; intros
  | |- wp poll _ _ _ => apply wp_poll; [done| |intros]
  | |- wp (select_status _) _ _ _ => apply wp_select; intros
  | |- wp read_status _ _ _ => apply wp_read_status; intros
  | |- wp (match ?x with _ => _ end) _ _ _ => destruct x eqn:?
  | |- wp (if ?b then _ else _) _ _ _ => destruct b eqn:?
  end.
Ltac os_steps := repeat (os_step; cbn beta).

Section wait_loop.
Context `{OS} (grace poll_interval : timedelta) (start deadline : float)
  (cancel_event lease_lost_event : option (nat → bool)).
Notation ending := (ending deadline cancel_event lease_lost_event).
Notation due := (due deadline cancel_event lease_lost_event).

(** A computation that ends as [P] says, from [s], and on no account touches the
    descriptors of this process. *)
Definition ends (s : os_state) (P : JobExecutionResult → list os_action → Prop)
    (m : osM JobExecutionResult) (s0 : os_state) : Prop :=
  wp m (λ r s', os_open s' = os_open s ∧ ∃ l, os_log s' = l ++ os_log s ∧ P r l)
       (λ _ s', os_open s' = os_open s ∧ ∃ l, os_log s' = l ++ os_log s) s0.

Definition extends (s s0 : os_state) (k : nat) : Prop :=
  os_open s0 = os_open s ∧ os_log s0 = replicate k WaitExpired ++ os_log s ∧ returncode s0 = None.

Definition polled (P : JobExecutionResult → list os_action → Prop) r l : Prop :=
  ∃ k tail, l = tail ++ replicate k WaitExpired ∧ P r tail.

Lemma extends_log s s0 k tail :
  extends s s0 k → tail ++ os_log s0 = (tail ++ replicate k WaitExpired) ++ os_log s.
Proof. intros (_ & -> & _). by rewrite (assoc (++)). Qed.

Lemma terminate_early_ends why i s s0 k :
  extends s s0 k → due why i →
  ends s (polled ending)
    (_terminate_early grace start (bool_decide (why = TimedOut)) (bool_decide (why = Cancelled))
       (bool_decide (why = LeaseLost))) s0.
Proof.
  intros Hs Hdue. unfold ends, _terminate_early. destruct Hs as (Ho & Hl & Hc). os_steps.
  - cbn. split; [done|]. eexists. split; [rewrite Hl; apply (assoc (++) [_; _])|].
    exists k, [WaitDone; Signalled SIGTERM]. split; [done|]. rewrite Hc. by eapply EndGracefully.
  - cbn. split; [done|]. eexists. split; [rewrite Hl; apply (assoc (++) [_; _; _; _])|].
    exists k, [WaitDone; Signalled SIGKILL; WaitExpired; Signalled SIGTERM].
    split; [done|]. eapply EndForced; [done|done|by left].
  - cbn. split; [done|]. eexists. split; [rewrite Hl; apply (assoc (++) [_; _; _; _])|].
    exists k, [WaitExpired; Signalled SIGKILL; WaitExpired; Signalled SIGTERM].
    split; [done|]. eapply EndForced; [done|done|by right].
  - cbn. split; [done|]. eexists. rewrite Hl. apply (assoc (++) [_; _; _]).
  - cbn. split; [done|]. eexists. rewrite Hl. apply (assoc (++) [_]).
Qed.

Lemma collect_ends s s0 c k :
  os_open s0 = os_open s → os_log s0 = replicate k WaitExpired ++ os_log s → returncode s0 = Some c →
  ends s (polled ending) (_collect_after_supervisor_ended grace start) s0.
Proof.
  intros Ho Hl Hc. unfold ends, _collect_after_supervisor_ended. os_steps.
  - cbn. split; [done|]. eexists. split; [rewrite Hl; apply (assoc (++) [_; _])|].
    exists k, [WaitDone; Signalled SIGKILL]. split; [done|]. rewrite Hc. eapply EndCollected; try done. by left.
  - cbn. split; [done|]. eexists. split; [rewrite Hl; apply (assoc (++) [_; _])|].
    exists k, [WaitExpired; Signalled SIGKILL]. split; [done|]. rewrite Hc. eapply EndCollected; try done. by right.
  - cbn. split; [done|]. eexists. rewrite Hl. apply (assoc (++) [_]).
Qed.

Lemma could_not_start_ends e s s0 k :
  extends s s0 k → ends s (polled ending) (_could_not_start e start) s0.
Proof.
  intros (Ho & Hl & _). unfold ends, _could_not_start. os_steps. cbn. split; [done|].
  eexists. split; [exact Hl|]. exists k, []. split; [done|]. by apply EndNotStarted.
Qed.

Lemma extends_raised s s0 k : extends s s0 k → os_open s0 = os_open s ∧ ∃ l, os_log s0 = l ++ os_log s.
Proof. intros (Ho & Hl & _). eauto. Qed.

Lemma extends_later s s0 s1 k : extends s s0 k → only_later s0 s1 → extends s s1 k.
Proof. intros (Ho & Hl & Hc) (_ & Ho1 & Hl1 & Hc1). split_and!; congruence. Qed.

Lemma only_later_tick s s1 : only_later s s1 → only_later s (ticked s1).
Proof. intros (? & ? & ? & ?). split; cbn; [lia|done]. Qed.

Lemma wait_loop_ends fuel pending s s0 k :
  extends s s0 k →
  ends s (polled ending) (wait_loop grace poll_interval fuel start deadline cancel_event lease_lost_event pending) s0.
Proof.
  revert pending s0 k. induction fuel as [|fuel IH]; intros pending s0 k Hs; cbn [wait_loop]; [by eapply extends_raised|].
  unfold ends in *. os_step. os_step. os_step.
  { by eapply (terminate_early_ends TimedOut (os_step s0)). }
  os_step. apply wp_is_set; cycle 1.
  { intros f Hf Ht. eapply (terminate_early_ends LeaseLost (S (os_step s0))); [done|]. by exists f. }
  intros s1 Hs1 _. eapply extends_later in Hs1; [|exact Hs]. clear Hs. os_step. apply wp_is_set; cycle 1.
  { intros f Hf Ht. eapply (terminate_early_ends Cancelled (os_step s1)); [done|]. by exists f. }
  intros s2 Hs2 _. eapply extends_later in Hs2; [|exact Hs1]. clear Hs1. destruct pending.
  - unfold _read_launch_failure. os_steps.
    + by apply (IH _ _ k).
    + by apply (IH _ _ k).
    + by apply (extends_raised _ _ k).
    + by apply (could_not_start_ends _ _ _ k).
    + by apply (IH _ _ k).
    + by apply (extends_raised _ _ k).
  - destruct Hs2 as (Ho & Hl & Hc). os_steps.
    + cbn. split; [done|]. eexists. split; [rewrite Hl; apply (assoc (++) [_])|].
      exists k, [WaitDone]. split; [done|]. rewrite Hc. by eapply EndNatural.
    + apply (IH false _ (S k)). split; [done|]. split; [|done]. cbn. by rewrite Hl.
    + eapply (collect_ends _ _ _ (S k)); [done| |done]. cbn. by rewrite Hl.
    + eapply (extends_raised _ _ k). by split_and!.
Qed.
End wait_loop.

(** * Whole executions *)

Section executions.
Context `{OS} (grace poll_interval : timedelta) (fuel : nat) (command : list string) (timeout : timedelta)
  (cancel_event lease_lost_event : option (nat → bool)).

Definition deadline_of : float := fadd (monotonic 0) (total_seconds timeout).

(** The supervisor could not be started: the log is empty.  The descriptors are
    closed, unless it was the second pipe that could not be made. *)
Definition never_started (s : os_state) (e : fault) : Prop :=
  os_log s = [] ∧ (∃ error, e = OSErrorRaised error) ∧
  (os_open s = [] ∨ os_open s = [watch_read; watch_write] ∧ pipe_fails 2 ≠ None).

(** Something ended the wait: the group has been killed and waited for. *)
Definition cleaned_up (s : os_state) (e : fault) (body : list os_action) : Prop :=
  os_open s = [] ∧ ∃ a, os_log s = a :: Signalled SIGKILL :: body ++ [Spawned] ∧
    a = match e with KeyboardInterrupt => ReapedBriefly | _ => Reaped end.

Lemma start_supervised_spec :
  wp _start_supervised
    (λ _ s, os_open s = [status_read; watch_write] ∧ returncode s = None ∧ os_log s = [Spawned])
    (λ e s, never_started s e) (ticked os_start).
Proof.
  unfold wp, _start_supervised, os_pipe, popen, finally, os_close. stM_unfold. cbn.
  unfold never_started.
  destruct (pipe_fails 1) as [e1|]; cbn; [eauto 6|].
  destruct (pipe_fails 2) as [e2|] eqn:H2; cbn; [naive_solver|].
  destruct (spawn_fails 3) as [e3|]; cbn; [eauto 6|done].
Qed.

Lemma execute_spec :
  wp (execute grace poll_interval fuel (Some command) timeout cancel_event lease_lost_event)
    (λ r s, os_open s = [] ∧ ∃ k tail,
       os_log s = Reaped :: Signalled SIGKILL :: tail ++ replicate k WaitExpired ++ [Spawned] ∧
       ending deadline_of cancel_event lease_lost_event r tail)
    (λ e s, never_started s e ∨ ∃ body, cleaned_up s e body)
    os_start.
Proof.
  unfold execute. apply wp_bind, wp_monotonic, wp_bind. fold deadline_of.
  eapply wp_mono; [apply start_supervised_spec| |by left]. intros _ s0 (Ho & Hc & Hl).
  apply wp_finally, wp_finally, wp_finally. change (os_step os_start) with 0%nat. fold deadline_of.
  eapply wp_mono; [apply (wait_loop_ends _ _ _ _ _ _ _ _ s0 s0 0); by split_and!| |].
  - intros r s (Ho' & l & Hl' & k & tail & -> & He). unfold wp. stM_unfold. cbn. rewrite Ho', Ho. cbn. split; [done|].
    exists k, tail. by rewrite Hl', Hl, <- (assoc (++)).
  - intros e s (Ho' & l & Hl'). unfold wp. stM_unfold. cbn. right. exists l. split; cbn; [by rewrite Ho', Ho|].
    eexists. by rewrite Hl', Hl.
Qed.

(** * Termination *)

(** From effect [N] on there is a reason to stop. *)
Definition due_from (N : nat) : Prop :=
  ∃ why, ∀ i, (N ≤ i)%nat → due deadline_of cancel_event lease_lost_event why i.

Lemma terminate_early_returns why_t why_c why_l start s :
  wp (_terminate_early grace start why_t why_c why_l) (λ _ _, True) (λ e _, e ≠ OutOfFuel) s.
Proof. unfold _terminate_early. by os_steps. Qed.

Lemma wait_loop_returns N n pending s :
  due_from N → (N < os_step s + n)%nat → (0 < n)%nat →
  wp (wait_loop grace poll_interval n (monotonic 0) deadline_of cancel_event lease_lost_event pending)
    (λ _ _, True) (λ e _, e ≠ OutOfFuel) s.
Proof.
  intros [why Hdue]. revert pending s. induction n as [|n IH]; intros pending s HN Hn; [lia|]. cbn [wait_loop].
  assert (∀ b s', (os_step s < os_step s')%nat → (os_step s < N)%nat →
    wp (wait_loop grace poll_interval n (monotonic 0) deadline_of cancel_event lease_lost_event b)
      (λ _ _, True) (λ e _, e ≠ OutOfFuel) s') as IH'.
  { intros b s' Hs' HsN. apply IH; lia. }
  os_step. os_step. os_step; [apply terminate_early_returns|].
  os_step. apply wp_is_set; [|intros; apply terminate_early_returns]. intros s1 Hs1 Hl.
  os_step. apply wp_is_set; [|intros; apply terminate_early_returns]. intros s2 Hs2 Hc.
  assert (os_step s < N)%nat as HsN.
  { destruct (decide (N ≤ os_step s)%nat) as [Hle|]; [|lia]. exfalso.
    destruct Hs1 as [Hs1 _]. cbn in Hs1, Hl. destruct why.
    - pose proof (Hdue (os_step s) Hle) as H1. cbn in H1. congruence.
    - destruct (Hdue (Datatypes.S (os_step s)) ltac:(lia)) as (f & Hf & Ht). rewrite (Hl f Hf) in Ht. done.
    - destruct (Hdue (os_step s1) ltac:(lia)) as (f & Hf & Ht). rewrite (Hc f Hf) in Ht. done. }
  assert (os_step s < os_step s2)%nat as Hs by (destruct Hs1 as [Hs1 _], Hs2 as [Hs2 _]; cbn in *; lia).
  unfold _read_launch_failure, _could_not_start, _collect_after_supervisor_ended.
  destruct pending; os_steps; try done; try (apply IH'; cbn; lia).
  apply wp_poll_step. intros o s3 Hs3. destruct o; os_steps; [done..|]. apply IH'; [rewrite Hs3; cbn|]; lia.
Qed.

Lemma execute_returns N :
  due_from N → (N < fuel)%nat →
  wp (execute grace poll_interval fuel (Some command) timeout cancel_event lease_lost_event)
    (λ _ _, True) (λ e _, e ≠ OutOfFuel) os_start.
Proof.
  intros HN Hf. unfold execute. apply wp_bind, wp_monotonic, wp_bind.
  eapply wp_mono; [apply start_supervised_spec| |by intros e s (_ & [? ->] & _)]. intros _ s0 _.
  apply wp_finally, wp_finally, wp_finally.
  eapply wp_mono; [apply (wait_loop_returns N); [done|lia..]| |]; [by intros ? ? _|by intros e s He].
Qed.
End executions.

(** * Fuel *)

(** Enough is enough: an outcome reached within the fuel stays with more. *)
Lemma bind_agree {A B} (m : osM A) (k k' : A → osM B) s :
  (∀ a s', (k a s').2 ≠ inl OutOfFuel → k' a s' = k a s') →
  ((m ≫= k) s).2 ≠ inl OutOfFuel → (m ≫= k') s = (m ≫= k) s.
Proof. unfold mbind, stM_bind. destruct (m s) as [s' [e|a]]; [done|]. intros Hk. apply Hk. Qed.

Lemma wait_loop_more_fuel `{OS} grace poll_interval start deadline cancel lost n m pending s :
  (n ≤ m)%nat → (wait_loop grace poll_interval n start deadline cancel lost pending s).2 ≠ inl OutOfFuel →
  wait_loop grace poll_interval m start deadline cancel lost pending s =
  wait_loop grace poll_interval n start deadline cancel lost pending s.
Proof.
  revert m pending s. induction n as [|n IH]; intros m pending s Hm; [done|].
  destruct m as [|m]; [lia|]. cbn [wait_loop].
  apply bind_agree. intros now s1. destruct (fle _ _); [done|].
  apply bind_agree. intros [] s2; [done|]. apply bind_agree. intros [] s3; [done|]. destruct pending.
  - apply bind_agree. intros now' s4. apply bind_agree. intros [|e|] s5; [|done|]; apply IH; lia.
  - apply bind_agree. intros [out|] s4; [done|]. apply bind_agree. intros [c|] s5; [done|]. apply IH. lia.
Qed.

Lemma finally_agree {A} (m m' : osM A) f s :
  (m s).2 ≠ inl OutOfFuel → ((m s).2 ≠ inl OutOfFuel → m' s = m s) → finally m' f s = finally m f s.
Proof. intros Hm Hs. unfold finally. by rewrite Hs. Qed.

(** The cleanup never raises, so it does not hide that the loop was cut off. *)
Lemma finally_fuel {A} (m : osM A) f s :
  (∀ e s, ∃ s', f e s = (s', inr tt)) → (finally m f s).2 ≠ inl OutOfFuel → (m s).2 ≠ inl OutOfFuel.
Proof.
  intros Hf. unfold finally. destruct (m s) as [s' r].
  destruct (Hf (match r with inl e => Some e | inr _ => None end) s') as [s'' ->]. done.
Qed.

Lemma execute_more_fuel `{OS} grace poll_interval n m command timeout cancel lost s :
  (n ≤ m)%nat → (execute grace poll_interval n command timeout cancel lost s).2 ≠ inl OutOfFuel →
  execute grace poll_interval m command timeout cancel lost s =
  execute grace poll_interval n command timeout cancel lost s.
Proof.
  intros Hm. destruct command as [c|]; [|done]. unfold execute.
  apply bind_agree. intros start s1. apply bind_agree. intros [] s2 Hf.
  assert (Hf1 := Hf). apply finally_fuel in Hf1; [|unfold process_exit; eauto].
  apply finally_agree; [done|]. intros _.
  assert (Hf2 := Hf1). apply finally_fuel in Hf2; [|unfold os_close; stM_unfold; eauto].
  apply finally_agree; [done|]. intros _.
  apply finally_fuel in Hf2; [|unfold _signal_group; eauto].
  apply finally_agree; [done|]. intros _. by apply wait_loop_more_fuel.
Qed.

(** * Exit codes *)

Section codes.
Context `{OS} (P : Z → Prop)
  (communicate_P : ∀ i t out err c, communicate_result i t = Finished out err c → P c)
  (poll_P : ∀ i c, poll_result i = Some c → P c).

Definition codes (s : os_state) : Prop := ∀ c, returncode s = Some c → P c.
Definition code_in (r : JobExecutionResult) : Prop := ∀ c, exit_code r = Some c → P c.

Lemma exited_codes c s : codes s → P c → codes (exited c s).
Proof using. intros Hs Hc c'. cbn. intros [= <-]. destruct (returncode s) eqn:E; cbn; eauto. Qed.

Lemma wp_communicate_codes t (Q : option (string * string) → os_state → Prop) (R : fault → os_state → Prop) s :
  codes s → (∀ o s', codes s' → Q o s') → (∀ e s', R e s') → wp (communicate t) Q R s.
Proof using communicate_P.
  intros Hs HQ HR. unfold wp, communicate. destruct (communicate_result _ _) as [out err c| |] eqn:Hc; [|by apply HQ|done].
  apply HQ, exited_codes; [done|]. by eapply communicate_P.
Qed.

Lemma wp_poll_codes (Q : option Z → os_state → Prop) R s :
  codes s → (∀ o s', codes s' → Q o s') → wp poll Q R s.
Proof using poll_P.
  intros Hs HQ. unfold wp, poll. destruct (returncode s); [by apply HQ|].
  destruct (poll_result _) eqn:Hc; apply HQ; [|done]. apply exited_codes; [done|]. by eapply poll_P.
Qed.

Lemma wp_is_set_codes event (Q : bool → os_state → Prop) R s :
  codes s → (∀ b s', codes s' → Q b s') → wp (is_set event) Q R s.
Proof using. intros Hs HQ. destruct event; by apply HQ. Qed.

Ltac codes_step :=
  lazymatch goal with
  | |- wp (is_set _) _ _ _ => apply wp_is_set_codes; [eassumption || done|]; intros
  | |- wp (communicate _) _ _ _ => apply wp_communicate_codes; [eassumption || done| |done]; intros
  | |- wp poll _ _ _ => apply wp_poll_codes; [eassumption || done|]; intros
  | _ => os_step
  end.

Lemma wait_loop_codes grace poll_interval fuel start deadline cancel lost pending s :
  codes s →
  wp (wait_loop grace poll_interval fuel start deadline cancel lost pending) (λ r _, code_in r) (λ _ _, True) s.
Proof using communicate_P poll_P.
  revert pending s. induction fuel as [|fuel IH]; intros pending s Hs; cbn [wait_loop]; [done|].
  unfold _terminate_early, _read_launch_failure, _could_not_start, _collect_after_supervisor_ended.
  repeat (codes_step; cbn beta); try done; by apply IH.
Qed.

Lemma execute_codes grace poll_interval fuel command timeout cancel lost :
  P 0 → wp (execute grace poll_interval fuel command timeout cancel lost) (λ r _, code_in r) (λ _ _, True) os_start.
Proof using communicate_P poll_P.
  intros H0. destruct command as [c|]; [|by intros z [= <-]]. unfold execute. apply wp_bind, wp_monotonic, wp_bind.
  eapply wp_mono; [apply start_supervised_spec| |done]. intros _ s (_ & Hc & _).
  apply wp_finally, wp_finally, wp_finally. eapply wp_mono; [apply wait_loop_codes; unfold codes; congruence|done|done].
Qed.
End codes.

(** * The supervisor *)

Module Supervisor.

(** How a process ends, and the returncode its parent reads. *)
Inductive status := Exited (code : Z) | KilledBy (number : Z).

Definition returncode_of (s : status) : Z :=
  match s with Exited c => c | KilledBy n => - n end.

Definition USAGE_EXIT_CODE : Z := 2.
Definition LAUNCH_FAILED_EXIT_CODE : Z := 127.

Section supervisor.
(** Whether the default action of a signal ends the process. *)
Context (fatal : Z → bool).

(** sys.exit: the low byte of the code *)
Definition sys_exit (code : Z) : status := Exited (code mod 256).

(** _end_like, and the exit of the process with what it returns *)
Definition _end_like (returncode : Z) : status :=
  if 0 <=? returncode then sys_exit returncode else
  let number := - returncode in
  if fatal number then KilledBy number else sys_exit (128 + number).

(** _watch: one read after the other; [None] is a read that failed.  The result
    says whether the group is killed. *)
Fixpoint _watch (reads : list (option string)) : bool :=
  match reads with
  | [] => false
  | data :: reads => if bool_decide (default EmptyString data = EmptyString) then true else _watch reads
  end.

(** main: how the supervisor ends and what it leaves on the status pipe, given
    whether it leads its group and what Popen and wait come to. *)
Definition main (argv : list string) (leads_group : bool) (command : list string → os_error + status) :
    status * report :=
  if (length argv <? 5)%nat || negb (bool_decide (argv !! 3%nat = Some "--"%string))
  then (sys_exit USAGE_EXIT_CODE, NoReport) else
  if negb leads_group then (sys_exit USAGE_EXIT_CODE, NoReport) else
  match command (drop 4 argv) with
  | inl error => (sys_exit LAUNCH_FAILED_EXIT_CODE, Report error)
  | inr s => (_end_like (returncode_of s), NoReport)
  end.
End supervisor.

(** The arguments _start_supervised passes. *)
Definition argv_for (watch_fd status_fd : string) (command : list string) : list string :=
  "job_supervisor"%string :: watch_fd :: status_fd :: "--"%string :: command.

(** A status a process can have. *)
Definition possible (fatal : Z → bool) (s : status) : Prop :=
  match s with Exited c => 0 <= c < 256 | KilledBy n => 0 < n ∧ fatal n = true end.

Lemma end_like_returncode fatal s : possible fatal s → _end_like fatal (returncode_of s) = s.
Proof.
  destruct s as [c|n]; cbn; unfold _end_like.
  - intros Hc. destruct (Z.leb_spec 0 c); [|lia]. unfold sys_exit. by rewrite Z.mod_small.
  - intros [Hn Hf]. destruct (Z.leb_spec 0 (- n)); [lia|]. by rewrite Z.opp_involutive, Hf.
Qed.
End Supervisor.

(** * Theorems *)

(** A system for concrete runs: the clock advances one second per effect, the
    supervisor launches at once, and a wait answers [w] of its number. *)
Definition sample_os (w : nat → waited) : OS := {|
  monotonic n := binary_normalize 53 1024 (Z.of_nat n) 0 false;
  pipe_fails _ := None;
  spawn_fails _ := None;
  select_ready _ _ := Some true;
  status_report _ := NoReport;
  communicate_result n _ := w n;
  poll_result _ := None;
  str_of_error := strerror |}.

(** C20: How an execution ends.  When JobExecutionService returns for a command,
    it did so in one of five ways: the job ended by itself; its supervisor ended
    and the rest of the group was killed; the command could not be started; it was
    stopped, by SIGTERM first and by SIGKILL only after the grace period ran out.
    The flags of the result name the one reason for which it was stopped (timeout,
    lost lease, cancellation), that reason was there, and the result counts as
    succeeded only if the command ended by itself with exit code 0. *)
Theorem execution_ends_as_specified `{OS} grace poll_interval fuel command timeout cancel lost s r :
  execute grace poll_interval fuel (Some command) timeout cancel lost os_start = (s, inr r) →
  (∃ k tail,
    os_log s = Reaped :: Signalled SIGKILL :: tail ++ replicate k WaitExpired ++ [Spawned] ∧
    ending (deadline_of timeout) cancel lost r tail) ∧
  (succeeded r = true → exit_code r = Some 0 ∧ Signalled SIGTERM ∉ os_log s).
Proof.
  intros He. pose proof (execute_spec grace poll_interval fuel command timeout cancel lost) as Hs.
  unfold wp in Hs. rewrite He in Hs. destruct Hs as (_ & k & tail & Hl & Hend). split; [eauto|].
  unfold succeeded. rewrite !andb_true_iff, !negb_true_iff, bool_decide_eq_true. intros [[[Ht Hc] Hls] Hx].
  split; [done|]. rewrite Hl, !elem_of_cons, !elem_of_app, elem_of_replicate, list_elem_of_singleton.
  intros [?|[?|[Htail|[[? _]|?]]]]; try done.
  inversion Hend as [|? ? a ? ? ? ? [->| ->]| |? why|? why]; subst;
    try set_solver; by destruct (stopped_flagged why r).
Qed.

Lemma execution_ends_as_specified_witness :
  ∃ s r, execute (H:=sample_os (λ n, if (n <? 20)%nat then TimeoutExpired else Finished "out" "" 0)) 5000000 200000
      10 (Some ["true"%string]) 3600000000 None None os_start = (s, inr r) ∧
    succeeded r = true ∧ exit_code r = Some 0 ∧ Signalled SIGTERM ∉ os_log s.
Proof.
  eexists _, _. split; [vm_compute; reflexivity|]. split; [reflexivity|].
  eapply (@execution_ends_as_specified (sample_os (λ n, if (n <? 20)%nat then TimeoutExpired else Finished "out" "" 0))
    5000000 200000 10 ["true"%string] 3600000000 None None); vm_compute; reflexivity.
Defined.


(** C21: An execution ends.  Once there is a reason to stop that stays (the clock
    is past the deadline, the cancellation or the loss of the lease was signalled)
    the loop ends at its next turn: if the reason is there from effect [N] on, then
    [N + 1] turns are enough, the outcome is that of the code and not of a
    loop cut off, and more turns would not change it. *)
Theorem execution_terminates `{OS} grace poll_interval command timeout cancel lost N fuel :
  due_from timeout cancel lost N → (N < fuel)%nat →
  ∃ s r, r ≠ inl OutOfFuel ∧
    ∀ fuel', (fuel ≤ fuel')%nat →
      execute grace poll_interval fuel' (Some command) timeout cancel lost os_start = (s, r).
Proof.
  intros HN Hf. pose proof (execute_returns grace poll_interval fuel command timeout cancel lost N HN Hf) as Hr.
  unfold wp in Hr.
  pose proof (λ m, execute_more_fuel grace poll_interval fuel m (Some command) timeout cancel lost os_start) as Hm.
  destruct (execute _ _ fuel _ _ _ _ _) as [s r]. exists s, r.
  assert (r ≠ inl OutOfFuel) as Hne by (destruct r; [congruence|done]).
  split; [done|]. intros fuel' Hle. by apply Hm.
Qed.

Lemma execution_terminates_witness :
  ∃ s r, r ≠ inl OutOfFuel ∧
    ∀ fuel', (61 ≤ fuel')%nat →
      execute (H:=sample_os (λ _, TimeoutExpired)) 5000000 200000 fuel' (Some ["sleep"%string; "forever"%string])
        3600000000 (Some (λ n, (60 <=? n)%nat)) None os_start = (s, r).
Proof.
  apply (@execution_terminates (sample_os (λ _, TimeoutExpired)) 5000000 200000 ["sleep"%string; "forever"%string]
    3600000000 (Some (λ n, (60 <=? n)%nat)) None 60 61); [|lia].
  exists Cancelled. intros i Hi. exists (λ n, (60 <=? n)%nat). split; [reflexivity|]. by apply Nat.leb_le.
Defined.

(** The supervisor is transparent.  Started the way JobExecutionService starts
    it, it ends exactly as the command did, by the same exit code or the same
    signal, so the parent reads the returncode of the command; a command that
    could not be started is reported on the status pipe, and only such a one. *)
Theorem supervisor_transparent fatal watch_fd status_fd command run :
  command ≠ [] →
  match run command with
  | inr s => Supervisor.possible fatal s →
      Supervisor.main fatal (Supervisor.argv_for watch_fd status_fd command) true run = (s, NoReport)
  | inl error =>
      Supervisor.main fatal (Supervisor.argv_for watch_fd status_fd command) true run =
        (Supervisor.Exited 127, Report error)
  end.
Proof.
  intros Hc. unfold Supervisor.main, Supervisor.argv_for. destruct command as [|c cs]; [done|].
  cbn. rewrite bool_decide_eq_true_2 by done. cbn. destruct (run (c :: cs)) as [e|s]; [done|].
  intros Hs. by rewrite Supervisor.end_like_returncode.
Qed.

Lemma supervisor_transparent_witness :
  Supervisor.main (λ n, n =? 9) (Supervisor.argv_for "5" "8" ["sleep"%string]) true (λ _, inr (Supervisor.KilledBy 9)) =
    (Supervisor.KilledBy 9, NoReport).
Proof.
  apply (supervisor_transparent (λ n, n =? 9) "5" "8" ["sleep"%string] (λ _, inr (Supervisor.KilledBy 9))).
  - done.
  - vm_compute. split; reflexivity.
Defined.
