(* ===== verification/ApiKey.v ===== *)
(** API keys (src/app/domain/entities/api_key.py), their scopes
    (src/app/domain/value_objects/api_key_scope.py) and the policies that decide
    what a key may do (src/app/domain/services/key_authorization.py and
    job_authorization.py).

    A [str] is a sequence of code points below 256; headers are decoded as
    latin-1, so for them this is exact. *)
From S2P Require Import Prelude Values.
From stdpp Require Import sorting.
Local Open Scope Z_scope.

(** * Python strings *)

Abbreviation chr := Ascii.ascii (only parsing).

(** [str.isspace] on one code point. *)
Definition is_space (c : chr) : bool :=
  let n := Ascii.N_of_ascii c in
  ((9 <=? n) && (n <=? 13) || (28 <=? n) && (n <=? 32) || (n =? 133) || (n =? 160))%N.

Fixpoint lstrip (s : string) : string :=
  match s with
  | String c s' => if is_space c then lstrip s' else s
  | EmptyString => EmptyString
  end.

Fixpoint rstrip (s : string) : string :=
  match s with
  | EmptyString => EmptyString
  | String c s' =>
      match rstrip s' with
      | EmptyString => if is_space c then EmptyString else String c EmptyString
      | t => String c t
      end
  end.

(** [s.strip()] *)
Definition strip (s : string) : string := rstrip (lstrip s).

(** [s.startswith(p)], and [s.removeprefix(p)] when it does. *)
Fixpoint after_prefix (p s : string) : option string :=
  match p, s with
  | EmptyString, _ => Some s
  | String a p', String b s' => if bool_decide (a = b) then after_prefix p' s' else None
  | String _ _, EmptyString => None
  end.

(** [not s] and [not s.strip()] *)
Definition is_blank (s : string) : bool := bool_decide (strip s = EmptyString).

(** A non-empty string without white space at either end survives [strip]. *)
Fixpoint no_space (s : string) : bool :=
  match s with
  | EmptyString => true
  | String c s' => negb (is_space c) && no_space s'
  end.

Lemma rstrip_no_space s : no_space s = true → rstrip s = s.
Proof.
  induction s as [|c s IH]; cbn; [done|]. intros [Hc Hs]%andb_true_iff.
  rewrite IH by done. destruct s; [|done]. by destruct (is_space c).
Qed.

Lemma strip_no_space s : no_space s = true → strip s = s.
Proof.
  intros Hs. unfold strip. destruct s as [|c s]; [done|]. cbn [lstrip].
  pose proof Hs as [Hc _]%andb_true_iff. destruct (is_space c); [done|]. by apply rstrip_no_space.
Qed.

Lemma after_prefix_app p s : after_prefix p (p +:+ s) = Some s.
Proof.
  induction p as [|a p IH]; [done|]. change (String a p +:+ s) with (String a (p +:+ s)).
  cbn [after_prefix]. by rewrite bool_decide_eq_true_2.
Qed.

(** * Scopes *)

Definition JOBS_EXECUTE : string := "jobs:execute".
Definition KEYS_MANAGE : string := "keys:manage".
Definition KNOWN_SCOPES : gset string := {[ JOBS_EXECUTE; KEYS_MANAGE ]}.

(** [sorted] of strings: by code point. *)
Definition str_le (a b : string) : Prop := String.leb a b = true.
#[global] Instance str_le_dec a b : Decision (str_le a b).
Proof. unfold str_le. apply _. Defined.
Definition sorted (s : gset string) : list string := merge_sort str_le (elements s).

(** validate_scopes *)
Definition validate_scopes (scopes : gset string) : exn + gset string :=
  match sorted (scopes ∖ KNOWN_SCOPES) with
  | unknown :: _ => inl (UnknownApiKeyScopeError unknown)
  | [] => inr scopes
  end.

Lemma validate_scopes_spec scopes :
  match validate_scopes scopes with
  | inr s => s = scopes ∧ scopes ⊆ KNOWN_SCOPES
  | inl e => ∃ u, e = UnknownApiKeyScopeError u ∧ u ∈ scopes ∧ u ∉ KNOWN_SCOPES
  end.
Proof.
  unfold validate_scopes, sorted. pose proof (merge_sort_Permutation str_le (elements (scopes ∖ KNOWN_SCOPES))) as Hp.
  destruct (merge_sort _ _) as [|u l].
  - symmetry in Hp. apply Permutation_nil_r, elements_empty_inv in Hp. split; [done|].
    intros x Hx. destruct (decide (x ∈ KNOWN_SCOPES)); [done|]. set_solver.
  - exists u. split; [done|]. assert (u ∈ elements (scopes ∖ KNOWN_SCOPES)) as Hu by (rewrite <- Hp; left).
    apply elem_of_elements in Hu. set_solver.
Qed.

(** * The entity *)

Record api_key := mkApiKey {
  k_id : ApiKeyId;
  k_key_hash : string;
  k_label : string;
  k_created_at : datetime;
  k_tenant_id : TenantId;
  k_revoked_at : option datetime;
  k_last_used_at : option datetime;
  k_scopes : gset string;
  k_issued_by : option ApiKeyId;
}.

#[global] Instance api_key_eq_dec : EqDecision api_key.
Proof. solve_decision. Defined.

Definition set_revoked_at (o : option datetime) (k : api_key) : api_key :=
  mkApiKey (k_id k) (k_key_hash k) (k_label k) (k_created_at k) (k_tenant_id k) o (k_last_used_at k)
    (k_scopes k) (k_issued_by k).
Definition set_last_used_at (o : option datetime) (k : api_key) : api_key :=
  mkApiKey (k_id k) (k_key_hash k) (k_label k) (k_created_at k) (k_tenant_id k) (k_revoked_at k) o
    (k_scopes k) (k_issued_by k).

Definition is_active (k : api_key) : bool := bool_decide (k_revoked_at k = None).

Definition has_scope (scope : string) (k : api_key) : bool := bool_decide (scope ∈ k_scopes k).

(** ApiKey.revoke *)
Definition revoke (now : datetime) : stM api_key exn unit :=
  revoked ← gets k_revoked_at;
  id ← gets k_id;
  match (revoked : option datetime) with
  | Some _ => raise (ApiKeyAlreadyRevokedError id)
  | None => modify (set_revoked_at (Some now))
  end.

Lemma revoke_spec now k :
  revoke now k = match k_revoked_at k with
                 | Some _ => (k, inl (ApiKeyAlreadyRevokedError (k_id k)))
                 | None => (set_revoked_at (Some now) k, inr tt)
                 end.
Proof. unfold revoke. stM_unfold. by destruct (k_revoked_at k). Qed.

(** * Policies *)

(** authorize_key_management *)
Definition authorize_key_management (scopes : gset string) : exn + unit :=
  if bool_decide (KEYS_MANAGE ∈ scopes) then inr tt else inl (ScopeDeniedError KEYS_MANAGE).

(** authorize_key_revocation *)
Definition authorize_key_revocation (caller_scopes : gset string) (caller_id : ApiKeyId)
    (target_issued_by : option ApiKeyId) : exn + unit :=
  if bool_decide (KEYS_MANAGE ∈ caller_scopes) then inr tt else
  match target_issued_by with
  | Some issuer => if bool_decide (caller_id = issuer) then inr tt else inl (ScopeDeniedError KEYS_MANAGE)
  | None => inl (ScopeDeniedError KEYS_MANAGE)
  end.

(** authorize_key_view *)
Definition authorize_key_view (caller_scopes : gset string) (caller_id requested_issuer_id : ApiKeyId)
    : exn + unit :=
  if bool_decide (KEYS_MANAGE ∈ caller_scopes) then inr tt else
  if bool_decide (caller_id = requested_issuer_id) then inr tt else inl (ScopeDeniedError KEYS_MANAGE).

(** authorize_job_creation: [command is None], not truthiness. *)
Definition authorize_job_creation (scopes : gset string) (command : option (list string)) : exn + unit :=
  match command with
  | None => inr tt
  | Some _ =>
      if bool_decide (JOBS_EXECUTE ∈ scopes) then inr tt else inl (ScopeDeniedError JOBS_EXECUTE)
  end.

(** Who may revoke a key: a caller with [keys:manage], or its issuer. *)
Definition may_revoke (caller target : api_key) : Prop :=
  KEYS_MANAGE ∈ k_scopes caller ∨ k_issued_by target = Some (k_id caller).

Lemma authorize_key_revocation_spec caller target :
  match authorize_key_revocation (k_scopes caller) (k_id caller) (k_issued_by target) with
  | inr _ => may_revoke caller target
  | inl e => ¬ may_revoke caller target ∧ e = ScopeDeniedError KEYS_MANAGE
  end.
Proof.
  unfold authorize_key_revocation, may_revoke. case_bool_decide; [by left|].
  destruct (k_issued_by target) as [i|]; [case_bool_decide|]; naive_solver.
Qed.
