(* ===== verification/Worker.v ===== *)
(** The [Worker], [Lease] and [Event] entities
    (src/app/domain/entities/worker.py, lease.py, event.py).

    A worker object holds its [Node] object and, while busy, the [Job] object it
    runs.  A method that mutates the running job mutates that nested object; the
    methods that finish a job also clear the worker's reference to it, and
    callers keep theirs, so those methods return the job object they mutated. *)
From S2P Require Import Prelude Values Job Node.
Local Open Scope Z_scope.

Definition WORKER_HEARTBEAT_TIMEOUT : timedelta := minutes 1.

Record worker := mkWorker {
  w_id : WorkerId;
  w_node : node;
  w_status : WorkerStatus;
  w_managed_by : WorkerManagement;
  w_running_job : option job;
  w_last_seen_at : datetime;
}.

#[global] Instance worker_eq_dec : EqDecision worker.
Proof. solve_decision. Defined.

Definition set_worker_status (s : WorkerStatus) (w : worker) : worker :=
  mkWorker (w_id w) (w_node w) s (w_managed_by w) (w_running_job w) (w_last_seen_at w).
Definition set_managed_by (m : WorkerManagement) (w : worker) : worker :=
  mkWorker (w_id w) (w_node w) (w_status w) m (w_running_job w) (w_last_seen_at w).
Definition set_running_job (j : option job) (w : worker) : worker :=
  mkWorker (w_id w) (w_node w) (w_status w) (w_managed_by w) j (w_last_seen_at w).
Definition set_worker_last_seen_at (t : datetime) (w : worker) : worker :=
  mkWorker (w_id w) (w_node w) (w_status w) (w_managed_by w) (w_running_job w) t.

Abbreviation workerM := (stM worker exn).

(** [Worker.tenant_id]: the tenant of its node. *)
Definition w_tenant_id (w : worker) : TenantId := n_tenant_id (w_node w).

Module Worker.
(** [Worker(id=..., node=..., managed_by=...)] *)
Definition new (id : WorkerId) (n : node) (managed_by : WorkerManagement) (now : datetime)
    : worker :=
  mkWorker id n STARTING managed_by None now.

Definition heartbeat (now : datetime) (w : worker) : worker :=
  let w := set_worker_last_seen_at now w in
  if bool_decide (w_status w = OFFLINE) && bool_decide (w_running_job w = None)
  then set_worker_status IDLE w else w.

Definition is_alive (now : datetime) (w : worker) : bool :=
  now - w_last_seen_at w <=? WORKER_HEARTBEAT_TIMEOUT.

Definition belongs_to (t : TenantId) (w : worker) : bool := bool_decide (w_tenant_id w = t).

Definition ready (w : worker) : worker := set_worker_status IDLE w.

Definition recover (w : worker) : worker := set_worker_status IDLE (set_running_job None w).

Definition is_idle (w : worker) : bool := bool_decide (w_status w = IDLE).

Definition is_offline (w : worker) : bool := bool_decide (w_status w = OFFLINE).

Definition accept (j : job) : workerM unit :=
  w ← getS;
  if negb (is_idle w) then raise (ValueError "Worker is not accepting jobs.") else
  if negb (bool_decide (j_assigned_node_id j = Some (n_id (w_node w))))
  then raise (ValueError "Job is assigned to another node.") else
  modify (set_running_job (Some j)) ;;
  modify (set_worker_status BUSY).

(** Run a method of the running job on the nested object, and return that
    object; [msg] is the error when there is none. *)
Definition on_running_job (msg : string) (m : jobM unit) : workerM job :=
  w ← getS;
  match w_running_job w with
  | None => raise (ValueError msg)
  | Some j =>
      let '(j', r) := m j in
      modify (set_running_job (Some j')) ;;
      match r with
      | inl e => raise e
      | inr _ => mret j'
      end
  end.

Definition start (now : datetime) : workerM job :=
  on_running_job "No assigned job." (Job.start now).

(** Clear the reference and go idle, handing back the finished job. *)
Definition finish (m : jobM unit) : workerM job :=
  j ← on_running_job "No running job." m;
  modify (set_running_job None) ;;
  modify (set_worker_status IDLE) ;;
  mret j.

Definition complete (exit_code : option Z) (now : datetime) : workerM job :=
  finish (Job.complete exit_code now).

Definition fail (exit_code : option Z) (now : datetime) : workerM job :=
  finish (Job.fail exit_code now).

Definition cancel_job (exit_code : option Z) (now : datetime) : workerM job :=
  finish (Job.confirm_cancelled exit_code now).

Definition drain (w : worker) : worker := set_worker_status DRAINING w.

Definition offline (w : worker) : worker := set_worker_status OFFLINE w.

(** An idle worker runs nothing. *)
Definition wf (w : worker) : Prop := w_status w = IDLE → w_running_job w = None.

Lemma heartbeat_wf now w : wf w → wf (heartbeat now w).
Proof.
  unfold wf, heartbeat. cbn. intros Hw. do 2 (case_bool_decide; cbn; try done).
Qed.

Lemma heartbeat_fields now w :
  w_id (heartbeat now w) = w_id w ∧ w_node (heartbeat now w) = w_node w ∧
  w_running_job (heartbeat now w) = w_running_job w.
Proof. unfold heartbeat. by destruct (_ && _). Qed.

Lemma recover_wf w : wf (recover w).
Proof. done. Qed.

Lemma accept_spec j w :
  accept j w =
    if is_idle w then
      if bool_decide (j_assigned_node_id j = Some (n_id (w_node w)))
      then (set_worker_status BUSY (set_running_job (Some j) w), inr tt)
      else (w, inl (ValueError "Job is assigned to another node."))
    else (w, inl (ValueError "Worker is not accepting jobs.")).
Proof. unfold accept. stM_unfold. destruct (is_idle w); [|done]. cbn. by case_bool_decide. Qed.

Lemma finish_spec m w :
  finish m w =
    match w_running_job w with
    | None => (w, inl (ValueError "No running job."))
    | Some j =>
        match m j with
        | (j', inl e) => (set_running_job (Some j') w, inl e)
        | (j', inr _) => (recover w, inr j')
        end
    end.
Proof.
  unfold finish, on_running_job. stM_unfold. destruct (w_running_job w) as [j|]; [|done].
  by destruct (m j) as [j' [e|[]]].
Qed.

Lemma start_spec now w :
  start now w =
    match w_running_job w with
    | None => (w, inl (ValueError "No assigned job."))
    | Some j =>
        match Job.start now j with
        | (j', inl e) => (set_running_job (Some j') w, inl e)
        | (j', inr _) => (set_running_job (Some j') w, inr j')
        end
    end.
Proof.
  unfold start, on_running_job. stM_unfold. destruct (w_running_job w) as [j|]; [|done].
  by destruct (Job.start now j) as [j' [e|[]]].
Qed.
End Worker.

(** * Leases *)

Definition DEFAULT_LEASE_DURATION : timedelta := seconds 30.

Record lease := mkLease {
  l_id : LeaseId;
  l_worker_id : WorkerId;
  l_job_id : JobId;
  l_tenant_id : TenantId;
  l_acquired_at : datetime;
  l_expires_at : datetime;
}.

#[global] Instance lease_eq_dec : EqDecision lease.
Proof. solve_decision. Defined.

Definition set_expires_at (t : datetime) (l : lease) : lease :=
  mkLease (l_id l) (l_worker_id l) (l_job_id l) (l_tenant_id l) (l_acquired_at l) t.

Module Lease.
Definition create (id : LeaseId) (w : WorkerId) (j : JobId) (t : TenantId)
    (duration : timedelta) (now : datetime) : lease :=
  mkLease id w j t now (now + duration).

Definition is_expired (now : datetime) (l : lease) : bool := l_expires_at l <=? now.

Definition renew (duration : timedelta) (now : datetime) (l : lease) : lease :=
  set_expires_at (now + duration) l.
End Lease.

(** * Events *)

Record event := mkEvent {
  e_id : EventId;
  e_aggregate_id : JobId;      (* [str(job.id)] *)
  e_aggregate_type : string;
  e_event_type : string;
  e_tenant_id : TenantId;
  e_occurred_at : datetime;
  e_payload : gmap string string;
}.

#[global] Instance event_eq_dec : EqDecision event.
Proof. solve_decision. Defined.
