(* ===== verification/Db.v ===== *)
(** The PostgreSQL tables (src/app/infrastructure/repositories/schema.sql and
    migrations/versions, as migration 0005 leaves them) and the SQL statements
    the Postgres repositories send.  Every connection is in autocommit mode
    (src/app/presentation/dependencies.py), so one statement is one transaction:
    it happens entirely or raises and changes nothing.

    The constraints are checked as the schema declares them: INTEGER columns hold
    32-bit values, foreign keys carry the tenant, a lease is unique per worker and
    per job, deleting a node cascades to its workers and their leases and clears
    [jobs.assigned_node_id].  Of [tenants] only the identifiers are kept. *)
From S2P Require Import Prelude Values Job Node ApiKey Worker.
Local Open Scope Z_scope.

(** * Tables *)

Record worker_row := mkWorkerRow {
  r_id : WorkerId;
  r_node_id : NodeId;
  r_tenant_id : TenantId;
  r_status : WorkerStatus;
  r_managed_by : WorkerManagement;
  r_running_job_id : option JobId;
  r_last_seen_at : datetime;
}.

#[global] Instance worker_row_eq_dec : EqDecision worker_row.
Proof. solve_decision. Defined.

(** Rows of [jobs], [nodes], [leases] and [api_keys] hold every field of their entity, so
    the entity is the row.  A JSONB document of string pairs is a map. *)
Record db := mkDb {
  db_tenants : gset TenantId;
  db_nodes : gmap NodeId node;
  db_jobs : gmap JobId job;
  db_workers : gmap WorkerId worker_row;
  db_leases : gmap LeaseId lease;
  db_events : list event;
  db_keys : gmap ApiKeyId api_key;
}.

Definition set_nodes (m : gmap NodeId node) (d : db) : db :=
  mkDb (db_tenants d) m (db_jobs d) (db_workers d) (db_leases d) (db_events d) (db_keys d).
Definition set_jobs (m : gmap JobId job) (d : db) : db :=
  mkDb (db_tenants d) (db_nodes d) m (db_workers d) (db_leases d) (db_events d) (db_keys d).
Definition set_workers (m : gmap WorkerId worker_row) (d : db) : db :=
  mkDb (db_tenants d) (db_nodes d) (db_jobs d) m (db_leases d) (db_events d) (db_keys d).
Definition set_leases (m : gmap LeaseId lease) (d : db) : db :=
  mkDb (db_tenants d) (db_nodes d) (db_jobs d) (db_workers d) m (db_events d) (db_keys d).
Definition set_events (l : list event) (d : db) : db :=
  mkDb (db_tenants d) (db_nodes d) (db_jobs d) (db_workers d) (db_leases d) l (db_keys d).
Definition set_keys (m : gmap ApiKeyId api_key) (d : db) : db :=
  mkDb (db_tenants d) (db_nodes d) (db_jobs d) (db_workers d) (db_leases d) (db_events d) m.

Abbreviation sql := (stM db exn).

(** The rows of a table, in the order the map lists them. *)
Definition rows {K V} `{Countable K} (m : gmap K V) : list V := (map_to_list m).*2.

Lemma elem_of_rows {K V} `{Countable K} (m : gmap K V) v : v ∈ rows m ↔ ∃ k, m !! k = Some v.
Proof.
  unfold rows. rewrite list_elem_of_fmap. split.
  - intros ([k v'] & -> & Hk%elem_of_map_to_list). eauto.
  - intros [k Hk]. exists (k, v). split; [done|]. by apply elem_of_map_to_list.
Qed.

(** * Column types and foreign keys *)

Definition int4 (z : Z) : bool := (-2147483648 <=? z) && (z <=? 2147483647).

Definition resources_int4 (r : ResourceRequirements) : bool :=
  int4 (cpu_cores r) && int4 (memory_mib r) && int4 (vram_mib r).

Definition job_int4 (j : job) : bool :=
  resources_int4 (j_resources j) && int4 (j_priority j) && int4 (j_max_retries j) &&
  int4 (j_retry_count j) && match j_exit_code j with None => true | Some c => int4 c end.

Definition node_int4 (n : node) : bool :=
  resources_int4 (n_capacity n) && resources_int4 (n_available n).

(** [FOREIGN KEY (x, tenant_id) REFERENCES t (id, tenant_id)]; a NULL matches. *)
Definition fk_node (d : db) (n : NodeId) (t : TenantId) : bool :=
  bool_decide (n_tenant_id <$> db_nodes d !! n = Some t).
Definition fk_job (d : db) (j : JobId) (t : TenantId) : bool :=
  bool_decide (j_tenant_id <$> db_jobs d !! j = Some t).
Definition fk_worker (d : db) (w : WorkerId) (t : TenantId) : bool :=
  bool_decide (r_tenant_id <$> db_workers d !! w = Some t).
Definition fk_tenant (d : db) (t : TenantId) : bool := bool_decide (t ∈ db_tenants d).

Definition fk_opt {A} (fk : A → bool) (o : option A) : bool :=
  match o with None => true | Some a => fk a end.

(** * nodes *)

(** PostgresNodeRepository.save: [INSERT ... ON CONFLICT (id) DO UPDATE ... WHERE
    nodes.tenant_id = EXCLUDED.tenant_id], then the row count. *)
Definition upsert_node (n : node) : sql unit := λ d,
  if negb (node_int4 n) then (d, inl NumericValueOutOfRange) else
  match db_nodes d !! n_id n with
  | Some old =>
      if bool_decide (n_tenant_id old = n_tenant_id n)
      then (set_nodes (<[n_id n := n]> (db_nodes d)) d, inr tt)
      else (d, inl NodeTenantConflictError)
  | None =>
      if fk_tenant d (n_tenant_id n)
      then (set_nodes (<[n_id n := n]> (db_nodes d)) d, inr tt)
      else (d, inl (ForeignKeyViolation "nodes_tenant_id_fkey"))
  end.

(** The rows [workers.node_id ON DELETE CASCADE] keeps. *)
Definition workers_off (n : NodeId) (m : gmap WorkerId worker_row) : gmap WorkerId worker_row :=
  filter (λ kv, r_node_id kv.2 ≠ n) m.

(** The rows [leases.worker_id ON DELETE CASCADE] keeps. *)
Definition leases_of_workers (ws : gmap WorkerId worker_row) (m : gmap LeaseId lease)
    : gmap LeaseId lease :=
  filter (λ kv, is_Some (ws !! l_worker_id kv.2)) m.

(** [jobs.assigned_node_id ON DELETE SET NULL (assigned_node_id)] *)
Definition unassign_from (n : NodeId) (j : job) : job :=
  if bool_decide (j_assigned_node_id j = Some n) then set_assigned_node_id None j else j.

(** PostgresNodeRepository.delete *)
Definition delete_node (n : NodeId) (t : TenantId) : sql unit := λ d,
  match db_nodes d !! n with
  | Some row =>
      if bool_decide (n_tenant_id row = t) then
        let ws := workers_off n (db_workers d) in
        (mkDb (db_tenants d) (delete n (db_nodes d)) (unassign_from n <$> db_jobs d)
              ws (leases_of_workers ws (db_leases d)) (db_events d) (db_keys d), inr tt)
      else (d, inr tt)
  | None => (d, inr tt)
  end.

(** * jobs *)

(** PostgresJobRepository.save *)
Definition upsert_job (j : job) : sql unit := λ d,
  if negb (job_int4 j) then (d, inl NumericValueOutOfRange) else
  let write :=
    if fk_opt (λ n, fk_node d n (j_tenant_id j)) (j_assigned_node_id j)
    then (set_jobs (<[j_id j := j]> (db_jobs d)) d, inr tt)
    else (d, inl (ForeignKeyViolation "jobs_assigned_node_same_tenant")) in
  match db_jobs d !! j_id j with
  | Some old =>
      if bool_decide (j_tenant_id old = j_tenant_id j) then write
      else (d, inl JobTenantConflictError)
  | None =>
      if fk_tenant d (j_tenant_id j) then write
      else (d, inl (ForeignKeyViolation "jobs_tenant_id_fkey"))
  end.

(** * workers *)

(** The parameters of PostgresWorkerRepository.save. *)
Definition row_of_worker (w : worker) : worker_row :=
  mkWorkerRow (w_id w) (n_id (w_node w)) (w_tenant_id w) (w_status w) (w_managed_by w)
    (j_id <$> w_running_job w) (w_last_seen_at w).

(** A lease referencing the row blocks a change of its tenant. *)
Definition tenant_referenced (d : db) (w : WorkerId) (t : TenantId) : bool :=
  existsb (λ l, bool_decide (l_worker_id l = w) && negb (bool_decide (l_tenant_id l = t)))
    (rows (db_leases d)).

(** PostgresWorkerRepository.save: the upsert has no WHERE clause. *)
Definition upsert_worker (r : worker_row) : sql unit := λ d,
  if negb (fk_tenant d (r_tenant_id r)) then (d, inl (ForeignKeyViolation "workers_tenant_id_fkey"))
  else if negb (fk_node d (r_node_id r) (r_tenant_id r))
  then (d, inl (ForeignKeyViolation "workers_node_same_tenant"))
  else if negb (fk_opt (λ j, fk_job d j (r_tenant_id r)) (r_running_job_id r))
  then (d, inl (ForeignKeyViolation "workers_running_job_same_tenant"))
  else if tenant_referenced d (r_id r) (r_tenant_id r)
  then (d, inl (ForeignKeyViolation "leases_worker_same_tenant"))
  else (set_workers (<[r_id r := r]> (db_workers d)) d, inr tt).

(** PostgresWorkerRepository.delete *)
Definition delete_worker (w : WorkerId) (t : TenantId) : sql unit := λ d,
  match db_workers d !! w with
  | Some r =>
      if bool_decide (r_tenant_id r = t) then
        let ws := delete w (db_workers d) in
        (set_leases (leases_of_workers ws (db_leases d)) (set_workers ws d), inr tt)
      else (d, inr tt)
  | None => (d, inr tt)
  end.

(** * leases *)

(** Another lease on the same worker, or on the same job. *)
Definition worker_taken (d : db) (l : lease) : bool :=
  existsb (λ l', bool_decide (l_worker_id l' = l_worker_id l) && negb (bool_decide (l_id l' = l_id l)))
    (rows (db_leases d)).
Definition job_taken (d : db) (l : lease) : bool :=
  existsb (λ l', bool_decide (l_job_id l' = l_job_id l) && negb (bool_decide (l_id l' = l_id l)))
    (rows (db_leases d)).

(** PostgresLeaseRepository.save: [INSERT ... ON CONFLICT (id) DO UPDATE]; a
    foreign key violation on the worker is reported as [WorkerNotFoundError]. *)
Definition upsert_lease (l : lease) : sql unit := λ d,
  if worker_taken d l then (d, inl (UniqueViolation "leases_worker_id_key"))
  else if job_taken d l then (d, inl (UniqueViolation "leases_job_id_key"))
  else if negb (fk_worker d (l_worker_id l) (l_tenant_id l))
  then (d, inl (WorkerNotFoundError (l_worker_id l)))
  else if negb (fk_job d (l_job_id l) (l_tenant_id l))
  then (d, inl (ForeignKeyViolation "leases_job_same_tenant"))
  else if negb (fk_tenant d (l_tenant_id l))
  then (d, inl (ForeignKeyViolation "leases_tenant_id_fkey"))
  else (set_leases (<[l_id l := l]> (db_leases d)) d, inr tt).

(** PostgresLeaseRepository.renew: a plain UPDATE, never an upsert. *)
Definition update_lease_expiry (id : LeaseId) (t : TenantId) (expires_at : datetime) : sql unit := λ d,
  match db_leases d !! id with
  | Some l =>
      if bool_decide (l_tenant_id l = t)
      then (set_leases (<[id := set_expires_at expires_at l]> (db_leases d)) d, inr tt)
      else (d, inl (LeaseNotFoundError id))
  | None => (d, inl (LeaseNotFoundError id))
  end.

(** The rows a [WHERE job_id = ... AND tenant_id = ...] selects. *)
Definition lease_matches_job (j : JobId) (t : TenantId) (l : lease) : bool :=
  bool_decide (l_job_id l = j) && bool_decide (l_tenant_id l = t).
Definition lease_matches_worker (w : WorkerId) (t : TenantId) (l : lease) : bool :=
  bool_decide (l_worker_id l = w) && bool_decide (l_tenant_id l = t).

(** PostgresLeaseRepository.delete *)
Definition delete_lease (j : JobId) (t : TenantId) : sql unit := λ d,
  (set_leases (filter (λ kv, lease_matches_job j t kv.2 = false) (db_leases d)) d, inr tt).

(** PostgresLeaseRepository.delete_if_expired: [AND expires_at < now], and
    whether a row was deleted. *)
Definition delete_lease_if_expired (j : JobId) (t : TenantId) (now : datetime) : sql bool := λ d,
  let hit (l : lease) := lease_matches_job j t l && (l_expires_at l <? now) in
  (set_leases (filter (λ kv, hit kv.2 = false) (db_leases d)) d,
   inr (existsb hit (rows (db_leases d)))).

(** * events *)

(** PostgresEventRepository.save: [ON CONFLICT (id) DO NOTHING]. *)
Definition insert_event (e : event) : sql unit := λ d,
  if existsb (λ e', bool_decide (e_id e' = e_id e)) (db_events d) then (d, inr tt)
  else if negb (fk_tenant d (e_tenant_id e))
  then (d, inl (ForeignKeyViolation "events_tenant_id_fkey"))
  else if negb (fk_job d (e_aggregate_id e) (e_tenant_id e))
  then (d, inl (ForeignKeyViolation "events_job_same_tenant"))
  else (set_events (db_events d ++ [e]) d, inr tt).

(** * api_keys *)

(** The unique index on [key_hash]. *)
Definition hash_taken (d : db) (h : string) : bool :=
  existsb (λ k, bool_decide (k_key_hash k = h)) (rows (db_keys d)).

(** PostgresApiKeyRepository.save: [INSERT ... ON CONFLICT (id) DO UPDATE SET
    revoked_at, last_used_at, scopes WHERE api_keys.tenant_id =
    EXCLUDED.tenant_id], then the row count.  The row itself satisfies a foreign
    key that names it. *)
Definition upsert_key (k : api_key) : sql unit := λ d,
  match db_keys d !! k_id k with
  | Some old =>
      if bool_decide (k_tenant_id old = k_tenant_id k)
      then (set_keys (<[k_id k := mkApiKey (k_id old) (k_key_hash old) (k_label old) (k_created_at old)
              (k_tenant_id old) (k_revoked_at k) (k_last_used_at k) (k_scopes k) (k_issued_by old)]>
              (db_keys d)) d, inr tt)
      else (d, inl ApiKeyTenantConflictError)
  | None =>
      let m := <[k_id k := k]> (db_keys d) in
      if hash_taken d (k_key_hash k) then (d, inl (UniqueViolation "idx_api_keys_key_hash"))
      else if negb (fk_opt (λ i, bool_decide (is_Some (m !! i))) (k_issued_by k))
      then (d, inl (ForeignKeyViolation "api_keys_issued_by_fkey"))
      else if negb (fk_tenant d (k_tenant_id k))
      then (d, inl (ForeignKeyViolation "api_keys_tenant_id_fkey"))
      else if negb (fk_opt (λ i, bool_decide (k_tenant_id <$> m !! i = Some (k_tenant_id k))) (k_issued_by k))
      then (d, inl (ForeignKeyViolation "api_keys_issuer_same_tenant"))
      else (set_keys m d, inr tt)
  end.

(** PostgresApiKeyRepository.mark_used: a plain UPDATE. *)
Definition mark_key_used (k : ApiKeyId) (t : TenantId) (now : datetime) : sql unit := λ d,
  match db_keys d !! k with
  | Some row =>
      if bool_decide (k_tenant_id row = t)
      then (set_keys (<[k := set_last_used_at (Some now) row]> (db_keys d)) d, inr tt)
      else (d, inl (ApiKeyNotFoundError k))
  | None => (d, inl (ApiKeyNotFoundError k))
  end.

(** * Integrity: what the schema enforces *)

Record integrity (d : db) : Prop := mkIntegrity {
  int_nodes k n : db_nodes d !! k = Some n →
    n_id n = k ∧ n_tenant_id n ∈ db_tenants d ∧ node_int4 n = true;
  int_jobs k j : db_jobs d !! k = Some j →
    j_id j = k ∧ j_tenant_id j ∈ db_tenants d ∧ job_int4 j = true ∧
    fk_opt (λ n, fk_node d n (j_tenant_id j)) (j_assigned_node_id j) = true;
  int_workers k r : db_workers d !! k = Some r →
    r_id r = k ∧ r_tenant_id r ∈ db_tenants d ∧
    fk_node d (r_node_id r) (r_tenant_id r) = true ∧
    fk_opt (λ j, fk_job d j (r_tenant_id r)) (r_running_job_id r) = true;
  int_leases k l : db_leases d !! k = Some l →
    l_id l = k ∧ l_tenant_id l ∈ db_tenants d ∧
    fk_worker d (l_worker_id l) (l_tenant_id l) = true ∧
    fk_job d (l_job_id l) (l_tenant_id l) = true;
  int_lease_worker k l k' l' : db_leases d !! k = Some l → db_leases d !! k' = Some l' →
    l_worker_id l = l_worker_id l' → k = k';
  int_lease_job k l k' l' : db_leases d !! k = Some l → db_leases d !! k' = Some l' →
    l_job_id l = l_job_id l' → k = k';
  int_events e : e ∈ db_events d → fk_job d (e_aggregate_id e) (e_tenant_id e) = true;
}.

Lemma fk_node_spec d n t :
  fk_node d n t = true ↔ ∃ x, db_nodes d !! n = Some x ∧ n_tenant_id x = t.
Proof. unfold fk_node. rewrite bool_decide_eq_true, fmap_Some. naive_solver. Qed.
Lemma fk_job_spec d j t :
  fk_job d j t = true ↔ ∃ x, db_jobs d !! j = Some x ∧ j_tenant_id x = t.
Proof. unfold fk_job. rewrite bool_decide_eq_true, fmap_Some. naive_solver. Qed.
Lemma fk_worker_spec d w t :
  fk_worker d w t = true ↔ ∃ x, db_workers d !! w = Some x ∧ r_tenant_id x = t.
Proof. unfold fk_worker. rewrite bool_decide_eq_true, fmap_Some. naive_solver. Qed.
Lemma fk_tenant_spec d t : fk_tenant d t = true ↔ t ∈ db_tenants d.
Proof. unfold fk_tenant. by rewrite bool_decide_eq_true. Qed.
Lemma fk_opt_spec {A} (fk : A → bool) o : fk_opt fk o = true ↔ ∀ a, o = Some a → fk a = true.
Proof. destruct o; cbn; naive_solver. Qed.

(** Two databases in which the same foreign keys resolve. *)
Lemma fk_node_mono d d' :
  (∀ n x, db_nodes d !! n = Some x → ∃ x', db_nodes d' !! n = Some x' ∧ n_tenant_id x' = n_tenant_id x) →
  ∀ n t, fk_node d n t = true → fk_node d' n t = true.
Proof. intros H n t. rewrite !fk_node_spec. intros (x & (x' & ? & ?)%H & <-). eauto. Qed.
Lemma fk_job_mono d d' :
  (∀ n x, db_jobs d !! n = Some x → ∃ x', db_jobs d' !! n = Some x' ∧ j_tenant_id x' = j_tenant_id x) →
  ∀ n t, fk_job d n t = true → fk_job d' n t = true.
Proof. intros H n t. rewrite !fk_job_spec. intros (x & (x' & ? & ?)%H & <-). eauto. Qed.

Lemma fk_opt_mono {A} (f g : A → bool) o :
  (∀ a, f a = true → g a = true) → fk_opt f o = true → fk_opt g o = true.
Proof. rewrite !fk_opt_spec. eauto. Qed.

Lemma existsb_rows_false {K V} `{Countable K} (p : V → bool) (m : gmap K V) :
  existsb p (rows m) = false ↔ ∀ k v, m !! k = Some v → p v = false.
Proof.
  rewrite <- not_true_iff_false, existsb_exists. split.
  - intros Hn k v Hk. apply not_true_iff_false. intros Hp. apply Hn. exists v. split; [|done].
    apply list_elem_of_In, elem_of_rows. eauto.
  - intros Hn (v & [k Hk]%list_elem_of_In%elem_of_rows & Hp). rewrite (Hn k v Hk) in Hp. done.
Qed.

Lemma existsb_rows_true {K V} `{Countable K} (p : V → bool) (m : gmap K V) :
  existsb p (rows m) = true ↔ ∃ k v, m !! k = Some v ∧ p v = true.
Proof.
  rewrite existsb_exists. split.
  - intros (v & [k Hk]%list_elem_of_In%elem_of_rows & Hp). eauto.
  - intros (k & v & Hk & Hp). exists v. split; [|done]. apply list_elem_of_In, elem_of_rows. eauto.
Qed.

Create HintDb db discriminated.

Lemma upsert_node_integrity n : preserves integrity (upsert_node n).
Proof.
  intros d Hd. unfold upsert_node. destruct (node_int4 n) eqn:Hi; cbn; [|done].
  assert (n_tenant_id n ∈ db_tenants d →
    (∀ old, db_nodes d !! n_id n = Some old → n_tenant_id old = n_tenant_id n) →
    integrity (set_nodes (<[n_id n := n]> (db_nodes d)) d)) as Hmain.
  { intros Ht Hold. destruct Hd as [Hn Hj Hw Hl Hlw Hlj He].
    assert (∀ m t, fk_node d m t = true →
      fk_node (set_nodes (<[n_id n := n]> (db_nodes d)) d) m t = true) as Hfk.
    { apply fk_node_mono. cbn. intros m x Hx. rewrite lookup_insert. case_decide; subst; eauto.
      exists n. split; [done|]. symmetry. eauto. }
    split; try done.
    - cbn. intros k x. rewrite lookup_insert. case_decide; [intros [= <-]; subst; done|]. apply Hn.
    - intros k j Hk. destruct (Hj k j Hk) as (? & ? & ? & Hfkj). split_and!; try done.
      eapply fk_opt_mono, Hfkj. auto.
    - intros k r Hk. destruct (Hw k r Hk) as (? & ? & ? & Hfkj). split_and!; auto. }
  destruct (db_nodes d !! n_id n) as [old|] eqn:Ho.
  - case_bool_decide as Ht; [|done]. apply Hmain; [|congruence]. rewrite <- Ht. by apply (int_nodes d Hd) in Ho as (_ & ? & _).
  - destruct (fk_tenant d (n_tenant_id n)) eqn:Hf; [|done].
    apply Hmain; [by apply fk_tenant_spec|done].
Qed.

Lemma upsert_job_integrity j : preserves integrity (upsert_job j).
Proof.
  intros d Hd. unfold upsert_job. destruct (job_int4 j) eqn:Hi; cbn; [|done].
  destruct (fk_opt _ _) eqn:Hfkn; cycle 1.
  { destruct (db_jobs d !! j_id j); [case_bool_decide|destruct (fk_tenant _ _)]; done. }
  assert (j_tenant_id j ∈ db_tenants d →
    (∀ old, db_jobs d !! j_id j = Some old → j_tenant_id old = j_tenant_id j) →
    integrity (set_jobs (<[j_id j := j]> (db_jobs d)) d)) as Hmain.
  { intros Ht Hold. destruct Hd as [Hn Hj Hw Hl Hlw Hlj He].
    assert (∀ m t, fk_job d m t = true →
      fk_job (set_jobs (<[j_id j := j]> (db_jobs d)) d) m t = true) as Hfk.
    { apply fk_job_mono. cbn. intros m x Hx. rewrite lookup_insert. case_decide; subst; eauto.
      exists j. split; [done|]. symmetry. eauto. }
    split; try done.
    - cbn. intros k x. rewrite lookup_insert. case_decide; [intros [= <-]; subst; done|]. apply Hj.
    - intros k r Hk. destruct (Hw k r Hk) as (? & ? & ? & Hfkj). split_and!; try done.
      eapply fk_opt_mono, Hfkj. auto.
    - intros k l Hk. destruct (Hl k l Hk) as (? & ? & ? & ?). split_and!; auto.
    - intros e Hin. auto. }
  destruct (db_jobs d !! j_id j) as [old|] eqn:Ho.
  - case_bool_decide as Ht; [|done]. apply Hmain; [|congruence]. rewrite <- Ht. by apply (int_jobs d Hd) in Ho as (_ & ? & _).
  - destruct (fk_tenant d (j_tenant_id j)) eqn:Hf; [|done].
    apply Hmain; [by apply fk_tenant_spec|done].
Qed.

Lemma upsert_worker_integrity r : preserves integrity (upsert_worker r).
Proof.
  intros d Hd. unfold upsert_worker.
  destruct (fk_tenant d _) eqn:Ht; [|done]. apply fk_tenant_spec in Ht.
  destruct (fk_node d _ _) eqn:Hfkn; [|done].
  destruct (fk_opt _ _) eqn:Hfkj; [|done].
  destruct (tenant_referenced _ _ _) eqn:Href; [done|].
  unfold tenant_referenced in Href. rewrite existsb_rows_false in Href. cbn.
  destruct Hd as [Hn Hj Hw Hl Hlw Hlj He]. split; try done.
  - cbn. intros k x. rewrite lookup_insert. case_decide; [intros [= <-]; subst; done|]. apply Hw.
  - intros k l Hk. destruct (Hl k l Hk) as (? & ? & Hfw & ?). split_and!; try done.
    rewrite fk_worker_spec in *. cbn. rewrite lookup_insert. case_decide as Hid; [|done].
    exists r. split; [done|]. specialize (Href k l Hk). rewrite Hid in Href.
    rewrite bool_decide_eq_true_2 in Href by done. cbn in Href.
    apply negb_false_iff, bool_decide_eq_true in Href. done.
Qed.

Lemma upsert_lease_integrity l : preserves integrity (upsert_lease l).
Proof.
  intros d Hd. unfold upsert_lease.
  destruct (worker_taken d l) eqn:Hwt; [done|]. destruct (job_taken d l) eqn:Hjt; [done|].
  destruct (fk_worker d _ _) eqn:Hfw; [|done]. destruct (fk_job d _ _) eqn:Hfj; [|done].
  destruct (fk_tenant d _) eqn:Ht; [|done]. apply fk_tenant_spec in Ht. cbn.
  unfold worker_taken, job_taken in *. rewrite existsb_rows_false in Hwt, Hjt.
  destruct Hd as [Hn Hj Hw Hl Hlw Hlj He].
  assert (∀ k l', db_leases d !! k = Some l' → l_worker_id l' = l_worker_id l → k = l_id l) as Hwu.
  { intros k l' Hk E. specialize (Hwt k l' Hk). rewrite bool_decide_eq_true_2 in Hwt by done.
    apply negb_false_iff, bool_decide_eq_true in Hwt. apply Hl in Hk as (<- & _). done. }
  assert (∀ k l', db_leases d !! k = Some l' → l_job_id l' = l_job_id l → k = l_id l) as Hju.
  { intros k l' Hk E. specialize (Hjt k l' Hk). rewrite bool_decide_eq_true_2 in Hjt by done.
    apply negb_false_iff, bool_decide_eq_true in Hjt. apply Hl in Hk as (<- & _). done. }
  split; try done.
  - cbn. intros k x. rewrite lookup_insert. case_decide; [intros [= <-]; subst; done|]. apply Hl.
  - cbn. intros k x k' x'. rewrite !lookup_insert. repeat case_decide; try naive_solver.
  - cbn. intros k x k' x'. rewrite !lookup_insert. repeat case_decide; try naive_solver.
Qed.

(** Leases can only be lost: every remaining row is one of the old rows. *)
Lemma set_leases_shrink_integrity d m :
  integrity d → (∀ k l, m !! k = Some l → db_leases d !! k = Some l) →
  integrity (set_leases m d).
Proof. intros [Hn Hj Hw Hl Hlw Hlj He] Hsub. split; try done; cbn; eauto. Qed.

Lemma delete_lease_integrity j t : preserves integrity (delete_lease j t).
Proof.
  intros d Hd. cbn. apply set_leases_shrink_integrity; [done|].
  by intros k l [? _]%map_lookup_filter_Some.
Qed.

Lemma delete_lease_if_expired_integrity j t now :
  preserves integrity (delete_lease_if_expired j t now).
Proof.
  intros d Hd. cbn. apply set_leases_shrink_integrity; [done|].
  by intros k l [? _]%map_lookup_filter_Some.
Qed.

Lemma update_lease_expiry_integrity id t at_ : preserves integrity (update_lease_expiry id t at_).
Proof.
  intros d Hd. unfold update_lease_expiry.
  destruct (db_leases d !! id) as [l|] eqn:Hid; [|done]. case_bool_decide; [|done].
  destruct Hd as [Hn Hj Hw Hl Hlw Hlj He].
  assert (∀ k x, <[id := set_expires_at at_ l]> (db_leases d) !! k = Some x →
    ∃ x', db_leases d !! k = Some x' ∧ l_id x = l_id x' ∧ l_worker_id x = l_worker_id x' ∧
      l_job_id x = l_job_id x' ∧ l_tenant_id x = l_tenant_id x') as Hback.
  { intros k x. rewrite lookup_insert. case_decide; [|by eauto 10]. intros [= <-]. subst. eauto 10. }
  split; try done; cbn.
  - intros k x (x' & Hx' & -> & -> & -> & ->)%Hback. by apply Hl.
  - intros k x k' x' (y & Hy & _ & -> & _)%Hback (y' & Hy' & _ & -> & _)%Hback. eauto.
  - intros k x k' x' (y & Hy & _ & _ & -> & _)%Hback (y' & Hy' & _ & _ & -> & _)%Hback. eauto.
Qed.

Lemma delete_worker_integrity w t : preserves integrity (delete_worker w t).
Proof.
  intros d Hd. unfold delete_worker.
  destruct (db_workers d !! w) as [r|] eqn:Hr; [|done]. case_bool_decide; [|done]. cbn.
  destruct Hd as [Hn Hj Hw Hl Hlw Hlj He]. split; try done; cbn.
  - intros k x [_ Hk]%lookup_delete_Some. by apply Hw.
  - intros k l [Hk [x Hx]]%map_lookup_filter_Some. destruct (Hl k l Hk) as (? & ? & Hfk & ?).
    split_and!; try done. apply fk_worker_spec in Hfk as (y & Hy & Ht).
    apply fk_worker_spec. cbn in *. exists y. split; [|done].
    apply lookup_delete_Some in Hx as [Hne _]. by rewrite lookup_delete_ne.
  - intros k l k' l' [Hk _]%map_lookup_filter_Some [Hk' _]%map_lookup_filter_Some. eauto.
  - intros k l k' l' [Hk _]%map_lookup_filter_Some [Hk' _]%map_lookup_filter_Some. eauto.
Qed.

Lemma unassign_from_fields n j :
  j_id (unassign_from n j) = j_id j ∧ j_tenant_id (unassign_from n j) = j_tenant_id j ∧
  job_int4 (unassign_from n j) = job_int4 j ∧ j_assigned_node_id (unassign_from n j) ≠ Some n.
Proof. unfold unassign_from. case_bool_decide; destruct j; cbn; done. Qed.

Lemma delete_node_integrity n t : preserves integrity (delete_node n t).
Proof.
  intros d Hd. unfold delete_node.
  destruct (db_nodes d !! n) as [row|] eqn:Hr; [|done]. case_bool_decide; [|done].
  destruct Hd as [Hn Hj Hw Hl Hlw Hlj He].
  set (d' := mkDb _ _ _ _ _ _ _).
  assert (∀ m t, m ≠ n → fk_node d m t = true → fk_node d' m t = true) as Hfkn.
  { intros m t' Hm. rewrite !fk_node_spec. cbn. by rewrite lookup_delete_ne. }
  assert (∀ m t, fk_job d m t = true → fk_job d' m t = true) as Hfkj.
  { apply fk_job_mono. intros m x Hx. cbn. rewrite lookup_fmap, Hx. cbn.
    eexists. split; [done|]. apply unassign_from_fields. }
  split; cbn.
  - intros k x [_ Hk]%lookup_delete_Some. by apply Hn.
  - intros k j'. rewrite lookup_fmap, fmap_Some. intros (j & Hk & ->).
    destruct (Hj k j Hk) as (? & ? & ? & Hfk). destruct (unassign_from_fields n j) as (-> & -> & -> & Hne).
    split_and!; try done. rewrite fk_opt_spec in *. intros m Hm. apply Hfkn; [congruence|].
    apply Hfk. unfold unassign_from in Hm. by case_bool_decide.
  - intros k r [Hk Hne]%map_lookup_filter_Some. destruct (Hw k r Hk) as (? & ? & ? & Hfk).
    split_and!; auto. eapply fk_opt_mono, Hfk. auto.
  - intros k l [Hk [x Hx]]%map_lookup_filter_Some. destruct (Hl k l Hk) as (? & ? & Hfk & ?).
    split_and!; auto. apply fk_worker_spec in Hfk as (y & Hy & Ht). apply fk_worker_spec.
    cbn in *. exists y. split; [|done]. apply map_lookup_filter_Some in Hx as [? Hx].
    rewrite Hy in *. simplify_eq. by apply map_lookup_filter_Some.
  - intros k l k' l' [Hk _]%map_lookup_filter_Some [Hk' _]%map_lookup_filter_Some. eauto.
  - intros k l k' l' [Hk _]%map_lookup_filter_Some [Hk' _]%map_lookup_filter_Some. eauto.
  - intros e Hin. auto.
Qed.

Lemma insert_event_integrity e : preserves integrity (insert_event e).
Proof.
  intros d Hd. unfold insert_event. destruct (existsb _ _); [done|].
  destruct (fk_tenant d _); [|done]. destruct (fk_job d _ _) eqn:Hfk; [|done]. cbn.
  destruct Hd as [Hn Hj Hw Hl Hlw Hlj He]. split; try done. cbn.
  intros e'. rewrite elem_of_app, list_elem_of_singleton. intros [?| ->]; [by apply He|done].
Qed.

(** The tables the cluster lives in do not refer to [api_keys]. *)
Lemma set_keys_integrity m d : integrity d → integrity (set_keys m d).
Proof. by intros []; split. Qed.

Lemma upsert_key_integrity k : preserves integrity (upsert_key k).
Proof.
  intros d Hd. unfold upsert_key. destruct (db_keys d !! k_id k); cbn zeta;
    repeat match goal with |- context [if ?b then _ else _] => destruct b end; try done;
    by apply set_keys_integrity.
Qed.

Lemma mark_key_used_integrity k t now : preserves integrity (mark_key_used k t now).
Proof.
  intros d Hd. unfold mark_key_used. destruct (db_keys d !! k); [|done].
  case_bool_decide; [|done]. by apply set_keys_integrity.
Qed.

#[export] Hint Resolve upsert_node_integrity upsert_job_integrity upsert_worker_integrity
  upsert_lease_integrity delete_lease_integrity delete_lease_if_expired_integrity
  update_lease_expiry_integrity delete_worker_integrity delete_node_integrity
  insert_event_integrity upsert_key_integrity mark_key_used_integrity : db.

(** * All the statements that write *)

Inductive stmt :=
  | UpsertNode (n : node)
  | DeleteNode (n : NodeId) (t : TenantId)
  | UpsertJob (j : job)
  | UpsertWorker (w : worker)
  | DeleteWorker (w : WorkerId) (t : TenantId)
  | UpsertLease (l : lease)
  | RenewLease (l : LeaseId) (t : TenantId) (expires_at : datetime)
  | DeleteLease (j : JobId) (t : TenantId)
  | DeleteLeaseIfExpired (j : JobId) (t : TenantId) (now : datetime)
  | InsertEvent (e : event)
  | UpsertKey (k : api_key)
  | MarkKeyUsed (k : ApiKeyId) (t : TenantId) (now : datetime).

(** The database a statement leaves, whether it succeeds or is refused. *)
Definition exec (d : db) (s : stmt) : db :=
  match s with
  | UpsertNode n => (upsert_node n d).1
  | DeleteNode n t => (delete_node n t d).1
  | UpsertJob j => (upsert_job j d).1
  | UpsertWorker w => (upsert_worker (row_of_worker w) d).1
  | DeleteWorker w t => (delete_worker w t d).1
  | UpsertLease l => (upsert_lease l d).1
  | RenewLease l t e => (update_lease_expiry l t e d).1
  | DeleteLease j t => (delete_lease j t d).1
  | DeleteLeaseIfExpired j t now => (delete_lease_if_expired j t now d).1
  | InsertEvent e => (insert_event e d).1
  | UpsertKey k => (upsert_key k d).1
  | MarkKeyUsed k t now => (mark_key_used k t now d).1
  end.

Lemma preserves_fst {S X A} (I : S → Prop) (m : stM S X A) s : preserves I m → I s → I (m s).1.
Proof. intros Hm Hs. specialize (Hm s Hs). by destruct (m s) as [s' [e|a]]. Qed.

Lemma exec_integrity d s : integrity d → integrity (exec d s).
Proof. intros Hd. destruct s; cbn [exec]; apply preserves_fst; auto with db. Qed.

Lemma exec_all_integrity d l : integrity d → integrity (foldl exec d l).
Proof. revert d. induction l as [|s l IH]; intros d Hd; cbn; [done|]. by apply IH, exec_integrity. Qed.

Definition empty_db (tenants : gset TenantId) : db := mkDb tenants ∅ ∅ ∅ ∅ [] ∅.

Lemma empty_db_integrity T : integrity (empty_db T).
Proof. split; cbn; try by intros *; rewrite lookup_empty. by intros e []%elem_of_nil. Qed.
