(* ===== verification/Prog.v ===== *)
(** Programs against the database.

    A service runs as a sequence of effects: SQL statements, readings of the
    clock, random identifiers.  Its state is the database and the number of
    effects performed so far.  What the environment decides is a parameter: the
    readings of the clock, the outcomes of [uuid.uuid4], [random] and
    [secrets.token_urlsafe], SHA-256, the order
    in which a SELECT without ORDER BY returns its rows, and what other
    connections commit between two statements of this program
    (src/app/presentation/dependencies.py: the pool is in autocommit mode and
    every repository call takes a connection of its own). *)
From S2P Require Import Prelude Values Job Node Float64 Execution ApiKey Worker Db.
Local Open Scope Z_scope.

(** The machine the cluster loop runs commands on.  [os_at n] is the operating
    system during the execution that begins at effect [n]; [renewals n] is how often
    the renewal thread of that execution wakes up before it is told to stop, and
    [renewals_seen n i] how many of its turns are over when the execution performs
    its own effect [i].  The laws: the clock passes every finite deadline; a returncode is an
    exit status or a negated signal number. *)
Class Host := {
  os_at : nat → OS;
  renewals : nat → nat;
  renewals_seen : nat → nat → nat;
  overdue_from : nat → timedelta → nat;
  time_passes n timeout i : ffinite (@deadline_of (os_at n) timeout) = true → (overdue_from n timeout ≤ i)%nat →
    fle (fsub (@deadline_of (os_at n) timeout) (@monotonic (os_at n) i)) fzero = true;
  communicate_code n i t out err c :
    @communicate_result (os_at n) i t = Finished out err c → -128 <= c < 256;
  poll_code n i c : @poll_result (os_at n) i = Some c → -128 <= c < 256;
}.

(** What a program runs against.  The laws: distinct calls of [uuid.uuid4]
    return distinct identifiers; a SELECT returns each row once; distinct calls of
    [secrets.token_urlsafe] return secrets with distinct hashes, and a secret
    consists of URL-safe characters. *)
Class Env := {
  clock : nat → datetime;
  uuid4 : nat → uuid;
  draw : nat → name_draw;
  row_order : ∀ A : Type, nat → list A → list A;
  token_urlsafe : nat → string;
  sha256_hex : string → string;
  interfere : nat → db → db;
  host : Host;
  uuid4_inj : Inj (=) (=) uuid4;
  row_order_perm A n (l : list A) : row_order A n l ≡ₚ l;
  secrets_inj : Inj (=) (=) (λ n, sha256_hex (token_urlsafe n));
  token_nonempty n : token_urlsafe n ≠ EmptyString;
  token_no_space n : no_space (token_urlsafe n) = true;
}.
#[global] Existing Instance uuid4_inj.
#[global] Existing Instance host.

(** No other connection writes while the program runs. *)
Class Quiet (E : Env) : Prop := quiet n d : interfere n d = d.

(** Other connections only run statements that keep [I]. *)
Definition interference_keeps (I : db → Prop) {E : Env} : Prop :=
  ∀ n d, I d → I (interfere n d).

Record world := mkWorld { w_db : db; w_step : nat }.

Abbreviation prog := (stM world exn).

(** One statement, after whatever other connections did meanwhile. *)
Definition statement {E : Env} {A} (s : sql A) : prog A := λ w,
  let '(d', r) := s (interfere (w_step w) (w_db w)) in (mkWorld d' (S (w_step w)), r).

Definition utc_now {E : Env} : prog datetime := λ w,
  (mkWorld (w_db w) (S (w_step w)), inr (clock (w_step w))).

(** The readings of a loop that looks at the clock once per item. *)
Definition utc_now_each {E : Env} (items : nat) : prog (nat → datetime) := λ w,
  (mkWorld (w_db w) (items + w_step w), inr (λ i, clock (i + w_step w))).

Definition new_uuid {E : Env} : prog uuid := λ w,
  (mkWorld (w_db w) (S (w_step w)), inr (uuid4 (w_step w))).

Definition draw_name {E : Env} : prog name_draw := λ w,
  (mkWorld (w_db w) (S (w_step w)), inr (draw (w_step w))).

Definition new_secret {E : Env} : prog string := λ w,
  (mkWorld (w_db w) (S (w_step w)), inr (token_urlsafe (w_step w))).

(** The rows of a SELECT in the order the server chose. *)
Definition unordered {E : Env} {A} (l : list A) : prog (list A) := λ w,
  (mkWorld (w_db w) (S (w_step w)), inr (row_order A (w_step w) l)).

(** Code that computes a value or raises. *)
Definition of_sum {A} (r : exn + A) : prog A :=
  match r with inl e => raise e | inr a => mret a end.

(** A method called on an object this program holds: the object it leaves and
    the value it returns.  When it raises, the object is unreachable for the
    rest of the program. *)
Definition on_object {X A} (m : stM X exn A) (x : X) : prog (X * A) :=
  match m x with
  | (_, inl e) => raise e
  | (x', inr a) => mret (x', a)
  end.

(** * Execution without interference *)

Definition on_db (I : db → Prop) (w : world) : Prop := I (w_db w).

Section wp_prog.
Context {E : Env}.
Implicit Types R : exn → world → Prop.

Lemma wp_statement `{!Quiet E} {A} (s : sql A) Q R d n :
  wp s (λ a d', Q a (mkWorld d' (S n))) (λ e d', R e (mkWorld d' (S n))) d →
  wp (statement s) Q R (mkWorld d n).
Proof.
  unfold wp, statement. cbn. rewrite quiet. by destruct (s d) as [d' [e|a]].
Qed.

Lemma wp_utc_now Q R d n : Q (clock n) (mkWorld d (S n)) → wp utc_now Q R (mkWorld d n).
Proof. done. Qed.

Lemma wp_utc_now_each k Q R d n :
  Q (λ i, clock (i + n)) (mkWorld d (k + n)) → wp (utc_now_each k) Q R (mkWorld d n).
Proof. done. Qed.

Lemma wp_new_uuid Q R d n : Q (uuid4 n) (mkWorld d (S n)) → wp new_uuid Q R (mkWorld d n).
Proof. done. Qed.

Lemma wp_draw_name Q R d n : Q (draw n) (mkWorld d (S n)) → wp draw_name Q R (mkWorld d n).
Proof. done. Qed.

Lemma wp_new_secret Q R d n : Q (token_urlsafe n) (mkWorld d (S n)) → wp new_secret Q R (mkWorld d n).
Proof. done. Qed.

Lemma wp_unordered {A} (l : list A) Q R d n :
  (∀ l', l' ≡ₚ l → Q l' (mkWorld d (S n))) → wp (unordered l) Q R (mkWorld d n).
Proof. intros H. apply H, row_order_perm. Qed.

Lemma wp_of_sum {A} (r : exn + A) Q R w :
  match r with inl e => R e w | inr a => Q a w end → wp (of_sum r) Q R w.
Proof. by destruct r. Qed.

Lemma wp_on_object {X A} (m : stM X exn A) x Q R w :
  match m x with (_, inl e) => R e w | (x', inr a) => Q (x', a) w end →
  wp (on_object m x) Q R w.
Proof. unfold on_object. by destruct (m x) as [x' [e|a]]. Qed.

(** * Properties under any interference *)

Lemma statement_preserves {A} (I : db → Prop) (s : sql A) :
  interference_keeps I → preserves I s → preserves (on_db I) (statement s).
Proof.
  intros Hi Hs [d n] Hw. unfold statement. cbn.
  specialize (Hs _ (Hi n d Hw)). by destruct (s _) as [d' [e|a]].
Qed.

Lemma utc_now_preserves I : preserves (on_db I) utc_now.
Proof. by intros w Hw. Qed.
Lemma utc_now_each_preserves I k : preserves (on_db I) (utc_now_each k).
Proof. by intros w Hw. Qed.
Lemma new_uuid_preserves I : preserves (on_db I) new_uuid.
Proof. by intros w Hw. Qed.
Lemma draw_name_preserves I : preserves (on_db I) draw_name.
Proof. by intros w Hw. Qed.
Lemma new_secret_preserves I : preserves (on_db I) new_secret.
Proof. by intros w Hw. Qed.
Lemma unordered_preserves {A} I (l : list A) : preserves (on_db I) (unordered l).
Proof. by intros w Hw. Qed.
Lemma of_sum_preserves {A} I (r : exn + A) : preserves (on_db I) (of_sum r).
Proof. destruct r; by intros w Hw. Qed.
Lemma on_object_preserves {X A} I (m : stM X exn A) x : preserves (on_db I) (on_object m x).
Proof. unfold on_object. destruct (m x) as [x' [e|a]]; by intros w Hw. Qed.
End wp_prog.

#[export] Hint Resolve statement_preserves utc_now_preserves utc_now_each_preserves
  new_uuid_preserves draw_name_preserves new_secret_preserves unordered_preserves of_sum_preserves
  on_object_preserves : prog.

(** Walk through a program, discharging each effect with the [prog] and [db]
    databases. *)
Ltac prog_step :=
  lazymatch goal with
  | |- preserves _ (_ ≫= _) => apply preserves_bind; [|intros]
  | |- preserves _ (match ?x with _ => _ end) => destruct x
  | |- preserves _ (if ?b then _ else _) => destruct b
  | |- preserves _ (for_each _ _) => apply preserves_for; intros
  | |- preserves _ (try_except _ _) => apply preserves_try; [|intros]
  | |- preserves _ _ => solve [eauto 3 with prog db]
  end.
Ltac prog_preserves := repeat prog_step.

(** Execute the next effect. *)
Ltac wp_step :=
  lazymatch goal with
  | |- wp (_ ≫= _) _ _ _ => apply wp_bind
  | |- wp (mret _) _ _ _ => apply wp_ret
  | |- wp (raise _) _ _ _ => apply wp_raise
  | |- wp (try_except _ _) _ _ _ => apply wp_try
  | |- wp (statement _) _ _ _ => apply wp_statement
  | |- wp utc_now _ _ _ => apply wp_utc_now
  | |- wp (utc_now_each _) _ _ _ => apply wp_utc_now_each
  | |- wp new_uuid _ _ _ => apply wp_new_uuid
  | |- wp draw_name _ _ _ => apply wp_draw_name
  | |- wp new_secret _ _ _ => apply wp_new_secret
  | |- wp (of_sum _) _ _ _ => apply wp_of_sum
  | |- wp (on_object _ _) _ _ _ => apply wp_on_object
  end.
Ltac wp_steps := repeat (wp_step; cbn beta).
