(* ===== verification/Repos.v ===== *)
(** The Postgres repositories
    (src/app/infrastructure/repositories/postgres_*_repository.py) as programs.

    Each call is one statement, or several when a worker is read: its row, then
    its node, then its job, each by a statement of its own.  Reading a row
    constructs the entity, whose constructor validates. *)
From S2P Require Import Prelude Values Job Node Worker Db Prog.
Local Open Scope Z_scope.

(** * Selecting rows *)

(** [SELECT * FROM t WHERE id = ... AND tenant_id = ...] *)
Definition in_tenant {A} (tenant_of : A → TenantId) (t : TenantId) (o : option A) : option A :=
  match o with
  | Some x => if bool_decide (tenant_of x = t) then Some x else None
  | None => None
  end.

Definition select_job (j : JobId) (t : TenantId) (d : db) : option job :=
  in_tenant j_tenant_id t (db_jobs d !! j).
Definition select_node_row (n : NodeId) (t : TenantId) (d : db) : option node :=
  in_tenant n_tenant_id t (db_nodes d !! n).
Definition select_worker (w : WorkerId) (t : TenantId) (d : db) : option worker_row :=
  in_tenant r_tenant_id t (db_workers d !! w).

(** [[f(row) for row in rows]], and the same dropping the [None]s. *)
Fixpoint load_each {A B} (f : A → prog B) (l : list A) : prog (list B) :=
  match l with
  | [] => mret []
  | x :: l' => y ← f x; ys ← load_each f l'; mret (y :: ys)
  end.

Fixpoint load_some {A B} (f : A → prog (option B)) (l : list A) : prog (list B) :=
  match l with
  | [] => mret []
  | x :: l' =>
      o ← f x; ys ← load_some f l';
      mret (match o with Some y => y :: ys | None => ys end)
  end.

Section repositories.
Context {E : Env}.

(** A SELECT of many rows, in the order the server chooses. *)
Definition select_rows {A} (f : db → list A) : prog (list A) :=
  l ← statement (gets f); unordered l.

(** [fetchone()] *)
Definition fetchone {A} (f : db → list A) : prog (option A) :=
  l ← select_rows f; mret (head l).
End repositories.

(** [ResourceRequirements(cpu_cores=row[...], ...)] *)
Definition load_resources (r : ResourceRequirements) : exn + ResourceRequirements :=
  new_resources (cpu_cores r) (memory_mib r) (vram_mib r).

(** * PostgresJobRepository *)

Module JobRepository.
Section ops.
Context {E : Env}.

Definition _to_entity (row : job) : exn + job :=
  match load_resources (j_resources row) with
  | inl e => inl e
  | inr _ => job_post_init row
  end.

Definition load (o : option job) : prog (option job) :=
  match o with
  | None => mret None
  | Some row => j ← of_sum (_to_entity row); mret (Some j)
  end.

Definition save (j : job) : prog unit := statement (upsert_job j).

Definition get_by_id (j : JobId) (t : TenantId) : prog (option job) :=
  row ← statement (gets (select_job j t)); load row.

Definition get_by_id_across_tenants (j : JobId) : prog (option job) :=
  row ← statement (gets (λ d, db_jobs d !! j)); load row.

Definition list_queued (t : TenantId) : prog (list job) :=
  l ← select_rows (λ d, filter (λ j, j_status j = QUEUED ∧ j_tenant_id j = t) (rows (db_jobs d)));
  load_each (λ row, of_sum (_to_entity row)) l.

(** [ORDER BY submitted_at DESC LIMIT ...]; equal times come in any order. *)
Definition list_recent (limit : nat) (t : TenantId) : prog (list job) :=
  l ← select_rows (λ d, filter (λ j, j_tenant_id j = t) (rows (db_jobs d)));
  load_each (λ row, of_sum (_to_entity row)) (take limit (sort_desc j_submitted_at l)).

Definition list_across_tenants : prog (list job) :=
  l ← select_rows (λ d, rows (db_jobs d));
  load_each (λ row, of_sum (_to_entity row)) l.
End ops.
End JobRepository.

(** * PostgresNodeRepository *)

Module NodeRepository.
Section ops.
Context {E : Env}.

Definition _to_entity (row : node) : exn + node :=
  match load_resources (n_capacity row) with
  | inl e => inl e
  | inr _ =>
      match load_resources (n_available row) with
      | inl e => inl e
      | inr _ => node_post_init row
      end
  end.

Definition load (o : option node) : prog (option node) :=
  match o with
  | None => mret None
  | Some row => n ← of_sum (_to_entity row); mret (Some n)
  end.

Definition save (n : node) : prog unit := statement (upsert_node n).

Definition get_by_id (n : NodeId) (t : TenantId) : prog (option node) :=
  row ← statement (gets (select_node_row n t)); load row.

Definition get_by_id_across_tenants (n : NodeId) : prog (option node) :=
  row ← statement (gets (λ d, db_nodes d !! n)); load row.

Definition list (t : TenantId) : prog (list node) :=
  l ← select_rows (λ d, filter (λ n, n_tenant_id n = t) (rows (db_nodes d)));
  load_each (λ row, of_sum (_to_entity row)) l.

Definition list_across_tenants : prog (Datatypes.list node) :=
  l ← select_rows (λ d, rows (db_nodes d));
  load_each (λ row, of_sum (_to_entity row)) l.

(** The draining filter is in the query, the heartbeat filter in Python. *)
Definition list_available_across_tenants : prog (Datatypes.list node) :=
  l ← select_rows (λ d, filter (λ n, n_draining n = false) (rows (db_nodes d)));
  load_some (λ row,
    n ← of_sum (_to_entity row);
    now ← utc_now;
    mret (if is_alive now n then Some n else None)) l.

Definition delete (n : NodeId) (t : TenantId) : prog unit := statement (delete_node n t).
End ops.
End NodeRepository.

(** * PostgresWorkerRepository *)

Module WorkerRepository.
Section ops.
Context {E : Env}.

(** The row's name is not passed on, so the constructor generates one. *)
Definition _node_from_row (dr : name_draw) (row : node) : exn + node :=
  NodeRepository._to_entity (set_name (generate_node_name dr) row).

Definition _job_from_row (row : job) : exn + job := JobRepository._to_entity row.

Definition running_job_of (r : worker_row) : prog (option job) :=
  match r_running_job_id r with
  | None => mret None
  | Some j =>
      row ← statement (gets (λ d, db_jobs d !! j));
      match row with
      | None => mret None
      | Some x => x' ← of_sum (_job_from_row x); mret (Some x')
      end
  end.

Definition _to_entity (r : worker_row) : prog (option worker) :=
  node_row ← statement (gets (λ d, db_nodes d !! r_node_id r));
  match node_row with
  | None => mret None
  | Some row =>
      dr ← draw_name;
      n ← of_sum (_node_from_row dr row);
      j ← running_job_of r;
      mret (Some (mkWorker (r_id r) n (r_status r) (r_managed_by r) j (r_last_seen_at r)))
  end.

Definition load (o : option worker_row) : prog (option worker) :=
  match o with None => mret None | Some r => _to_entity r end.

Definition save (w : worker) : prog unit := statement (upsert_worker (row_of_worker w)).

Definition get_by_id (w : WorkerId) (t : TenantId) : prog (option worker) :=
  r ← statement (gets (select_worker w t)); load r.

Definition get_by_id_across_tenants (w : WorkerId) : prog (option worker) :=
  r ← statement (gets (λ d, db_workers d !! w)); load r.

Definition get_by_node_id (n : NodeId) (t : TenantId) : prog (option worker) :=
  r ← fetchone (λ d, filter (λ r, r_node_id r = n ∧ r_tenant_id r = t) (rows (db_workers d)));
  load r.

Definition list (t : TenantId) : prog (list worker) :=
  l ← select_rows (λ d, filter (λ r, r_tenant_id r = t) (rows (db_workers d)));
  load_some _to_entity l.

Definition list_across_tenants : prog (Datatypes.list worker) :=
  l ← select_rows (λ d, rows (db_workers d));
  load_some _to_entity l.

Definition delete (w : WorkerId) (t : TenantId) : prog unit := statement (delete_worker w t).
End ops.
End WorkerRepository.

(** * PostgresLeaseRepository *)

Module LeaseRepository.
Section ops.
Context {E : Env}.

Definition save (l : lease) : prog unit := statement (upsert_lease l).

Definition renew (id : LeaseId) (duration : timedelta) (t : TenantId) : prog unit :=
  now ← utc_now; statement (update_lease_expiry id t (now + duration)).

Definition get_by_job_id (j : JobId) (t : TenantId) : prog (option lease) :=
  fetchone (λ d, filter (λ l, lease_matches_job j t l = true) (rows (db_leases d))).

Definition get_by_worker_id (w : WorkerId) (t : TenantId) : prog (option lease) :=
  fetchone (λ d, filter (λ l, lease_matches_worker w t l = true) (rows (db_leases d))).

Definition list_across_tenants : prog (list lease) :=
  select_rows (λ d, rows (db_leases d)).

Definition delete (j : JobId) (t : TenantId) : prog unit := statement (delete_lease j t).

Definition delete_if_expired (j : JobId) (t : TenantId) : prog bool :=
  now ← utc_now; statement (delete_lease_if_expired j t now).
End ops.
End LeaseRepository.

(** * PostgresEventRepository *)

Module EventRepository.
Section ops.
Context {E : Env}.

Definition save (e : event) : prog unit := statement (insert_event e).

(** [ORDER BY occurred_at]; equal times come in any order. *)
Definition list (t : TenantId) : prog (list event) :=
  l ← select_rows (λ d, filter (λ e, e_tenant_id e = t) (db_events d));
  mret (sort_desc (λ e, - e_occurred_at e) l).

Definition list_by_aggregate (j : JobId) (t : TenantId) : prog (Datatypes.list event) :=
  l ← select_rows (λ d, filter (λ e, e_aggregate_id e = j ∧ e_tenant_id e = t) (db_events d));
  mret (sort_desc (λ e, - e_occurred_at e) l).
End ops.
End EventRepository.

(** * What the repositories return when nobody else writes *)

Definition job_row_ok (j : job) : Prop :=
  0 < cpu_cores (j_resources j) ∧ 0 < memory_mib (j_resources j) ∧ 0 <= vram_mib (j_resources j).

Definition node_row_ok (n : node) : Prop := resources_ok (n_capacity n) ∧ node_wf n.

(** Every stored job and node passes the validation of its constructor. *)
Record loadable (d : db) : Prop := mkLoadable {
  ld_jobs k j : db_jobs d !! k = Some j → job_row_ok j;
  ld_nodes k n : db_nodes d !! k = Some n → node_row_ok n;
}.

(** The worker a row stands for, with the name drawn for its node. *)
Definition hydrate (d : db) (dr : name_draw) (r : worker_row) : option worker :=
  n ← db_nodes d !! r_node_id r;
  Some (mkWorker (r_id r) (set_name (generate_node_name dr) n) (r_status r) (r_managed_by r)
    (j ← r_running_job_id r; db_jobs d !! j) (r_last_seen_at r)).

Lemma load_resources_ok r : resources_ok r → load_resources r = inr r.
Proof. intros (? & ? & ?). unfold load_resources. rewrite new_resources_ok by done. by destruct r. Qed.

Lemma job_to_entity_ok j : job_row_ok j → JobRepository._to_entity j = inr j.
Proof.
  intros (? & ? & ?). unfold JobRepository._to_entity.
  rewrite load_resources_ok by (repeat split; lia). unfold job_post_init.
  rewrite (proj2 (Z.leb_gt _ _)) by done. by rewrite (proj2 (Z.leb_gt _ _)).
Qed.

Lemma node_to_entity_ok n : node_row_ok n → NodeRepository._to_entity n = inr n.
Proof.
  intros [Hc [Ha (? & ? & ?)]]. unfold NodeRepository._to_entity.
  rewrite !load_resources_ok by done. unfold node_post_init.
  by rewrite !(proj2 (Z.ltb_ge _ _)).
Qed.

Lemma rows_keys {K V} `{Countable K} (key : V → K) (m : gmap K V) :
  (∀ k v, m !! k = Some v → key v = k) → NoDup (key <$> rows m).
Proof.
  intros Hk. replace (key <$> rows m) with (map_to_list m).*1; [apply NoDup_fst_map_to_list|].
  unfold rows. rewrite <- list_fmap_compose. apply list_fmap_ext. intros i [k v] Hx. cbn.
  symmetry. apply Hk. by apply elem_of_map_to_list, list_elem_of_lookup_2 with i.
Qed.

Section specs.
Context {E : Env} `{!Quiet E}.
Implicit Types (d : db) (R : exn → world → Prop).

Lemma wp_gets {A} (f : db → A) Q R d n :
  Q (f d) (mkWorld d (S n)) → wp (statement (gets f)) Q R (mkWorld d n).
Proof. intros H. by apply wp_statement. Qed.

Lemma wp_select_rows {A} (f : db → list A) Q R d n :
  (∀ l k, l ≡ₚ f d → (n ≤ k)%nat → Q l (mkWorld d k)) → wp (select_rows f) Q R (mkWorld d n).
Proof.
  intros H. unfold select_rows. wp_step. apply wp_gets. apply wp_unordered.
  intros l Hl. apply H; [done|lia].
Qed.

Lemma wp_fetchone {A} (f : db → list A) Q R d n :
  (∀ o k, match o with Some x => x ∈ f d | None => f d = [] end → (n ≤ k)%nat →
     Q o (mkWorld d k)) →
  wp (fetchone f) Q R (mkWorld d n).
Proof.
  intros H. unfold fetchone. wp_step. apply wp_select_rows. intros l k Hl Hk.
  apply wp_ret. apply H; [|done]. destruct l as [|x l]; cbn.
  - by apply Permutation_nil in Hl.
  - rewrite <- Hl. left.
Qed.

Lemma wp_load_each {A B} (f : A → exn + B) (g : A → B) l Q R d n :
  (∀ x, x ∈ l → f x = inr (g x)) → Q (g <$> l) (mkWorld d n) →
  wp (load_each (λ x, of_sum (f x)) l) Q R (mkWorld d n).
Proof.
  revert Q. induction l as [|x l IH]; intros Q Hf HQ; cbn; [done|].
  wp_steps. rewrite (Hf x) by left. wp_step. apply IH; [|done].
  intros y Hy. apply Hf. by right.
Qed.

Lemma wp_job_get_by_id j t Q R d n :
  loadable d → Q (select_job j t d) (mkWorld d (S n)) →
  wp (JobRepository.get_by_id j t) Q R (mkWorld d n).
Proof.
  intros Hd HQ. unfold JobRepository.get_by_id. wp_step. apply wp_gets.
  unfold JobRepository.load, select_job, in_tenant in *.
  destruct (db_jobs d !! j) as [x|] eqn:Hx; [|done].
  case_bool_decide; [|done]. wp_steps. rewrite job_to_entity_ok; [done|].
  by eapply ld_jobs.
Qed.

Lemma wp_job_list Q R d n :
  loadable d →
  (∀ l k, l ≡ₚ rows (db_jobs d) → (n ≤ k)%nat → Q l (mkWorld d k)) →
  wp JobRepository.list_across_tenants Q R (mkWorld d n).
Proof.
  intros Hd HQ. unfold JobRepository.list_across_tenants. wp_step.
  apply wp_select_rows. intros l k Hl Hk. apply wp_load_each with (g := id).
  - intros x Hx. apply job_to_entity_ok. rewrite Hl in Hx.
    apply elem_of_rows in Hx as [j Hj]. by eapply ld_jobs.
  - rewrite list_fmap_id. by apply HQ.
Qed.

Lemma wp_node_get_by_id m t Q R d n :
  loadable d → Q (select_node_row m t d) (mkWorld d (S n)) →
  wp (NodeRepository.get_by_id m t) Q R (mkWorld d n).
Proof.
  intros Hd HQ. unfold NodeRepository.get_by_id. wp_step. apply wp_gets.
  unfold NodeRepository.load, select_node_row, in_tenant in *.
  destruct (db_nodes d !! m) as [x|] eqn:Hx; [|done].
  case_bool_decide; [|done]. wp_steps. rewrite node_to_entity_ok; [done|].
  by eapply ld_nodes.
Qed.

Lemma wp_node_list Q R d n :
  loadable d →
  (∀ l k, l ≡ₚ rows (db_nodes d) → (n ≤ k)%nat → Q l (mkWorld d k)) →
  wp NodeRepository.list_across_tenants Q R (mkWorld d n).
Proof.
  intros Hd HQ. unfold NodeRepository.list_across_tenants. wp_step.
  apply wp_select_rows. intros l k Hl Hk. apply wp_load_each with (g := id).
  - intros x Hx. apply node_to_entity_ok. rewrite Hl in Hx.
    apply elem_of_rows in Hx as [j Hj]. by eapply ld_nodes.
  - rewrite list_fmap_id. by apply HQ.
Qed.

(** The available nodes: rows of the table, each once. *)
Lemma wp_node_list_available Q R d n :
  loadable d → integrity d →
  (∀ l k, NoDup (n_id <$> l) → (∀ x, x ∈ l → db_nodes d !! n_id x = Some x) →
     (n ≤ k)%nat → Q l (mkWorld d k)) →
  wp NodeRepository.list_available_across_tenants Q R (mkWorld d n).
Proof.
  intros Hd Hint HQ. unfold NodeRepository.list_available_across_tenants. wp_step.
  apply wp_select_rows. intros l k Hl Hk.
  assert (∀ x, x ∈ l → db_nodes d !! n_id x = Some x) as Hin.
  { intros x Hx. rewrite Hl in Hx. apply list_elem_of_filter in Hx as [_ [m Hm]%elem_of_rows].
    by destruct (int_nodes d Hint m x Hm) as [<- _]. }
  assert (NoDup (n_id <$> l)) as Hnd.
  { rewrite Hl. eapply sublist_NoDup, fmap_sublist, sublist_filter.
    apply rows_keys. intros m x Hx. by destruct (int_nodes d Hint m x Hx). }
  clear Hl.
  assert (∀ l' k', l' `sublist_of` l → (n ≤ k')%nat → Q l' (mkWorld d k')) as HQ'.
  { intros l' k' Hs Hk'. apply HQ; [|intros x Hx; apply Hin; by eapply elem_of_sublist|done].
    by eapply sublist_NoDup, fmap_sublist. }
  clear HQ Hnd. revert Q HQ' k Hk.
  induction l as [|x l IH]; intros Q HQ k Hk; [by apply wp_ret, HQ|].
  cbn. wp_steps. rewrite node_to_entity_ok by (eapply ld_nodes; [done|apply Hin; left]). wp_steps.
  apply IH; [intros y Hy; apply Hin; by right| |lia].
  intros l' k' Hs Hk'. apply wp_ret. apply HQ; [|done]. destruct (is_alive _ _); by constructor.
Qed.

(** Reading a worker leaves the database alone. *)
Lemma wp_worker_to_entity r Q R d n :
  loadable d → (∀ dr k, (n ≤ k)%nat → Q (hydrate d dr r) (mkWorld d k)) →
  wp (WorkerRepository._to_entity r) Q R (mkWorld d n).
Proof.
  intros Hd HQ. unfold WorkerRepository._to_entity. wp_step. apply wp_gets.
  unfold hydrate in HQ. destruct (db_nodes d !! r_node_id r) as [x|] eqn:Hx; cbn in HQ.
  2:{ apply wp_ret. apply (HQ (draw n)). lia. }
  wp_steps. unfold WorkerRepository._node_from_row.
  rewrite node_to_entity_ok by (by eapply (ld_nodes d Hd) in Hx).
  wp_step. unfold WorkerRepository.running_job_of.
  destruct (r_running_job_id r) as [j|]; cbn in *.
  2:{ wp_steps. apply HQ. lia. }
  wp_step. apply wp_gets. destruct (db_jobs d !! j) as [y|] eqn:Hy; [|wp_steps; apply HQ; lia].
  wp_steps. unfold WorkerRepository._job_from_row.
  rewrite job_to_entity_ok by (by eapply ld_jobs). wp_steps. apply HQ. lia.
Qed.

Lemma wp_worker_load o Q R d n :
  loadable d → (∀ dr k, (n ≤ k)%nat → Q (o ≫= hydrate d dr) (mkWorld d k)) →
  wp (WorkerRepository.load o) Q R (mkWorld d n).
Proof.
  intros Hd HQ. destruct o as [r|]; [by apply wp_worker_to_entity|].
  unfold WorkerRepository.load. wp_step. by apply (HQ (draw n)).
Qed.

Lemma wp_worker_get_by_id w t Q R d n :
  loadable d → (∀ dr k, (n ≤ k)%nat → Q (select_worker w t d ≫= hydrate d dr) (mkWorld d k)) →
  wp (WorkerRepository.get_by_id w t) Q R (mkWorld d n).
Proof.
  intros Hd HQ. unfold WorkerRepository.get_by_id. wp_step. apply wp_gets.
  apply wp_worker_load; [done|]. intros dr k Hk. apply HQ. lia.
Qed.

Lemma wp_worker_get_across w Q R d n :
  loadable d → (∀ dr k, (n ≤ k)%nat → Q (db_workers d !! w ≫= hydrate d dr) (mkWorld d k)) →
  wp (WorkerRepository.get_by_id_across_tenants w) Q R (mkWorld d n).
Proof.
  intros Hd HQ. unfold WorkerRepository.get_by_id_across_tenants. wp_step. apply wp_gets.
  apply wp_worker_load; [done|]. intros dr k Hk. apply HQ. lia.
Qed.

Lemma wp_worker_get_by_node_id m t Q R d n :
  loadable d →
  (∀ o dr k, (n ≤ k)%nat →
     match o with
     | Some r => ∃ w, db_workers d !! w = Some r ∧ r_node_id r = m ∧ r_tenant_id r = t
     | None => ∀ w r, db_workers d !! w = Some r → r_node_id r = m → r_tenant_id r ≠ t
     end → Q (o ≫= hydrate d dr) (mkWorld d k)) →
  wp (WorkerRepository.get_by_node_id m t) Q R (mkWorld d n).
Proof.
  intros Hd HQ. unfold WorkerRepository.get_by_node_id. wp_step. apply wp_fetchone.
  intros o k Ho Hk. apply wp_worker_load; [done|]. intros dr k' Hk'. apply HQ; [lia|].
  destruct o as [r|].
  - apply list_elem_of_filter in Ho as [[? ?] [w ?]%elem_of_rows]. eauto.
  - intros w r Hr Hm Ht. eapply (not_elem_of_nil r). rewrite <- Ho.
    apply list_elem_of_filter. split; [done|]. apply elem_of_rows. eauto.
Qed.

Lemma wp_worker_list Q R d n :
  loadable d → integrity d →
  (∀ l ws k, l ≡ₚ rows (db_workers d) →
     Forall2 (λ r w, ∃ dr, hydrate d dr r = Some w) l ws → (n ≤ k)%nat → Q ws (mkWorld d k)) →
  wp WorkerRepository.list_across_tenants Q R (mkWorld d n).
Proof.
  intros Hd Hint HQ. unfold WorkerRepository.list_across_tenants. wp_step.
  apply wp_select_rows. intros l k Hl Hk. specialize (HQ l).
  assert (∀ ws k, Forall2 (λ r w, ∃ dr, hydrate d dr r = Some w) l ws → (n ≤ k)%nat →
    Q ws (mkWorld d k)) as HQ' by auto. clear HQ.
  assert (∀ r, r ∈ l → ∃ w, db_workers d !! w = Some r) as Hin.
  { intros r Hr. rewrite Hl in Hr. by apply elem_of_rows in Hr. }
  clear Hl. revert Q HQ' k Hk.
  induction l as [|r l IH]; intros Q HQ k Hk; [apply wp_ret, HQ; [constructor|done]|].
  cbn. wp_step. apply wp_worker_to_entity; [done|]. intros dr k' Hk'. wp_step.
  destruct (Hin r) as [w Hw]; [left|].
  destruct (int_workers d Hint w r Hw) as (_ & _ & (x & Hx & _)%fk_node_spec & _).
  apply IH; [intros; apply Hin; by right| |lia]. intros ws k'' Hws Hk''. apply wp_ret.
  unfold hydrate at 1. rewrite Hx. cbn. apply HQ; [|done]. constructor; [|done].
  exists dr. unfold hydrate. by rewrite Hx.
Qed.

(** At most one lease per job and per worker, so [fetchone] finds the lease. *)
Lemma wp_lease_get_by_job_id j t Q R d n :
  (∀ o k, match o with
          | Some l => ∃ i, db_leases d !! i = Some l ∧ l_job_id l = j ∧ l_tenant_id l = t
          | None => ∀ i l, db_leases d !! i = Some l → l_job_id l = j → l_tenant_id l ≠ t
          end → (n ≤ k)%nat → Q o (mkWorld d k)) →
  wp (LeaseRepository.get_by_job_id j t) Q R (mkWorld d n).
Proof.
  intros HQ. apply wp_fetchone. intros o k Ho Hk. apply HQ; [|done].
  unfold lease_matches_job in Ho. destruct o as [l|].
  - apply list_elem_of_filter in Ho as [[??]%andb_true_iff [i Hi]%elem_of_rows].
    rewrite !bool_decide_eq_true in *. eauto.
  - intros i l Hi Hj Ht. eapply (not_elem_of_nil l). rewrite <- Ho. apply list_elem_of_filter.
    split; [by rewrite andb_true_iff, !bool_decide_eq_true|]. apply elem_of_rows. eauto.
Qed.

Lemma wp_lease_get_by_worker_id w t Q R d n :
  (∀ o k, match o with
          | Some l => ∃ i, db_leases d !! i = Some l ∧ l_worker_id l = w ∧ l_tenant_id l = t
          | None => ∀ i l, db_leases d !! i = Some l → l_worker_id l = w → l_tenant_id l ≠ t
          end → (n ≤ k)%nat → Q o (mkWorld d k)) →
  wp (LeaseRepository.get_by_worker_id w t) Q R (mkWorld d n).
Proof.
  intros HQ. apply wp_fetchone. intros o k Ho Hk. apply HQ; [|done].
  unfold lease_matches_worker in Ho. destruct o as [l|].
  - apply list_elem_of_filter in Ho as [[??]%andb_true_iff [i Hi]%elem_of_rows].
    rewrite !bool_decide_eq_true in *. eauto.
  - intros i l Hi Hj Ht. eapply (not_elem_of_nil l). rewrite <- Ho. apply list_elem_of_filter.
    split; [by rewrite andb_true_iff, !bool_decide_eq_true|]. apply elem_of_rows. eauto.
Qed.
End specs.

(** * Under any interference, repository calls keep the schema's constraints *)

Section interference.
Context {E : Env} (Hi : interference_keeps integrity).

Lemma load_each_integrity {A B} (f : A → prog B) l :
  (∀ x, preserves (on_db integrity) (f x)) → preserves (on_db integrity) (load_each f l).
Proof. intros Hf. induction l; cbn [load_each]; prog_preserves; done. Qed.
Lemma load_some_integrity {A B} (f : A → prog (option B)) l :
  (∀ x, preserves (on_db integrity) (f x)) → preserves (on_db integrity) (load_some f l).
Proof. intros Hf. induction l; cbn [load_some]; prog_preserves; done. Qed.
End interference.

Ltac repo_unfold :=
  progress unfold
    select_rows, fetchone,
    JobRepository.save, JobRepository.get_by_id, JobRepository.get_by_id_across_tenants,
    JobRepository.list_queued, JobRepository.list_across_tenants, JobRepository.load,
    NodeRepository.save, NodeRepository.get_by_id, NodeRepository.get_by_id_across_tenants,
    NodeRepository.list, NodeRepository.list_across_tenants,
    NodeRepository.list_available_across_tenants, NodeRepository.delete, NodeRepository.load,
    WorkerRepository.save, WorkerRepository.get_by_id, WorkerRepository.get_by_id_across_tenants,
    WorkerRepository.get_by_node_id, WorkerRepository.list, WorkerRepository.list_across_tenants,
    WorkerRepository.delete, WorkerRepository.load, WorkerRepository._to_entity,
    WorkerRepository.running_job_of,
    LeaseRepository.save, LeaseRepository.renew, LeaseRepository.get_by_job_id,
    LeaseRepository.get_by_worker_id, LeaseRepository.list_across_tenants,
    LeaseRepository.delete, LeaseRepository.delete_if_expired,
    EventRepository.save, EventRepository.list, EventRepository.list_by_aggregate.

(** Every path of a service keeps the integrity constraints. *)
Ltac service_preserves :=
  repeat first
    [ prog_step
    | lazymatch goal with
      | |- preserves _ (load_each _ _) => apply load_each_integrity; intros
      | |- preserves _ (load_some _ _) => apply load_some_integrity; intros
      end
    | repo_unfold ].
