(* ===== verification/Keys.v ===== *)
(** Issuing, presenting, revoking and listing API keys:
    PostgresApiKeyRepository, the four services on it
    (src/app/application/services/*api_key*_service.py), the authentication of a
    request (src/app/presentation/auth.py) and the routes under /api-keys
    (src/app/presentation/routers/api_keys.py).

    The theorems hold while other connections use the same table: what they may
    do to it meanwhile is the relation [keys_evolve], and every program of this
    file is shown to stay within it. *)
From S2P Require Import Prelude Values Job Node ApiKey Worker Db Prog Repos.
Local Open Scope Z_scope.

(** * PostgresApiKeyRepository *)

Module ApiKeyRepository.
Section ops.
Context {E : Env}.

Definition save (k : api_key) : prog unit := statement (upsert_key k).

Definition mark_used (k : ApiKeyId) (t : TenantId) : prog unit :=
  now ← utc_now; statement (mark_key_used k t now).

Definition get_by_id (k : ApiKeyId) (t : TenantId) : prog (option api_key) :=
  statement (gets (λ d, in_tenant k_tenant_id t (db_keys d !! k))).

Definition get_by_hash_across_tenants (key_hash : string) : prog (option api_key) :=
  fetchone (λ d, filter (λ k, k_key_hash k = key_hash) (rows (db_keys d))).

Definition list_issued_by (issuer : ApiKeyId) (t : TenantId) : prog (list api_key) :=
  select_rows (λ d, filter (λ k, k_issued_by k = Some issuer ∧ k_tenant_id k = t) (rows (db_keys d))).
End ops.
End ApiKeyRepository.

(** PostgresTenantRepository.get_by_id, as far as it is used here. *)
Definition tenant_exists {E : Env} (t : TenantId) : prog bool :=
  statement (gets (λ d, bool_decide (t ∈ db_tenants d))).

(** * Services *)

Section services.
Context {E : Env}.

(** ApiKey.issue *)
Definition issue (label : string) (t : TenantId) (scopes : gset string) (issued_by : option ApiKeyId)
    : prog (api_key * string) :=
  if is_blank label then raise (ValueError "label must be a non-empty, human-readable identifier for the caller") else
  validated ← of_sum (validate_scopes scopes);
  raw ← new_secret;
  id ← new_uuid;
  now ← utc_now;
  mret (mkApiKey (mkApiKeyId id) (sha256_hex raw) (strip label) now t None None validated issued_by, raw).

(** ApiKey.issue_child *)
Definition issue_child (self : api_key) (label : string) (scopes : gset string) : prog (api_key * string) :=
  issue label (k_tenant_id self) scopes (Some (k_id self)).

(** CreateApiKeyService.execute; the key saved and its plaintext. *)
Definition create_api_key (label : string) (scopes : gset string) (issuer : option api_key)
    (tenant_id : option TenantId) : prog (api_key * string) :=
  issued ← match issuer, tenant_id with
           | Some i, None => issue_child i label scopes
           | None, Some t =>
               known ← tenant_exists t;
               if negb known then raise TenantNotFoundError else issue label t scopes None
           | _, _ => raise (ValueError "exactly one of issuer and tenant_id is required")
           end;
  ApiKeyRepository.save (issued.1) ;;
  mret issued.

(** AuthenticateApiKeyService.execute *)
Definition authenticate (raw_key : string) : prog api_key :=
  if bool_decide (raw_key = EmptyString) then raise InvalidApiKeyError else
  o ← ApiKeyRepository.get_by_hash_across_tenants (sha256_hex raw_key);
  match o with
  | None => raise InvalidApiKeyError
  | Some k =>
      if negb (is_active k) then raise InvalidApiKeyError else
      ApiKeyRepository.mark_used (k_id k) (k_tenant_id k) ;;
      mret k
  end.

(** RevokeApiKeyService.execute *)
Definition revoke_api_key (id : ApiKeyId) (caller : api_key) : prog unit :=
  o ← ApiKeyRepository.get_by_id id (k_tenant_id caller);
  match o with
  | None => raise (ApiKeyNotFoundError id)
  | Some k =>
      of_sum (authorize_key_revocation (k_scopes caller) (k_id caller) (k_issued_by k)) ;;
      now ← utc_now;
      match revoke now k with
      | (_, inl (ApiKeyAlreadyRevokedError _)) => mret tt
      | (_, inl e) => raise e
      | (k', inr _) => ApiKeyRepository.save k'
      end
  end.

Definition MAX_ISSUED_KEYS_RETURNED : nat := 100.

(** ListIssuedApiKeysService.execute *)
Definition list_issued_api_keys (issuer_id : ApiKeyId) (caller : api_key) : prog (list api_key) :=
  o ← ApiKeyRepository.get_by_id issuer_id (k_tenant_id caller);
  match o with
  | None => raise (ApiKeyNotFoundError issuer_id)
  | Some issuer =>
      of_sum (authorize_key_view (k_scopes caller) (k_id caller) (k_id issuer)) ;;
      l ← ApiKeyRepository.list_issued_by issuer_id (k_tenant_id caller);
      mret (take MAX_ISSUED_KEYS_RETURNED l)
  end.

(** * Requests *)

(** require_api_key (auth.py): the caller, or 401. *)
Definition require_api_key (authorization : option string) : prog api_key :=
  match authorization with
  | None => raise (HTTPException 401)
  | Some h =>
      match after_prefix "Bearer " h with
      | None => raise (HTTPException 401)
      | Some rest =>
          try_except (authenticate (strip rest))
            (λ e, match e with InvalidApiKeyError => Some (raise (HTTPException 401)) | _ => None end)
      end
  end.

(** The exceptions a route answers with a status of its own. *)
Definition answering {A} (status : exn → option Z) (m : prog A) : prog A :=
  try_except m (λ e, (λ code, raise (HTTPException code)) <$> status e).

Definition scope_denied (e : exn) : option Z :=
  match e with ScopeDeniedError _ => Some 403 | _ => None end.
Definition missing_or_denied (e : exn) : option Z :=
  match e with ApiKeyNotFoundError _ => Some 404 | ScopeDeniedError _ => Some 403 | _ => None end.

(** POST /api-keys *)
Definition post_api_key (caller : api_key) (label : string) : prog (api_key * string) :=
  answering scope_denied (of_sum (authorize_key_management (k_scopes caller))) ;;
  create_api_key label ∅ (Some caller) None.

(** POST /api-keys/{id}/revoke *)
Definition post_revoke (caller : api_key) (id : ApiKeyId) : prog unit :=
  answering missing_or_denied (revoke_api_key id caller).

(** GET /api-keys/{id}/issued *)
Definition get_issued (caller : api_key) (id : ApiKeyId) : prog (list api_key) :=
  answering missing_or_denied (list_issued_api_keys id caller).

End services.

(** What reaches the key table: the bootstrap script
    (src/scripts/issue_api_key.py), and requests with the Authorization header
    they carry. *)
Inductive key_call :=
  | BootstrapKey (label : string) (scopes : gset string) (t : TenantId)
  | PostKey (authorization : option string) (label : string)
  | PostRevoke (authorization : option string) (id : ApiKeyId)
  | GetIssued (authorization : option string) (id : ApiKeyId).

Definition run_key_call {E : Env} (c : key_call) : prog unit :=
  match c with
  | BootstrapKey label scopes t => create_api_key label scopes None (Some t) ;; mret tt
  | PostKey auth label => caller ← require_api_key auth; post_api_key caller label ;; mret tt
  | PostRevoke auth id => caller ← require_api_key auth; post_revoke caller id
  | GetIssued auth id => caller ← require_api_key auth; get_issued caller id ;; mret tt
  end.

(** * The key table over time *)

(** What the table guarantees: the primary key, the unique hash, the tenant and
    the issuer. *)
Record keys_integrity (d : db) : Prop := mkKeysIntegrity {
  ki_id i k : db_keys d !! i = Some k → k_id k = i;
  ki_hash i k i' k' : db_keys d !! i = Some k → db_keys d !! i' = Some k' →
    k_key_hash k = k_key_hash k' → i = i';
  ki_tenant i k : db_keys d !! i = Some k → k_tenant_id k ∈ db_tenants d;
  ki_issuer i k p : db_keys d !! i = Some k → k_issued_by k = Some p →
    ∃ kp, db_keys d !! p = Some kp ∧ k_tenant_id kp = k_tenant_id k;
}.

(** Where keys come from: one that records an issuer was issued over HTTP, with
    no scopes, by a key of its tenant that holds [keys:manage]. *)
Definition provenance (d : db) : Prop :=
  ∀ i k p, db_keys d !! i = Some k → k_issued_by k = Some p →
    k_scopes k = ∅ ∧
    ∃ kp, db_keys d !! p = Some kp ∧ k_tenant_id kp = k_tenant_id k ∧ KEYS_MANAGE ∈ k_scopes kp.

(** The same key, up to when it was used and whether it was revoked. *)
Record same_key (k k' : api_key) : Prop := mkSameKey {
  sk_id : k_id k' = k_id k;
  sk_hash : k_key_hash k' = k_key_hash k;
  sk_label : k_label k' = k_label k;
  sk_created : k_created_at k' = k_created_at k;
  sk_tenant : k_tenant_id k' = k_tenant_id k;
  sk_scopes : k_scopes k' = k_scopes k;
  sk_issuer : k_issued_by k' = k_issued_by k;
}.

Definition revoked (k : api_key) : Prop := is_Some (k_revoked_at k).

(** No key is lost, changed or brought back to life. *)
Definition keys_evolve (d d' : db) : Prop :=
  ∀ i k, db_keys d !! i = Some k →
    ∃ k', db_keys d' !! i = Some k' ∧ same_key k k' ∧ (revoked k → revoked k').

#[global] Instance same_key_preorder : PreOrder same_key.
Proof.
  split; [by intros k; split|]. intros k1 k2 k3 [] []. split; congruence.
Qed.

#[global] Instance keys_evolve_preorder : PreOrder keys_evolve.
Proof.
  split.
  - intros d i k Hk. exists k. split_and!; [done|reflexivity|done].
  - intros d1 d2 d3 H12 H23 i k Hk. destruct (H12 i k Hk) as (k2 & Hk2 & Hs2 & Hr2).
    destruct (H23 i k2 Hk2) as (k3 & Hk3 & Hs3 & Hr3). exists k3. split_and!; [done|by transitivity k2|auto].
Qed.

(** An identifier or a secret that one of this program's draws returns. *)
Definition drawn_id {E : Env} (i : ApiKeyId) : Prop := ∃ m, i = mkApiKeyId (uuid4 m).
Definition drawn_hash {E : Env} (h : string) : Prop := ∃ m, h = sha256_hex (token_urlsafe m).

(** What the other connections do between two statements.  Their random
    identifiers and secrets are not ours. *)
Record others_step {E : Env} (d d' : db) : Prop := mkOthersStep {
  os_evolve : keys_evolve d d';
  os_tenants : db_tenants d ⊆ db_tenants d';
  os_integrity : keys_integrity d → keys_integrity d';
  os_provenance : provenance d → provenance d';
  os_new i k : db_keys d' !! i = Some k → db_keys d !! i = None →
    ¬ drawn_id i ∧ ¬ drawn_hash (k_key_hash k);
}.

Class KeysRely (E : Env) : Prop := keys_rely n d : others_step d (interfere n d).

#[global] Instance quiet_keys_rely (E : Env) : Quiet E → KeysRely E.
Proof.
  intros Hq n d. rewrite quiet. split; [reflexivity|done..|]. intros i k Hk Hn. congruence.
Qed.

(** The table holds no identifier and no secret this program has yet to draw. *)
Definition keys_unseen {E : Env} (n : nat) (d : db) : Prop :=
  ∀ m, (n ≤ m)%nat →
    db_keys d !! mkApiKeyId (uuid4 m) = None ∧
    ∀ i k, db_keys d !! i = Some k → k_key_hash k ≠ sha256_hex (token_urlsafe m).

Section theory.
Context {E : Env} `{!KeysRely E}.
Implicit Types (d : db) (R : exn → world → Prop).

Lemma keys_unseen_le m n d : (m ≤ n)%nat → keys_unseen m d → keys_unseen n d.
Proof. intros Hle Hu k Hk. apply Hu. lia. Qed.

Lemma keys_unseen_others n d d' : others_step d d' → keys_unseen n d → keys_unseen n d'.
Proof.
  intros [He _ _ _ Hnew] Hu m Hm. destruct (Hu m Hm) as [Hid Hh]. split.
  - destruct (db_keys d' !! _) as [k|] eqn:Hk; [|done]. exfalso.
    destruct (Hnew _ k Hk Hid) as [Hd _]. apply Hd. by exists m.
  - intros i k Hk E'. destruct (db_keys d !! i) as [k0|] eqn:Hk0.
    + destruct (He i k0 Hk0) as (k1 & Hk1 & Hs & _). apply (Hh i k0 Hk0). rewrite <- E', <- (sk_hash _ _ Hs). congruence.
    + destruct (Hnew i k Hk Hk0) as [_ Hd]. apply Hd. by exists m.
Qed.

(** A statement runs on what the others have left. *)
Lemma wp_keys_statement {A} (s : sql A) Q R d n :
  keys_integrity d → keys_unseen n d →
  (∀ d', keys_integrity d' → keys_unseen n d' → others_step d d' →
     wp s (λ a d'', Q a (mkWorld d'' (S n))) (λ e d'', R e (mkWorld d'' (S n))) d') →
  wp (statement s) Q R (mkWorld d n).
Proof.
  intros Hi Hu Hs. pose proof (keys_rely n d) as Ho. specialize (Hs (interfere n d)).
  assert (wp s (λ a d'', Q a (mkWorld d'' (S n))) (λ e d'', R e (mkWorld d'' (S n))) (interfere n d)) as H.
  { apply Hs; [by apply Ho|by eapply keys_unseen_others|done]. }
  unfold wp, statement in *. cbn. by destruct (s (interfere n d)) as [d' [e|a]].
Qed.

(** Updating a row is such a step. *)
Lemma update_key_step d i k k' :
  db_keys d !! i = Some k → same_key k k' → (revoked k → revoked k') →
  others_step d (set_keys (<[i := k']> (db_keys d)) d).
Proof using.
  intros Hk Hs Hr. set (d' := set_keys _ d).
  assert (∀ j kj', db_keys d' !! j = Some kj' → ∃ kj, db_keys d !! j = Some kj ∧ same_key kj kj') as Hback.
  { intros j kj'. cbn. rewrite lookup_insert. case_decide; [intros [= <-]; subst; eauto|].
    intros Hj. exists kj'. split; [done|reflexivity]. }
  assert (keys_evolve d d') as Hev.
  { intros j kj Hj. cbn. rewrite lookup_insert. case_decide as Hd.
    - subst j. replace kj with k in * by congruence. eauto.
    - exists kj. split_and!; [done|reflexivity|done]. }
  split; [done|done|..].
  - intros [Hid Hh Ht Hp]. split.
    + intros j kj' (kj & Hj & Hsj)%Hback. rewrite (sk_id _ _ Hsj). eauto.
    + intros j kj' l kl' (kj & Hj & Hsj)%Hback (kl & Hl & Hsl)%Hback.
      rewrite (sk_hash _ _ Hsj), (sk_hash _ _ Hsl). eauto.
    + intros j kj' (kj & Hj & Hsj)%Hback. rewrite (sk_tenant _ _ Hsj). eauto.
    + intros j kj' p (kj & Hj & Hsj)%Hback Hp'. rewrite (sk_issuer _ _ Hsj) in Hp'.
      destruct (Hp j kj p Hj Hp') as (kp & Hkp & Htp). destruct (Hev p kp Hkp) as (kp' & Hkp' & Hsp & _).
      exists kp'. split; [done|]. rewrite (sk_tenant _ _ Hsp), (sk_tenant _ _ Hsj). done.
  - intros Hpr j kj' p (kj & Hj & Hsj)%Hback Hp'. rewrite (sk_issuer _ _ Hsj) in Hp'.
    destruct (Hpr j kj p Hj Hp') as (He & kp & Hkp & Htp & Hm). destruct (Hev p kp Hkp) as (kp' & Hkp' & Hsp & _).
    rewrite (sk_scopes _ _ Hsj). split; [done|]. exists kp'.
    by rewrite (sk_tenant _ _ Hsp), (sk_tenant _ _ Hsj), (sk_scopes _ _ Hsp).
  - intros j kj' (kj & Hj & _)%Hback Hn. congruence.
Qed.

Lemma update_key_ok d i k k' n :
  keys_integrity d → keys_unseen n d → db_keys d !! i = Some k → same_key k k' → (revoked k → revoked k') →
  let d' := set_keys (<[i := k']> (db_keys d)) d in
  keys_integrity d' ∧ keys_unseen n d' ∧ keys_evolve d d' ∧ (provenance d → provenance d').
Proof using.
  intros Hi Hu Hk Hs Hr d'. pose proof (update_key_step d i k k' Hk Hs Hr) as Ho.
  split_and!; [by apply Ho|by eapply keys_unseen_others|apply Ho|apply Ho].
Qed.

(** So does adding a key under an unused identifier. *)
Lemma insert_key_ok d k n :
  keys_integrity d → keys_unseen n d → db_keys d !! k_id k = None →
  (∀ i k0, db_keys d !! i = Some k0 → k_key_hash k0 ≠ k_key_hash k) →
  k_tenant_id k ∈ db_tenants d →
  (∀ p, k_issued_by k = Some p → k_scopes k = ∅ ∧
     ∃ kp, db_keys d !! p = Some kp ∧ k_tenant_id kp = k_tenant_id k ∧ KEYS_MANAGE ∈ k_scopes kp) →
  (∀ m, (n ≤ m)%nat → k_id k ≠ mkApiKeyId (uuid4 m) ∧ k_key_hash k ≠ sha256_hex (token_urlsafe m)) →
  let d' := set_keys (<[k_id k := k]> (db_keys d)) d in
  keys_integrity d' ∧ keys_unseen n d' ∧ keys_evolve d d' ∧ (provenance d → provenance d').
Proof.
  intros [Hid Hh Ht Hp] Hu Hfree Hhash Hten Hiss Hnew d'.
  assert (∀ q kq, db_keys d !! q = Some kq → (<[k_id k:=k]> (db_keys d)) !! q = Some kq) as Hmono.
  { intros q kq Hq. rewrite lookup_insert_ne; [done|]. intros <-. congruence. }
  split_and!.
  - split; cbn.
    + intros i k0. rewrite lookup_insert. case_decide; [naive_solver|]. apply Hid.
    + intros i k0 i' k0'. rewrite !lookup_insert. repeat case_decide; try naive_solver.
    + intros i k0. rewrite lookup_insert. case_decide; [naive_solver|]. apply Ht.
    + intros i k0 p. rewrite lookup_insert.
      case_decide; [intros [= <-] Hq; destruct (Hiss p Hq) as (_ & kp & ? & ? & ?); eauto|].
      intros Hk0 Hq. destruct (Hp i k0 p Hk0 Hq) as (kp & ? & ?). eauto.
  - intros m Hm. destruct (Hu m Hm) as [Hn Hne]. destruct (Hnew m Hm) as [Hi Hk]. split; cbn.
    + by rewrite lookup_insert_ne.
    + intros i k0. rewrite lookup_insert. case_decide; [naive_solver|]. apply Hne.
  - intros i k0 Hk0. exists k0. split_and!; [by apply Hmono|reflexivity|done].
  - intros Hpr i k0 p. cbn. rewrite lookup_insert. case_decide.
    + intros [= <-] Hq. destruct (Hiss p Hq) as (? & kp & ? & ? & ?). eauto 10.
    + intros Hk0 Hq. destruct (Hpr i k0 p Hk0 Hq) as (? & kp & ? & ? & ?). eauto 10.
Qed.

(** ** The programs *)

(** The table as the program finds it: in order, and grown out of [d0]. *)
Record kstate (d0 : db) (w : world) : Prop := mkKstate {
  ks_integrity : keys_integrity (w_db w);
  ks_unseen : keys_unseen (w_step w) (w_db w);
  ks_evolve : keys_evolve d0 (w_db w);
  ks_tenants : db_tenants d0 ⊆ db_tenants (w_db w);
  ks_provenance : provenance (w_db w);
}.

Lemma kstate_step d0 d n n' : kstate d0 (mkWorld d n) → (n ≤ n')%nat → kstate d0 (mkWorld d n').
Proof. intros [] Hle. split; try done. by eapply keys_unseen_le. Qed.

Lemma kstate_others d0 d d' n : kstate d0 (mkWorld d n) → others_step d d' → kstate d0 (mkWorld d' n).
Proof.
  intros [Hi Hu He Ht Hp] Ho. pose proof Ho as []. split; cbn in *; [auto|by eapply keys_unseen_others| |set_solver|auto].
  by etransitivity.
Qed.

Lemma kstate_refl d n : keys_integrity d → keys_unseen n d → provenance d → kstate d (mkWorld d n).
Proof. by split. Qed.

(** Reading the table. *)
Lemma wp_keys_gets {A} (f : db → A) Q R d0 d n :
  kstate d0 (mkWorld d n) →
  (∀ d', kstate d0 (mkWorld d' (S n)) → keys_evolve d d' → Q (f d') (mkWorld d' (S n))) →
  wp (statement (gets f)) Q R (mkWorld d n).
Proof.
  intros Hks HQ. pose proof Hks as [Hi Hu _ _ _]. apply wp_keys_statement; [done..|]. intros d' _ _ Ho.
  apply HQ; [|apply Ho]. eapply kstate_step; [by eapply kstate_others|lia].
Qed.

Lemma wp_keys_select {A} (f : db → list A) Q R d0 d n :
  kstate d0 (mkWorld d n) →
  (∀ l d', l ≡ₚ f d' → kstate d0 (mkWorld d' (S (S n))) → keys_evolve d d' → Q l (mkWorld d' (S (S n)))) →
  wp (select_rows f) Q R (mkWorld d n).
Proof.
  intros Hks HQ. unfold select_rows. wp_step. eapply wp_keys_gets; [done|]. intros d' Hks' Hev.
  apply wp_unordered. intros l Hl. apply HQ; [done|eapply kstate_step; [done|lia]|done].
Qed.

Lemma wp_mark_used k Q R d0 d n :
  kstate d0 (mkWorld d n) →
  (∃ k0, db_keys d !! k_id k = Some k0 ∧ k_tenant_id k0 = k_tenant_id k) →
  (∀ d', kstate d0 (mkWorld d' (S (S n))) → keys_evolve d d' → Q tt (mkWorld d' (S (S n)))) →
  wp (ApiKeyRepository.mark_used (k_id k) (k_tenant_id k)) Q R (mkWorld d n).
Proof.
  intros Hks (k0 & Hk0 & Ht0) HQ. unfold ApiKeyRepository.mark_used. wp_steps.
  apply (kstate_step _ _ _ (S n)) in Hks; [|lia]. pose proof Hks as [Hi Hu _ _ _]. apply wp_keys_statement; [done..|].
  intros d1 _ _ Ho. pose proof (kstate_others _ _ _ _ Hks Ho) as Hks1.
  destruct (os_evolve _ _ Ho _ k0 Hk0) as (k1 & Hk1 & Hs1 & _).
  unfold wp, mark_key_used. rewrite Hk1, bool_decide_eq_true_2 by (rewrite (sk_tenant _ _ Hs1); done).
  destruct (update_key_ok d1 (k_id k) k1 (set_last_used_at (Some (clock n)) k1) (S n)) as (Hi' & Hu' & Hev' & Hp').
  { apply Hks1. } { apply Hks1. } { done. } { by split. } { done. }
  apply HQ; [|etransitivity; [apply Ho|done]].
  split; cbn in *; [done|by eapply keys_unseen_le; [|done]; lia| |apply Hks1|apply Hp', Hks1].
  etransitivity; [apply Hks1|done].
Qed.

(** AuthenticateApiKeyService accepts the secret of an active key and nothing
    else, and never forgets or revives a key. *)
Lemma wp_authenticate raw Q R d0 d n :
  kstate d0 (mkWorld d n) →
  (∀ d' n', kstate d0 (mkWorld d' n') → (n ≤ n')%nat → keys_evolve d d' →
     (raw = EmptyString ∨ ∀ i k, db_keys d' !! i = Some k → k_key_hash k = sha256_hex raw → revoked k) →
     R InvalidApiKeyError (mkWorld d' n')) →
  (∀ k d1 d' n', raw ≠ EmptyString → keys_evolve d d1 → keys_integrity d1 → db_keys d1 !! k_id k = Some k → ¬ revoked k →
     k_key_hash k = sha256_hex raw → keys_evolve d1 d' → kstate d0 (mkWorld d' n') → (n ≤ n')%nat →
     Q k (mkWorld d' n')) →
  wp (authenticate raw) Q R (mkWorld d n).
Proof.
  intros Hks HR HQ. unfold authenticate. case_bool_decide as Hraw; [wp_steps; apply (HR d n); auto; reflexivity|].
  unfold ApiKeyRepository.get_by_hash_across_tenants, fetchone. wp_step. wp_step.
  eapply wp_keys_select; [done|]. intros l d1 Hl Hks1 Hev1. wp_steps.
  destruct (head l) as [k|] eqn:Hhd.
  - assert (k ∈ filter (λ k, k_key_hash k = sha256_hex raw) (rows (db_keys d1))) as Hin.
    { rewrite <- Hl. destruct l; [done|]. injection Hhd as ->. left. }
    apply list_elem_of_filter in Hin as [Hh [i Hi]%elem_of_rows].
    pose proof (ki_id _ (ks_integrity _ _ Hks1) i k Hi) as <-. unfold is_active. case_bool_decide as Hact; cbn.
    + wp_step. eapply wp_mark_used; [done|eauto|]. intros d2 Hks2 Hev2. wp_steps.
      eapply (HQ k d1); try done; [apply Hks1| |lia]. unfold revoked. rewrite Hact. by intros [].
    + wp_steps. apply HR; [done|lia|done|]. right. intros i' k' Hk' E'.
      assert (i' = k_id k) as -> by (eapply (ki_hash _ (ks_integrity _ _ Hks1)); [done|done|congruence]).
      cbn in Hi. replace k' with k by congruence. unfold revoked. destruct (k_revoked_at k); [eauto|done].
  - wp_steps. apply HR; [done|lia|done|]. right. intros i k Hk E'. exfalso.
    assert (k ∈ filter (λ k, k_key_hash k = sha256_hex raw) (rows (db_keys d1))) as Hin.
    { apply list_elem_of_filter. split; [done|]. apply elem_of_rows. eauto. }
    rewrite <- Hl in Hin. destruct l; [by apply not_elem_of_nil in Hin|done].
Qed.

Lemma wp_require_api_key auth Q R d0 d n :
  kstate d0 (mkWorld d n) →
  (∀ d' n', kstate d0 (mkWorld d' n') → (n ≤ n')%nat → R (HTTPException 401) (mkWorld d' n')) →
  (∀ raw k d1 d' n', raw ≠ EmptyString → strip <$> (auth ≫= after_prefix "Bearer ") = Some raw → keys_evolve d d1 → keys_integrity d1 →
     db_keys d1 !! k_id k = Some k → ¬ revoked k → k_key_hash k = sha256_hex raw → keys_evolve d1 d' →
     kstate d0 (mkWorld d' n') → (n ≤ n')%nat → Q k (mkWorld d' n')) →
  wp (require_api_key auth) Q R (mkWorld d n).
Proof.
  intros Hks HR HQ. unfold require_api_key. destruct auth as [h|]; [|wp_steps; by apply HR].
  destruct (after_prefix "Bearer " h) as [rest|] eqn:Hh; [|wp_steps; by apply HR].
  wp_step. eapply wp_authenticate; [done| |].
  - intros d' n' Hks' Hn' _ _. wp_steps. by apply HR.
  - intros k d1 d' n'. intros. eapply (HQ (strip rest) k d1); try done. cbn [mbind option_bind]. by rewrite Hh.
Qed.

(** A freshly issued key, before it is saved. *)
Definition issued_key (label : string) (t : TenantId) (scopes : gset string) (by_ : option ApiKeyId) (n : nat) : api_key :=
  mkApiKey (mkApiKeyId (uuid4 (S n))) (sha256_hex (token_urlsafe n)) (strip label) (clock (S (S n))) t None None scopes by_.

Lemma wp_issue label t scopes by_ Q R d n :
  (∀ e, is_blank label = true ∨ ¬ scopes ⊆ KNOWN_SCOPES → R e (mkWorld d n)) →
  (is_blank label = false → scopes ⊆ KNOWN_SCOPES →
     Q (issued_key label t scopes by_ n, token_urlsafe n) (mkWorld d (S (S (S n))))) →
  wp (issue label t scopes by_) Q R (mkWorld d n).
Proof.
  intros HR HQ. unfold issue. destruct (is_blank label); [wp_steps; auto|].
  pose proof (validate_scopes_spec scopes) as Hv. wp_steps.
  destruct (validate_scopes scopes) as [e|v]; [apply HR; right; set_solver|]. destruct Hv as [-> Hs]. wp_steps. auto.
Qed.

Lemma hash_taken_false d h :
  hash_taken d h = false ↔ ∀ i k, db_keys d !! i = Some k → k_key_hash k ≠ h.
Proof.
  unfold hash_taken. rewrite existsb_rows_false. split; intros H i k Hk.
  - specialize (H i k Hk). by apply bool_decide_eq_false in H.
  - apply bool_decide_eq_false. eauto.
Qed.

(** Saving it always succeeds: nobody else can have taken its identifier or its
    hash in the meantime. *)
Lemma wp_save_issued label t scopes by_ Q R d0 d n0 :
  let k := issued_key label t scopes by_ n0 in
  kstate d0 (mkWorld d n0) → t ∈ db_tenants d →
  (∀ p, by_ = Some p → scopes = ∅ ∧
     ∃ kp, db_keys d !! p = Some kp ∧ k_tenant_id kp = t ∧ KEYS_MANAGE ∈ k_scopes kp) →
  (∀ d' n', db_keys d !! k_id k = None → db_keys d' !! k_id k = Some k → kstate d0 (mkWorld d' n') → (n0 ≤ n')%nat →
     keys_evolve d d' → Q tt (mkWorld d' n')) →
  wp (ApiKeyRepository.save k) Q R (mkWorld d (S (S (S n0)))).
Proof.
  intros k Hks Ht Hby HQ. pose proof Hks as [Hi Hu _ _ _]. cbn in Hi, Hu.
  destruct (Hu (S n0)) as [Hid _]; [lia|]. destruct (Hu n0) as [_ Hh]; [lia|].
  apply (kstate_step _ _ _ (S (S (S n0)))) in Hks; [|lia]. pose proof Hks as [_ Hu' _ _ _]. cbn in Hu'.
  unfold ApiKeyRepository.save. apply wp_keys_statement; [done..|]. intros d1 Hi1 Hu1 Ho.
  pose proof (kstate_others _ _ _ _ Hks Ho) as Hks1.
  assert (db_keys d1 !! k_id k = None) as Hid1.
  { destruct (db_keys d1 !! k_id k) as [k1|] eqn:Hk1; [|done]. exfalso.
    destruct (os_new _ _ Ho _ _ Hk1 Hid) as [Hd _]. apply Hd. by exists (S n0). }
  assert (∀ i k1, db_keys d1 !! i = Some k1 → k_key_hash k1 ≠ k_key_hash k) as Hh1.
  { intros i k1 Hk1 E'. destruct (db_keys d !! i) as [k2|] eqn:Hk2.
    - destruct (os_evolve _ _ Ho i k2 Hk2) as (k3 & Hk3 & Hs & _). apply (Hh i k2 Hk2).
      rewrite <- (sk_hash _ _ Hs). replace k3 with k1 by congruence. done.
    - destruct (os_new _ _ Ho _ _ Hk1 Hk2) as [_ Hd]. apply Hd. by exists n0. }
  assert (t ∈ db_tenants d1) as Ht1 by (by apply (os_tenants _ _ Ho)).
  assert (∀ p, by_ = Some p → scopes = ∅ ∧
     ∃ kp, db_keys d1 !! p = Some kp ∧ k_tenant_id kp = t ∧ KEYS_MANAGE ∈ k_scopes kp) as Hby1.
  { intros p Hp. destruct (Hby p Hp) as (? & kp & Hkp & ? & ?). split; [done|].
    destruct (os_evolve _ _ Ho p kp Hkp) as (kp' & ? & Hs & _). exists kp'.
    by rewrite (sk_tenant _ _ Hs), (sk_scopes _ _ Hs). }
  destruct (insert_key_ok d1 k (S (S (S n0)))) as (Hi2 & Hu2 & Hev2 & Hp2); try done.
  { intros m Hm. cbn. split.
    - intros [= E']. apply (inj uuid4) in E'. lia.
    - intros E'. apply secrets_inj in E'. lia. }
  assert (∀ p kp, db_keys d1 !! p = Some kp → (<[k_id k:=k]> (db_keys d1)) !! p = Some kp) as Hmono.
  { intros q kq Hq. rewrite lookup_insert_ne; [done|]. intros <-. congruence. }
  unfold wp, upsert_key. rewrite Hid1. rewrite (proj2 (hash_taken_false d1 _)) by done.
  rewrite (proj2 (fk_tenant_spec d1 _)) by done.
  assert (fk_opt (λ i, bool_decide (is_Some (<[k_id k:=k]> (db_keys d1) !! i))) (k_issued_by k) = true) as ->.
  { apply fk_opt_spec. intros p Hp. apply bool_decide_eq_true_2. destruct (Hby1 p Hp) as (_ & kp & Hkp & _).
    exists kp. by apply Hmono. }
  assert (fk_opt (λ i, bool_decide (k_tenant_id <$> <[k_id k:=k]> (db_keys d1) !! i = Some (k_tenant_id k))) (k_issued_by k) = true) as ->.
  { apply fk_opt_spec. intros p Hp. apply bool_decide_eq_true_2. destruct (Hby1 p Hp) as (_ & kp & Hkp & Htp & _).
    rewrite (Hmono p kp Hkp). cbn. by rewrite Htp. }
  cbn [negb]. apply HQ; [done|cbn; by rewrite lookup_insert_eq| |lia|by etransitivity; [apply Ho|]].
  split; cbn in *; [done|by eapply keys_unseen_le; [|done]; lia|etransitivity; [apply Hks1|done]|apply Hks1|apply Hp2, Hks1].
Qed.

(** What RevokeApiKeyService leaves: the target, found in the caller's tenant
    and revocable by the caller, is revoked; otherwise it raises, having written
    nothing. *)
Lemma wp_revoke_api_key id caller Q R d0 d n :
  kstate d0 (mkWorld d n) →
  (∀ e d' n', kstate d0 (mkWorld d' n') → (n ≤ n')%nat → others_step d d' →
     e = ApiKeyNotFoundError id ∧ in_tenant k_tenant_id (k_tenant_id caller) (db_keys d' !! id) = None ∨
     e = ScopeDeniedError KEYS_MANAGE ∧
       (∃ k, db_keys d' !! id = Some k ∧ k_tenant_id k = k_tenant_id caller ∧ ¬ may_revoke caller k) →
     R e (mkWorld d' n')) →
  (∀ k d' n', kstate d0 (mkWorld d' n') → (n ≤ n')%nat → keys_evolve d d' →
     db_keys d' !! id = Some k → k_tenant_id k = k_tenant_id caller → may_revoke caller k → revoked k →
     Q tt (mkWorld d' n')) →
  wp (revoke_api_key id caller) Q R (mkWorld d n).
Proof.
  intros Hks HR HQ. unfold revoke_api_key, ApiKeyRepository.get_by_id. wp_step.
  pose proof Hks as [Hi Hu _ _ _]. cbn in Hi, Hu. apply wp_keys_statement; [done..|]. intros d1 _ _ Ho1.
  pose proof (kstate_others _ _ _ _ Hks Ho1) as Hks1. unfold wp at 1. cbn [gets].
  unfold in_tenant in *. destruct (db_keys d1 !! id) as [k|] eqn:Hk.
  2:{ wp_steps. eapply HR; [eapply kstate_step; [done|]; lia|lia|done|]. left. by rewrite Hk. }
  case_bool_decide as Ht.
  2:{ wp_steps. eapply HR; [eapply kstate_step; [done|]; lia|lia|done|]. left. rewrite Hk. by rewrite bool_decide_eq_false_2. }
  pose proof (authorize_key_revocation_spec caller k) as Hauth. wp_steps.
  destruct (authorize_key_revocation _ _ _) as [e|[]].
  { destruct Hauth as [Hno ->]. eapply HR; [eapply kstate_step; [done|]; lia|lia|done|]. right. eauto. }
  pose proof (ki_id _ (ks_integrity _ _ Hks1) id k Hk) as Hkid. cbn in Hkid.
  wp_steps. rewrite revoke_spec. destruct (k_revoked_at k) as [tm|] eqn:Hrev.
  { wp_steps. eapply (HQ k d1); [eapply kstate_step; [done|]; lia|lia|apply Ho1|done..|]. by exists tm. }
  unfold ApiKeyRepository.save. apply (kstate_step _ _ _ (S (S n))) in Hks1; [|lia].
  pose proof Hks1 as [Hi1 Hu1 _ _ _]. cbn in Hi1, Hu1. apply wp_keys_statement; [done..|]. intros d2 Hi2 Hu2 Ho2.
  pose proof (kstate_others _ _ _ _ Hks1 Ho2) as Hks2.
  destruct (os_evolve _ _ Ho2 id k Hk) as (k2 & Hk2 & Hs2 & _).
  unfold wp, upsert_key. cbn [k_id set_revoked_at]. rewrite Hkid, Hk2.
  rewrite bool_decide_eq_true_2 by (cbn; by rewrite (sk_tenant _ _ Hs2)).
  set (k3 := mkApiKey _ _ _ _ _ _ _ _ _).
  assert (same_key k2 k3) as Hs3 by (split; try done; cbn; by rewrite (sk_scopes _ _ Hs2)).
  assert (revoked k3) as Hr3 by (by exists (clock (S n))).
  destruct (update_key_ok d2 id k2 k3 (S (S n))) as (Hi3 & Hu3 & Hev3 & Hp3); try done.
  eapply (HQ k3); [|lia| |cbn; by rewrite lookup_insert_eq|..|done].
  - split; cbn in *; [done|by eapply keys_unseen_le; [|done]; lia|etransitivity; [apply Hks2|done]|apply Hks2|apply Hp3, Hks2].
  - etransitivity; [apply Ho1|]. etransitivity; [apply Ho2|done].
  - cbn. by rewrite (sk_tenant _ _ Hs2).
  - unfold may_revoke in *. cbn. by rewrite (sk_issuer _ _ Hs2).
Qed.

(** POST /api-keys by a key of the table: refused without a trace, or a new key
    of the same tenant, without scopes, that records its issuer. *)
Lemma wp_post_api_key caller label Q R d0 d n :
  kstate d0 (mkWorld d n) → (∃ kp, db_keys d !! k_id caller = Some kp ∧ same_key caller kp) →
  (∀ e, KEYS_MANAGE ∉ k_scopes caller ∨ is_blank label = true → R e (mkWorld d n)) →
  (∀ d' n', let k := issued_key label (k_tenant_id caller) ∅ (Some (k_id caller)) n in
     KEYS_MANAGE ∈ k_scopes caller → is_blank label = false → db_keys d !! k_id k = None →
     db_keys d' !! k_id k = Some k → kstate d0 (mkWorld d' n') → (n ≤ n')%nat → keys_evolve d d' →
     Q (k, token_urlsafe n) (mkWorld d' n')) →
  wp (post_api_key caller label) Q R (mkWorld d n).
Proof.
  intros Hks (kp & Hkp & Hs) HR HQ. unfold post_api_key, answering, authorize_key_management. wp_steps.
  case_bool_decide as Hm; [|cbn; apply HR; by left]. unfold create_api_key, issue_child. wp_steps.
  apply wp_issue; [intros e [?|[]]; [apply HR; by right|set_solver]|]. intros Hl _. wp_steps.
  eapply wp_save_issued; [done| | |].
  - rewrite <- (sk_tenant _ _ Hs). by apply (ki_tenant _ (ks_integrity _ _ Hks) _ _ Hkp).
  - intros p [= <-]. split; [done|]. exists kp. by rewrite (sk_tenant _ _ Hs), (sk_scopes _ _ Hs).
  - intros d' n' Hnone Hk Hks' Hn Hev. wp_steps. by apply HQ.
Qed.

(** The bootstrap script. *)
Lemma wp_bootstrap label scopes t d0 d n :
  kstate d0 (mkWorld d n) →
  wp (create_api_key label scopes None (Some t)) (λ _, kstate d0) (λ _, kstate d0) (mkWorld d n).
Proof.
  intros Hks. unfold create_api_key, tenant_exists. wp_steps. eapply wp_keys_gets; [done|]. intros d' Hks' _.
  case_bool_decide as Ht; cbn [negb]; [|by wp_steps]. apply wp_issue; [done|]. intros _ _. wp_steps.
  eapply wp_save_issued; [done..|]. intros d2 n2 _ _ Hks2 _ _. by wp_steps.
Qed.

(** Every call on the key table stays within [keys_evolve]. *)
Lemma run_key_call_kstate c d0 d n :
  kstate d0 (mkWorld d n) → wp (run_key_call c) (λ _, kstate d0) (λ _, kstate d0) (mkWorld d n).
Proof.
  intros Hks. destruct c as [label scopes t|auth label|auth id|auth id]; cbn [run_key_call]; wp_step.
  - eapply wp_mono; [by apply wp_bootstrap|..]; [|done]. intros. by wp_steps.
  - eapply wp_require_api_key; [done|done|]. intros raw k d1 d' n' _ _ _ _ Hk _ _ Hev Hks' _. wp_step.
    destruct (Hev _ _ Hk) as (kp & Hkp & Hs & _). eapply wp_post_api_key; [done|by eauto|done|]. intros. by wp_steps.
  - eapply wp_require_api_key; [done|done|]. intros raw k d1 d' n' _ _ _ _ Hk _ _ Hev Hks' _.
    unfold post_revoke, answering. wp_step. eapply wp_revoke_api_key; [done|..]; [|done].
    intros e d2 n2 Hks2 _ _ _. destruct (missing_or_denied e); cbn; by wp_steps.
  - eapply wp_require_api_key; [done|done|]. intros raw k d1 d' n' _ _ _ _ Hk _ _ Hev Hks' _.
    unfold get_issued, answering, list_issued_api_keys, ApiKeyRepository.get_by_id, ApiKeyRepository.list_issued_by.
    wp_steps. eapply wp_keys_gets; [done|]. intros d2 Hks2 _. destruct (in_tenant _ _ _) as [i|]; [|wp_steps; cbn; by wp_steps].
    wp_steps. unfold authorize_key_view. do 2 (case_bool_decide; [wp_step; eapply wp_keys_select; [done|]; intros; by wp_steps|]).
    cbn. by wp_steps.
Qed.
End theory.

(** * One request at a time *)

(** The request carries the secret of this key, which is in the table and
    active. *)
Definition speaks_for {E : Env} (d : db) (auth : option string) (caller : api_key) : Prop :=
  ∃ raw, strip <$> (auth ≫= after_prefix "Bearer ") = Some raw ∧ raw ≠ EmptyString ∧
    db_keys d !! k_id caller = Some caller ∧ ¬ revoked caller ∧ k_key_hash caller = sha256_hex raw.

(** The table after the caller was authenticated. *)
Definition used (caller : api_key) (now : datetime) (d : db) : db :=
  set_keys (<[k_id caller := set_last_used_at (Some now) caller]> (db_keys d)) d.

Section quiet.
Context {E : Env} `{!Quiet E}.
Implicit Types (d : db) (R : exn → world → Prop).

Lemma wp_authenticated raw Q R d n :
  keys_integrity d →
  (∀ k', raw = EmptyString ∨ (∀ i k, db_keys d !! i = Some k → k_key_hash k = sha256_hex raw → revoked k) →
     (n ≤ k')%nat → R InvalidApiKeyError (mkWorld d k')) →
  (∀ k now k', raw ≠ EmptyString → db_keys d !! k_id k = Some k → ¬ revoked k → k_key_hash k = sha256_hex raw →
     (n ≤ k')%nat → Q k (mkWorld (used k now d) k')) →
  wp (authenticate raw) Q R (mkWorld d n).
Proof.
  intros Hi HR HQ. unfold authenticate. case_bool_decide as Hraw; [wp_steps; apply HR; auto|].
  wp_step. unfold ApiKeyRepository.get_by_hash_across_tenants. apply wp_fetchone. intros o k Ho Hk.
  destruct o as [x|].
  - apply list_elem_of_filter in Ho as [Hh [i Hx]%elem_of_rows]. pose proof (ki_id _ Hi i x Hx) as <-.
    unfold is_active. case_bool_decide as Hact; cbn.
    + unfold ApiKeyRepository.mark_used. wp_steps. unfold wp, mark_key_used. rewrite Hx, bool_decide_eq_true_2 by done.
      cbn. apply HQ; try done; [|lia]. unfold revoked. rewrite Hact. by intros [].
    + wp_steps. apply HR; [|done]. right. intros i k' Hk' E'.
      assert (i = k_id x) as -> by (eapply (ki_hash _ Hi); [done..|congruence]).
      replace k' with x by congruence. unfold revoked. destruct (k_revoked_at x); [eauto|done].
  - wp_steps. apply HR; [|done]. right. intros i k' Hk' E'. exfalso.
    apply (not_elem_of_nil k'). rewrite <- Ho. apply list_elem_of_filter. split; [done|]. apply elem_of_rows. eauto.
Qed.

Lemma wp_caller auth Q R d n :
  keys_integrity d →
  (∀ k, (∀ caller, ¬ speaks_for d auth caller) → (n ≤ k)%nat → R (HTTPException 401) (mkWorld d k)) →
  (∀ caller now k, speaks_for d auth caller → (n ≤ k)%nat → Q caller (mkWorld (used caller now d) k)) →
  wp (require_api_key auth) Q R (mkWorld d n).
Proof.
  intros Hi HR HQ. unfold require_api_key.
  assert (strip <$> (auth ≫= after_prefix "Bearer ") = None →
    wp (raise (HTTPException 401)) Q R (mkWorld d n)) as Hno.
  { intros E'. wp_steps. apply HR; [|done]. intros caller (raw & E2 & _). congruence. }
  destruct auth as [h|]; [|by apply Hno]. cbn [mbind option_bind] in *.
  destruct (after_prefix "Bearer " h) as [rest|] eqn:Hh; [|by apply Hno]. clear Hno.
  wp_step. apply wp_authenticated; [done|..].
  - intros k Hbad Hk. wp_steps. apply HR; [|done]. intros caller (raw & E2 & Hne & Hc & Hact & Hhash).
    cbn [mbind option_bind] in E2. rewrite Hh in E2. injection E2 as <-. destruct Hbad as [?|Hbad]; [done|]. apply Hact. eauto.
  - intros k now k' Hne Hk Hact Hhash Hk'. apply HQ; [|done]. exists (strip rest). split; [|done].
    cbn [mbind option_bind]. by rewrite Hh.
Qed.

(** RevokeApiKeyService writes the target's row and nothing else. *)
Lemma wp_revoke_alone id caller Q R d n :
  keys_integrity d →
  (in_tenant k_tenant_id (k_tenant_id caller) (db_keys d !! id) = None →
     R (ApiKeyNotFoundError id) (mkWorld d (S n))) →
  (∀ k, db_keys d !! id = Some k → k_tenant_id k = k_tenant_id caller → ¬ may_revoke caller k →
     R (ScopeDeniedError KEYS_MANAGE) (mkWorld d (S n))) →
  (∀ k tm k', db_keys d !! id = Some k → k_tenant_id k = k_tenant_id caller → may_revoke caller k →
     (n ≤ k')%nat → Q tt (mkWorld (set_keys (<[id := set_revoked_at (Some tm) k]> (db_keys d)) d) k')) →
  wp (revoke_api_key id caller) Q R (mkWorld d n).
Proof.
  intros Hi Hnf Hden HQ. unfold revoke_api_key, ApiKeyRepository.get_by_id. wp_step. apply wp_gets.
  destruct (in_tenant _ _ _) as [k|] eqn:Hk; [|wp_steps; auto]. unfold in_tenant in Hk.
  destruct (db_keys d !! id) as [k0|] eqn:Hk0; [|done]. case_bool_decide as Ht; [|done]. injection Hk as ->.
  pose proof (ki_id _ Hi id k Hk0) as Hkid. pose proof (authorize_key_revocation_spec caller k) as Ha. wp_steps.
  destruct (authorize_key_revocation _ _ _) as [e|[]]; [destruct Ha as [? ->]; eauto|].
  wp_steps. rewrite revoke_spec. destruct (k_revoked_at k) as [tm|] eqn:Hrev.
  - wp_steps. specialize (HQ k tm (S (S n)) eq_refl Ht Ha ltac:(lia)).
    rewrite insert_id in HQ; [by destruct d|]. rewrite Hk0. destruct k. cbn in *. by subst.
  - unfold ApiKeyRepository.save. apply wp_statement. unfold wp, upsert_key. cbn [k_id set_revoked_at].
    rewrite Hkid, Hk0, bool_decide_eq_true_2 by done. cbn. specialize (HQ k (clock (S n)) (S (S (S n))) eq_refl Ht Ha ltac:(lia)).
    unfold set_revoked_at in HQ. by rewrite Hkid in HQ |- *.
Qed.
End quiet.
