(* ===== verification/Services.v ===== *)
(** The application services that move jobs, workers, leases and nodes
    (src/app/application/services and src/app/application/reconciliation), as
    src/app/presentation/dependencies.py wires them: with an event recorder and
    a lease service.  One definition per [execute] method, calls in the source's
    order.

    Log lines are not modelled.  An object a method mutates is rebound to what
    the method leaves; every repository read builds fresh objects, so no two
    variables alias an object except where the code passes one on. *)
From S2P Require Import Prelude Values Job Node Scheduler Worker Db Prog Repos.
Local Open Scope Z_scope.

Section services.
Context {E : Env}.

(** * Events *)

(** RecordJobEventsService.record_for_job *)
Definition record_for_job (j : job) (event_type : string) : prog event :=
  id ← new_uuid;
  now ← utc_now;
  let e := mkEvent (mkEventId id) (j_id j) "Job" event_type (j_tenant_id j) now ∅ in
  EventRepository.save e ;;
  mret e.

(** * Leases *)

(** AcquireLeaseService.execute *)
Definition acquire_lease (w : worker) (j : job) : prog lease :=
  if negb (bool_decide (j_tenant_id j = w_tenant_id w)) then raise LeaseTenantMismatchError else
  existing ← LeaseRepository.get_by_job_id (j_id j) (j_tenant_id j);
  match existing with
  | Some _ => raise (ValueError "Job already has an active lease.")
  | None =>
      now ← utc_now;
      id ← new_uuid;
      let l := Lease.create (mkLeaseId id) (w_id w) (j_id j) (w_tenant_id w)
                 DEFAULT_LEASE_DURATION now in
      LeaseRepository.save l ;;
      record_for_job j "LeaseAcquired" ;;
      mret l
  end.

(** RenewLeaseService.execute *)
Definition renew_lease (w : WorkerId) (expected_lease_id : LeaseId) (t : TenantId)
    (duration : timedelta) : prog unit :=
  o ← LeaseRepository.get_by_worker_id w t;
  match o with
  | None => raise (NoActiveLeaseError w)
  | Some l =>
      if negb (bool_decide (l_id l = expected_lease_id))
      then raise (LeaseNotFoundError expected_lease_id)
      else LeaseRepository.renew (l_id l) duration t
  end.

(** ReleaseLeaseService.execute *)
Definition release_lease (w : WorkerId) (expected_lease_id : LeaseId) (t : TenantId) : prog unit :=
  o ← LeaseRepository.get_by_worker_id w t;
  match o with
  | None => raise (NoActiveLeaseError w)
  | Some l =>
      if negb (bool_decide (l_id l = expected_lease_id))
      then raise (LeaseNotFoundError expected_lease_id) else
      worker ← WorkerRepository.get_by_id w t;
      match worker with
      | None => raise (WorkerNotFoundError w)
      | Some _ =>
          oj ← JobRepository.get_by_id (l_job_id l) t;
          match oj with
          | None => raise (JobNotFoundError (l_job_id l))
          | Some j =>
              LeaseRepository.delete (l_job_id l) t ;;
              record_for_job j "LeaseReleased" ;;
              mret tt
          end
      end
  end.

(** GetLeaseForWorkerService.execute *)
Definition get_lease_for_worker (w : WorkerId) (t : TenantId) : prog (option lease) :=
  LeaseRepository.get_by_worker_id w t.

(** * Scheduling *)

(** The two refusals of the lease that count as "no worker available". *)
Definition refused_lease {A} (e : exn) : option (prog A) :=
  match e with
  | WorkerNotFoundError _ | LeaseTenantMismatchError => Some (raise NoAvailableNodeError)
  | _ => None
  end.

(** The loop of AssignWorkerService.execute over the workers it listed. *)
Fixpoint assign_worker_loop (j : job) (n : NodeId) (ws : list worker) : prog worker :=
  match ws with
  | [] => raise NoAvailableNodeError
  | w :: ws' =>
      if negb (bool_decide (n_id (w_node w) = n)) then assign_worker_loop j n ws' else
      if negb (Worker.is_idle w) then assign_worker_loop j n ws' else
      try_except (acquire_lease w j) refused_lease ;;
      x ← on_object (Worker.accept j) w;
      WorkerRepository.save (x.1) ;;
      record_for_job j "WorkerAssigned" ;;
      mret (x.1)
  end.

(** AssignWorkerService.execute *)
Definition assign_worker (j : job) : prog worker :=
  match j_assigned_node_id j with
  | None => raise (ValueError "Job has not been assigned to a node.")
  | Some n => ws ← WorkerRepository.list_across_tenants; assign_worker_loop j n ws
  end.

(** One iteration of SchedulerLoopService.execute: the list of node objects is
    shared by all iterations, so it is passed along. *)
Definition schedule_job (j : job) (nodes : list node) : prog (list node) :=
  now ← utc_now_each (length nodes);
  sel ← of_sum (select_node now j nodes);
  match sel with
  | None => mret nodes
  | Some (i, n) =>
      x ← on_object (allocate (j_resources j)) n;
      y ← on_object (assign_to (n_id n)) j;
      let n1 := x.1 in
      let j1 := y.1 in
      NodeRepository.save n1 ;;
      JobRepository.save j1 ;;
      record_for_job j1 "JobScheduled" ;;
      try_except
        (assign_worker j1 ;; mret (<[i := n1]> nodes))
        (λ e, match e with
              | NoAvailableNodeError => Some (
                  y' ← on_object unschedule j1;
                  x' ← on_object (release (j_resources j1)) n1;
                  NodeRepository.save (x'.1) ;;
                  JobRepository.save (y'.1) ;;
                  record_for_job (y'.1) "JobUnscheduled" ;;
                  mret (<[i := x'.1]> nodes))
              | _ => None
              end)
  end.

Fixpoint schedule_all (js : list job) (nodes : list node) : prog unit :=
  match js with
  | [] => mret tt
  | j :: js' => nodes' ← schedule_job j nodes; schedule_all js' nodes'
  end.

(** SchedulerLoopService.execute *)
Definition scheduler_loop : prog unit :=
  nodes ← NodeRepository.list_available_across_tenants;
  jobs ← JobRepository.list_across_tenants;
  schedule_all (sort_desc j_priority (filter (λ j, j_status j = QUEUED) jobs)) nodes.

(** * Execution *)

(** persist_job_started *)
Definition persist_job_started (w : worker) : prog unit :=
  match w_running_job w with
  | None => mret tt
  | Some j => JobRepository.save j
  end.

(** StartJobService.execute *)
Definition start_job (w : WorkerId) (j : JobId) (t : TenantId) : prog worker :=
  o ← WorkerRepository.get_by_id w t;
  match o with
  | None => raise (WorkerNotFoundError w)
  | Some wk =>
      if negb (bool_decide (n_tenant_id (w_node wk) = t)) then raise (WorkerNotFoundError w) else
      if negb (bool_decide (j_id <$> w_running_job wk = Some j))
      then raise WorkerJobMismatchError else
      now ← utc_now;
      x ← on_object (Worker.start now) wk;
      WorkerRepository.save (x.1) ;;
      persist_job_started (x.1) ;;
      mret (x.1)
  end.

(** ReportJobOutcomeService._get_owning_worker *)
Definition _get_owning_worker (w : WorkerId) (j : JobId) (t : TenantId) : prog (worker * job) :=
  o ← WorkerRepository.get_by_id w t;
  match o with
  | None => raise (WorkerNotFoundError w)
  | Some wk =>
      if negb (bool_decide (n_tenant_id (w_node wk) = t)) then raise (WorkerNotFoundError w) else
      match w_running_job wk with
      | None => raise WorkerJobMismatchError
      | Some x =>
          if negb (bool_decide (j_id x = j)) then raise WorkerJobMismatchError
          else mret (wk, x)
      end
  end.

(** ReportJobOutcomeService._finish *)
Definition _finish (wk : worker) (w : WorkerId) (j : job) (event_type : string)
    (expected_lease_id : LeaseId) (t : TenantId) : prog worker :=
  release_lease w expected_lease_id t ;;
  WorkerRepository.save wk ;;
  match j_assigned_node_id j with
  | None => mret tt
  | Some nid =>
      o ← NodeRepository.get_by_id nid t;
      match o with
      | None => mret tt
      | Some n =>
          x ← on_object (release (j_resources j)) n;
          NodeRepository.save (x.1)
      end
  end ;;
  JobRepository.save j ;;
  record_for_job j event_type ;;
  mret wk.

(** The three reports; [Worker.finish] hands back the job object the source
    reads from [running_job] before the call. *)
Definition report (finish : datetime → workerM job) (event_type : string)
    (w : WorkerId) (j : JobId) (t : TenantId) (lease_id : LeaseId) : prog worker :=
  owned ← _get_owning_worker w j t;
  now ← utc_now;
  x ← on_object (finish now) (owned.1);
  _finish (x.1) w (x.2) event_type lease_id t.

(** ReportJobOutcomeService.complete, fail, cancel *)
Definition report_complete (w : WorkerId) (j : JobId) (t : TenantId) (l : LeaseId)
    (exit_code : option Z) : prog worker :=
  report (Worker.complete exit_code) "JobCompleted" w j t l.
Definition report_fail (w : WorkerId) (j : JobId) (t : TenantId) (l : LeaseId)
    (exit_code : option Z) : prog worker :=
  report (Worker.fail exit_code) "JobFailed" w j t l.
Definition report_cancel (w : WorkerId) (j : JobId) (t : TenantId) (l : LeaseId)
    (exit_code : option Z) : prog worker :=
  report (Worker.cancel_job exit_code) "JobCancelled" w j t l.

(** * Jobs *)

(** CreateJobService.execute *)
Definition create_job (resources : ResourceRequirements) (t : TenantId)
    (command : option (list string)) : prog job :=
  id ← new_uuid;
  now ← utc_now;
  j ← of_sum (new_job (mkJobId id) resources t command now);
  x ← on_object queue j;
  JobRepository.save (x.1) ;;
  record_for_job (x.1) "JobCreated" ;;
  mret (x.1).

(** CancelJobService.execute *)
Definition cancel_job (j : JobId) (t : TenantId) : prog (option job) :=
  o ← JobRepository.get_by_id j t;
  match o with
  | None => mret None
  | Some x =>
      x' ← (if is_running x
            then now ← utc_now; y ← on_object (request_cancellation now) x; mret (y.1)
            else if negb (is_cancelling x) then y ← on_object cancel x; mret (y.1)
            else mret x);
      JobRepository.save x' ;;
      mret (Some x')
  end.

(** RetryJobService.execute *)
Definition retry_job (j : JobId) (t : TenantId) : prog (option job) :=
  o ← JobRepository.get_by_id j t;
  match o with
  | None => mret None
  | Some x =>
      if negb (bool_decide (j_status x = FAILED)) then mret (Some x) else
      if negb (can_retry x) then mret (Some x) else
      y ← on_object retry x;
      JobRepository.save (y.1) ;;
      mret (Some (y.1))
  end.

(** * Reconciliation *)

(** reclaim_job (job_execution_support.py): the reclaimed job, or [None] where
    the source returns False.  [Job.reclaim] leaves a job it refuses alone. *)
Definition reclaim_job (j : job) (node : option node) (lease_already_deleted : bool)
    : prog (option job) :=
  (if lease_already_deleted then mret tt
   else LeaseRepository.delete (j_id j) (j_tenant_id j)) ;;
  match node with
  | None => mret tt
  | Some n =>
      x ← on_object (release (j_resources j)) n;
      NodeRepository.save (x.1)
  end ;;
  now ← utc_now;
  match reclaim now j with
  | (_, inl InvalidJobTransition) => mret None
  | (_, inl e) => raise e
  | (j', inr _) => JobRepository.save j' ;; mret (Some j')
  end.

(** MarkDeadWorkersService.execute *)
Definition mark_dead_worker (w : worker) : prog unit :=
  now ← utc_now;
  if Worker.is_alive now w then mret tt else WorkerRepository.save (Worker.offline w).

Definition mark_dead_workers : prog unit :=
  ws ← WorkerRepository.list_across_tenants; for_each ws mark_dead_worker.

Definition recover_worker (o : option worker) : prog unit :=
  match o with
  | None => mret tt
  | Some w => WorkerRepository.save (Worker.recover w)
  end.

(** One iteration of RecoverExpiredLeaseService.execute. *)
Definition recover_expired_lease (l : lease) : prog unit :=
  now ← utc_now;
  if negb (Lease.is_expired now l) then mret tt else
  deleted ← LeaseRepository.delete_if_expired (l_job_id l) (l_tenant_id l);
  if negb deleted then mret tt else
  worker ← WorkerRepository.get_by_id (l_worker_id l) (l_tenant_id l);
  oj ← JobRepository.get_by_id (l_job_id l) (l_tenant_id l);
  match oj with
  | None => recover_worker worker
  | Some j =>
      recover_worker worker ;;
      let was_cancelling := is_cancelling j in
      node ← match j_assigned_node_id j with
             | None => mret None
             | Some n => NodeRepository.get_by_id n (l_tenant_id l)
             end;
      reclaimed ← reclaim_job j node true;
      match reclaimed with
      | None => mret tt
      | Some j' =>
          record_for_job j' (if was_cancelling then "JobCancelled" else "JobReclaimed") ;;
          mret tt
      end
  end.

(** RecoverExpiredLeaseService.execute *)
Definition recover_expired_leases : prog unit :=
  ls ← LeaseRepository.list_across_tenants; for_each ls recover_expired_lease.

(** The set comprehension of RecoverOfflineNodeService.execute. *)
Fixpoint offline_node_ids (nodes : list node) : prog (gset NodeId) :=
  match nodes with
  | [] => mret ∅
  | n :: nodes' =>
      now ← utc_now;
      s ← offline_node_ids nodes';
      mret (if is_alive now n then s else {[ n_id n ]} ∪ s)
  end.

(** Its loop body from the point where the lease is settled. *)
Definition reclaim_from_worker (w : worker) (j : job) (lease_already_deleted : bool) : prog unit :=
  let node := w_node w in
  WorkerRepository.save (Worker.recover w) ;;
  reclaimed ← reclaim_job j (Some node) lease_already_deleted;
  match reclaimed with
  | None => mret tt
  | Some j' => record_for_job j' "JobReclaimed" ;; mret tt
  end.

Definition recover_offline_worker (offline : gset NodeId) (w : worker) : prog unit :=
  if negb (bool_decide (n_id (w_node w) ∈ offline)) then mret tt else
  match w_running_job w with
  | None => mret tt
  | Some j =>
      o ← LeaseRepository.get_by_job_id (j_id j) (j_tenant_id j);
      match o with
      | None => reclaim_from_worker w j false
      | Some l =>
          now ← utc_now;
          if negb (Lease.is_expired now l) then mret tt else
          deleted ← LeaseRepository.delete_if_expired (j_id j) (j_tenant_id j);
          if negb deleted then mret tt else reclaim_from_worker w j true
      end
  end.

(** RecoverOfflineNodeService.execute *)
Definition recover_offline_nodes : prog unit :=
  nodes ← NodeRepository.list_across_tenants;
  offline ← offline_node_ids nodes;
  if bool_decide (offline = ∅) then mret tt else
  ws ← WorkerRepository.list_across_tenants;
  for_each ws (recover_offline_worker offline).

(** ReconciliationLoop.execute *)
Definition reconciliation_loop : prog unit :=
  mark_dead_workers ;;
  recover_expired_leases ;;
  recover_offline_nodes.

(** * The fleet *)

(** CreateNodeService.execute *)
Definition create_node (capacity : ResourceRequirements) (t : TenantId) (name : option string)
    : prog node :=
  id ← new_uuid;
  dr ← draw_name;
  now ← utc_now;
  n ← of_sum (register (mkNodeId id) capacity t name dr now);
  NodeRepository.save n ;;
  mret n.

(** CreateWorkerService.execute *)
Definition create_worker (n : node) (managed_by : WorkerManagement) : prog worker :=
  existing ← WorkerRepository.get_by_node_id (n_id n) (n_tenant_id n);
  match existing with
  | Some w =>
      match w_running_job w with
      | None => mret tt
      | Some j => reclaim_job j (Some n) false ;; mret tt
      end ;;
      let w' := set_managed_by managed_by (Worker.recover w) in
      WorkerRepository.save w' ;;
      mret w'
  | None =>
      id ← new_uuid;
      now ← utc_now;
      let w := Worker.ready (Worker.new (mkWorkerId id) n managed_by now) in
      WorkerRepository.save w ;;
      mret w
  end.

(** RegisterWorkerService.execute *)
Definition register_worker (w : worker) : prog worker :=
  let w' := Worker.ready w in
  WorkerRepository.save w' ;;
  stored ← WorkerRepository.get_by_id (w_id w') (w_tenant_id w');
  match stored with
  | None => raise (RuntimeError "Worker disappeared after registration.")
  | Some s => mret s
  end.

(** GetNodeService.execute *)
Definition get_node (n : NodeId) (t : TenantId) : prog node :=
  o ← NodeRepository.get_by_id n t;
  match o with
  | None => raise (NodeNotFoundError n)
  | Some x => mret x
  end.

(** POST /workers (src/app/presentation/routers/workers.py, create_worker) *)
Definition post_worker (n : NodeId) (managed_by : WorkerManagement) (t : TenantId) : prog worker :=
  x ← get_node n t;
  w ← create_worker x managed_by;
  register_worker w.

(** WorkerHeartbeatService.execute *)
Definition worker_heartbeat (w : WorkerId) (t : TenantId) : prog worker :=
  o ← WorkerRepository.get_by_id w t;
  match o with
  | None => raise (WorkerNotFoundError w)
  | Some wk =>
      if negb (Worker.belongs_to t wk) then raise (WorkerNotFoundError w) else
      now ← utc_now;
      let wk' := Worker.heartbeat now wk in
      WorkerRepository.save wk' ;;
      mret wk'
  end.

(** HeartbeatNodeService.execute *)
Definition heartbeat_node (n : NodeId) (t : TenantId) : prog (option node) :=
  o ← NodeRepository.get_by_id n t;
  match o with
  | None => mret None
  | Some x =>
      now ← utc_now;
      let x' := heartbeat now x in
      NodeRepository.save x' ;;
      mret (Some x')
  end.

(** DrainNodeService.execute *)
Definition drain_node (n : NodeId) (t : TenantId) : prog node :=
  o ← NodeRepository.get_by_id n t;
  match o with
  | None => raise (NodeNotFoundError n)
  | Some x =>
      let x' := drain x in
      NodeRepository.save x' ;;
      mret x'
  end.

(** RemoveOfflineNodeService.execute *)
Definition remove_offline_node (n : NodeId) (t : TenantId) : prog unit :=
  o ← NodeRepository.get_by_id n t;
  match o with
  | None => raise (NodeNotFoundError n)
  | Some x =>
      now ← utc_now;
      if is_alive now x then raise NodeStillAliveError
      else NodeRepository.delete n t
  end.

(** ListOfflineNodesService.execute *)
Definition list_offline_nodes (t : TenantId) : prog (list node) :=
  nodes ← NodeRepository.list t;
  load_some (λ n, now ← utc_now; mret (if is_alive now n then None else Some n)) nodes.
End services.
