(* ===== verification/WorkerLoop.v ===== *)
(** Executing jobs inside the server: WorkerExecutionLoop
    (src/app/application/workers/worker_execution_loop.py), ClusterTickService
    (src/app/application/services/cluster_tick_service.py) and the tick of the
    background task (src/app/presentation/api.py).

    While a command runs, a second thread renews the lease and looks for a
    cancellation.  The two threads share the job object and the cancellation event.
    The thread that waits for the command touches no table and reads of the shared
    objects only the event, so the model lets the renewal thread take all its turns
    first, notes after each whether the event is set, and then runs the command,
    which sees at each of its effects the event as it was after the turns that were
    over by then.  How many turns there are and how many the command has seen is up
    to the environment ([renewals], [renewals_seen]). *)
From S2P Require Import Prelude Values Job Node Scheduler Float64 Execution ApiKey Worker Db Prog Repos Services.
Local Open Scope Z_scope.

Section worker_loop.
Context {E : Env}.

(** One turn of keep_lease_alive.  The thread goes on, or it found its lease
    replaced, or another exception ended it, which nobody notices. *)
Inductive turn := Renewed (j : job) (cancel_set : bool) | LeaseGone (e : exn) | Died (j : job).

Definition renewal_turn (w : WorkerId) (lease_id : LeaseId) (t : TenantId) (j : job) (cancel_set : bool)
    : prog turn :=
  try_except
    (lost ← try_except (renew_lease w lease_id t DEFAULT_LEASE_DURATION ;; mret None)
              (λ e, match e with LeaseNotFoundError _ => Some (mret (Some e)) | _ => None end);
     match lost with
     | Some e => mret (LeaseGone e)
     | None =>
         if cancel_set then mret (Renewed j true) else
         current ← JobRepository.get_by_id (j_id j) t;
         match current with
         | None => mret (Renewed j false)
         | Some c =>
             if negb (is_cancelling c) then mret (Renewed j false) else
             if is_cancelling j then mret (Renewed j true) else
             now ← utc_now;
             match request_cancellation now j with
             | (j', inr _) => mret (Renewed j' true)
             | (j', inl _) => mret (Died j')
             end
         end
     end)
    (λ _, Some (mret (Died j))).

(** What the thread leaves: the job object, the event after each turn, the
    exception in [lost_lease]. *)
Record renewing := mkRenewing { rn_job : job; rn_set : list bool; rn_lost : option exn }.

Fixpoint keep_lease_alive (turns : nat) (w : WorkerId) (lease_id : LeaseId) (t : TenantId) (j : job)
    (cancel_set : bool) : prog renewing :=
  match turns with
  | O => mret (mkRenewing j [] None)
  | S turns =>
      o ← renewal_turn w lease_id t j cancel_set;
      match o with
      | LeaseGone e => mret (mkRenewing j [] (Some e))
      | Died j' => mret (mkRenewing j' [] None)
      | Renewed j' set' =>
          rest ← keep_lease_alive turns w lease_id t j' set';
          mret (mkRenewing (rn_job rest) (set' :: rn_set rest) (rn_lost rest))
      end
  end.

(** The number of the effect at which something happens outside the tables. *)
Definition effect_number : prog nat := λ w, (mkWorld (w_db w) (S (w_step w)), inr (w_step w)).

(** How many turns the thread takes. *)
Definition turns_taken : prog nat := n ← effect_number; mret (renewals n).

(** The event as the execution sees it: set once one of the turns it has seen set
    it. *)
Definition event_seen (n : nat) (set : list bool) (i : nat) : bool :=
  existsb id (take (renewals_seen n i) set).

(** JobExecutionService.execute, called at effect [n] *)
Definition execution_at (n : nat) (command : option (list string)) (timeout : timedelta) (set : list bool)
    : os_state * (fault + JobExecutionResult) :=
  execute (H := os_at n) DEFAULT_TERMINATION_GRACE_PERIOD DEFAULT_POLL_INTERVAL (S (overdue_from n timeout))
    command timeout (Some (event_seen n set)) None os_start.

Definition run_command (command : option (list string)) (timeout : timedelta) (set : list bool)
    : prog JobExecutionResult :=
  n ← effect_number;
  match (execution_at n command timeout set).2 with
  | inr r => mret r
  | inl _ => raise HostFault
  end.

(** The method of the worker that records a result, and the event for it. *)
Definition outcome_of (r : JobExecutionResult) : (datetime → workerM job) * string :=
  if cancelled r then (Worker.cancel_job (exit_code r), "JobCancelled"%string)
  else if succeeded r then (Worker.complete (exit_code r), "JobCompleted"%string)
  else (Worker.fail (exit_code r), "JobFailed"%string).

(** A cancellation requested too late is still noted. *)
Definition keep_request (current : option job) (j : job) : job :=
  match current with
  | Some c =>
      if negb (bool_decide (j_cancellation_requested_at c = None)) && bool_decide (j_cancellation_requested_at j = None)
      then set_cancellation_requested_at (j_cancellation_requested_at c) j else j
  | None => j
  end.

(** The end of WorkerExecutionLoop.execute, once there is a result. *)
Definition settle (w : WorkerId) (lease_id : LeaseId) (t : TenantId) (wk : worker) (result : JobExecutionResult)
    : prog unit :=
  now ← utc_now;
  x ← on_object ((outcome_of result).1 now) wk;
  let j := x.2 in
  record_for_job j (outcome_of result).2 ;;
  release_lease w lease_id t ;;
  WorkerRepository.save (x.1) ;;
  match j_assigned_node_id j with
  | None => mret tt
  | Some nid =>
      o ← NodeRepository.get_by_id nid t;
      match o with
      | None => mret tt
      | Some n =>
          y ← on_object (release (j_resources j)) n;
          NodeRepository.save (y.1)
      end
  end ;;
  current ← JobRepository.get_by_id (j_id j) t;
  JobRepository.save (keep_request current j).

(** WorkerExecutionLoop.execute *)
Definition worker_execution_loop (w : WorkerId) : prog unit :=
  o ← WorkerRepository.get_by_id_across_tenants w;
  match o with
  | None => raise (ValueError "Worker does not exist.")
  | Some wk =>
      match w_running_job wk with
      | None => mret tt
      | Some j =>
          let t := w_tenant_id wk in
          current_lease ← LeaseRepository.get_by_worker_id w t;
          match current_lease with
          | None => raise (NoActiveLeaseError w)
          | Some l =>
              started ← (if is_running j then mret (wk, j) else
                         now ← utc_now;
                         x ← on_object (Worker.start now) wk;
                         persist_job_started (x.1) ;;
                         mret x);
              turns ← turns_taken;
              renewed ← keep_lease_alive turns w (l_id l) t (started.2) false;
              result ← run_command (j_command (started.2)) (j_execution_timeout (started.2)) (rn_set renewed);
              match rn_lost renewed with
              | Some e => raise e
              | None => settle w (l_id l) t (set_running_job (Some (rn_job renewed)) (started.1)) result
              end
          end
      end
  end.

(** WorkerHeartbeatLoop.run_once; the result of the service is dropped *)
Definition run_once (worker_id : WorkerId) (tenant_id : TenantId) : prog unit :=
  worker_heartbeat worker_id tenant_id ;; mret tt.

(** ClusterTickService.execute; an exception of one worker is logged *)
Definition drive_worker (wk : worker) : prog unit :=
  match w_running_job wk with
  | None => mret tt
  | Some _ =>
      if bool_decide (w_managed_by wk = AGENT) then mret tt else
      try_except (worker_execution_loop (w_id wk)) (λ _, Some (mret tt))
  end.

Definition cluster_tick : prog unit :=
  scheduler_loop ;;
  workers ← WorkerRepository.list_across_tenants;
  for_each workers drive_worker.

(** _run_cluster_tick *)
Definition _run_cluster_tick : prog unit :=
  try_except cluster_tick (λ _, Some (mret tt)) ;;
  try_except reconciliation_loop (λ _, Some (mret tt)).

(** _run_leader_tick: [leads] is what [try_acquire] returned, [None] if it raised.  The
    election itself is on a connection of its own ([Leadership]). *)
Definition _run_leader_tick (leads : option bool) : prog unit :=
  match leads with
  | None => mret tt
  | Some false => mret tt
  | Some true => _run_cluster_tick
  end.

Lemma leader_tick_preserves (J : world → Prop) leads :
  preserves J _run_cluster_tick → preserves J (_run_leader_tick leads).
Proof. intros Ht. destruct leads as [[]|]; [done|apply preserves_ret..]. Qed.
End worker_loop.
