(* ===== verification/Http.v ===== *)
(** The HTTP surface (src/app/presentation/routers and auth.py): the services
    that only read, the routes with the statuses they answer, and the way a
    request passes from its Authorization header to its handler.

    Path and body parameters arrive parsed: identifiers are identifiers, integers
    integers.  A request that does not parse never reaches a service.  [serve] is a
    request that is not throttled; [gateway] puts the rate limiter between
    authentication and the handler. *)
From S2P Require Import Prelude Values Job Node Float64 RateLimiter ApiKey Worker Db Prog Repos Keys Services.
Local Open Scope Z_scope.

(** * Services that only read *)

Section queries.
Context {E : Env}.

(** GetJobService.execute *)
Definition get_job (j : JobId) (t : TenantId) : prog job :=
  o ← JobRepository.get_by_id j t;
  match o with
  | None => raise (JobNotFoundError j)
  | Some x => mret x
  end.

Definition MAX_JOBS_RETURNED : nat := 50.

(** ListJobsService.execute *)
Definition list_jobs (t : TenantId) : prog (list job) := JobRepository.list_recent MAX_JOBS_RETURNED t.

(** ListQueuedJobsService.execute *)
Definition list_queued_jobs (t : TenantId) : prog (list job) := JobRepository.list_queued t.

(** GetJobHistoryService.execute *)
Definition get_job_history (j : JobId) (t : TenantId) : prog (list event) :=
  EventRepository.list_by_aggregate j t.

(** ListEventsService.execute *)
Definition list_events (t : TenantId) : prog (list event) := EventRepository.list t.

(** ListNodesService.execute *)
Definition list_nodes (t : TenantId) : prog (list node) := NodeRepository.list t.

(** GetWorkerService.execute *)
Definition get_worker (w : WorkerId) (t : TenantId) : prog (option worker) :=
  o ← WorkerRepository.get_by_id w t;
  mret match o with
       | None => None
       | Some wk => if bool_decide (n_tenant_id (w_node wk) = t) then Some wk else None
       end.

(** ListWorkersService.execute *)
Definition list_workers (t : TenantId) : prog (list worker) :=
  l ← WorkerRepository.list t;
  mret (filter (λ wk, n_tenant_id (w_node wk) = t) l).

(** The sums of ClusterCapacityService and ClusterUtilizationService; the
    [ResourceRequirements] they end in refuses a negative total. *)
Definition sum_nodes (f : node → ResourceRequirements) (l : list node) : exn + ResourceRequirements :=
  let s := foldl (λ acc n, resources_add acc (f n)) (mkResources 0 0 0) l in
  new_resources (cpu_cores s) (memory_mib s) (vram_mib s).

(** ClusterCapacityService.execute *)
Definition cluster_capacity (t : TenantId) : prog ResourceRequirements :=
  l ← NodeRepository.list t; of_sum (sum_nodes n_available l).

(** ClusterUtilizationService.execute *)
Definition cluster_utilization (t : TenantId) : prog ResourceRequirements :=
  l ← NodeRepository.list t; of_sum (sum_nodes in_use l).

Record ClusterHealth := mkClusterHealth { total_nodes : Z; alive_nodes : Z; offline_nodes : Z }.

(** ClusterHealthService.execute *)
Definition cluster_health (t : TenantId) : prog ClusterHealth :=
  l ← NodeRepository.list t;
  alive ← load_some (λ n, now ← utc_now; mret (if is_alive now n then Some n else None)) l;
  let total := Z.of_nat (length l) in
  let up := Z.of_nat (length alive) in
  mret (mkClusterHealth total up (total - up)).
End queries.

(** * Responses (src/app/presentation/schemas) *)

(** GetJobResponse, JobSummaryResponse: no command. *)
Record job_view := mkJobView {
  jv_id : JobId; jv_status : JobStatus; jv_resources : ResourceRequirements; jv_exit_code : option Z;
  jv_submitted_at : datetime; jv_started_at : option datetime; jv_completed_at : option datetime;
}.
Definition view_job (j : job) : job_view :=
  mkJobView (j_id j) (j_status j) (j_resources j) (j_exit_code j) (j_submitted_at j) (j_started_at j) (j_completed_at j).

(** GetNodeResponse, NodeResponse *)
Record node_view := mkNodeView {
  nv_id : NodeId; nv_capacity : ResourceRequirements; nv_available : ResourceRequirements;
  nv_is_alive : bool; nv_is_draining : bool;
}.
Definition view_node (now : datetime) (n : node) : node_view :=
  mkNodeView (n_id n) (n_capacity n) (n_available n) (is_alive now n) (is_draining n).

(** RunningJobResponse, GetWorkerResponse, WorkerSummaryResponse *)
Record running_job_view := mkRunningJobView {
  rv_id : JobId; rv_status : JobStatus; rv_command : option (list string); rv_execution_timeout : timedelta;
  rv_lease : option (LeaseId * datetime * datetime);
}.
Record worker_view := mkWorkerView {
  wv_id : WorkerId; wv_status : WorkerStatus; wv_node_id : NodeId; wv_last_seen_at : datetime;
  wv_running_job : option running_job_view;
}.
Record worker_summary := mkWorkerSummary {
  ws_id : WorkerId; ws_status : WorkerStatus; ws_node_id : NodeId; ws_running_job_id : option JobId;
  ws_last_seen_at : datetime;
}.
Definition summarize_worker (w : worker) : worker_summary :=
  mkWorkerSummary (w_id w) (w_status w) (n_id (w_node w)) (j_id <$> w_running_job w) (w_last_seen_at w).

(** _build_worker_response *)
Definition _build_worker_response (w : worker) (l : option lease) : worker_view :=
  mkWorkerView (w_id w) (w_status w) (n_id (w_node w)) (w_last_seen_at w)
    ((λ j, mkRunningJobView (j_id j) (j_status j) (j_command j) (j_execution_timeout j)
             ((λ x, (l_id x, l_acquired_at x, l_expires_at x)) <$> l)) <$> w_running_job w).

(** EventResponse *)
Record event_view := mkEventView {
  ev_id : EventId; ev_aggregate_id : JobId; ev_aggregate_type : string; ev_event_type : string;
  ev_occurred_at : datetime; ev_payload : gmap string string;
}.
Definition view_event (e : event) : event_view :=
  mkEventView (e_id e) (e_aggregate_id e) (e_aggregate_type e) (e_event_type e) (e_occurred_at e) (e_payload e).

(** IssuedApiKeySummaryResponse *)
Record key_view := mkKeyView {
  kv_id : ApiKeyId; kv_label : string; kv_scopes : list string; kv_created_at : datetime;
  kv_revoked_at : option datetime;
}.
Definition view_key (k : api_key) : key_view :=
  mkKeyView (k_id k) (k_label k) (sorted (k_scopes k)) (k_created_at k) (k_revoked_at k).

Inductive body :=
  | NoBody
  | JobCreatedBody (id : JobId) (status : JobStatus)
  | JobBody (j : job_view)
  | JobsBody (l : list job_view)
  | EventsBody (l : list event_view)
  | NodeCreatedBody (id : NodeId)
  | NodeBody (n : node_view)
  | NodesBody (l : list node_view)
  | WorkerCreatedBody (id : WorkerId) (status : WorkerStatus)
  | WorkerBody (w : worker_view)
  | WorkersBody (l : list worker_summary)
  | HealthBody (h : ClusterHealth)
  | ResourcesBody (r : ResourceRequirements)
  | KeyCreatedBody (id : ApiKeyId) (label : string) (plaintext : string)
  | KeysBody (l : list key_view).

Record response := mkResponse { r_code : Z; r_body : body }.

(** * Routes *)

Inductive route :=
  | PostJobs (cpu_cores memory_mib vram_mib : Z) (command : option (list string))
  | GetJobs
  | GetQueuedJobs
  | GetJob (j : JobId)
  | GetJobHistory (j : JobId)
  | PostJobCancel (j : JobId)
  | PostJobRetry (j : JobId)
  | PostNodes (cpu_cores memory_mib vram_mib : Z) (name : option string)
  | GetNodes
  | GetOfflineNodes
  | GetNode (n : NodeId)
  | PostNodeHeartbeat (n : NodeId)
  | PostNodeDrain (n : NodeId)
  | DeleteNodes (n : NodeId)
  | PostWorkers (n : NodeId) (managed_by : string)
  | GetWorkers
  | GetWorker (w : WorkerId)
  | PostStart (w : WorkerId) (j : JobId)
  | PostComplete (w : WorkerId) (j : JobId) (l : LeaseId) (exit_code : option Z)
  | PostFail (w : WorkerId) (j : JobId) (l : LeaseId) (exit_code : option Z)
  | PostConfirmCancel (w : WorkerId) (j : JobId) (l : LeaseId) (exit_code : option Z)
  | PostRenew (w : WorkerId) (l : LeaseId)
  | PostWorkerHeartbeat (w : WorkerId)
  | GetEvents
  | GetClusterHealth
  | GetClusterCapacity
  | GetClusterUtilization
  | PostApiKeys (label : string)
  | PostApiKeyRevoke (k : ApiKeyId)
  | GetApiKeyIssued (k : ApiKeyId).

(** What the request models accept (CreateJobRequest, CreateApiKeyRequest);
    anything else is answered 422. *)
Definition valid_request (r : route) : bool :=
  match r with
  | PostJobs c m v command =>
      (0 <? c) && (0 <? m) && (0 <=? v) &&
      match command with
      | None => true
      | Some parts => negb (bool_decide (parts = [])) && negb (existsb is_blank parts)
      end
  | PostApiKeys label => negb (bool_decide (label = EmptyString))
  | _ => true
  end.

(** [WorkerManagement(request.managed_by)] *)
Definition parse_management (s : string) : exn + WorkerManagement :=
  if bool_decide (s = "DASHBOARD"%string) then inr DASHBOARD
  else if bool_decide (s = "AGENT"%string) then inr AGENT
  else inl (ValueError "not a valid WorkerManagement").

(** The exceptions each route maps. *)
Definition job_missing (e : exn) : option Z :=
  match e with JobNotFoundError _ => Some 404 | _ => None end.
Definition cancel_conflict (e : exn) : option Z :=
  match e with InvalidJobTransition => Some 409 | _ => None end.
Definition node_missing (e : exn) : option Z :=
  match e with NodeNotFoundError _ => Some 404 | _ => None end.
Definition node_not_removable (e : exn) : option Z :=
  match e with NodeNotFoundError _ => Some 404 | NodeStillAliveError => Some 409 | _ => None end.
Definition worker_missing (e : exn) : option Z :=
  match e with WorkerNotFoundError _ => Some 404 | _ => None end.
Definition start_conflict (e : exn) : option Z :=
  match e with WorkerNotFoundError _ => Some 404 | WorkerJobMismatchError => Some 409 | _ => None end.
Definition report_conflict (e : exn) : option Z :=
  match e with
  | WorkerNotFoundError _ => Some 404
  | WorkerJobMismatchError => Some 409
  | NoActiveLeaseError _ | LeaseNotFoundError _ => Some 409
  | _ => None
  end.
Definition lease_conflict (e : exn) : option Z :=
  match e with NoActiveLeaseError _ | LeaseNotFoundError _ => Some 409 | _ => None end.

Section routes.
Context {E : Env}.

Definition ok (code : Z) (b : body) : prog response := mret (mkResponse code b).

(** [if x is None: raise HTTPException(404)] *)
Definition or_404 {A} (o : option A) : prog A :=
  match o with None => raise (HTTPException 404) | Some x => mret x end.

(** The lease of a worker that runs something. *)
Definition lease_if_running (w : WorkerId) (wk : worker) (t : TenantId) : prog (option lease) :=
  match w_running_job wk with
  | None => mret None
  | Some _ => get_lease_for_worker w t
  end.

Definition node_body (n : node) : prog response := now ← utc_now; ok 200 (NodeBody (view_node now n)).

Definition nodes_body (l : list node) : prog response :=
  vs ← load_each (λ n, now ← utc_now; mret (view_node now n)) l; ok 200 (NodesBody vs).

End routes.

(** src/app/presentation/routers/jobs.py *)
Module JobsRouter.
Section handlers.
Context {E : Env}.

Definition create_job (caller : api_key) (c m v : Z) (command : option (list string)) : prog response :=
  answering scope_denied (of_sum (authorize_job_creation (k_scopes caller) command)) ;;
  resources ← of_sum (new_resources c m v);
  j ← Services.create_job resources (k_tenant_id caller) command;
  ok 201 (JobCreatedBody (j_id j) (j_status j)).

Definition list_jobs (caller : api_key) : prog response :=
  l ← Http.list_jobs (k_tenant_id caller); ok 200 (JobsBody (view_job <$> l)).

Definition list_queued_jobs (caller : api_key) : prog response :=
  l ← Http.list_queued_jobs (k_tenant_id caller); ok 200 (JobsBody (view_job <$> l)).

Definition get_job (caller : api_key) (j : JobId) : prog response :=
  x ← answering job_missing (Http.get_job j (k_tenant_id caller)); ok 200 (JobBody (view_job x)).

Definition get_job_history (caller : api_key) (j : JobId) : prog response :=
  l ← Http.get_job_history j (k_tenant_id caller); ok 200 (EventsBody (view_event <$> l)).

Definition cancel_job (caller : api_key) (j : JobId) : prog response :=
  o ← answering cancel_conflict (Services.cancel_job j (k_tenant_id caller));
  x ← or_404 o; ok 200 (JobBody (view_job x)).

Definition retry_job (caller : api_key) (j : JobId) : prog response :=
  o ← Services.retry_job j (k_tenant_id caller);
  x ← or_404 o; ok 200 (JobBody (view_job x)).
End handlers.
End JobsRouter.

(** src/app/presentation/routers/nodes.py *)
Module NodesRouter.
Section handlers.
Context {E : Env}.

Definition create_node (caller : api_key) (c m v : Z) (name : option string) : prog response :=
  capacity ← of_sum (new_resources c m v);
  n ← Services.create_node capacity (k_tenant_id caller) name;
  ok 201 (NodeCreatedBody (n_id n)).

Definition list_nodes (caller : api_key) : prog response :=
  l ← Http.list_nodes (k_tenant_id caller); nodes_body l.

Definition list_offline_nodes (caller : api_key) : prog response :=
  l ← Services.list_offline_nodes (k_tenant_id caller); nodes_body l.

Definition get_node (caller : api_key) (n : NodeId) : prog response :=
  x ← answering node_missing (Services.get_node n (k_tenant_id caller)); node_body x.

Definition heartbeat_node (caller : api_key) (n : NodeId) : prog response :=
  o ← Services.heartbeat_node n (k_tenant_id caller); x ← or_404 o; node_body x.

Definition drain_node (caller : api_key) (n : NodeId) : prog response :=
  x ← answering node_missing (Services.drain_node n (k_tenant_id caller)); node_body x.

Definition remove_offline_node (caller : api_key) (n : NodeId) : prog response :=
  answering node_not_removable (Services.remove_offline_node n (k_tenant_id caller)) ;; ok 204 NoBody.
End handlers.
End NodesRouter.

(** src/app/presentation/routers/workers.py *)
Module WorkersRouter.
Section handlers.
Context {E : Env}.

Definition create_worker (caller : api_key) (n : NodeId) (managed_by : string) : prog response :=
  x ← answering node_missing (Services.get_node n (k_tenant_id caller));
  m ← of_sum (parse_management managed_by);
  w ← Services.create_worker x m;
  w' ← register_worker w;
  ok 201 (WorkerCreatedBody (w_id w') (w_status w')).

Definition list_workers (caller : api_key) : prog response :=
  l ← Http.list_workers (k_tenant_id caller); ok 200 (WorkersBody (summarize_worker <$> l)).

Definition get_worker (caller : api_key) (w : WorkerId) : prog response :=
  o ← Http.get_worker w (k_tenant_id caller);
  wk ← or_404 o;
  l ← lease_if_running w wk (k_tenant_id caller);
  ok 200 (WorkerBody (_build_worker_response wk l)).

Definition start_job (caller : api_key) (w : WorkerId) (j : JobId) : prog response :=
  wk ← answering start_conflict (Services.start_job w j (k_tenant_id caller));
  l ← lease_if_running w wk (k_tenant_id caller);
  ok 200 (WorkerBody (_build_worker_response wk l)).

Definition complete_job (caller : api_key) (w : WorkerId) (j : JobId) (l : LeaseId) (code : option Z) : prog response :=
  wk ← answering report_conflict (report_complete w j (k_tenant_id caller) l code);
  ok 200 (WorkerBody (_build_worker_response wk None)).

Definition fail_job (caller : api_key) (w : WorkerId) (j : JobId) (l : LeaseId) (code : option Z) : prog response :=
  wk ← answering report_conflict (report_fail w j (k_tenant_id caller) l code);
  ok 200 (WorkerBody (_build_worker_response wk None)).

Definition confirm_job_cancellation (caller : api_key) (w : WorkerId) (j : JobId) (l : LeaseId) (code : option Z)
    : prog response :=
  wk ← answering report_conflict (report_cancel w j (k_tenant_id caller) l code);
  ok 200 (WorkerBody (_build_worker_response wk None)).

Definition renew_lease (caller : api_key) (w : WorkerId) (l : LeaseId) : prog response :=
  o ← Http.get_worker w (k_tenant_id caller);
  wk ← or_404 o;
  answering lease_conflict (Services.renew_lease w l (k_tenant_id caller) DEFAULT_LEASE_DURATION) ;;
  l' ← lease_if_running w wk (k_tenant_id caller);
  ok 200 (WorkerBody (_build_worker_response wk l')).

Definition heartbeat_worker (caller : api_key) (w : WorkerId) : prog response :=
  wk ← answering worker_missing (worker_heartbeat w (k_tenant_id caller));
  ok 200 (WorkerCreatedBody (w_id wk) (w_status wk)).
End handlers.
End WorkersRouter.

(** src/app/presentation/routers/events.py and cluster.py *)
Module ClusterRouter.
Section handlers.
Context {E : Env}.

Definition list_events (caller : api_key) : prog response :=
  l ← Http.list_events (k_tenant_id caller); ok 200 (EventsBody (view_event <$> l)).
Definition get_cluster_health (caller : api_key) : prog response :=
  h ← cluster_health (k_tenant_id caller); ok 200 (HealthBody h).
Definition get_cluster_capacity (caller : api_key) : prog response :=
  c ← cluster_capacity (k_tenant_id caller); ok 200 (ResourcesBody c).
Definition get_cluster_utilization (caller : api_key) : prog response :=
  c ← cluster_utilization (k_tenant_id caller); ok 200 (ResourcesBody c).
End handlers.
End ClusterRouter.

(** src/app/presentation/routers/api_keys.py; the programs are in Keys.v. *)
Module ApiKeysRouter.
Section handlers.
Context {E : Env}.

Definition create_api_key (caller : api_key) (label : string) : prog response :=
  x ← post_api_key caller label;
  ok 201 (KeyCreatedBody (k_id (x.1)) (k_label (x.1)) (x.2)).
Definition revoke_api_key (caller : api_key) (k : ApiKeyId) : prog response :=
  post_revoke caller k ;; ok 204 NoBody.
Definition list_issued_api_keys (caller : api_key) (k : ApiKeyId) : prog response :=
  l ← get_issued caller k; ok 200 (KeysBody (view_key <$> l)).
End handlers.
End ApiKeysRouter.

Ltac handler_unfold :=
  unfold JobsRouter.create_job, JobsRouter.list_jobs, JobsRouter.list_queued_jobs, JobsRouter.get_job, JobsRouter.get_job_history,
    JobsRouter.cancel_job, JobsRouter.retry_job, NodesRouter.create_node, NodesRouter.list_nodes, NodesRouter.list_offline_nodes,
    NodesRouter.get_node, NodesRouter.heartbeat_node, NodesRouter.drain_node, NodesRouter.remove_offline_node,
    WorkersRouter.create_worker, WorkersRouter.list_workers, WorkersRouter.get_worker, WorkersRouter.start_job,
    WorkersRouter.complete_job, WorkersRouter.fail_job, WorkersRouter.confirm_job_cancellation, WorkersRouter.renew_lease,
    WorkersRouter.heartbeat_worker, ClusterRouter.list_events, ClusterRouter.get_cluster_health,
    ClusterRouter.get_cluster_capacity, ClusterRouter.get_cluster_utilization, ApiKeysRouter.create_api_key,
    ApiKeysRouter.revoke_api_key, ApiKeysRouter.list_issued_api_keys.

Section serve.
Context {E : Env}.

Definition handle (caller : api_key) (r : route) : prog response :=
  match r with
  | PostJobs c m v command => JobsRouter.create_job caller c m v command
  | GetJobs => JobsRouter.list_jobs caller
  | GetQueuedJobs => JobsRouter.list_queued_jobs caller
  | GetJob j => JobsRouter.get_job caller j
  | GetJobHistory j => JobsRouter.get_job_history caller j
  | PostJobCancel j => JobsRouter.cancel_job caller j
  | PostJobRetry j => JobsRouter.retry_job caller j
  | PostNodes c m v name => NodesRouter.create_node caller c m v name
  | GetNodes => NodesRouter.list_nodes caller
  | GetOfflineNodes => NodesRouter.list_offline_nodes caller
  | GetNode n => NodesRouter.get_node caller n
  | PostNodeHeartbeat n => NodesRouter.heartbeat_node caller n
  | PostNodeDrain n => NodesRouter.drain_node caller n
  | DeleteNodes n => NodesRouter.remove_offline_node caller n
  | PostWorkers n m => WorkersRouter.create_worker caller n m
  | GetWorkers => WorkersRouter.list_workers caller
  | GetWorker w => WorkersRouter.get_worker caller w
  | PostStart w j => WorkersRouter.start_job caller w j
  | PostComplete w j l code => WorkersRouter.complete_job caller w j l code
  | PostFail w j l code => WorkersRouter.fail_job caller w j l code
  | PostConfirmCancel w j l code => WorkersRouter.confirm_job_cancellation caller w j l code
  | PostRenew w l => WorkersRouter.renew_lease caller w l
  | PostWorkerHeartbeat w => WorkersRouter.heartbeat_worker caller w
  | GetEvents => ClusterRouter.list_events caller
  | GetClusterHealth => ClusterRouter.get_cluster_health caller
  | GetClusterCapacity => ClusterRouter.get_cluster_capacity caller
  | GetClusterUtilization => ClusterRouter.get_cluster_utilization caller
  | PostApiKeys label => ApiKeysRouter.create_api_key caller label
  | PostApiKeyRevoke k => ApiKeysRouter.revoke_api_key caller k
  | GetApiKeyIssued k => ApiKeysRouter.list_issued_api_keys caller k
  end.

(** The request model, then the handler. *)
Definition dispatch (caller : api_key) (r : route) : prog response :=
  if negb (valid_request r) then raise (HTTPException 422) else handle caller r.

(** An exception no route maps becomes a 500. *)
Definition error_response (e : exn) : response :=
  mkResponse (match e with HTTPException code => code | _ => 500 end) NoBody.

(** A request: authenticated first, its body validated, then handled. *)
Definition serve (authorization : option string) (r : route) : prog response :=
  try_except
    (caller ← require_api_key authorization; dispatch caller r)
    (λ e, Some (mret (error_response e))).

(** The dependencies of every router in their order: require_api_key, then
    require_rate_limit, whose clock reads [now]; then the rest of the request.  The
    answer carries the Retry-After header, if any. *)
Definition gateway (now : float) (authorization : option string) (rest : api_key → prog response) (L : limiter) (w : world)
    : limiter * world * (response * option Z) :=
  match require_api_key authorization w with
  | (w', inl e) => (L, w', (error_response e, None))
  | (w', inr caller) =>
      match require_rate_limit now (k_id caller) L with
      | (L', inl (TooManyRequests seconds)) => (L', w', (error_response (HTTPException 429), Some seconds))
      | (L', inl (Unmapped e)) => (L', w', (error_response e, None))
      | (L', inr _) =>
          match rest caller w' with
          | (w'', inr res) => (L', w'', (res, None))
          | (w'', inl e) => (L', w'', (error_response e, None))
          end
      end
  end.

(** The limiter only stands in the way: what it lets through is served, what it
    holds back has been authenticated and nothing more. *)
Lemma gateway_serve now auth r L w :
  let '(_, w', (res, _)) := gateway now auth (λ caller, dispatch caller r) L w in
  serve auth r w = (w', inr res) ∨ (∃ caller, require_api_key auth w = (w', inr caller)).
Proof.
  unfold gateway, serve, try_except, mbind, stM_bind.
  destruct (require_api_key auth w) as [w1 [e|caller]]; [by left|].
  destruct (require_rate_limit now (k_id caller) L) as [L' [[s|e]|[]]]; [right; by exists caller..|].
  destruct (dispatch caller r w1) as [w2 [e|res]]; by left.
Qed.
End serve.
