(* ===== verification/Agent.v ===== *)
(** The standalone worker agent (src/scripts/run_agent.py): the process that polls
    the API for the job of one worker, runs it on its own machine and reports the
    outcome.

    What the agent meets is a parameter, the class [Site]: the other end of its HTTP
    client (a state and what one exchange does to it), the monotonic clock, the
    random numbers, Ctrl+C, and the machine commands run on.  The heartbeat thread
    runs beside everything else: before each exchange of another thread it takes as
    many turns as the site decides.  The thread that renews the lease of a running
    job shares with the thread that waits for the command two events only; as in
    WorkerLoop.v it takes all its turns first, and the command sees at each of its
    effects the events as they were after the turns that were over by then. *)
From Stdlib Require Import Strings.Ascii.
From S2P Require Import Prelude Values Job Float64 FloatOrder RateLimiter Execution ApiKey Worker Db Prog Http.
From Stdlib Require Import Floats.SpecFloat.
Local Open Scope Z_scope.

(** * float(s) *)

Definition is_digit (c : chr) : bool := (48 <=? Ascii.N_of_ascii c)%N && (Ascii.N_of_ascii c <=? 57)%N.
Definition digit_value (c : chr) : Z := Z.of_N (Ascii.N_of_ascii c) - 48.

(** The digits at the head of a string, with single underscores between them:
    their value, how many there are, what follows. *)
Fixpoint scan_digits (l : list chr) (acc : Z) (n : nat) : Z * nat * list chr :=
  match l with
  | [] => (acc, n, [])
  | c :: l' =>
      if is_digit c then scan_digits l' (10 * acc + digit_value c) (S n)
      else if bool_decide (c = "_"%char) && bool_decide (n ≠ 0%nat) && match l' with c' :: _ => is_digit c' | [] => false end
      then scan_digits l' acc n
      else (acc, n, l)
  end.

Definition scan_sign (l : list chr) : bool * list chr :=
  match l with
  | "-"%char :: l' => (true, l')
  | "+"%char :: l' => (false, l')
  | _ => (false, l)
  end.

Definition to_lower (c : chr) : chr :=
  if (65 <=? Ascii.N_of_ascii c)%N && (Ascii.N_of_ascii c <=? 90)%N then Ascii.ascii_of_N (Ascii.N_of_ascii c + 32) else c.

(** [m * 10 ^ e], correctly rounded. *)
Definition decimal (m e : Z) : float :=
  if 0 <=? e then binary_normalize 53 1024 (m * 10 ^ e) 0 false
  else SFdiv 53 1024 (exact_of_Z m) (exact_of_Z (10 ^ (- e))).

(** An exponent, if one follows; [None] for text that is none. *)
Definition scan_exponent (l : list chr) : option Z :=
  match l with
  | [] => Some 0
  | c :: l' =>
      if bool_decide (to_lower c = "e"%char) then
        let '(neg, l2) := scan_sign l' in
        match scan_digits l2 0 0 with
        | (v, S _, []) => Some (if neg : bool then - v else v)
        | _ => None
        end
      else None
  end.

Definition unsigned_float (l : list chr) : option float :=
  let low := String.string_of_list_ascii (to_lower <$> l) in
  if bool_decide (low = "inf"%string) || bool_decide (low = "infinity"%string) then Some (S754_infinity false)
  else if bool_decide (low = "nan"%string) then Some S754_nan
  else
    let '(ip, ni, rest) := scan_digits l 0 0 in
    let '(m, nf, rest') :=
      match rest with
      | "."%char :: r => match scan_digits r 0 0 with (fp, nf, r') => (ip * 10 ^ Z.of_nat nf + fp, nf, r') end
      | _ => (ip, 0%nat, rest)
      end in
    if bool_decide (ni = 0%nat) && bool_decide (nf = 0%nat) then None
    else match scan_exponent rest' with Some e => Some (decimal m (e - Z.of_nat nf)) | None => None end.

(** [float(raw)]: [None] for ValueError *)
Definition parse_float (raw : string) : option float :=
  let '(neg, l) := scan_sign (String.list_ascii_of_string (strip raw)) in
  match unsigned_float l with
  | Some x => Some (if neg : bool then SFopp x else x)
  | None => None
  end.

(** * Constants *)

Definition float_literal (m : Z) (e : Z) : float := decimal m e.

Definition POLL_INTERVAL_SECONDS : float := float_literal 5 0.
Definition HEARTBEAT_INTERVAL_SECONDS : float := float_literal 5 0.
Definition RENEWAL_INTERVAL_SECONDS : float := fdiv (total_seconds DEFAULT_LEASE_DURATION) (float_literal 3 0).
Definition BACKOFF_BASE_SECONDS : float := float_literal 1 0.
Definition BACKOFF_CAP_SECONDS : float := float_literal 30 0.
Definition MAX_BACKOFF_EXPONENT : nat := 10.
Definition INTERVAL_JITTER_FRACTION : float := float_literal 2 (-1).
Definition LEASE_AGE_MARGIN_SECONDS : float := POLL_INTERVAL_SECONDS.
Definition LEASE_TRUST_WINDOW_SECONDS : float := fsub (total_seconds DEFAULT_LEASE_DURATION) LEASE_AGE_MARGIN_SECONDS.

Definition STALE_VIEW_STATUS_CODES (code : Z) : bool := (code =? 404) || (code =? 409).

(** * The HTTP client *)

Inductive outcome_path := PathCancel | PathComplete | PathFail.

(** What the agent sends.  A worker that runs something is reported with the
    identifier of its lease, or with none. *)
Inductive request :=
  | RegisterWorker (n : NodeId)
  | HeartbeatWorker (w : WorkerId)
  | HeartbeatNode (n : NodeId)
  | PollWorker (w : WorkerId)
  | StartJob (w : WorkerId) (j : JobId)
  | RenewLease (w : WorkerId) (l : option LeaseId)
  | ReportOutcome (p : outcome_path) (w : WorkerId) (j : JobId) (exit_code : option Z) (l : option LeaseId).

(** What comes back: a response with its Retry-After header; a failure to get
    one; another httpx.HTTPError. *)
Inductive reply :=
  | Replied (status_code : Z) (retry_after : option string) (b : body)
  | TransportFailure
  | OtherFailure.

(** The exceptions under way.  [Malformed] stands for what reading an unexpected
    body raises, [SleepOverflow] for the OverflowError of time.sleep;
    [Unfinished] marks a loop that was cut off. *)
Inductive agent_exn :=
  | HTTPStatusError (status_code : Z) (retry_after : option string)
  | TransportError
  | OtherHTTPError
  | AgentError
  | Malformed
  | SleepOverflow
  | ExecutionFault (e : os_error)
  | KeyboardInterrupted
  | Unfinished.

Definition is_http_error (e : agent_exn) : bool :=
  match e with HTTPStatusError _ _ | TransportError | OtherHTTPError => true | _ => false end.

Definition is_transient (e : agent_exn) : bool :=
  match e with
  | HTTPStatusError code _ => (code =? 429) || (500 <=? code)
  | TransportError => true
  | _ => false
  end.

Definition is_stale_view (e : agent_exn) : bool :=
  match e with HTTPStatusError code _ => STALE_VIEW_STATUS_CODES code | _ => false end.

Definition retry_after_seconds (e : agent_exn) : option float :=
  match e with
  | HTTPStatusError _ (Some raw) =>
      match parse_float raw with
      | Some value => if fle fzero value then Some value else None
      | None => None
      end
  | _ => None
  end.

(** Which thread sent. *)
Inductive thread := MainThread | RenewalThread | HeartbeatThread.

(** The log, latest first: exchanges, pauses of the main thread and of the renewal
    thread, a lease given up, an execution that returned. *)
Inductive action :=
  | Sent (t : thread) (r : request) (answer : reply)
  | Slept (d : float)
  | Waited (d : float)
  | LeaseGivenUp
  | Ran (r : JobExecutionResult).

Class Site := {
  peer : Type;
  send : nat → request → peer → peer * reply;
  agent_clock : nat → float;
  random_draw : nat → float;
  ctrl_c : nat → bool;
  beats : nat → nat;
  agent_host :: Host;
  random_unit n : canon (random_draw n) ∧ fval (random_draw n) < fval fone;
}.

(** The state: [ag_worker] is the variable [worker_id] of [main], which the
    heartbeat thread reads while it runs. *)
Record agent `{Site} := mkAgent {
  ag_step : nat;
  ag_peer : peer;
  ag_node : NodeId;
  ag_worker : option WorkerId;
  ag_beating : bool;
  ag_log : list action;
}.

Abbreviation agM := (stM agent agent_exn).

Section agent.
Context `{Site}.

Definition stepped (s : agent) : agent :=
  mkAgent _ (S (ag_step s)) (ag_peer s) (ag_node s) (ag_worker s) (ag_beating s) (ag_log s).
Definition noted (a : action) (s : agent) : agent :=
  mkAgent _ (S (ag_step s)) (ag_peer s) (ag_node s) (ag_worker s) (ag_beating s) (a :: ag_log s).
Definition set_worker (w : WorkerId) (s : agent) : agent :=
  mkAgent _ (ag_step s) (ag_peer s) (ag_node s) (Some w) (ag_beating s) (ag_log s).
Definition set_node (n : NodeId) (s : agent) : agent :=
  mkAgent _ (ag_step s) (ag_peer s) n (ag_worker s) (ag_beating s) (ag_log s).
Definition set_beating (b : bool) (s : agent) : agent :=
  mkAgent _ (ag_step s) (ag_peer s) (ag_node s) (ag_worker s) b (ag_log s).

Definition time_monotonic : agM float := λ s, (stepped s, inr (agent_clock (ag_step s))).
Definition random : agM float := λ s, (stepped s, inr (random_draw (ag_step s))).
Definition note (a : action) : agM unit := λ s, (noted a s, inr tt).

(** random.Random.uniform *)
Definition uniform (a b : float) : agM float := r ← random; mret (fadd a (fmul (fsub b a) r)).

(** client.get and client.post *)
Definition exchange (t : thread) (r : request) : agM (Z * option string * body) := λ s,
  let '(p, answer) := send (ag_step s) r (ag_peer s) in
  let s' := mkAgent _ (S (ag_step s)) p (ag_node s) (ag_worker s) (ag_beating s) (Sent t r answer :: ag_log s) in
  match answer with
  | Replied code retry b => (s', inr (code, retry, b))
  | TransportFailure => (s', inl TransportError)
  | OtherFailure => (s', inl OtherHTTPError)
  end.

(** Response.raise_for_status *)
Definition raise_for_status (x : Z * option string * body) : agM unit :=
  let '(code, retry, _) := x in
  if (200 <=? code) && (code <? 300) then mret tt else raise (HTTPStatusError code retry).

(** Requests whose answer is only checked. *)
Definition post_checked (t : thread) (r : request) : agM unit := x ← exchange t r; raise_for_status x.

(** jittered_interval_seconds *)
Definition jittered_interval_seconds (base : float) : agM float :=
  let spread := fmul base INTERVAL_JITTER_FRACTION in uniform (fsub base spread) (fadd base spread).

(** One turn of keep_heartbeating *)
Definition heartbeat_turn : agM unit :=
  jittered_interval_seconds HEARTBEAT_INTERVAL_SECONDS ;;
  w ← gets ag_worker;
  n ← gets ag_node;
  match w with
  | None => mret tt
  | Some w =>
      try_except (post_checked HeartbeatThread (HeartbeatWorker w) ;; post_checked HeartbeatThread (HeartbeatNode n))
        (λ e, if is_http_error e then Some (mret tt) else None)
  end.

(** The turns of the heartbeat thread before the next exchange of another. *)
Fixpoint heartbeats (turns : nat) : agM unit :=
  match turns with
  | O => mret tt
  | S turns => heartbeat_turn ;; heartbeats turns
  end.

Definition background : agM unit :=
  on ← gets ag_beating;
  n ← gets (λ s, beats (ag_step s));
  if on : bool then heartbeats n else mret tt.

(** The main thread, which Ctrl+C interrupts. *)
Definition interruptible {A} (m : agM A) : agM A := λ s,
  match m s with
  | (s', r) => (s', if ctrl_c (ag_step s) then inl KeyboardInterrupted else r)
  end.

Definition request_main (r : request) : agM (Z * option string * body) :=
  background ;; interruptible (exchange MainThread r).

(** time.sleep counts in nanoseconds, in 64 bits *)
Definition sleepable (d : float) : bool := flt (fmul d (float_literal 1 9)) (float_literal (2 ^ 63) 0).
Definition sleep (d : float) : agM unit :=
  if sleepable d then interruptible (note (Slept d)) else raise SleepOverflow.

(** [retry_after or 0.0] *)
Definition or_zero (x : option float) : float :=
  match x with
  | Some v => if SFeqb v fzero then fzero else v
  | None => fzero
  end.

Definition backoff_ceiling (attempt : nat) : float :=
  fmin BACKOFF_CAP_SECONDS
    (fmul BACKOFF_BASE_SECONDS (float_literal (2 ^ Z.of_nat (min attempt MAX_BACKOFF_EXPONENT)) 0)).

Definition backoff_delay_seconds (attempt : nat) (retry_after : option float) : agM float :=
  jittered ← uniform fzero (backoff_ceiling attempt);
  mret (fmax jittered (or_zero retry_after)).

(** call_with_retry: [fuel] attempts at most *)
Fixpoint call_with_retry {A} (fuel : nat) (attempt : nat) (operation : agM A) : agM A :=
  match fuel with
  | O => raise Unfinished
  | S fuel =>
      try_except operation (λ e,
        if negb (is_http_error e) then None
        else if negb (is_transient e) then Some (raise e)
        else Some (delay ← backoff_delay_seconds attempt (retry_after_seconds e);
                   sleep delay ;;
                   call_with_retry fuel (S attempt) operation))
  end.

(** * Operations *)

Definition register_worker (n : NodeId) : agM WorkerId :=
  x ← request_main (RegisterWorker n);
  raise_for_status x ;;
  match x.2 with
  | WorkerCreatedBody id _ => mret id
  | _ => raise Malformed
  end.

Definition register_with_retry (fuel : nat) (n : NodeId) : agM WorkerId :=
  try_except (call_with_retry fuel 0 (register_worker n))
    (λ e, match e with HTTPStatusError _ _ => Some (raise AgentError) | _ => None end).

Definition heartbeat_worker (w : WorkerId) : agM unit := x ← request_main (HeartbeatWorker w); raise_for_status x.
Definition heartbeat_node (n : NodeId) : agM unit := x ← request_main (HeartbeatNode n); raise_for_status x.

(** The worker's running job, as the response shows it. *)
Definition get_worker (w : WorkerId) : agM (option running_job_view) :=
  x ← request_main (PollWorker w);
  raise_for_status x ;;
  match x.2 with
  | WorkerBody v => mret (wv_running_job v)
  | _ => raise Malformed
  end.

Definition start_job (w : WorkerId) (j : JobId) : agM unit := x ← request_main (StartJob w j); raise_for_status x.

(** renew_lease, called by the renewal thread *)
Definition renew_lease (w : WorkerId) (l : option LeaseId) : agM (bool * option JobStatus) :=
  background ;;
  x ← exchange RenewalThread (RenewLease w l);
  if x.1.1 =? 409 then mret (false, None) else
  raise_for_status x ;;
  match x.2 with
  | WorkerBody v => mret (true, rv_status <$> wv_running_job v)
  | _ => raise Malformed
  end.

Definition path_of (r : JobExecutionResult) : outcome_path :=
  if cancelled r then PathCancel else if succeeded r then PathComplete else PathFail.

(** post_outcome, and report_outcome around it *)
Definition post_outcome (w : WorkerId) (j : JobId) (l : option LeaseId) (r : JobExecutionResult) : agM Z :=
  x ← request_main (ReportOutcome (path_of r) w j (exit_code r) l);
  (if x.1.1 =? 409 then mret tt else raise_for_status x) ;;
  mret (x.1.1).

Definition report_outcome (fuel : nat) (w : WorkerId) (j : JobId) (l : option LeaseId) (r : JobExecutionResult) : agM Z :=
  call_with_retry fuel 0 (post_outcome w j l r).

(** * Running a job *)

(** keep_lease_alive: the local variables of the thread, and the event it sets
    when a cancellation is requested. *)
Record renewal := mkRenewal {
  last_confirmed_at : float;
  rn_wait : float;
  rn_attempt : nat;
  cancel_set : bool;
}.

(** How a turn ends: the thread goes on, gives the lease up, or dies of an
    exception nobody catches. *)
Inductive turn := Go (v : renewal) | GiveUp | Die.

Definition renewal_turn (w : WorkerId) (l : option LeaseId) (v : renewal) : agM turn :=
  note (Waited (rn_wait v)) ;;
  attempted_at ← time_monotonic;
  r ← try_except (x ← renew_lease w l; mret (inr x)) (λ e, Some (mret (inl e)));
  match r with
  | inl e =>
      if negb (is_http_error e) then mret Die else
      now ← time_monotonic;
      let trust_deadline := fadd (last_confirmed_at v) LEASE_TRUST_WINDOW_SECONDS in
      if negb (is_transient e) || fle trust_deadline now then note LeaseGivenUp ;; mret GiveUp
      else
        delay ← backoff_delay_seconds (rn_attempt v) (retry_after_seconds e);
        mret (Go (mkRenewal (last_confirmed_at v) (fmin delay (fsub trust_deadline now)) (S (rn_attempt v)) (cancel_set v)))
  | inr (lease_ok, job_status) =>
      if negb lease_ok then note LeaseGivenUp ;; mret GiveUp
      else mret (Go (mkRenewal attempted_at RENEWAL_INTERVAL_SECONDS 0
                      (cancel_set v || bool_decide (job_status = Some CANCELLING))))
  end.

(** The events after each turn: cancel_event and lost_lease *)
Fixpoint keep_lease_alive (turns : nat) (w : WorkerId) (l : option LeaseId) (v : renewal) : agM (list (bool * bool)) :=
  match turns with
  | O => mret []
  | S turns =>
      o ← renewal_turn w l v;
      match o with
      | Die => mret []
      | GiveUp => mret [(cancel_set v, true)]
      | Go v' => rest ← keep_lease_alive turns w l v'; mret ((cancel_set v', false) :: rest)
      end
  end.

(** An event as the execution sees it at its effect [i] *)
Definition event_at (n : nat) (f : bool * bool → bool) (events : list (bool * bool)) (i : nat) : bool :=
  existsb f (take (renewals_seen n i) events).

(** JobExecutionService().execute *)
Definition run_command (command : option (list string)) (timeout : timedelta) (events : list (bool * bool))
    : agM JobExecutionResult := λ s,
  let n := ag_step s in
  match (execute (H := os_at n) DEFAULT_TERMINATION_GRACE_PERIOD DEFAULT_POLL_INTERVAL (S (overdue_from n timeout))
           command timeout (Some (event_at n fst events)) (Some (event_at n snd events)) os_start).2 with
  | inr r => (noted (Ran r) s, inr r)
  | inl (OSErrorRaised e) => (stepped s, inl (ExecutionFault e))
  | inl KeyboardInterrupt => (stepped s, inl KeyboardInterrupted)
  | inl OutOfFuel => (stepped s, inl Unfinished)
  end.

Definition run_job (fuel : nat) (w : WorkerId) (job : running_job_view) : agM unit :=
  let lease_id := (λ l, l.1.1) <$> rv_lease job in
  start_job w (rv_id job) ;;
  turns ← gets (λ s, renewals (ag_step s));
  started_at ← time_monotonic;
  events ← keep_lease_alive turns w lease_id (mkRenewal started_at RENEWAL_INTERVAL_SECONDS 0 false);
  result ← run_command (rv_command job) (rv_execution_timeout job) events;
  if lease_lost result || existsb snd events then mret tt
  else report_outcome fuel w (rv_id job) lease_id result ;; mret tt.

(** * main *)

(** One turn of the poll loop.  [worker_id] is read from the variable. *)
Definition poll_turn (fuel : nat) : agM unit :=
  w ← gets ag_worker;
  n ← gets ag_node;
  match w with
  | None => mret tt
  | Some w =>
      polled ← try_except (x ← call_with_retry fuel 0 (get_worker w); mret (Some x))
        (λ e, match e with
              | HTTPStatusError code _ =>
                  if negb (code =? 404) then Some (raise e)
                  else Some (w' ← register_with_retry fuel n; modify (set_worker w') ;; mret None)
              | _ => None
              end);
      match polled with
      | None => mret tt
      | Some None => d ← jittered_interval_seconds POLL_INTERVAL_SECONDS; sleep d
      | Some (Some job) =>
          try_except (run_job fuel w job)
            (λ e, if negb (is_http_error e) then None
                  else if negb (is_transient e || is_stale_view e) then Some (raise e)
                  else Some (d ← jittered_interval_seconds POLL_INTERVAL_SECONDS; sleep d))
      end
  end.

(** [turns] turns of the loop, which has no end of its own *)
Fixpoint poll_loop (fuel turns : nat) : agM unit :=
  match turns with
  | O => raise Unfinished
  | S turns => poll_turn fuel ;; poll_loop fuel turns
  end.

(** The body of the outer try *)
Definition work (fuel turns : nat) (w : WorkerId) (n : NodeId) : agM unit :=
  call_with_retry fuel 0 (heartbeat_worker w) ;;
  call_with_retry fuel 0 (heartbeat_node n) ;;
  poll_loop fuel turns.

(** [finally: stop_heartbeating.set()] *)
Definition stop_heartbeating {A} (m : agM A) : agM A := λ s,
  match m s with (s', r) => (set_beating false s', r) end.

(** main, with the node named on the command line and the key found in the
    environment: the exit status of the process.  Exceptions it does not catch
    escape. *)
Definition main (fuel turns : nat) (argv : list NodeId) (api_key : option string) : agM Z :=
  match argv with
  | [node_id] =>
      if bool_decide (default EmptyString api_key = EmptyString) then mret 1 else
      registered ← try_except (w ← register_with_retry fuel node_id; mret (inr w))
        (λ e, match e with KeyboardInterrupted => Some (mret (inl 0)) | AgentError => Some (mret (inl 1)) | _ => None end);
      match registered with
      | inl status => mret status
      | inr w =>
          modify (λ s, set_beating true (set_worker w (set_node node_id s))) ;;
          stop_heartbeating
            (try_except (work fuel turns w node_id ;; mret 0)
              (λ e, match e with
                    | KeyboardInterrupted => Some (mret 0)
                    | AgentError | HTTPStatusError _ _ => Some (mret 1)
                    | _ => None
                    end))
      end
  | _ => mret 1
  end.
End agent.
