(* ===== verification/AgentRun.v ===== *)
(** What the standalone agent guarantees, whatever it meets: how long it pauses,
    when it reports and what, and what stops it. *)
From S2P Require Import Prelude Values Job Float64 FloatOrder RateLimiter Execution ApiKey Worker Db Prog Http Agent.
From Stdlib Require Import Floats.SpecFloat.
Local Open Scope Z_scope.

(** * Pauses *)

Lemma val_mul_one V : val_mul V one = V.
Proof. unfold val_mul. rewrite one_pow. by apply Z.div_mul. Qed.

(** A part of an interval. *)
Lemma part_bounds w r :
  reading w → canon r → fval r < one → canon (fmul w r) ∧ 0 <= fval (fmul w r) <= fval w.
Proof.
  intros [Hw Hwf] Hr Hr1. pose proof (fval_nonneg w). pose proof (fval_nonneg r). pose proof one_pos.
  pose proof (fmul_val w r Hw Hr Hwf ltac:(lia)) as Hm. split; [apply Hm|]. split; [apply fval_nonneg|].
  eapply rounds_le_canon; [exact Hm|done|apply Z.div_pos; [nia|done]|].
  rewrite <- (val_mul_one (fval w)) at 2. apply val_mul_mono; lia.
Qed.

Lemma sub_zero_val x : reading x → reading (fsub x fzero) ∧ fval (fsub x fzero) = fval x.
Proof.
  intros [Hx Hxf]. pose proof (fval_nonneg x).
  destruct (fsub_val x fzero Hx ltac:(done) Hxf ltac:(done)) as [Hc Hv]. change (fval fzero) with 0 in Hv.
  rewrite Z.sub_0_r, fval_exact in Hv by done. pose proof (fval_bound x Hx). rewrite Z.min_l in Hv by done.
  split; [split; [done|lia]|done].
Qed.

Lemma add_zero_val x : canon x → canon (fadd fzero x) ∧ fval (fadd fzero x) = fval x.
Proof.
  intros Hx. destruct (fadd_val fzero x ltac:(done) Hx) as [Hc Hv]. split; [done|].
  change (fval fzero) with 0 in Hv. rewrite Z.add_0_l, fval_exact in Hv by done. pose proof (fval_bound x Hx). lia.
Qed.

(** The ceiling doubles from one second up to thirty. *)
Lemma backoff_ceiling_val attempt :
  reading (backoff_ceiling attempt) ∧ fval (backoff_ceiling attempt) = Z.min 30 (2 ^ Z.of_nat attempt) * one.
Proof.
  assert (∀ k, (k ≤ 10)%nat → reading (backoff_ceiling k) ∧ fval (backoff_ceiling k) = Z.min 30 (2 ^ Z.of_nat k) * one) as Hsmall.
  { intros k Hk. do 11 (destruct k as [|k]; [by vm_compute|]). lia. }
  destruct (decide (attempt ≤ 10)%nat) as [Hle|Hgt]; [by apply Hsmall|].
  assert (backoff_ceiling attempt = backoff_ceiling 10) as ->.
  { unfold backoff_ceiling, MAX_BACKOFF_EXPONENT. by rewrite Nat.min_r by lia. }
  destruct (Hsmall 10%nat ltac:(lia)) as [Hr Hv]. split; [done|]. rewrite Hv. f_equal.
  assert (2 ^ 10 <= 2 ^ Z.of_nat attempt) by (apply Z.pow_le_mono_r; lia). lia.
Qed.

(** Seconds time.sleep accepts. *)
Lemma sleepable_small d : canon d → fval d <= 60 * one → sleepable d = true.
Proof.
  intros Hd Hle. unfold sleepable. assert (reading (float_literal 1 9) ∧ reading (float_literal 60 0) ∧
    fval (float_literal 60 0) = 60 * one ∧ canon (float_literal (2 ^ 63) 0)) as (HG & H60 & E60 & Hmax) by (by vm_compute).
  pose proof one_pos. assert (60 * one < INF) as H60f by (rewrite <- E60; apply H60).
  pose proof (fmul_val d (float_literal 1 9) Hd (proj1 HG) ltac:(lia) (proj2 HG)) as Hm.
  pose proof (fmul_val (float_literal 60 0) (float_literal 1 9) (proj1 H60) (proj1 HG) (proj2 H60) (proj2 HG)) as Hm'.
  rewrite flt_val by (done || apply Hm). apply Z.ltb_lt. pose proof (fval_nonneg d). pose proof (fval_nonneg (float_literal 1 9)).
  eapply Z.le_lt_trans; [eapply rounds_le; [exact Hm|exact Hm'|apply Z.div_pos; [nia|done]|]|by vm_compute].
  apply val_mul_mono; lia.
Qed.

Section pauses.
Context `{Site}.

Lemma uniform_from_zero hi s :
  reading hi → ∃ d, uniform fzero hi s = (stepped s, inr d) ∧ canon d ∧ 0 <= fval d <= fval hi.
Proof.
  intros Hhi. destruct (random_unit (ag_step s)) as [Hrc Hr1]. destruct (sub_zero_val hi Hhi) as [Hw Ew].
  destruct (part_bounds _ _ Hw Hrc Hr1) as [Hc Hb]. destruct (add_zero_val _ Hc) as [Hc' Ev].
  eexists. split; [done|]. split; [done|]. rewrite Ev. lia.
Qed.

Lemma jittered_interval_val base s :
  base = POLL_INTERVAL_SECONDS →
  ∃ d, jittered_interval_seconds base s = (stepped s, inr d) ∧ canon d ∧ 4 * one <= fval d <= 6 * one.
Proof.
  intros ->. destruct (random_unit (ag_step s)) as [Hrc Hr1].
  set (spread := fmul POLL_INTERVAL_SECONDS INTERVAL_JITTER_FRACTION).
  set (lo := fsub POLL_INTERVAL_SECONDS spread). set (w := fsub (fadd POLL_INTERVAL_SECONDS spread) lo).
  assert (canon lo ∧ fval lo = 4 * one ∧ reading w ∧ canon (fadd lo w) ∧ fval (fadd lo w) = 6 * one)
    as (Hlo & Elo & Hw & Hs & Es) by (by vm_compute).
  destruct (part_bounds w (random_draw (ag_step s)) Hw Hrc Hr1) as [Hpc Hpb].
  eexists. split; [done|]. fold spread lo w. pose proof (fadd_val lo _ Hlo Hpc) as Ha.
  split; [apply Ha|]. split.
  - rewrite <- Elo. eapply rounds_ge_canon; [exact Ha|done|lia].
  - rewrite <- Es. eapply rounds_le; [exact Ha|apply fadd_val; [done|apply Hw]|pose proof (fval_nonneg lo); lia|lia].
Qed.

Lemma backoff_delay_val attempt ra s :
  ∃ j, backoff_delay_seconds attempt ra s = (stepped s, inr (fmax j (or_zero ra))) ∧
    canon j ∧ 0 <= fval j <= Z.min 30 (2 ^ Z.of_nat attempt) * one.
Proof.
  destruct (backoff_ceiling_val attempt) as [Hc Ec].
  destruct (uniform_from_zero (backoff_ceiling attempt) s Hc) as (j & Hj & Hjc & Hjb).
  exists j. unfold backoff_delay_seconds, mbind, stM_bind. rewrite Hj. split; [done|]. split; [done|]. by rewrite <- Ec.
Qed.
End pauses.

(** Pauses are bounded.  The delay before retry number [attempt] is never
    shorter than the Retry-After the server asked for; and it either is that
    Retry-After or lies between nothing and [2 ^ attempt] seconds, thirty at most,
    whatever the random draw. *)
Theorem backoff_bounds `{Site} attempt retry_after s :
  ∃ d, backoff_delay_seconds attempt retry_after s = (stepped s, inr d) ∧
    flt d (or_zero retry_after) = false ∧
    (d = or_zero retry_after ∨ canon d ∧ 0 <= fval d <= Z.min 30 (2 ^ Z.of_nat attempt) * fval fone).
Proof.
  destruct (backoff_delay_val attempt retry_after s) as (j & Hj & Hjc & Hjb). eexists. split; [exact Hj|].
  unfold fmax. destruct (flt j (or_zero retry_after)) eqn:E; [split; [apply flt_irrefl|by left]|]. split; [done|by right].
Qed.

(** * What a run adds to the log *)

Section log.
Context `{Site}.

(** The log is [L0] and then only actions in [P]. *)
Definition adds (L0 : list action) (P : action → Prop) (s : agent) : Prop :=
  ∃ l, ag_log s = l ++ L0 ∧ Forall P l.

Lemma adds_start P s : adds (ag_log s) P s.
Proof. exists []. by split; [|constructor]. Qed.

Lemma adds_mono L0 (P P' : action → Prop) s : (∀ a, P a → P' a) → adds L0 P s → adds L0 P' s.
Proof. intros HP (l & E & Hl). exists l. split; [done|]. by eapply Forall_impl. Qed.

Lemma adds_noted L0 (P : action → Prop) a s : P a → adds L0 P s → adds L0 P (noted a s).
Proof. intros Ha (l & E & Hl). exists (a :: l). cbn. rewrite E. by split; [|constructor]. Qed.

(** The heartbeat thread only sends heartbeats. *)
Definition beat (a : action) : Prop :=
  match a with
  | Sent HeartbeatThread (HeartbeatWorker _) _ | Sent HeartbeatThread (HeartbeatNode _) _ => True
  | _ => False
  end.

Section adds.
Context (L0 : list action) (P : action → Prop) (Hbeat : ∀ a, beat a → P a).

Lemma exchange_adds t r : (∀ ans, P (Sent t r ans)) → preserves (adds L0 P) (exchange t r).
Proof using.
  intros HP s (l & E & Hl). unfold exchange. destruct (send (ag_step s) r (ag_peer s)) as [p ans].
  assert (adds L0 P (mkAgent _ (S (ag_step s)) p (ag_node s) (ag_worker s) (ag_beating s) (Sent t r ans :: ag_log s))) as Ha.
  { exists (Sent t r ans :: l). cbn. rewrite E. split; [done|]. by constructor. }
  by destruct ans.
Qed.

Lemma raise_for_status_adds x : preserves (adds L0 P) (raise_for_status x).
Proof using. destruct x as [[code ra] b]. unfold raise_for_status. destruct (_ && _); by intros s Hs. Qed.

Lemma note_adds a : P a → preserves (adds L0 P) (note a).
Proof using. intros Ha s Hs. by apply adds_noted. Qed.

Lemma clock_adds : preserves (adds L0 P) time_monotonic.
Proof using. by intros s Hs. Qed.

Lemma jittered_adds base : preserves (adds L0 P) (jittered_interval_seconds base).
Proof using. by intros s Hs. Qed.

Lemma backoff_adds attempt ra : preserves (adds L0 P) (backoff_delay_seconds attempt ra).
Proof using. by intros s Hs. Qed.

Lemma heartbeats_adds n : preserves (adds L0 P) (heartbeats n).
Proof using All.
  induction n as [|n IH]; [by intros s Hs|]. cbn. apply preserves_bind; [|done]. unfold heartbeat_turn, post_checked.
  apply preserves_bind; [apply jittered_adds|intros _]. apply preserves_bind; [apply preserves_gets|intros [w|]].
  2:{ apply preserves_bind; [apply preserves_gets|intros; apply preserves_ret]. }
  apply preserves_bind; [apply preserves_gets|intros nid]. apply preserves_try.
  - apply preserves_bind; [|intros _]; (apply preserves_bind; [apply exchange_adds; intros; by apply Hbeat|intros; apply raise_for_status_adds]).
  - intros e k. destruct (is_http_error e); [|done]. intros [= <-]. apply preserves_ret.
Qed.

Lemma background_adds : preserves (adds L0 P) background.
Proof using All.
  unfold background. apply preserves_bind; [apply preserves_gets|intros on]. apply preserves_bind; [apply preserves_gets|intros n].
  destruct on; [apply heartbeats_adds|apply preserves_ret].
Qed.

Lemma interruptible_adds {A} (m : agM A) : preserves (adds L0 P) m → preserves (adds L0 P) (interruptible m).
Proof using.
  intros Hm s Hs. specialize (Hm s Hs). unfold interruptible. destruct (m s) as [s' r].
  destruct (ctrl_c (ag_step s)); by destruct r.
Qed.

Lemma request_main_adds r : (∀ ans, P (Sent MainThread r ans)) → preserves (adds L0 P) (request_main r).
Proof using All.
  intros HP. apply preserves_bind; [apply background_adds|intros _]. by apply interruptible_adds, exchange_adds.
Qed.

Lemma sleep_adds d : P (Slept d) → preserves (adds L0 P) (sleep d).
Proof using.
  intros Hd. unfold sleep. destruct (sleepable d); [by apply interruptible_adds, note_adds|apply preserves_raise].
Qed.

Lemma call_with_retry_adds {A} fuel attempt (op : agM A) :
  (∀ d, P (Slept d)) → preserves (adds L0 P) op → preserves (adds L0 P) (call_with_retry fuel attempt op).
Proof using.
  intros Hd Hop. revert attempt. induction fuel as [|fuel IH]; intros attempt; [apply preserves_raise|].
  cbn. apply preserves_try; [done|]. intros e k. destruct (negb (is_http_error e)); [done|].
  destruct (negb (is_transient e)); intros [= <-]; [apply preserves_raise|].
  apply preserves_bind; [apply backoff_adds|intros d]. apply preserves_bind; [by apply sleep_adds|intros _]. apply IH.
Qed.

Lemma checked_adds r : (∀ ans, P (Sent MainThread r ans)) → preserves (adds L0 P) (x ← request_main r; raise_for_status x).
Proof using All. intros HP. apply preserves_bind; [by apply request_main_adds|intros; apply raise_for_status_adds]. Qed.
End adds.

(** The heartbeat thread never raises. *)
Lemma wp_jittered base (Q : float → agent → Prop) R s :
  (∀ d, Q d (stepped s)) → wp (jittered_interval_seconds base) Q R s.
Proof. intros HQ. exact (HQ _). Qed.

Lemma wp_checked_http t r (Q : unit → agent → Prop) (R : agent_exn → agent → Prop) s :
  (∀ s', Q tt s') → (∀ e s', is_http_error e = true → R e s') → wp (post_checked t r) Q R s.
Proof.
  intros HQ HR. unfold post_checked. apply wp_bind. unfold wp at 1, exchange.
  destruct (send (ag_step s) r (ag_peer s)) as [p [code ra b| |]]; [|by apply HR..].
  unfold raise_for_status. destruct (_ && _); [apply HQ|by apply HR].
Qed.

Lemma heartbeat_turn_silent s : wp heartbeat_turn (λ _ _, True) no_exn s.
Proof.
  unfold heartbeat_turn. apply wp_bind, wp_jittered. intros d. apply wp_bind. unfold gets, wp at 1. apply wp_bind. unfold wp at 1.
  destruct (ag_worker (stepped s)) as [w|]; [|done]. apply wp_try, wp_bind.
  apply wp_checked_http; [intros s'; apply wp_checked_http; [done|]|]; intros e s'' He; by rewrite He.
Qed.

Lemma background_silent s e : (background s).2 ≠ inl e.
Proof.
  unfold background, mbind, stM_bind, gets. destruct (ag_beating s); [|done].
  generalize (beats (ag_step s)) as n. intros n. revert s. induction n as [|n IH]; intros s; [done|].
  cbn [heartbeats]. unfold mbind, stM_bind. pose proof (heartbeat_turn_silent s) as Ht. unfold wp in Ht.
  destruct (heartbeat_turn s) as [s' [e'|[]]]; [done|]. apply IH.
Qed.
End log.

(** * The protocol of one job *)

Section protocol.
Context `{Site} (w : WorkerId) (job : running_job_view).

Definition polled_lease : option LeaseId := (λ l, l.1.1) <$> rv_lease job.

(** What is sent while the job is handed over, while it runs, and afterwards. *)
Definition start_phase (a : action) : Prop := beat a ∨ ∃ ans, a = Sent MainThread (StartJob w (rv_id job)) ans.

Definition renew_phase (given_up : bool) (a : action) : Prop :=
  beat a ∨ (∃ d, a = Waited d) ∨ (∃ ans, a = Sent RenewalThread (RenewLease w polled_lease) ans) ∨
  (a = LeaseGivenUp ∧ given_up = true).

Definition report_phase (r : JobExecutionResult) (a : action) : Prop :=
  beat a ∨ (∃ d, a = Slept d) ∨
  ∃ ans, a = Sent MainThread (ReportOutcome (path_of r) w (rv_id job) (exit_code r) polled_lease) ans.

Definition success (code : Z) : bool := (200 <=? code) && (code <? 300).

Definition started (l : list action) : Prop :=
  ∃ code retry b, Sent MainThread (StartJob w (rv_id job)) (Replied code retry b) ∈ l ∧ success code = true.

(** The logs of a job, latest action first. *)
Inductive job_log : list action → Prop :=
  | NotStarted l0 : Forall start_phase l0 → job_log l0
  | NotRun l0 l1 given_up : Forall start_phase l0 → started l0 → Forall (renew_phase given_up) l1 → job_log (l1 ++ l0)
  | NotReported l0 l1 r given_up :
      Forall start_phase l0 → started l0 → Forall (renew_phase given_up) l1 →
      lease_lost r || given_up = true → job_log (Ran r :: l1 ++ l0)
  | Reported l0 l1 r l2 :
      Forall start_phase l0 → started l0 → Forall (renew_phase false) l1 → lease_lost r = false →
      Forall (report_phase r) l2 → job_log (l2 ++ Ran r :: l1 ++ l0).

(** The main thread asked and got this answer. *)
Definition adds_with (L0 : list action) (P : action → Prop) (a : action) (s : agent) : Prop :=
  ∃ l, ag_log s = l ++ L0 ∧ Forall P l ∧ a ∈ l.

Lemma adds_with_adds L0 P a s : adds_with L0 P a s → adds L0 P s.
Proof using. intros (l & E & Hl & _). by exists l. Qed.

Lemma wp_exchange L0 (P : action → Prop) t r s :
  adds L0 P s → (∀ ans, P (Sent t r ans)) →
  wp (exchange t r)
    (λ x, adds_with L0 P (Sent t r (Replied (x.1.1) (x.1.2) (x.2))))
    (λ e s', adds L0 P s' ∧ match e with TransportError => True | OtherHTTPError => adds_with L0 P (Sent t r OtherFailure) s' | _ => False end) s.
Proof using.
  intros (l & E & Hl) HP. unfold wp, exchange. destruct (send (ag_step s) r (ag_peer s)) as [p ans].
  assert (∀ s', ag_log s' = Sent t r ans :: ag_log s → adds_with L0 P (Sent t r ans) s') as Ha.
  { intros s' E'. exists (Sent t r ans :: l). rewrite E', E. split_and!; [done|by constructor|left]. }
  destruct ans as [code ra b| |]; [by apply Ha|split; [|done]; by eapply adds_with_adds, Ha|].
  split; [by eapply adds_with_adds, Ha|by apply Ha].
Qed.

Lemma wp_request_main L0 (P : action → Prop) r s :
  adds L0 P s → (∀ a, beat a → P a) → (∀ ans, P (Sent MainThread r ans)) →
  wp (request_main r)
    (λ x, adds_with L0 P (Sent MainThread r (Replied (x.1.1) (x.1.2) (x.2))))
    (λ e s', adds L0 P s' ∧
       match e with
       | TransportError => True
       | OtherHTTPError => adds_with L0 P (Sent MainThread r OtherFailure) s'
       | KeyboardInterrupted => ∃ i, ctrl_c i = true
       | _ => False
       end) s.
Proof using.
  intros Hs Hbeat HP. unfold request_main. apply wp_bind. unfold wp at 1.
  pose proof (background_adds L0 P Hbeat s Hs) as Hb. pose proof (background_silent s) as Hbg.
  destruct (background s) as [s1 [e|[]]]; [by destruct (Hbg e)|].
  pose proof (wp_exchange L0 P MainThread r s1 Hb HP) as Hx. unfold wp, interruptible in *.
  destruct (exchange MainThread r s1) as [s2 [e|x]].
  - destruct Hx as [Hadd He]. destruct (ctrl_c (ag_step s1)) eqn:Ec; [by eauto|]. split; [done|]. by destruct e.
  - destruct (ctrl_c (ag_step s1)) eqn:Ec; [|done]. split; [by eapply adds_with_adds|by eauto].
Qed.

Lemma raise_for_status_spec x (Q : unit → agent → Prop) (R : agent_exn → agent → Prop) s :
  (success (x.1.1) = true → Q tt s) → (success (x.1.1) = false → R (HTTPStatusError (x.1.1) (x.1.2)) s) →
  wp (raise_for_status x) Q R s.
Proof using.
  destruct x as [[code ra] b]. cbn. intros HQ HR. unfold raise_for_status, success in *.
  destruct (_ && _); [by apply HQ|by apply HR].
Qed.

(** A request of the main thread whose answer must be a success. *)
Lemma wp_checked L0 (P : action → Prop) r s :
  adds L0 P s → (∀ a, beat a → P a) → (∀ ans, P (Sent MainThread r ans)) →
  wp (x ← request_main r; raise_for_status x)
    (λ _ s', ∃ code ra b, adds_with L0 P (Sent MainThread r (Replied code ra b)) s' ∧ success code = true)
    (λ _, adds L0 P) s.
Proof using.
  intros Hs Hbeat HP. apply wp_bind. eapply wp_mono; [by apply wp_request_main| |by intros e s' [? _]].
  intros x s' Hx. apply raise_for_status_spec; intros Hc; [by exists (x.1.1), (x.1.2), (x.2)|exact (adds_with_adds _ _ _ _ Hx)].
Qed.

Lemma start_job_log s :
  wp (start_job w (rv_id job))
    (λ _ s', ∃ l0, ag_log s' = l0 ++ ag_log s ∧ Forall start_phase l0 ∧ started l0)
    (λ _ s', ∃ l0, ag_log s' = l0 ++ ag_log s ∧ Forall start_phase l0) s.
Proof using.
  eapply wp_mono; [apply (wp_checked (ag_log s) start_phase); [apply adds_start|intros ? ?; by left|intros ans; right; by eauto]|..].
  - intros [] s' (code & ra & b & (l0 & E & Hl & Hin) & Hc). exists l0. split_and!; [done..|]. by exists code, ra, b.
  - done.
Qed.

Lemma renew_lease_adds L0 (P : action → Prop) :
  (∀ a, beat a → P a) → (∀ ans, P (Sent RenewalThread (RenewLease w polled_lease) ans)) →
  preserves (adds L0 P) (renew_lease w polled_lease).
Proof using.
  intros Hbeat HP. unfold renew_lease. apply preserves_bind; [by apply background_adds|intros _].
  apply preserves_bind; [by apply exchange_adds|intros x]. destruct (_ =? _); [apply preserves_ret|].
  apply preserves_bind; [apply raise_for_status_adds|intros _]. destruct (x.2); try apply preserves_raise. apply preserves_ret.
Qed.

Lemma caught_adds {A} L0 P (m : agM A) :
  preserves (adds L0 P) m →
  ∀ s, adds L0 P s →
  wp (try_except (x ← m; mret (inr x)) (λ e, Some (mret (inl e)))) (λ _, adds L0 P) no_exn s.
Proof using.
  intros Hm s Hs. specialize (Hm s Hs). unfold wp, try_except, mbind, stM_bind. by destruct (m s) as [s' [e|a]].
Qed.

(** One turn of the renewal thread: the lease is given up exactly when it says so. *)
Lemma renewal_turn_log L0 v s :
  adds L0 (renew_phase false) s →
  wp (renewal_turn w polled_lease v)
    (λ o, adds L0 (renew_phase match o with GiveUp => true | _ => false end)) no_exn s.
Proof using.
  intros Hs. assert (∀ a, beat a → renew_phase false a) as Hbeat by (intros ? ?; by left).
  assert (∀ s, adds L0 (renew_phase false) s → adds L0 (renew_phase true) (noted LeaseGivenUp s)) as Hgive.
  { intros s0 H0. apply adds_noted; [by right; right; right|]. eapply adds_mono, H0.
    intros a [?|[?|[?|[? ?]]]]; [by left|by right; left|by right; right; left|done]. }
  unfold renewal_turn. apply wp_bind. unfold wp at 1, note.
  apply wp_bind. unfold wp at 1, time_monotonic.
  apply wp_bind. eapply wp_mono; [apply (caught_adds L0 (renew_phase false))| |done].
  { apply renew_lease_adds; [done|]. intros ans. right. right. left. by eauto. }
  { change (adds L0 (renew_phase false) (noted (Waited (rn_wait v)) s)). apply adds_noted; [|done]. right. left. by eauto. }
  intros [e|[lease_ok st]] s' Hs'.
  - destruct (is_http_error e); cbn [negb]; [|done]. apply wp_bind. unfold wp at 1.
    destruct (negb (is_transient e) || _); [apply wp_bind; unfold wp at 1; by apply Hgive|].
    apply wp_bind. pose proof (backoff_adds L0 (renew_phase false) (rn_attempt v) (retry_after_seconds e) (stepped s') Hs') as Hb.
    destruct (backoff_delay_val (rn_attempt v) (retry_after_seconds e) (stepped s')) as (j & Hj & _).
    unfold wp at 1. rewrite Hj in Hb |- *. exact Hb.
  - destruct lease_ok; cbn [negb]; [done|]. apply wp_bind. unfold wp at 1. by apply Hgive.
Qed.

Lemma keep_lease_alive_log turns L0 v s :
  adds L0 (renew_phase false) s →
  wp (keep_lease_alive turns w polled_lease v) (λ ev, adds L0 (renew_phase (existsb snd ev))) no_exn s.
Proof using.
  revert v s. induction turns as [|turns IH]; intros v s Hs; [done|]. cbn [keep_lease_alive]. apply wp_bind.
  eapply wp_mono; [by apply renewal_turn_log| |done]. intros [v'| |] s' Hs'; [|done..].
  apply wp_bind. eapply wp_mono; [by apply IH| |done]. done.
Qed.

Definition run_log (s s' : agent) : Prop := ∃ l, ag_log s' = l ++ ag_log s ∧ job_log l.

Lemma run_job_log fuel s : wp (run_job fuel w job) (λ _, run_log s) (λ _, run_log s) s.
Proof using.
  unfold run_job. apply wp_bind. eapply wp_mono; [apply start_job_log| |].
  2:{ intros e s' (l0 & E & Hl). exists l0. split; [done|by constructor]. }
  intros [] s1 (l0 & E0 & H0 & Hst). apply wp_bind. unfold gets, wp at 1. apply wp_bind. unfold wp at 1, time_monotonic.
  apply wp_bind. eapply wp_mono; [apply (keep_lease_alive_log _ (ag_log s1)); exact (adds_start _ s1)| |done].
  intros ev s2 (l1 & E1 & H1). apply wp_bind. unfold wp at 1, run_command.
  assert (run_log s (stepped s2)) as Hnotrun.
  { exists (l1 ++ l0). cbn. rewrite E1, E0, app_assoc. split; [done|by econstructor]. }
  destruct (execute _ _ _ _ _ _ _ _).2 as [[e| |]|r]; [done..|].
  destruct (lease_lost r || existsb snd ev) eqn:Hlost.
  { exists (Ran r :: l1 ++ l0). cbn. rewrite E1, E0, app_assoc. split; [done|]. by eapply NotReported. }
  apply orb_false_iff in Hlost as [Hr Hev]. rewrite Hev in H1.
  assert (preserves (adds (Ran r :: l1 ++ l0 ++ ag_log s) (report_phase r))
    (report_outcome fuel w (rv_id job) polled_lease r ;; mret tt)) as Hrep.
  { apply preserves_bind; [|intros; apply preserves_ret].
    apply call_with_retry_adds; [intros d; right; left; by eauto|].
    unfold post_outcome. apply preserves_bind; [apply request_main_adds; [intros ? ?; by left|intros ans; right; right; by eauto]|intros x].
    apply preserves_bind; [destruct (_ =? _); [apply preserves_ret|apply raise_for_status_adds]|intros _; apply preserves_ret]. }
  assert (adds (Ran r :: l1 ++ l0 ++ ag_log s) (report_phase r) (noted (Ran r) s2)) as Hstart.
  { exists []. cbn. rewrite E1, E0. by split; [|constructor]. }
  specialize (Hrep _ Hstart). fold polled_lease. unfold wp.
  destruct ((report_outcome fuel w (rv_id job) polled_lease r ;; mret tt) (noted (Ran r) s2)) as [s3 out].
  assert (adds (Ran r :: l1 ++ l0 ++ ag_log s) (report_phase r) s3) as (l2 & E2 & H2) by (by destruct out).
  assert (run_log s s3); [|by destruct out].
  exists (l2 ++ Ran r :: l1 ++ l0). rewrite E2. split; [by rewrite <- !app_assoc, <- app_comm_cons, <- app_assoc|by constructor].
Qed.
End protocol.


(** * What stops an agent *)

Section stopping.
Context `{Site}.

(** Ctrl+C in the main thread, at one of its own effects or during an execution. *)
Definition operator_stop : Prop :=
  (∃ i, ctrl_c i = true) ∨
  (∃ n fuel command timeout cancel lost,
     (execute (H := os_at n) DEFAULT_TERMINATION_GRACE_PERIOD DEFAULT_POLL_INTERVAL fuel
        command timeout cancel lost os_start).2 = inl KeyboardInterrupt).

(** The body a successful answer must have. *)
Definition expected_body (r : request) (b : body) : bool :=
  match r, b with
  | RegisterWorker _, WorkerCreatedBody _ _ => true
  | PollWorker _, WorkerBody _ => true
  | RegisterWorker _, _ | PollWorker _, _ => false
  | _, _ => true
  end.

(** Answers to the main thread that trying again cannot fix: another kind of
    HTTPError; a successful answer that is not one; a request to wait longer than
    can be waited; a rejection, except those that say that the agent's view is
    stale. *)
Definition unfixable (r : request) (ans : reply) : bool :=
  match ans with
  | TransportFailure => false
  | OtherFailure => true
  | Replied code retry b =>
      if success code then negb (expected_body r b)
      else if is_transient (HTTPStatusError code retry) then
        match retry_after_seconds (HTTPStatusError code retry) with Some d => negb (sleepable (or_zero (Some d))) | None => false end
      else match r with
           | RegisterWorker _ | HeartbeatWorker _ | HeartbeatNode _ => true
           | PollWorker _ => negb (code =? 404)
           | _ => negb (STALE_VIEW_STATUS_CODES code)
           end
  end.

(** The main thread got such an answer after the log was [L0]. *)
Definition met (L0 : list action) (s : agent) : Prop :=
  ∃ l r ans, ag_log s = l ++ L0 ∧ Sent MainThread r ans ∈ l ∧ unfixable r ans = true.

Definition any (a : action) : Prop := True.
Abbreviation grown L0 := (adds L0 any).

Lemma met_intro L0 r ans s : adds_with L0 any (Sent MainThread r ans) s → unfixable r ans = true → met L0 s.
Proof. intros (l & E & _ & Hin) Hu. by exists l, r, ans. Qed.

(** Exceptions of the main thread while it asks [r] and tries again. *)
Definition raised (r : request) (L0 : list action) (e : agent_exn) (s : agent) : Prop :=
  grown L0 s ∧
  match e with
  | HTTPStatusError code retry => ∃ b, adds_with L0 any (Sent MainThread r (Replied code retry b)) s ∧ success code = false
  | TransportError | Unfinished => True
  | KeyboardInterrupted => operator_stop
  | OtherHTTPError | Malformed | SleepOverflow => met L0 s
  | AgentError | ExecutionFault _ => False
  end.

Lemma wp_request L0 r s :
  grown L0 s →
  wp (request_main r) (λ x, adds_with L0 any (Sent MainThread r (Replied (x.1.1) (x.1.2) (x.2)))) (raised r L0) s.
Proof.
  intros Hs. eapply wp_mono; [by apply wp_request_main|done|]. intros e s' [Hg He]. split; [done|].
  destruct e; try done; [|by left]. by eapply met_intro.
Qed.

(** What the main thread asks again and again: every request but a start. *)
Definition asks {A} (r : request) (m : agM A) : Prop :=
  ∀ L0 s, grown L0 s → wp m (λ _, grown L0) (raised r L0) s.

Lemma asks_checked r {A} (k : Z * option string * body → agM A) :
  (∀ L0 x s, adds_with L0 any (Sent MainThread r (Replied (x.1.1) (x.1.2) (x.2))) s → success (x.1.1) = true →
     wp (k x) (λ _, grown L0) (raised r L0) s) →
  asks r (x ← request_main r; raise_for_status x ;; k x).
Proof.
  intros Hk L0 s Hs. apply wp_bind. eapply wp_mono; [by apply wp_request| |done]. intros x s' Hx. cbn beta in Hx.
  apply wp_bind, raise_for_status_spec; intros Hc; [by apply Hk|]. split; [by eauto using adds_with_adds|by eauto].
Qed.

Lemma asks_plain r : asks r (x ← request_main r; raise_for_status x).
Proof.
  intros L0 s Hs. apply wp_bind. eapply wp_mono; [by apply wp_request| |done]. intros x s' Hx. cbn beta in Hx.
  apply raise_for_status_spec; intros Hc; [by eauto using adds_with_adds|]. split; [by eauto using adds_with_adds|by eauto].
Qed.

Lemma malformed_raised r L0 x s :
  adds_with L0 any (Sent MainThread r (Replied (x.1.1) (x.1.2) (x.2))) s → success (x.1.1) = true →
  expected_body r (x.2) = false → raised r L0 Malformed s.
Proof.
  intros Hx Hc Hb. split; [by eauto using adds_with_adds|]. eapply met_intro; [done|]. cbn. by rewrite Hc, Hb.
Qed.

Lemma register_asks n : asks (RegisterWorker n) (register_worker n).
Proof.
  apply asks_checked. intros L0 x s Hx Hc. pose proof (malformed_raised _ _ _ _ Hx Hc) as Hm.
  destruct (x.2); try (by apply Hm). apply wp_ret. by eauto using adds_with_adds.
Qed.

Lemma get_worker_asks w : asks (PollWorker w) (get_worker w).
Proof.
  apply asks_checked. intros L0 x s Hx Hc. pose proof (malformed_raised _ _ _ _ Hx Hc) as Hm.
  destruct (x.2); try (by apply Hm). apply wp_ret. by eauto using adds_with_adds.
Qed.

Lemma post_outcome_asks w j l r :
  asks (ReportOutcome (path_of r) w j (exit_code r) l) (post_outcome w j l r).
Proof.
  intros L0 s Hs. apply wp_bind. eapply wp_mono; [by apply wp_request| |done]. intros x s' Hx. cbn beta in Hx.
  apply wp_bind. destruct (_ =? _); [exact (adds_with_adds _ _ _ _ Hx)|].
  apply raise_for_status_spec; intros Hc; [exact (adds_with_adds _ _ _ _ Hx)|]. split; [by eauto using adds_with_adds|by eauto].
Qed.

(** A pause. *)
Lemma wp_sleep L0 d s (R : agent_exn → agent → Prop) :
  grown L0 s → (sleepable d = false → R SleepOverflow s) → (∀ s', grown L0 s' → operator_stop → R KeyboardInterrupted s') →
  wp (sleep d) (λ _, grown L0) R s.
Proof.
  intros Hs Hlong Hint. unfold sleep. destruct (sleepable d) eqn:E; [|by apply Hlong].
  unfold wp, interruptible, note. destruct (ctrl_c (ag_step s)) eqn:Ec.
  - apply Hint; [by apply adds_noted|]. left. by eauto.
  - by apply adds_noted.
Qed.

Lemma wp_interval L0 s (R : agent_exn → agent → Prop) :
  grown L0 s → (∀ s', grown L0 s' → operator_stop → R KeyboardInterrupted s') →
  wp (d ← jittered_interval_seconds POLL_INTERVAL_SECONDS; sleep d) (λ _, grown L0) R s.
Proof.
  intros Hs Hint. apply wp_bind. unfold wp at 1.
  destruct (jittered_interval_val POLL_INTERVAL_SECONDS s eq_refl) as (d & -> & Hd & Hb).
  apply wp_sleep; [done| |done]. pose proof one_pos. by rewrite sleepable_small by (done || lia).
Qed.

(** Trying again ends only with an answer that is no transient failure. *)
Lemma wp_retry {A} r (op : agM A) fuel attempt L0 s :
  asks r op → grown L0 s →
  wp (call_with_retry fuel attempt op) (λ _, grown L0) (λ e s', raised r L0 e s' ∧ is_transient e = false) s.
Proof.
  intros Hop. revert attempt s. induction fuel as [|fuel IH]; intros attempt s Hs; [done|].
  cbn [call_with_retry]. apply wp_try. eapply wp_mono; [by apply Hop|done|]. intros e s1 Hr.
  destruct (is_http_error e) eqn:Hh; cbn [negb]; [|split; [done|by destruct e]].
  destruct (is_transient e) eqn:Ht; cbn [negb]; [|done]. pose proof Hr as [Hg He].
  apply wp_bind. unfold wp at 1.
  destruct (backoff_delay_val attempt (retry_after_seconds e) s1) as (j & -> & Hjc & Hjb).
  apply wp_bind. eapply wp_mono; [apply (wp_sleep L0 _ _ (λ e s', raised r L0 e s' ∧ is_transient e = false)); [done|..]| |done].
  - intros Hlong. split; [|done]. split; [done|].
    assert (sleepable j = true) as Hj.
    { apply sleepable_small; [done|]. pose proof one_pos. nia. }
    unfold fmax in Hlong. destruct (flt j _); [|congruence].
    destruct e as [code retry| | | | | | | |]; try done.
    destruct He as (b & Hb & Hc). eapply met_intro; [exact Hb|]. cbn [unfixable]. rewrite Hc, Ht.
    destruct (retry_after_seconds (HTTPStatusError code retry)) as [d|]; [by rewrite Hlong|by vm_compute in Hlong].
  - intros s' Hg' Hop'. done.
  - intros [] s2 Hs2. by apply IH.
Qed.

(** Exceptions that leave the loops. *)
Definition fatal (L0 : list action) (e : agent_exn) (s : agent) : Prop :=
  grown L0 s ∧
  match e with
  | Unfinished | ExecutionFault _ => True
  | KeyboardInterrupted => operator_stop
  | TransportError => False
  | _ => met L0 s
  end.

Lemma raised_fatal r L0 e s :
  raised r L0 e s → is_transient e = false →
  (∀ code retry b, success code = false → is_transient (HTTPStatusError code retry) = false →
     e = HTTPStatusError code retry → unfixable r (Replied code retry b) = true) →
  fatal L0 e s.
Proof.
  intros [Hg He] Ht Hu. split; [done|]. destruct e as [code retry| | | | | | | |]; try done.
  destruct He as (b & Hb & Hc). eapply met_intro; [done|]. by apply Hu.
Qed.

Lemma unfixable_rejection r code retry b :
  match r with RegisterWorker _ | HeartbeatWorker _ | HeartbeatNode _ => True | _ => False end →
  success code = false → is_transient (HTTPStatusError code retry) = false → unfixable r (Replied code retry b) = true.
Proof. intros Hr Hc Ht. cbn [unfixable]. rewrite Hc, Ht. by destruct r. Qed.

Lemma register_fatal fuel n L0 s :
  grown L0 s → wp (register_with_retry fuel n) (λ _, grown L0) (fatal L0) s.
Proof.
  intros Hs. apply wp_try. eapply wp_mono; [by apply (wp_retry (RegisterWorker n)); [apply register_asks|]|done|].
  intros e s' [Hr Ht]. assert (fatal L0 e s') as Hf.
  { eapply raised_fatal; [done..|]. intros. by apply unfixable_rejection. }
  by destruct e.
Qed.

Lemma heartbeat_fatal r fuel L0 s :
  match r with HeartbeatWorker _ | HeartbeatNode _ => True | _ => False end → grown L0 s →
  wp (call_with_retry fuel 0 (x ← request_main r; raise_for_status x)) (λ _, grown L0) (fatal L0) s.
Proof.
  intros Hq Hs. eapply wp_mono; [by apply (wp_retry r); [apply asks_plain|]|done|]. intros e s' [Hr Ht].
  eapply raised_fatal; [done..|]. intros. apply unfixable_rejection; [by destruct r|done..].
Qed.

(** Exceptions of a hand-over: those the poll loop answers by polling again, or
    fatal ones. *)
Definition interrupts (L0 : list action) (e : agent_exn) (s : agent) : Prop :=
  grown L0 s ∧ (is_transient e || is_stale_view e = true ∨ fatal L0 e s).

Lemma raised_interrupts r L0 e s :
  match r with StartJob _ _ | ReportOutcome _ _ _ _ _ => True | _ => False end →
  raised r L0 e s → interrupts L0 e s.
Proof.
  intros Hq Hr. split; [apply Hr|]. destruct (is_transient e || is_stale_view e) eqn:Et; [by left|right].
  apply orb_false_iff in Et as [Ht Hst]. eapply raised_fatal; [done..|]. intros code retry b Hc Ht' ->.
  cbn [unfixable]. rewrite Hc, Ht'. cbn in Hst. destruct r; try done; by rewrite Hst.
Qed.

Lemma wp_run_job fuel w job L0 s :
  grown L0 s → wp (run_job fuel w job) (λ _, grown L0) (interrupts L0) s.
Proof.
  intros Hs. unfold run_job. apply wp_bind.
  eapply wp_mono; [by apply (asks_plain (StartJob w (rv_id job)) L0)| |intros e s' Hr; exact (raised_interrupts (StartJob _ _) L0 e s' I Hr)].
  intros [] s1 Hs1. apply wp_bind. unfold gets, wp at 1. apply wp_bind. unfold wp at 1, time_monotonic.
  apply wp_bind. eapply wp_mono; [apply (keep_lease_alive_log w job _ (ag_log s1)); exact (adds_start _ s1)| |done].
  intros ev s2 (l1 & E1 & _). assert (grown L0 s2) as Hs2.
  { destruct Hs1 as (l & E & _). exists (l1 ++ l). rewrite E1. cbn. rewrite E, app_assoc. split; [done|].
    by apply Forall_true. }
  apply wp_bind. unfold wp at 1, run_command.
  destruct (execute _ _ _ _ _ _ _ _).2 as [[e| |]|r] eqn:Ex.
  - split; [done|]. by right.
  - split; [done|]. right. split; [done|]. right. by eauto 10.
  - split; [done|]. by right.
  - destruct (lease_lost r || existsb snd ev); [by apply adds_noted|]. apply wp_bind.
    eapply wp_mono; [eapply (wp_retry _ _ fuel 0 L0); [apply post_outcome_asks|by apply adds_noted]|by intros|].
    intros e s' [Hr Ht]. exact (raised_interrupts (ReportOutcome _ _ _ _ _) L0 e s' I Hr).
Qed.

Lemma poll_turn_fatal fuel L0 s : grown L0 s → wp (poll_turn fuel) (λ _, grown L0) (fatal L0) s.
Proof.
  intros Hs. unfold poll_turn. apply wp_bind. unfold gets, wp at 1. apply wp_bind. unfold wp at 1.
  destruct (ag_worker s) as [w|]; [|done]. apply wp_bind, wp_try, wp_bind.
  eapply wp_mono; [by apply (wp_retry (PollWorker w)); [apply get_worker_asks|]|..].
  - intros [job|] s1 Hs1; unfold wp at 1; cbn -[jittered_interval_seconds run_job sleep].
    2:{ by apply wp_interval. }
    apply wp_try. eapply wp_mono; [by apply wp_run_job|done|]. intros e s2 [Hg He].
    destruct (is_http_error e) eqn:Hh; cbn [negb].
    2:{ destruct He as [He|?]; [|done]. by destruct e. }
    destruct (is_transient e || is_stale_view e) eqn:Et; cbn [negb]; [by apply wp_interval|]. by destruct He.
  - intros e s1 [Hr Ht]. destruct e as [code retry| | | | | | | |];
      try (by eapply raised_fatal; [done..|]).
    destruct (Z.eqb_spec code 404) as [->|Hne]; cbn [negb].
    + apply wp_bind. eapply wp_mono; [apply register_fatal, Hr| |done]. intros w' s2 Hs2. exact Hs2.
    + eapply raised_fatal; [done..|]. intros code' retry' b Hc Ht' [= <- <-]. cbn [unfixable]. rewrite Hc, Ht'.
      by rewrite (proj2 (Z.eqb_neq _ _)).
Qed.

Lemma poll_loop_fatal fuel turns L0 s : grown L0 s → wp (poll_loop fuel turns) (λ _ _, False) (fatal L0) s.
Proof.
  revert s. induction turns as [|turns IH]; intros s Hs; [done|]. cbn [poll_loop]. apply wp_bind.
  eapply wp_mono; [by apply poll_turn_fatal| |done]. intros []. apply IH.
Qed.

Lemma work_fatal fuel turns w n L0 s : grown L0 s → wp (work fuel turns w n) (λ _ _, False) (fatal L0) s.
Proof.
  intros Hs. unfold work. apply wp_bind. eapply wp_mono; [by apply (heartbeat_fatal (HeartbeatWorker w))| |done].
  intros [] s1 Hs1. apply wp_bind. eapply wp_mono; [by apply (heartbeat_fatal (HeartbeatNode n))| |done].
  intros [] s2 Hs2. by apply poll_loop_fatal.
Qed.
End stopping.

