(* ===== verification/Frame.v ===== *)
(** What the services on jobs, nodes, workers and leases cannot disturb.

    [Frame J] is the interface between a property [J] of the state and these
    services: each effect they perform keeps [J].  Then so does each service. *)
From S2P Require Import Prelude Values Job Node Scheduler ApiKey Worker Db Prog Repos Keys Services Http.
Local Open Scope Z_scope.

Class Frame {E : Env} (J : world → Prop) : Prop := {
  fr_gets A (f : db → A) : preserves J (statement (gets f));
  fr_now : preserves J utc_now;
  fr_now_each k : preserves J (utc_now_each k);
  fr_uuid : preserves J new_uuid;
  fr_draw : preserves J draw_name;
  fr_unordered A (l : list A) : preserves J (unordered l);
  fr_job j : preserves J (statement (upsert_job j));
  fr_node n : preserves J (statement (upsert_node n));
  fr_delete_node n t : preserves J (statement (delete_node n t));
  fr_worker r : preserves J (statement (upsert_worker r));
  fr_lease l : preserves J (statement (upsert_lease l));
  fr_renew i t e : preserves J (statement (update_lease_expiry i t e));
  fr_delete_lease j t : preserves J (statement (delete_lease j t));
  fr_delete_expired j t now : preserves J (statement (delete_lease_if_expired j t now));
  fr_event e : preserves J (statement (insert_event e));
}.

Create HintDb frame discriminated.
#[export] Hint Resolve fr_gets fr_now fr_now_each fr_uuid fr_draw fr_unordered fr_job fr_node fr_delete_node fr_worker
  fr_lease fr_renew fr_delete_lease fr_delete_expired fr_event preserves_ret preserves_raise : frame.

Section frame.
Context {E : Env} (J : world → Prop) `{!Frame J}.

Lemma fr_of_sum {A} (r : exn + A) : preserves J (of_sum r).
Proof. destruct r; by intros w Hw. Qed.
Lemma fr_on_object {Y A} (m : stM Y exn A) y : preserves J (on_object m y).
Proof. unfold on_object. destruct (m y) as [y' [e|a]]; by intros w Hw. Qed.
Lemma fr_load_each {A B} (f : A → prog B) l : (∀ x, preserves J (f x)) → preserves J (load_each f l).
Proof.
  intros Hf. induction l as [|x l IH]; cbn; [apply preserves_ret|]. apply preserves_bind; [done|]. intros y.
  apply preserves_bind; [done|]. intros. apply preserves_ret.
Qed.
Lemma fr_load_some {A B} (f : A → prog (option B)) l : (∀ x, preserves J (f x)) → preserves J (load_some f l).
Proof.
  intros Hf. induction l as [|x l IH]; cbn; [apply preserves_ret|]. apply preserves_bind; [done|]. intros y.
  apply preserves_bind; [done|]. intros. apply preserves_ret.
Qed.
End frame.

#[export] Hint Resolve fr_of_sum fr_on_object : frame.

Ltac frame_step :=
  lazymatch goal with
  | |- preserves _ (_ ≫= _) => apply preserves_bind; [|intros]
  | |- preserves _ (match ?x with _ => _ end) => destruct x
  | |- preserves _ (if ?b then _ else _) => destruct b
  | |- preserves _ (for_each _ _) => apply preserves_for; intros
  | |- preserves _ (load_each _ _) => apply fr_load_each; intros
  | |- preserves _ (load_some _ _) => apply fr_load_some; intros
  | |- preserves _ _ => first [solve [eauto 2 with frame nocore]|repo_unfold]
  end.
Ltac framed := repeat frame_step.

Section services.
Context {E : Env} (J : world → Prop) `{!Frame J}.

Lemma record_for_job_frame j ty : preserves J (record_for_job j ty).
Proof. unfold record_for_job. framed. Qed.

Lemma acquire_lease_frame w j : preserves J (acquire_lease w j).
Proof. unfold acquire_lease. framed. apply record_for_job_frame. Qed.

Lemma assign_worker_loop_frame j n ws : preserves J (assign_worker_loop j n ws).
Proof.
  induction ws as [|w ws IH]; cbn [assign_worker_loop]; [framed|].
  destruct (negb _); [done|]. destruct (negb _); [done|]. apply preserves_bind.
  - apply preserves_try; [apply acquire_lease_frame|]. intros e k. destruct e; try done; intros [= <-]; framed.
  - intros _. framed. apply record_for_job_frame.
Qed.

Lemma schedule_job_frame x nodes : preserves J (schedule_job x nodes).
Proof.
  unfold schedule_job, assign_worker. framed; try apply record_for_job_frame.
  apply preserves_try; [framed; apply assign_worker_loop_frame|]. intros e k. destruct e; try done; intros [= <-].
  framed. apply record_for_job_frame.
Qed.

Lemma scheduler_loop_frame : preserves J scheduler_loop.
Proof.
  unfold scheduler_loop. apply preserves_bind; [framed|intros nodes]. apply preserves_bind; [framed|intros jobs].
  generalize (sort_desc j_priority (filter (λ j, j_status j = QUEUED) jobs)). intros js. revert nodes.
  induction js as [|x js IH]; intros nodes; cbn [schedule_all]; [framed|].
  apply preserves_bind; [apply schedule_job_frame|done].
Qed.

Lemma reclaim_job_frame j o b : preserves J (reclaim_job j o b).
Proof. unfold reclaim_job. framed. Qed.

Lemma offline_node_ids_frame nodes : preserves J (offline_node_ids nodes).
Proof. induction nodes; cbn [offline_node_ids]; framed; done. Qed.

Lemma reconciliation_loop_frame : preserves J reconciliation_loop.
Proof.
  unfold reconciliation_loop, mark_dead_workers, mark_dead_worker, recover_expired_leases, recover_expired_lease,
    recover_worker, recover_offline_nodes, recover_offline_worker, reclaim_from_worker.
  repeat first [apply reclaim_job_frame|apply offline_node_ids_frame|apply record_for_job_frame|frame_step].
Qed.

Lemma get_worker_frame w t : preserves J (get_worker w t).
Proof. unfold get_worker. framed. Qed.

Lemma answering_frame {A} status (m : prog A) : preserves J m → preserves J (answering status m).
Proof.
  intros Hm. apply preserves_try; [done|]. intros e k Hk. destruct (status e); [|done]. injection Hk as <-. apply preserves_raise.
Qed.

(** The routes on jobs, nodes, workers and the cluster. *)
Lemma handle_frame caller r :
  match r with PostApiKeys _ | PostApiKeyRevoke _ | GetApiKeyIssued _ => False | _ => True end →
  preserves J (handle caller r).
Proof.
  destruct r; intros Hr; try done; cbn [handle]; handler_unfold;
    unfold ok, or_404, node_body, nodes_body, lease_if_running, list_jobs, list_queued_jobs, get_job, get_job_history, list_nodes,
      list_offline_nodes, list_workers, list_events, cluster_health, cluster_capacity, cluster_utilization,
      create_job, cancel_job, retry_job, start_job, persist_job_started, report_complete, report_fail, report_cancel, report,
      _get_owning_worker, _finish, release_lease, renew_lease, get_lease_for_worker, create_node, get_node, create_worker,
      register_worker, worker_heartbeat, heartbeat_node, drain_node, remove_offline_node,
      JobRepository.list_recent, EventRepository.list, EventRepository.list_by_aggregate;
    repeat first [apply answering_frame|apply get_worker_frame|apply reclaim_job_frame|apply record_for_job_frame|frame_step].
Qed.
End services.
