(* ===== verification/Cluster.v ===== *)
(** The consistency of the cluster's tables, beyond what the schema enforces:
    leases, workers, jobs and the free resources of nodes agree with each other.
    The lemmas show which changes of the tables keep it; Invariant, Holding, Outcome and Scheduling show that
    the services make those changes. *)
From S2P Require Import Prelude Values Job Node Worker Db Prog Repos.
Local Open Scope Z_scope.

(** A job some worker may hold: a SCHEDULED job that is cancelled stays with its
    worker until the lease runs out. *)
Definition holdable (s : JobStatus) : bool :=
  match s with SCHEDULED | RUNNING | CANCELLING | CANCELLED => true | _ => false end.

(** A job on its way: some worker must be responsible for it. *)
Definition active (s : JobStatus) : bool :=
  match s with SCHEDULED | RUNNING | CANCELLING => true | _ => false end.

(** What worker [r] holds of node [n], in one dimension. *)
Definition holds_of (J : gmap JobId job) (dim : ResourceRequirements → Z) (n : NodeId)
    (r : worker_row) : Z :=
  if decide (r_node_id r = n) then
    match r_running_job_id r with
    | Some j => match J !! j with Some x => dim (j_resources x) | None => 0 end
    | None => 0
    end
  else 0.

Definition held_dim (J : gmap JobId job) (W : gmap WorkerId worker_row)
    (dim : ResourceRequirements → Z) (n : NodeId) : Z :=
  msum (holds_of J dim n) W.

(** The resources of the jobs that the workers of node [n] hold. *)
Definition held (d : db) (n : NodeId) : ResourceRequirements :=
  mkResources (held_dim (db_jobs d) (db_workers d) cpu_cores n)
    (held_dim (db_jobs d) (db_workers d) memory_mib n)
    (held_dim (db_jobs d) (db_workers d) vram_mib n).

Record consistent (d : db) : Prop := mkConsistent {
  (** stored jobs are well formed *)
  co_jobs k j : db_jobs d !! k = Some j → job_wf j;
  (** a node's used resources are those of the jobs its workers hold *)
  co_nodes k n : db_nodes d !! k = Some n → node_row_ok n ∧ in_use n = held d k;
  (** an idle worker holds nothing *)
  co_idle k r : db_workers d !! k = Some r → r_status r = IDLE → r_running_job_id r = None;
  (** a worker holds a job exactly when there is a lease saying so *)
  co_lease_of k r j : db_workers d !! k = Some r → r_running_job_id r = Some j →
    ∃ i l, db_leases d !! i = Some l ∧ l_worker_id l = k ∧ l_job_id l = j;
  co_worker_of i l : db_leases d !! i = Some l →
    ∃ r, db_workers d !! l_worker_id l = Some r ∧ r_running_job_id r = Some (l_job_id l);
  (** a held job is placed on the node of its worker *)
  co_held k r j : db_workers d !! k = Some r → r_running_job_id r = Some j →
    ∃ x, db_jobs d !! j = Some x ∧ j_assigned_node_id x = Some (r_node_id r) ∧
         holdable (j_status x) = true;
  (** a placed job on its way is held by a worker *)
  co_active j x : db_jobs d !! j = Some x → active (j_status x) = true →
    is_Some (j_assigned_node_id x) →
    ∃ k r, db_workers d !! k = Some r ∧ r_running_job_id r = Some j;
  (** one worker per node *)
  co_one k r k' r' : db_workers d !! k = Some r → db_workers d !! k' = Some r' →
    r_node_id r = r_node_id r' → k = k';
}.

Lemma consistent_loadable d : consistent d → loadable d.
Proof.
  intros Hd. split.
  - intros k j Hj. by apply (co_jobs d Hd) in Hj as (? & ? & ? & _).
  - intros k n Hn. by apply (co_nodes d Hd) in Hn as [? _].
Qed.

(** Only the tables matter, not the tenants or the events. *)
Lemma consistent_ext d d' :
  db_nodes d' = db_nodes d → db_jobs d' = db_jobs d → db_workers d' = db_workers d →
  db_leases d' = db_leases d → consistent d → consistent d'.
Proof.
  destruct d, d'; cbn. intros -> -> -> -> []. by split.
Qed.

(** * Bookkeeping of held resources *)

(** The three dimensions; a bundle is nonnegative in each. *)
Definition dimension (dim : ResourceRequirements → Z) : Prop :=
  dim = cpu_cores ∨ dim = memory_mib ∨ dim = vram_mib.

Lemma held_dim_jobs J J' W dim n :
  (∀ k r j, W !! k = Some r → r_running_job_id r = Some j →
     j_resources <$> J' !! j = j_resources <$> J !! j) →
  held_dim J' W dim n = held_dim J W dim n.
Proof.
  intros H. apply msum_ext. intros k r Hr. unfold holds_of. case_decide; [|done].
  destruct (r_running_job_id r) as [j|] eqn:Hj; [|done]. specialize (H k r j Hr Hj).
  destruct (J !! j), (J' !! j); cbn in H; try done. injection H as ->. done.
Qed.

Lemma held_dim_worker J W dim n w r r' :
  W !! w = Some r →
  held_dim J (<[w := r']> W) dim n = held_dim J W dim n - holds_of J dim n r + holds_of J dim n r'.
Proof. apply msum_insert_Some. Qed.

Lemma held_dim_new_worker J W dim n w r' :
  W !! w = None → held_dim J (<[w := r']> W) dim n = holds_of J dim n r' + held_dim J W dim n.
Proof. apply msum_insert_None. Qed.

Lemma job_wf_resources j : job_wf j → resources_ok (j_resources j).
Proof. intros (? & ? & ? & _). repeat split; lia. Qed.

Lemma holds_of_nonneg d dim n r :
  dimension dim → consistent d → 0 <= holds_of (db_jobs d) dim n r.
Proof.
  intros Hdim Hd. unfold holds_of. case_decide; [|done]. destruct (r_running_job_id r) as [j|]; [|done].
  destruct (db_jobs d !! j) as [x|] eqn:Hx; [|done].
  apply (co_jobs d Hd), job_wf_resources in Hx as (? & ? & ?).
  destruct Hdim as [->|[->| ->]]; done.
Qed.

(** What a worker holds is part of what its node has handed out. *)
Lemma held_le_in_use d w r j x n nd :
  consistent d → db_workers d !! w = Some r → r_running_job_id r = Some j → r_node_id r = n →
  db_jobs d !! j = Some x → db_nodes d !! n = Some nd →
  resources_le (j_resources x) (in_use nd).
Proof.
  intros Hd Hw Hj Hn Hx Hnd. destruct (co_nodes d Hd n nd Hnd) as [_ ->].
  assert (∀ dim, dimension dim → dim (j_resources x) <= held_dim (db_jobs d) (db_workers d) dim n) as H.
  { intros dim Hdim. replace (dim (j_resources x)) with (holds_of (db_jobs d) dim n r).
    - eapply msum_elem_le; [|done]. intros k r' _. by apply holds_of_nonneg.
    - unfold holds_of. by rewrite decide_True, Hj, Hx. }
  unfold resources_le, held, dimension in *. cbn. split_and!; apply H; tauto.
Qed.

(** * Changes that keep consistency *)

(** The row of one job changes, or a job is added. *)
Lemma update_job_consistent d d' j x' :
  db_nodes d' = db_nodes d → db_jobs d' = <[j := x']> (db_jobs d) →
  db_workers d' = db_workers d → db_leases d' = db_leases d →
  consistent d → job_wf x' →
  (∀ x, db_jobs d !! j = Some x → j_resources x' = j_resources x) →
  (∀ k r, db_workers d !! k = Some r → r_running_job_id r = Some j →
     j_assigned_node_id x' = Some (r_node_id r) ∧ holdable (j_status x') = true) →
  (active (j_status x') = true → is_Some (j_assigned_node_id x') →
     ∃ k r, db_workers d !! k = Some r ∧ r_running_job_id r = Some j) →
  consistent d'.
Proof.
  destruct d as [T N J W L Ev Ks], d' as [T' N' J' W' L' Ev' Ks']; cbn. intros -> -> -> -> Hd Hwf Hres Hheld Hact.
  assert (∀ n, held (mkDb T' N (<[j:=x']> J) W L Ev' Ks') n = held (mkDb T N J W L Ev Ks) n) as Hh.
  { intros n. unfold held. cbn. f_equal; apply held_dim_jobs; intros k r j' Hr Hj';
      (rewrite lookup_insert; case_decide; [subst j'|done]);
      destruct (co_held _ Hd k r j Hr Hj') as (x & Hx & _); cbn in Hx; rewrite Hx; cbn; f_equal; eauto. }
  split; cbn.
  - intros k y. rewrite lookup_insert. case_decide; [by intros [= <-]|]. apply (co_jobs _ Hd).
  - intros k n Hn. rewrite Hh. by apply (co_nodes _ Hd).
  - apply (co_idle _ Hd).
  - apply (co_lease_of _ Hd).
  - apply (co_worker_of _ Hd).
  - intros k r j' Hr Hj'. rewrite lookup_insert. case_decide; [subst j'|by apply (co_held _ Hd k)].
    exists x'. split; [done|]. eauto.
  - intros j' y. rewrite lookup_insert. case_decide; [intros [= <-]; subst j'; auto|]. apply (co_active _ Hd).
  - apply (co_one _ Hd).
Qed.

(** A node's heartbeat, name or drain flag changes; or a node is added. *)
Lemma update_node_consistent d d' n nd' :
  db_nodes d' = <[n := nd']> (db_nodes d) → db_jobs d' = db_jobs d →
  db_workers d' = db_workers d → db_leases d' = db_leases d →
  consistent d → node_row_ok nd' → in_use nd' = held d n →
  consistent d'.
Proof.
  destruct d as [T N J W L Ev Ks], d' as [T' N' J' W' L' Ev' Ks']; cbn. intros -> -> -> -> Hd Hok Huse.
  destruct Hd as [Hj Hn Hi Hl Hw Hh Ha Ho]. split; try done. cbn in *.
  intros k y. rewrite lookup_insert. case_decide; [intros [= <-]; by subst k|]. apply Hn.
Qed.

(** A worker's status or heartbeat changes. *)
Lemma update_worker_consistent d d' w r r' :
  db_nodes d' = db_nodes d → db_jobs d' = db_jobs d →
  db_workers d' = <[w := r']> (db_workers d) → db_leases d' = db_leases d →
  consistent d → db_workers d !! w = Some r →
  r_node_id r' = r_node_id r → r_running_job_id r' = r_running_job_id r →
  (r_status r' = IDLE → r_running_job_id r' = None) →
  consistent d'.
Proof.
  destruct d as [T N J W L Ev Ks], d' as [T' N' J' W' L' Ev' Ks']; cbn. intros -> -> -> -> Hd Hr Hn Hj Hidle.
  assert (∀ k y, <[w := r']> W !! k = Some y →
    ∃ y', W !! k = Some y' ∧ r_node_id y = r_node_id y' ∧ r_running_job_id y = r_running_job_id y') as Hback.
  { intros k y. rewrite lookup_insert. case_decide; [intros [= <-]; subst k|]; eauto. }
  assert (∀ k y, W !! k = Some y → ∃ y', <[w := r']> W !! k = Some y' ∧
    r_node_id y' = r_node_id y ∧ r_running_job_id y' = r_running_job_id y) as Hfwd.
  { intros k y Hy. rewrite lookup_insert. case_decide; [subst k; simplify_eq|]; eauto. }
  assert (∀ n, held (mkDb T' N J (<[w := r']> W) L Ev' Ks') n = held (mkDb T N J W L Ev Ks) n) as Hh.
  { intros n. unfold held. cbn. f_equal; rewrite (held_dim_worker _ _ _ _ _ r) by done;
      unfold holds_of; rewrite Hn, Hj; lia. }
  split; cbn.
  - apply (co_jobs _ Hd).
  - intros k y Hy. rewrite Hh. by apply (co_nodes _ Hd).
  - intros k y. rewrite lookup_insert. case_decide; [by intros [= <-]|]. apply (co_idle _ Hd).
  - intros k y j (y' & Hy' & _ & ->)%Hback. by apply (co_lease_of _ Hd).
  - intros i l Hl. destruct (co_worker_of _ Hd i l Hl) as (y & Hy & Hjy).
    destruct (Hfwd _ _ Hy) as (y' & ? & _ & E). rewrite <- E in Hjy. eauto.
  - intros k y j (y' & Hy' & -> & ->)%Hback. by eapply (co_held _ Hd).
  - intros j x Hx Hax Hs. destruct (co_active _ Hd j x Hx Hax Hs) as (k & y & Hy & Hjy).
    destruct (Hfwd _ _ Hy) as (y' & ? & _ & E). rewrite <- E in Hjy. eauto.
  - intros k y k' y' (z & Hz & -> & _)%Hback (z' & Hz' & -> & _)%Hback. by eapply (co_one _ Hd).
Qed.

(** A worker without a job is added to a node that has none. *)
Lemma new_worker_consistent d d' w r' :
  db_nodes d' = db_nodes d → db_jobs d' = db_jobs d →
  db_workers d' = <[w := r']> (db_workers d) → db_leases d' = db_leases d →
  consistent d → db_workers d !! w = None → r_running_job_id r' = None →
  (∀ k r, db_workers d !! k = Some r → r_node_id r ≠ r_node_id r') →
  consistent d'.
Proof.
  destruct d as [T N J W L Ev Ks], d' as [T' N' J' W' L' Ev' Ks']; cbn. intros -> -> -> -> Hd Hw Hj Hnone.
  assert (∀ n, held (mkDb T' N J (<[w := r']> W) L Ev' Ks') n = held (mkDb T N J W L Ev Ks) n) as Hh.
  { intros n. unfold held. cbn. f_equal; rewrite held_dim_new_worker by done;
      unfold holds_of; rewrite Hj; case_decide; lia. }
  assert (∀ k y, W !! k = Some y → <[w := r']> W !! k = Some y) as Hfwd.
  { intros k y Hy. rewrite lookup_insert_ne; [done|]. congruence. }
  split; cbn.
  - apply (co_jobs _ Hd).
  - intros k y Hy. rewrite Hh. by apply (co_nodes _ Hd).
  - intros k y. rewrite lookup_insert. case_decide; [by intros [= <-]|]. apply (co_idle _ Hd).
  - intros k y j. rewrite lookup_insert. case_decide; [intros [= <-]; congruence|]. apply (co_lease_of _ Hd).
  - intros i l Hl. destruct (co_worker_of _ Hd i l Hl) as (y & Hy & Hjy). cbn in Hy. eauto.
  - intros k y j. rewrite lookup_insert. case_decide; [intros [= <-]; congruence|]. apply (co_held _ Hd).
  - intros j x Hx Hax Hs. destruct (co_active _ Hd j x Hx Hax Hs) as (k & y & Hy & Hjy). cbn in Hy. eauto.
  - intros k y k' y'. rewrite !lookup_insert.
    repeat case_decide; intros; simplify_eq; try done; try by (exfalso; eapply Hnone; eauto).
    by eapply (co_one _ Hd).
Qed.

(** A lease's expiry moves. *)
Lemma update_lease_consistent d d' i l l' :
  db_nodes d' = db_nodes d → db_jobs d' = db_jobs d → db_workers d' = db_workers d →
  db_leases d' = <[i := l']> (db_leases d) →
  consistent d → db_leases d !! i = Some l →
  l_worker_id l' = l_worker_id l → l_job_id l' = l_job_id l →
  consistent d'.
Proof.
  destruct d as [T N J W L Ev Ks], d' as [T' N' J' W' L' Ev' Ks']; cbn. intros -> -> -> -> Hd Hi Hw Hj.
  destruct Hd as [Hjobs Hn Hidle Hl Hwk Hh Ha Ho]. split; try done; cbn in *.
  - intros k r j Hr Hrj. destruct (Hl k r j Hr Hrj) as (i' & y & Hy & <- & <-).
    destruct (decide (i' = i)) as [->|]; simplify_eq.
    + exists i, l'. by rewrite lookup_insert_eq.
    + exists i', y. by rewrite lookup_insert_ne.
  - intros i' y. rewrite lookup_insert. case_decide; [|apply Hwk]. intros [= <-]. rewrite Hw, Hj. by apply Hwk with i.
Qed.

(** A worker gives up its job: the lease goes, the node gets the resources back,
    and the job is no longer a placed job on its way. *)
Lemma drop_consistent d d' w r r' j x x' n nd nd' :
  db_nodes d' = <[n := nd']> (db_nodes d) → db_jobs d' = <[j := x']> (db_jobs d) →
  db_workers d' = <[w := r']> (db_workers d) →
  (∀ i l, db_leases d' !! i = Some l ↔ db_leases d !! i = Some l ∧ l_job_id l ≠ j) →
  integrity d → consistent d →
  db_workers d !! w = Some r → r_running_job_id r = Some j → r_node_id r = n →
  db_jobs d !! j = Some x → db_nodes d !! n = Some nd →
  r_node_id r' = n → r_running_job_id r' = None →
  job_wf x' → j_resources x' = j_resources x →
  (active (j_status x') = true → j_assigned_node_id x' = None) →
  n_capacity nd' = n_capacity nd → n_available nd' = released (j_resources x) nd →
  consistent d'.
Proof.
  intros EN EJ EW EL Hint Hd Hw Hrj Hrn Hx Hnd Hrn' Hrj' Hwf Hres Hact Hcap Hav.
  assert (resources_le (j_resources x) (in_use nd)) as Hle by (by eapply held_le_in_use).
  pose proof (job_wf_resources x (co_jobs d Hd j x Hx)) as Hxok.
  destruct (co_nodes d Hd n nd Hnd) as [[Hcok Hnwf] Huse].
  assert (∀ k y, db_workers d !! k = Some y → r_running_job_id y = Some j → k = w) as Hone.
  { intros k y Hy Hyj. destruct (co_lease_of d Hd k y j Hy Hyj) as (i & l & Hl & <- & Hlj).
    destruct (co_lease_of d Hd w r j Hw Hrj) as (i' & l' & Hl' & <- & Hlj').
    assert (i = i') as <- by (eapply (int_lease_job d Hint); eauto; congruence). congruence. }
  assert (∀ dim m, held_dim (db_jobs d') (db_workers d') dim m =
    held_dim (db_jobs d) (db_workers d) dim m - if decide (m = n) then dim (j_resources x) else 0) as Hh.
  { intros dim m. rewrite EJ, EW, (held_dim_jobs (db_jobs d)).
    - rewrite (held_dim_worker _ _ _ _ _ r) by done. unfold holds_of. rewrite Hrj, Hx, Hrj', Hrn, Hrn'.
      repeat case_decide; subst; try done; lia.
    - intros k y j' Hy Hyj. rewrite lookup_insert. case_decide; [subst j'|done].
      rewrite Hx. cbn. by rewrite Hres. }
  split; rewrite ?EN, ?EJ, ?EW.
  - intros k y. rewrite lookup_insert. case_decide; [by intros [= <-]|]. apply (co_jobs _ Hd).
  - intros k y. rewrite lookup_insert. unfold held. rewrite !Hh. case_decide; subst.
    + intros [= <-]. rewrite !decide_True by done. unfold node_row_ok, node_wf, in_use, released in *.
      unfold resources_le, resources_ok, held in *. rewrite Hcap, Hav. cbn in *.
      injection Huse as ???. split; [split_and!; lia|]. apply resources_ext; cbn; lia.
    + intros Hy. rewrite !decide_False by done. rewrite !Z.sub_0_r. by apply (co_nodes _ Hd).
  - intros k y. rewrite lookup_insert. case_decide; [by intros [= <-]|]. apply (co_idle _ Hd).
  - intros k y j'. rewrite lookup_insert. case_decide; [intros [= <-]; congruence|].
    intros Hy Hyj. destruct (co_lease_of d Hd k y j' Hy Hyj) as (i & l & Hl & <- & <-).
    exists i, l. split; [|done]. apply EL. split; [done|]. intros E. apply H. symmetry. apply (Hone _ y); congruence.
  - intros i l [Hl Hne]%EL. destruct (co_worker_of d Hd i l Hl) as (y & Hy & Hyj).
    exists y. split; [|done]. rewrite lookup_insert_ne; [done|]. intros E. congruence.
  - intros k y j'. rewrite lookup_insert. case_decide; [intros [= <-]; congruence|].
    intros Hy Hyj. rewrite lookup_insert_ne; [by eapply (co_held d Hd)|].
    intros <-. apply H. symmetry. by apply (Hone _ y).
  - intros j' y. rewrite lookup_insert. case_decide.
    + intros [= <-] Ha [? Hs]. rewrite Hact in Hs by done. done.
    + intros Hy Ha Hs. destruct (co_active d Hd j' y Hy Ha Hs) as (k & z & Hz & Hzj).
      exists k, z. split; [|done]. rewrite lookup_insert_ne; [done|]. intros <-. congruence.
  - intros k y k' y'. rewrite !lookup_insert. repeat case_decide; intros; simplify_eq; try done.
    + symmetry. eapply (co_one d Hd); eauto; congruence.
    + eapply (co_one d Hd); eauto; congruence.
    + by eapply (co_one d Hd).
Qed.

(** An idle worker takes a queued job: node, job, worker and lease change
    together. *)
Lemma take_consistent d d' w r r' j x x' n nd nd' i l :
  db_nodes d' = <[n := nd']> (db_nodes d) → db_jobs d' = <[j := x']> (db_jobs d) →
  db_workers d' = <[w := r']> (db_workers d) → db_leases d' = <[i := l]> (db_leases d) →
  consistent d →
  db_workers d !! w = Some r → r_running_job_id r = None → r_node_id r = n →
  db_jobs d !! j = Some x → j_status x = QUEUED → db_nodes d !! n = Some nd →
  db_leases d !! i = None → l_worker_id l = w → l_job_id l = j →
  r_node_id r' = n → r_running_job_id r' = Some j → r_status r' = BUSY →
  job_wf x' → j_resources x' = j_resources x → j_status x' = SCHEDULED →
  j_assigned_node_id x' = Some n →
  n_capacity nd' = n_capacity nd → resources_le (j_resources x) (n_available nd) →
  n_available nd' = resources_sub (n_available nd) (j_resources x) →
  consistent d'.
Proof.
  intros EN EJ EW EL Hd Hw Hrj Hrn Hx Hq Hnd Hi Hlw Hlj Hrn' Hrj' Hrs Hwf Hres Hsch Hasg Hcap Hle Hav.
  pose proof (job_wf_resources x (co_jobs d Hd j x Hx)) as Hxok.
  destruct (co_nodes d Hd n nd Hnd) as [[Hcok Hnwf] Huse].
  assert (∀ k y, db_workers d !! k = Some y → r_running_job_id y ≠ Some j) as Hnone.
  { intros k y Hy Hyj. destruct (co_held d Hd k y j Hy Hyj) as (x0 & Hx0 & _ & Hh).
    assert (x0 = x) as -> by congruence. by rewrite Hq in Hh. }
  assert (∀ dim m, held_dim (db_jobs d') (db_workers d') dim m =
    held_dim (db_jobs d) (db_workers d) dim m + if decide (m = n) then dim (j_resources x) else 0) as Hh.
  { intros dim m. rewrite EJ, EW, (held_dim_jobs (db_jobs d)).
    - rewrite (held_dim_worker _ _ _ _ _ r) by done. unfold holds_of. rewrite Hrj, Hrj', Hrn, Hrn', Hx.
      repeat case_decide; subst; try done; lia.
    - intros k y j' Hy Hyj. rewrite lookup_insert. case_decide; [subst j'|done].
      rewrite Hx. cbn. by rewrite Hres. }
  split; rewrite ?EN, ?EJ, ?EW.
  - intros k y. rewrite lookup_insert. case_decide; [by intros [= <-]|]. apply (co_jobs _ Hd).
  - intros k y. rewrite lookup_insert. unfold held. rewrite !Hh. case_decide; subst.
    + intros [= <-]. rewrite !decide_True by done. unfold node_row_ok, node_wf, in_use in *.
      unfold resources_le, resources_ok, resources_sub, held in *. rewrite Hcap, Hav. cbn in *.
      injection Huse as ???. split; [split_and!; lia|]. apply resources_ext; cbn; lia.
    + intros Hy. rewrite !decide_False by done. rewrite !Z.add_0_r. by apply (co_nodes _ Hd).
  - intros k y. rewrite lookup_insert. case_decide; [intros [= <-]; congruence|]. apply (co_idle _ Hd).
  - intros k y j'. rewrite lookup_insert. case_decide.
    + intros [= <-] E. simplify_eq. exists i, l. by rewrite EL, lookup_insert_eq.
    + intros Hy Hyj. destruct (co_lease_of d Hd k y j' Hy Hyj) as (i' & l' & Hl' & ? & ?).
      exists i', l'. rewrite EL, lookup_insert_ne; [done|congruence].
  - intros i' l'. rewrite EL, lookup_insert. case_decide.
    + intros [= <-]. exists r'. rewrite Hlw, Hlj, lookup_insert_eq. done.
    + intros Hl'. destruct (co_worker_of d Hd i' l' Hl') as (y & Hy & Hyj).
      exists y. split; [|done]. rewrite lookup_insert_ne; [done|]. intros E. congruence.
  - intros k y j'. rewrite lookup_insert. case_decide.
    + intros [= <-] E. simplify_eq. exists x'. rewrite lookup_insert_eq, Hsch. split_and!; try done. congruence.
    + intros Hy Hyj. rewrite lookup_insert_ne; [by eapply (co_held d Hd)|]. intros <-. by eapply Hnone.
  - intros j' y. rewrite lookup_insert. case_decide.
    + intros [= <-] _ _. subst j'. exists w, r'. by rewrite lookup_insert_eq.
    + intros Hy Ha Hs. destruct (co_active d Hd j' y Hy Ha Hs) as (k & z & Hz & Hzj).
      exists k, z. split; [|done]. rewrite lookup_insert_ne; [done|]. intros E. congruence.
  - intros k y k' y'. rewrite !lookup_insert. repeat case_decide; intros; simplify_eq; try done.
    + symmetry. eapply (co_one d Hd); eauto; congruence.
    + eapply (co_one d Hd); eauto; congruence.
    + by eapply (co_one d Hd).
Qed.

(** A node is deleted: its workers and their leases go with it, and the jobs
    placed on it lose their node. *)
Lemma delete_node_consistent n t : preserves consistent (delete_node n t).
Proof.
  intros d Hd. unfold delete_node.
  destruct (db_nodes d !! n) as [row|] eqn:Hrow; [|done]. case_bool_decide; [|done].
  set (d' := mkDb _ _ _ _ _ _ _).
  assert (∀ k y, db_jobs d' !! k = Some y → ∃ x, db_jobs d !! k = Some x ∧ y = unassign_from n x) as Hjob.
  { intros k y. cbn. rewrite lookup_fmap, fmap_Some. naive_solver. }
  assert (∀ dim m, m ≠ n → held_dim (db_jobs d') (db_workers d') dim m =
    held_dim (db_jobs d) (db_workers d) dim m) as Hh.
  { intros dim m Hm. rewrite (held_dim_jobs (db_jobs d)).
    - unfold held_dim. cbn. apply msum_filter. intros k r Hr HP. unfold holds_of.
      rewrite decide_False; [done|]. intros <-. apply HP. cbn. done.
    - intros k y j' Hy Hyj. cbn. rewrite lookup_fmap. destruct (db_jobs d !! j') as [x|]; [|done]. cbn.
      unfold unassign_from. case_bool_decide; by destruct x. }
  assert (∀ x, j_status (unassign_from n x) = j_status x ∧ (job_wf x → job_wf (unassign_from n x))) as Hun.
  { intros x. unfold unassign_from. case_bool_decide; [|done]. split; [by destruct x|].
    unfold job_wf, retries_ok, fields_ok. destruct x; cbn. destruct (_ : JobStatus); naive_solver. }
  assert (EN : db_nodes d' = delete n (db_nodes d)) by done.
  assert (EW : db_workers d' = workers_off n (db_workers d)) by done.
  assert (EL : db_leases d' = leases_of_workers (workers_off n (db_workers d)) (db_leases d)) by done.
  split; rewrite ?EN, ?EW, ?EL; unfold workers_off, leases_of_workers in *.
  - intros k y (x & Hx & ->)%Hjob. apply Hun. by eapply (co_jobs d Hd).
  - intros k y [Hne Hk]%lookup_delete_Some. unfold held. rewrite !Hh by done. by apply (co_nodes d Hd).
  - intros k r [Hk _]%map_lookup_filter_Some. by eapply (co_idle d Hd).
  - intros k r j [Hk Hr]%map_lookup_filter_Some Hj. destruct (co_lease_of d Hd k r j Hk Hj) as (i & l & Hl & <- & <-).
    exists i, l. split; [|done]. apply map_lookup_filter_Some. split; [done|]. exists r. by apply map_lookup_filter_Some.
  - intros i l [Hl [r Hr]]%map_lookup_filter_Some. exists r. split; [done|].
    apply map_lookup_filter_Some in Hr as [Hr _]. destruct (co_worker_of d Hd i l Hl) as (r' & Hr' & ?).
    cbn in *. congruence.
  - intros k r j [Hk Hr]%map_lookup_filter_Some Hj. destruct (co_held d Hd k r j Hk Hj) as (x & Hx & Ha & Hs).
    exists x. split_and!; [|done..]. cbn. rewrite lookup_fmap, Hx. cbn. f_equal. unfold unassign_from.
    rewrite bool_decide_eq_false_2; [done|]. rewrite Ha. cbn in Hr. congruence.
  - intros j y (x & Hx & ->)%Hjob. rewrite (proj1 (Hun x)). intros Ha Hs.
    assert (unassign_from n x = x) as E.
    { unfold unassign_from in *. case_bool_decide; [|done]. by destruct Hs. }
    rewrite E in Hs. destruct (co_active d Hd j x Hx Ha Hs) as (k & r & Hr & Hrj).
    exists k, r. split; [|done]. apply map_lookup_filter_Some. split; [done|]. cbn. intros <-.
    destruct (co_held d Hd k r j Hr Hrj) as (x0 & Hx0 & Hax & _). assert (x0 = x) as -> by congruence.
    unfold unassign_from in E. rewrite bool_decide_eq_true_2 in E by done. rewrite <- E in Hax. by destruct x.
  - intros k r k' r' [Hk _]%map_lookup_filter_Some [Hk' _]%map_lookup_filter_Some. by eapply (co_one d Hd).
Qed.
