(* ===== verification/Invariant.v ===== *)
(** Every service, run to completion without another writer in between, keeps
    the cluster consistent, also when it raises. *)
From S2P Require Import Prelude Values Job Node Scheduler Worker Db Prog Repos Services Cluster.
Local Open Scope Z_scope.

(** * The invariant *)

(** The identifiers in use were drawn by earlier calls of [uuid4]. *)
Record minted {E : Env} (d : db) (n : nat) : Prop := mkMinted {
  mi_jobs k : is_Some (db_jobs d !! k) → ∃ m, (m < n)%nat ∧ job_uuid k = uuid4 m;
  mi_nodes k : is_Some (db_nodes d !! k) → ∃ m, (m < n)%nat ∧ node_uuid k = uuid4 m;
  mi_workers k : is_Some (db_workers d !! k) → ∃ m, (m < n)%nat ∧ worker_uuid k = uuid4 m;
  mi_leases k : is_Some (db_leases d !! k) → ∃ m, (m < n)%nat ∧ lease_uuid k = uuid4 m;
}.

(** The part of the invariant the schema does not enforce by itself. *)
Definition sound {E : Env} (w : world) : Prop :=
  consistent (w_db w) ∧ minted (w_db w) (w_step w).

Definition good {E : Env} (w : world) : Prop := integrity (w_db w) ∧ sound w.

Section minted.
Context {E : Env}.

(** No table gains a key. *)
Lemma minted_shrink d d' n n' :
  (∀ k, is_Some (db_jobs d' !! k) → is_Some (db_jobs d !! k)) →
  (∀ k, is_Some (db_nodes d' !! k) → is_Some (db_nodes d !! k)) →
  (∀ k, is_Some (db_workers d' !! k) → is_Some (db_workers d !! k)) →
  (∀ k, is_Some (db_leases d' !! k) → is_Some (db_leases d !! k)) →
  (n ≤ n')%nat → minted d n → minted d' n'.
Proof.
  intros Hj Hn Hw Hl Hle [Mj Mn Mw Ml].
  split; intros k Hk; [apply Hj, Mj in Hk|apply Hn, Mn in Hk|apply Hw, Mw in Hk|apply Hl, Ml in Hk];
    destruct Hk as (m & ? & ?); exists m; (split; [lia|done]).
Qed.

Lemma uuid4_below k n : (∃ m, (m < n)%nat ∧ uuid4 k = uuid4 m) → (k < n)%nat.
Proof. intros (m & Hm & ->%(inj uuid4)). done. Qed.

Lemma fresh_job d n k : minted d n → (n ≤ k)%nat → db_jobs d !! mkJobId (uuid4 k) = None.
Proof.
  intros M Hk. apply eq_None_not_Some. intros H%(mi_jobs d n M)%uuid4_below. lia.
Qed.
Lemma fresh_node d n k : minted d n → (n ≤ k)%nat → db_nodes d !! mkNodeId (uuid4 k) = None.
Proof.
  intros M Hk. apply eq_None_not_Some. intros H%(mi_nodes d n M)%uuid4_below. lia.
Qed.
Lemma fresh_worker d n k : minted d n → (n ≤ k)%nat → db_workers d !! mkWorkerId (uuid4 k) = None.
Proof.
  intros M Hk. apply eq_None_not_Some. intros H%(mi_workers d n M)%uuid4_below. lia.
Qed.
Lemma fresh_lease d n k : minted d n → (n ≤ k)%nat → db_leases d !! mkLeaseId (uuid4 k) = None.
Proof.
  intros M Hk. apply eq_None_not_Some. intros H%(mi_leases d n M)%uuid4_below. lia.
Qed.

Lemma minted_le d n n' : (n ≤ n')%nat → minted d n → minted d n'.
Proof. by apply minted_shrink. Qed.
End minted.

(** A key written over an existing row, or a row kept by a filter, is no new key. *)
Lemma is_Some_insert_old {K V} `{Countable K} (m : gmap K V) k k' v :
  is_Some (m !! k') → is_Some (<[k' := v]> m !! k) → is_Some (m !! k).
Proof. intros ?. rewrite lookup_insert_is_Some. intros [->|[_ ?]]; done. Qed.

Section world_steps.
Context {E : Env} `{!Quiet E}.
Implicit Types (R : exn → world → Prop) (d : db).

Lemma wp_sound_le d n n' : (n ≤ n')%nat → sound (mkWorld d n) → sound (mkWorld d n').
Proof. intros ? [? ?]. split; [done|]. by eapply minted_le. Qed.

(** Integrity holds by the generic argument; the rest is shown by execution. *)
Lemma preserves_good {A} (m : prog A) :
  preserves (on_db integrity) m →
  (∀ d n, integrity d → sound (mkWorld d n) →
     wp m (λ _, sound) (λ _, sound) (mkWorld d n)) →
  preserves good m.
Proof.
  intros Hi Hs [d n] [Hint Hsnd]. specialize (Hi (mkWorld d n) Hint).
  specialize (Hs d n Hint Hsnd). unfold wp, good, on_db in *.
  by destruct (m (mkWorld d n)) as [w' [e|a]].
Qed.

Lemma quiet_keeps I : interference_keeps I.
Proof using All. intros n d. by rewrite quiet. Qed.

(** * Statements that go through *)

Lemma wp_record_for_job j ty Q R d n :
  fk_job d (j_id j) (j_tenant_id j) = true → j_tenant_id j ∈ db_tenants d →
  (∀ e evs k, (n ≤ k)%nat → Q e (mkWorld (set_events evs d) k)) →
  wp (record_for_job j ty) Q R (mkWorld d n).
Proof using All.
  intros Hfk Ht HQ. unfold record_for_job, EventRepository.save. wp_steps.
  unfold wp, insert_event. cbn. destruct (existsb _ _).
  - replace d with (set_events (db_events d) d) by (by destruct d). apply HQ. lia.
  - rewrite (proj2 (fk_tenant_spec _ _)), Hfk by done. apply HQ. lia.
Qed.

Lemma wp_record_integrity j ty Q R d n :
  integrity d → fk_job d (j_id j) (j_tenant_id j) = true → j_tenant_id j ∈ db_tenants d →
  (∀ e evs k, integrity (set_events evs d) → (n ≤ k)%nat → Q e (mkWorld (set_events evs d) k)) →
  wp (record_for_job j ty) Q R (mkWorld d n).
Proof using All.
  intros Hint Hfk Ht HQ. unfold record_for_job, EventRepository.save. wp_steps.
  set (ev := mkEvent _ _ _ _ _ _ _). pose proof (insert_event_integrity ev d Hint) as Hi.
  unfold wp, insert_event in *. cbn in *. destruct (existsb _ _).
  - replace d with (set_events (db_events d) d) in * by (by destruct d). apply HQ; [done|lia].
  - rewrite (proj2 (fk_tenant_spec _ _)), Hfk in * by done. apply HQ; [done|lia].
Qed.

Lemma wp_job_save x x' Q R d n :
  db_jobs d !! j_id x' = Some x → j_tenant_id x = j_tenant_id x' → job_int4 x' = true →
  (∀ m, j_assigned_node_id x' = Some m → fk_node d m (j_tenant_id x') = true) →
  Q tt (mkWorld (set_jobs (<[j_id x' := x']> (db_jobs d)) d) (S n)) →
  wp (JobRepository.save x') Q R (mkWorld d n).
Proof using All.
  intros Hx Ht Hi Hfk HQ. unfold JobRepository.save. wp_steps. unfold wp, upsert_job.
  rewrite Hi, Hx, bool_decide_eq_true_2 by done. cbn.
  rewrite (proj2 (fk_opt_spec _ _)); done.
Qed.

Lemma wp_node_save x x' Q R d n :
  db_nodes d !! n_id x' = Some x → n_tenant_id x = n_tenant_id x' → node_int4 x' = true →
  Q tt (mkWorld (set_nodes (<[n_id x' := x']> (db_nodes d)) d) (S n)) →
  wp (NodeRepository.save x') Q R (mkWorld d n).
Proof using All.
  intros Hx Ht Hi HQ. unfold NodeRepository.save. wp_steps. unfold wp, upsert_node.
  by rewrite Hi, Hx, bool_decide_eq_true_2.
Qed.

(** The foreign keys of a worker that goes on on its node with a job of its
    tenant or none. *)
Lemma wp_worker_save w Q R d n :
  w_tenant_id w ∈ db_tenants d → fk_node d (n_id (w_node w)) (w_tenant_id w) = true →
  (∀ x, w_running_job w = Some x → fk_job d (j_id x) (w_tenant_id w) = true) →
  (∀ i l, db_leases d !! i = Some l → l_worker_id l = w_id w → l_tenant_id l = w_tenant_id w) →
  Q tt (mkWorld (set_workers (<[w_id w := row_of_worker w]> (db_workers d)) d) (S n)) →
  wp (WorkerRepository.save w) Q R (mkWorld d n).
Proof using All.
  intros Ht Hn Hj Hl HQ. unfold WorkerRepository.save. wp_steps. unfold wp, upsert_worker. cbn.
  rewrite (proj2 (fk_tenant_spec _ _)), Hn by done. cbn.
  rewrite (proj2 (fk_opt_spec _ _)); cbn.
  2:{ intros j (x & Hx & ->)%fmap_Some. by apply Hj. }
  replace (tenant_referenced d (w_id w) (w_tenant_id w)) with false; [done|].
  symmetry. apply existsb_rows_false. intros i l Hi. apply andb_false_iff.
  case_bool_decide; [right|by left]. rewrite bool_decide_eq_true_2; eauto.
Qed.

Lemma wp_lease_save l Q R d n :
  db_leases d !! l_id l = None →
  (∀ i l', db_leases d !! i = Some l' → l_worker_id l' ≠ l_worker_id l ∧ l_job_id l' ≠ l_job_id l) →
  fk_worker d (l_worker_id l) (l_tenant_id l) = true → fk_job d (l_job_id l) (l_tenant_id l) = true →
  l_tenant_id l ∈ db_tenants d →
  Q tt (mkWorld (set_leases (<[l_id l := l]> (db_leases d)) d) (S n)) →
  wp (LeaseRepository.save l) Q R (mkWorld d n).
Proof using All.
  intros Hid Hu Hw Hj Ht HQ. unfold LeaseRepository.save. wp_steps. unfold wp, upsert_lease.
  replace (worker_taken d l) with false.
  2:{ symmetry. apply existsb_rows_false. intros i l' Hi. destruct (Hu i l' Hi).
      by rewrite bool_decide_eq_false_2. }
  replace (job_taken d l) with false.
  2:{ symmetry. apply existsb_rows_false. intros i l' Hi. destruct (Hu i l' Hi).
      by rewrite bool_decide_eq_false_2. }
  by rewrite Hw, Hj, (proj2 (fk_tenant_spec _ _)).
Qed.
End world_steps.

(** The database is as it was. *)
Ltac unchanged :=
  match goal with
  | H : sound (mkWorld ?d ?n) |- sound (mkWorld ?d _) => apply (wp_sound_le d n); [lia|exact H]
  end.

(** * Changes of one row *)

(** A status change that keeps a held job with its worker. *)
Lemma step_job_consistent d d' j x x' :
  db_nodes d' = db_nodes d → db_jobs d' = <[j := x']> (db_jobs d) →
  db_workers d' = db_workers d → db_leases d' = db_leases d →
  consistent d → db_jobs d !! j = Some x → job_wf x' → same_identity x x' →
  (holdable (j_status x) = true →
     j_assigned_node_id x' = j_assigned_node_id x ∧ holdable (j_status x') = true) →
  (active (j_status x') = true →
     j_assigned_node_id x' = j_assigned_node_id x ∧ active (j_status x) = true) →
  consistent d'.
Proof.
  intros EN EJ EW EL Hd Hx Hwf Hid Hhold Hact.
  eapply update_job_consistent; [done..| | |].
  - intros y Hy. assert (y = x) as -> by congruence. apply Hid.
  - intros k r Hr Hrj. destruct (co_held d Hd k r j Hr Hrj) as (y & Hy & Ha & Hh).
    assert (y = x) as -> by congruence. destruct (Hhold Hh) as [-> ?]. done.
  - intros Ha Hs. destruct (Hact Ha) as [E ?]. rewrite E in Hs. by apply (co_active d Hd j x).
Qed.

Section single_writes.
Context {E : Env} `{!Quiet E}.
Implicit Types (R : exn → world → Prop) (d : db).

(** A save writes its row or changes nothing. *)
Lemma wp_job_save_any x' Q R d n :
  Q tt (mkWorld (set_jobs (<[j_id x' := x']> (db_jobs d)) d) (S n)) →
  (∀ e, R e (mkWorld d (S n))) →
  wp (JobRepository.save x') Q R (mkWorld d n).
Proof using All.
  intros HQ HR. unfold JobRepository.save. wp_steps. unfold wp, upsert_job.
  destruct (job_int4 x'); cbn; [|done].
  destruct (db_jobs d !! j_id x'); [case_bool_decide|destruct (fk_tenant _ _)]; try done;
    by destruct (fk_opt _ _).
Qed.

Lemma wp_node_save_any x' Q R d n :
  Q tt (mkWorld (set_nodes (<[n_id x' := x']> (db_nodes d)) d) (S n)) →
  (∀ e, R e (mkWorld d (S n))) →
  wp (NodeRepository.save x') Q R (mkWorld d n).
Proof using All.
  intros HQ HR. unfold NodeRepository.save. wp_steps. unfold wp, upsert_node.
  destruct (node_int4 x'); cbn; [|done].
  destruct (db_nodes d !! n_id x'); [case_bool_decide|destruct (fk_tenant _ _)]; done.
Qed.

Lemma wp_worker_save_any w Q R d n :
  Q tt (mkWorld (set_workers (<[w_id w := row_of_worker w]> (db_workers d)) d) (S n)) →
  (∀ e, R e (mkWorld d (S n))) →
  wp (WorkerRepository.save w) Q R (mkWorld d n).
Proof using All.
  intros HQ HR. unfold WorkerRepository.save. wp_steps. unfold wp, upsert_worker.
  destruct (fk_tenant _ _); cbn; [|done]. destruct (fk_node _ _ _); cbn; [|done].
  destruct (fk_opt _ _); cbn; [|done]. by destruct (tenant_referenced _ _ _).
Qed.

Lemma wp_record_any j ty Q R d n :
  (∀ e evs k, (n ≤ k)%nat → Q e (mkWorld (set_events evs d) k)) →
  (∀ e k, (n ≤ k)%nat → R e (mkWorld d k)) →
  wp (record_for_job j ty) Q R (mkWorld d n).
Proof using All.
  intros HQ HR. unfold record_for_job, EventRepository.save. wp_steps.
  unfold wp, insert_event. cbn. destruct (existsb _ _).
  - replace d with (set_events (db_events d) d) by (by destruct d). apply HQ. lia.
  - destruct (fk_tenant _ _); cbn; [|apply HR; lia].
    destruct (fk_job _ _ _); cbn; [apply HQ|apply HR]; lia.
Qed.

Lemma sound_step_job d n n' x x' :
  (n ≤ n')%nat → sound (mkWorld d n) → db_jobs d !! j_id x' = Some x → job_wf x' →
  same_identity x x' →
  (holdable (j_status x) = true →
     j_assigned_node_id x' = j_assigned_node_id x ∧ holdable (j_status x') = true) →
  (active (j_status x') = true →
     j_assigned_node_id x' = j_assigned_node_id x ∧ active (j_status x) = true) →
  sound (mkWorld (set_jobs (<[j_id x' := x']> (db_jobs d)) d) n').
Proof using All.
  intros Hn [Hd Hm] Hx Hwf Hid Hh Ha. split.
  - by apply (step_job_consistent d _ (j_id x') x x').
  - eapply minted_shrink, Hm; try done. intros k. cbn. apply is_Some_insert_old. eauto.
Qed.

(** What a successful call of a job method does to consistency. *)
Definition safe_op (op : job_op) : bool :=
  match op with
  | OpStart _ | OpCancel | OpRequestCancellation _ | OpRetry => true
  | _ => false
  end.

Lemma safe_op_effect op j j' :
  safe_op op = true → run_op op j = (j', inr tt) →
  (holdable (j_status j) = true →
     j_assigned_node_id j' = j_assigned_node_id j ∧ holdable (j_status j') = true) ∧
  (active (j_status j') = true →
     j_assigned_node_id j' = j_assigned_node_id j ∧ active (j_status j) = true).
Proof using.
  intros Hs. destruct op; try done; job_unfold; job_cases j; intros [= <-]; done.
Qed.

Lemma sound_job_op d n n' op x x' :
  (n ≤ n')%nat → integrity d → sound (mkWorld d n) → db_jobs d !! j_id x = Some x →
  safe_op op = true → op_in_use op x → run_op op x = (x', inr tt) →
  sound (mkWorld (set_jobs (<[j_id x' := x']> (db_jobs d)) d) n').
Proof using All.
  intros Hn Hint Hs Hx Hop Huse Hrun. pose proof (run_op_sound op x) as Hid. rewrite Hrun in Hid.
  destruct Hid as [Hid _]. destruct (safe_op_effect op x x' Hop Hrun).
  eapply (sound_step_job d n n' x); try done.
  - destruct Hid as [-> _]. done.
  - eapply run_op_wf; [|done..]. by eapply co_jobs; [apply Hs|].
Qed.

Lemma select_job_Some j t d x :
  integrity d → select_job j t d = Some x →
  j_id x = j ∧ db_jobs d !! j_id x = Some x ∧ j_tenant_id x = t.
Proof using.
  unfold select_job, in_tenant. intros Hint. destruct (db_jobs d !! j) as [y|] eqn:Hy; [|done].
  case_bool_decide; [|done]. intros [= <-]. destruct (int_jobs d Hint j y Hy) as [<- _]. done.
Qed.

Lemma cancel_job_good j t : preserves good (cancel_job j t).
Proof using All.
  pose proof (quiet_keeps integrity). apply preserves_good; [unfold cancel_job; service_preserves|].
  intros d n Hint Hs. unfold cancel_job. wp_step.
  apply wp_job_get_by_id; [apply consistent_loadable, Hs|].
  destruct (select_job j t d) as [x|] eqn:Hx; [|apply wp_ret; unchanged].
  destruct (select_job_Some _ _ _ _ Hint Hx) as (_ & Hx' & _).
  destruct (is_running x) eqn:Hr.
  - wp_steps. destruct (request_cancellation _ x) as [x' [e|[]]] eqn:Hop; [unchanged|].
    wp_steps. apply wp_job_save_any; [wp_steps|intros; unchanged].
    by eapply (sound_job_op d n _ (OpRequestCancellation _)); [lia|..].
  - destruct (is_cancelling x) eqn:Hc; cbn [negb].
    + wp_steps. apply wp_job_save_any; [wp_steps|intros; unchanged].
      replace (set_jobs (<[j_id x := x]> (db_jobs d)) d) with d; [unchanged|].
      rewrite insert_id by done. by destruct d.
    + wp_steps. destruct (cancel x) as [x' [e|[]]] eqn:Hop; [unchanged|].
      wp_steps. apply wp_job_save_any; [wp_steps|intros; unchanged].
      eapply (sound_job_op d n _ OpCancel); [lia|done..| |done].
      split; [done|]. intros _ E'. unfold is_cancelling in Hc. by apply bool_decide_eq_false in Hc.
Qed.

Lemma retry_job_good j t : preserves good (retry_job j t).
Proof using All.
  pose proof (quiet_keeps integrity). apply preserves_good; [unfold retry_job; service_preserves|].
  intros d n Hint Hs. unfold retry_job. wp_step.
  apply wp_job_get_by_id; [apply consistent_loadable, Hs|].
  destruct (select_job j t d) as [x|] eqn:Hx; [|apply wp_ret; unchanged].
  destruct (select_job_Some _ _ _ _ Hint Hx) as (_ & Hx' & _).
  repeat (case_match; [apply wp_ret; unchanged|]).
  wp_steps. destruct (retry x) as [x' [e|[]]] eqn:Hop; [unchanged|].
  wp_steps. apply wp_job_save_any; [wp_steps|intros; unchanged].
  by eapply (sound_job_op d n _ OpRetry); [lia|..].
Qed.
End single_writes.

(** * Workers read from the database *)

(** [w] is what reading the worker row [r] of [d] gives. *)
Record read_worker (d : db) (r : worker_row) (w : worker) : Prop := mkReadWorker {
  rw_row : db_workers d !! w_id w = Some r;
  rw_back : row_of_worker w = r;
  rw_node : ∃ nd nm, db_nodes d !! r_node_id r = Some nd ∧ w_node w = set_name nm nd;
  rw_job : ∀ j, r_running_job_id r = Some j →
    ∃ x, db_jobs d !! j = Some x ∧ w_running_job w = Some x;
}.

Lemma hydrate_read d dr k r w :
  integrity d → db_workers d !! k = Some r → hydrate d dr r = Some w → read_worker d r w.
Proof.
  intros Hint Hk. destruct (int_workers d Hint k r Hk) as (Hid & _ & (nd & Hnd & Ht)%fk_node_spec & Hfk).
  unfold hydrate. rewrite Hnd. cbn. intros [= <-]. rewrite fk_opt_spec in Hfk.
  assert (∀ j, r_running_job_id r = Some j → ∃ x, db_jobs d !! j = Some x ∧ j_id x = j) as Hj.
  { intros j Hj. destruct (proj1 (fk_job_spec _ _ _) (Hfk j Hj)) as (x & Hx & _).
    exists x. split; [done|]. by apply (int_jobs d Hint) in Hx as [<- _]. }
  destruct (int_nodes d Hint _ _ Hnd) as [Hnid _].
  split; cbn.
  - by rewrite Hid.
  - unfold row_of_worker, w_tenant_id. destruct r as [i nid t s m j ls], nd; cbn in *. subst. f_equal.
    destruct j as [j|]; [|done]. cbn. destruct (Hj j eq_refl) as (x & -> & <-). done.
  - eauto.
  - intros j Hrj. rewrite Hrj. cbn. destruct (Hj j Hrj) as (x & Hx & _). eauto.
Qed.

Lemma select_worker_read d w t dr wk :
  integrity d → select_worker w t d ≫= hydrate d dr = Some wk →
  ∃ r, read_worker d r wk ∧ w_id wk = w ∧ r_tenant_id r = t.
Proof.
  intros Hint. unfold select_worker, in_tenant. destruct (db_workers d !! w) as [r|] eqn:Hr; [|done].
  case_bool_decide as Ht; [|done]. cbn. intros Hh. exists r.
  assert (read_worker d r wk) as Hrd by (by eapply hydrate_read). split_and!; try done.
  destruct (int_workers d Hint w r Hr) as [<- _]. rewrite <- (rw_back d r wk Hrd). done.
Qed.

(** All workers, each read once. *)
Definition read_workers (d : db) (ws : list worker) : Prop :=
  NoDup (w_id <$> ws) ∧ ∀ w, w ∈ ws → ∃ r, read_worker d r w.

Lemma hydrated_list_read d l ws :
  integrity d → l ≡ₚ rows (db_workers d) →
  Forall2 (λ r w, ∃ dr, hydrate d dr r = Some w) l ws → read_workers d ws.
Proof.
  intros Hint Hl Hf.
  assert (∀ r, r ∈ l → ∃ k, db_workers d !! k = Some r) as Hin.
  { intros r Hr. rewrite Hl in Hr. by apply elem_of_rows in Hr. }
  assert (Forall2 (λ r w, read_worker d r w) l ws) as Hf'.
  { clear Hl. induction Hf as [|r w l ws [dr Hh] _ IH]; constructor.
    - destruct (Hin r) as [k Hk]; [left|]. by eapply hydrate_read.
    - apply IH. intros r' Hr'. apply Hin. by right. }
  split.
  - replace (w_id <$> ws) with (r_id <$> l).
    { rewrite Hl. apply rows_keys. intros k r Hk. by destruct (int_workers d Hint k r Hk). }
    clear -Hf'. induction Hf' as [|r w l ws H _ IH]; [done|]. cbn. rewrite IH. f_equal.
    rewrite <- (rw_back d r w H). done.
  - intros w [i Hi]%list_elem_of_lookup. eapply Forall2_lookup_r in Hf' as (r & _ & ?); eauto.
Qed.

Lemma read_workers_tail d w ws : read_workers d (w :: ws) → read_workers d ws.
Proof.
  intros [Hnd Hin]. apply NoDup_cons in Hnd as [_ ?]. split; [done|]. intros v Hv. apply Hin. by right.
Qed.

Section fleet.
Context {E : Env} `{!Quiet E}.
Implicit Types (R : exn → world → Prop) (d : db).

Lemma wp_and_integrity {A} (m : prog A) Q R w :
  preserves (on_db integrity) m → integrity (w_db w) → wp m Q R w →
  wp m (λ a w', integrity (w_db w') ∧ Q a w') (λ e w', integrity (w_db w') ∧ R e w') w.
Proof using.
  intros Hm Hw Hwp. specialize (Hm w Hw). unfold wp, on_db in *.
  by destruct (m w) as [w' [e|a]].
Qed.

(** A loop over workers that were all read before it; [K] is what else the
    body keeps. *)
Lemma wp_for_workers (K : world → Prop) (body : worker → prog unit) ws R d n :
  (∀ w, preserves (on_db integrity) (body w)) →
  (∀ w ws d n r, integrity d → sound (mkWorld d n) → K (mkWorld d n) →
     read_workers d (w :: ws) → read_worker d r w →
     wp (body w) (λ _ s, sound s ∧ K s ∧ read_workers (w_db s) ws) R (mkWorld d n)) →
  integrity d → sound (mkWorld d n) → K (mkWorld d n) → read_workers d ws →
  wp (for_each ws body) (λ _ s, sound s ∧ K s) R (mkWorld d n).
Proof using.
  intros Hi Hb Hint Hs HK Hr. eapply wp_mono.
  - apply (wp_for (λ ws s, integrity (w_db s) ∧ sound s ∧ K s ∧ read_workers (w_db s) ws) R);
      [|by split_and!].
    intros w l' [d' n'] (Hint' & Hs' & HK' & Hr'). destruct (proj2 Hr' w) as [r Hrw]; [left|].
    eapply wp_mono; [apply wp_and_integrity; [apply Hi|done|by eapply Hb]|naive_solver..].
  - naive_solver.
  - done.
Qed.

Lemma sound_new_job d n n' x' :
  (n < n')%nat → integrity d → sound (mkWorld d n) → db_jobs d !! j_id x' = None →
  job_uuid (j_id x') = uuid4 n → job_wf x' → j_status x' = QUEUED →
  sound (mkWorld (set_jobs (<[j_id x' := x']> (db_jobs d)) d) n').
Proof using.
  intros Hn Hint [Hd [Mj Mn Mw Ml]] Hnone Hid Hwf Hq. split.
  - eapply (update_job_consistent d); try done.
    + congruence.
    + intros k r Hr Hj. destruct (co_held d Hd k r _ Hr Hj) as (x & Hx & _). congruence.
    + by rewrite Hq.
  - cbn in Mj, Mn, Mw, Ml. split; cbn; intros k Hk.
    + apply lookup_insert_is_Some in Hk as [<-|[_ (m & ? & ?)%Mj]]; [exists n|exists m]; by split; [lia|].
    + destruct (Mn k Hk) as (m & ? & ?). exists m. by split; [lia|].
    + destruct (Mw k Hk) as (m & ? & ?). exists m. by split; [lia|].
    + destruct (Ml k Hk) as (m & ? & ?). exists m. by split; [lia|].
Qed.

Lemma sound_events evs d n n' :
  (n ≤ n')%nat → sound (mkWorld d n) → sound (mkWorld (set_events evs d) n').
Proof using.
  intros Hn [Hd Hm]. split; [by apply (consistent_ext d)|]. by eapply minted_shrink, Hm.
Qed.

Lemma create_job_good r t c : resources_ok r → preserves good (create_job r t c).
Proof using All.
  intros Hr. pose proof (quiet_keeps integrity).
  apply preserves_good; [unfold create_job, record_for_job; service_preserves|].
  intros d n Hint Hs. unfold create_job. wp_steps.
  destruct (new_job _ _ _ _ _) as [e|x] eqn:Hnew; [unchanged|].
  destruct (new_job_wf _ _ _ _ _ _ Hr Hnew) as [Hwf Hsub].
  assert (j_id x = mkJobId (uuid4 n) ∧ j_tenant_id x = t) as [Hid Ht].
  { unfold new_job in Hnew. repeat case_match; simplify_eq. done. }
  wp_steps. destruct (queue x) as [x' [e|[]]] eqn:Hq; [unchanged|].
  pose proof (run_op_sound OpQueue x) as Hrun. cbn in Hrun. rewrite Hq in Hrun.
  destruct Hrun as [(Hid' & _ & Ht' & _) _].
  assert (j_status x' = QUEUED) as Hst.
  { revert Hq. job_unfold. job_cases x; try done; by intros [= <-]. }
  assert (job_wf x') as Hwf'.
  { eapply (run_op_wf OpQueue); [exact Hwf| |exact Hq]. by split. }
  assert (sound (mkWorld (set_jobs (<[j_id x' := x']> (db_jobs d)) d) (S (S (S n))))) as Hs'.
  { apply (sound_new_job d n); try done; [lia| |].
    - rewrite Hid', Hid. eapply fresh_job; [apply Hs|]. cbn. lia.
    - by rewrite Hid', Hid. }
  wp_steps. apply wp_job_save_any; [|intros; unchanged]. wp_steps. cbn [fst].
  apply wp_record_any; [|intros; unchanged].
  intros e evs k Hk. wp_steps. eapply sound_events; [|exact Hs']. lia.
Qed.

(** A node whose accounting is untouched. *)
Lemma sound_step_node d n n' x x' :
  (n ≤ n')%nat → sound (mkWorld d n) → db_nodes d !! n_id x' = Some x →
  n_capacity x' = n_capacity x → n_available x' = n_available x →
  sound (mkWorld (set_nodes (<[n_id x' := x']> (db_nodes d)) d) n').
Proof using.
  intros Hn [Hd Hm] Hx Hc Ha. destruct (co_nodes _ Hd _ _ Hx) as [Hok Huse]. cbn in *. split.
  - eapply (update_node_consistent d); try done.
    + unfold node_row_ok, node_wf in *. by rewrite Hc, Ha.
    + unfold in_use in *. by rewrite Hc, Ha.
  - eapply minted_shrink, Hm; try done. intros k. cbn. apply is_Some_insert_old. eauto.
Qed.

Lemma select_node_row_Some m t d x :
  integrity d → select_node_row m t d = Some x →
  n_id x = m ∧ db_nodes d !! n_id x = Some x ∧ n_tenant_id x = t.
Proof using.
  unfold select_node_row, in_tenant. intros Hint. destruct (db_nodes d !! m) as [y|] eqn:Hy; [|done].
  case_bool_decide; [|done]. intros [= <-]. destruct (int_nodes d Hint m y Hy) as [<- _]. done.
Qed.

Lemma heartbeat_node_good m t : preserves good (heartbeat_node m t).
Proof using All.
  pose proof (quiet_keeps integrity). apply preserves_good; [unfold heartbeat_node; service_preserves|].
  intros d n Hint Hs. unfold heartbeat_node. wp_step.
  apply wp_node_get_by_id; [apply consistent_loadable, Hs|].
  destruct (select_node_row m t d) as [x|] eqn:Hx; [|apply wp_ret; unchanged].
  destruct (select_node_row_Some _ _ _ _ Hint Hx) as (_ & Hx' & _). wp_steps.
  apply wp_node_save_any; [|intros; unchanged]. wp_steps.
  by apply (sound_step_node d n _ x); [lia|..].
Qed.

Lemma drain_node_good m t : preserves good (drain_node m t).
Proof using All.
  pose proof (quiet_keeps integrity). apply preserves_good; [unfold drain_node; service_preserves|].
  intros d n Hint Hs. unfold drain_node. wp_step.
  apply wp_node_get_by_id; [apply consistent_loadable, Hs|].
  destruct (select_node_row m t d) as [x|] eqn:Hx; [|apply wp_raise; unchanged].
  destruct (select_node_row_Some _ _ _ _ Hint Hx) as (_ & Hx' & _). wp_steps.
  apply wp_node_save_any; [|intros; unchanged]. wp_steps.
  by apply (sound_step_node d n _ x); [lia|..].
Qed.

Lemma remove_offline_node_good m t : preserves good (remove_offline_node m t).
Proof using All.
  pose proof (quiet_keeps integrity). apply preserves_good; [unfold remove_offline_node; service_preserves|].
  intros d n Hint Hs. unfold remove_offline_node. wp_step.
  apply wp_node_get_by_id; [apply consistent_loadable, Hs|].
  destruct (select_node_row m t d) as [x|] eqn:Hx; [|apply wp_raise; unchanged].
  wp_steps. destruct (is_alive _ x); [apply wp_raise; unchanged|].
  unfold NodeRepository.delete. wp_steps. destruct Hs as [Hd Hm].
  pose proof (delete_node_consistent m t d Hd) as Hc. unfold wp, delete_node in *.
  destruct (db_nodes d !! m) as [y|]; [case_bool_decide|];
    (split; [done|]; eapply minted_shrink, Hm; cbn; try (done || lia)).
  - intros k. rewrite lookup_fmap, fmap_is_Some. done.
  - intros k. rewrite lookup_delete_is_Some. tauto.
  - intros k [v [? _]%map_lookup_filter_Some]. eauto.
  - intros k [v [? _]%map_lookup_filter_Some]. eauto.
Qed.

Lemma held_no_worker d m :
  (∀ k r, db_workers d !! k = Some r → r_node_id r ≠ m) → held d m = mkResources 0 0 0.
Proof using.
  intros Hnone. unfold held, held_dim.
  assert (∀ dim, msum (holds_of (db_jobs d) dim m) (db_workers d) = 0) as H.
  { intros dim. apply msum_zero. intros k r Hr. unfold holds_of.
    rewrite decide_False; [done|]. by eapply Hnone. }
  by rewrite !H.
Qed.

Lemma create_node_good c t nm : resources_ok c → preserves good (create_node c t nm).
Proof using All.
  intros Hc. pose proof (quiet_keeps integrity).
  apply preserves_good; [unfold create_node; service_preserves|].
  intros d n Hint Hs. unfold create_node. wp_steps.
  destruct (register _ _ _ _ _ _) as [e|x] eqn:Hreg; [unchanged|].
  assert (n_id x = mkNodeId (uuid4 n) ∧ n_capacity x = c ∧ n_available x = c) as (Hid & Hcap & Hav).
  { unfold register, node_post_init in Hreg. cbn in Hreg.
    rewrite !Z.ltb_irrefl in Hreg. by injection Hreg as <-. }
  wp_steps. apply wp_node_save_any; [|intros; unchanged]. wp_steps.
  destruct Hs as [Hd [Mj Mn Mw Ml]]. cbn in *. split.
  - eapply (update_node_consistent d); try done; cbn.
    + split; [by rewrite Hcap|]. split; rewrite Hav, ?Hcap; [done|]. repeat split; lia.
    + rewrite held_no_worker.
      * unfold in_use. rewrite Hcap, Hav. apply resources_ext; cbn; lia.
      * intros k r Hr E'. destruct (int_workers d Hint k r Hr) as (_ & _ & (y & Hy & _)%fk_node_spec & _).
        rewrite E', Hid in Hy. rewrite (fresh_node d n n) in Hy; [done|by split|lia].
  - split; cbn; intros k Hk.
    + destruct (Mj k Hk) as (m & ? & ?). exists m. by split; [lia|].
    + apply lookup_insert_is_Some in Hk as [<-|[_ (m & ? & ?)%Mn]]; [exists n; rewrite Hid|exists m]; by split; [lia|].
    + destruct (Mw k Hk) as (m & ? & ?). exists m. by split; [lia|].
    + destruct (Ml k Hk) as (m & ? & ?). exists m. by split; [lia|].
Qed.

(** A worker that keeps its node and its job. *)
Lemma sound_step_worker d n n' r w :
  (n ≤ n')%nat → sound (mkWorld d n) → db_workers d !! w_id w = Some r →
  n_id (w_node w) = r_node_id r → j_id <$> w_running_job w = r_running_job_id r →
  (w_status w = IDLE → w_running_job w = None) →
  sound (mkWorld (set_workers (<[w_id w := row_of_worker w]> (db_workers d)) d) n').
Proof using.
  intros Hn [Hd Hm] Hr Hnode Hj Hi. cbn in *. split.
  - eapply (update_worker_consistent d _ (w_id w) r); try done; cbn; try done.
    intros ->%Hi. done.
  - eapply minted_shrink, Hm; try done. intros k. cbn. apply is_Some_insert_old. eauto.
Qed.

Lemma read_worker_row d r w :
  read_worker d r w → n_id (w_node w) = r_node_id r ∧ j_id <$> w_running_job w = r_running_job_id r ∧
    w_status w = r_status r ∧ w_tenant_id w = r_tenant_id r.
Proof using. intros H. by rewrite <- (rw_back d r w H). Qed.

Lemma read_worker_idle d n r w :
  sound (mkWorld d n) → read_worker d r w → w_status w = IDLE → w_running_job w = None.
Proof using.
  intros [Hd _] H Hi. destruct (read_worker_row d r w H) as (_ & Hj & Hst & _).
  pose proof (co_idle d Hd _ r (rw_row d r w H)) as Hc. rewrite <- Hst, <- Hj in Hc.
  specialize (Hc Hi). by destruct (w_running_job w).
Qed.

Lemma worker_heartbeat_good m t : preserves good (worker_heartbeat m t).
Proof using All.
  pose proof (quiet_keeps integrity). apply preserves_good; [unfold worker_heartbeat; service_preserves|].
  intros d n Hint Hs. unfold worker_heartbeat. wp_step.
  apply wp_worker_get_by_id; [apply consistent_loadable, Hs|]. intros dr k Hk.
  destruct (_ ≫= _) as [w|] eqn:Hw; [|apply wp_raise; unchanged].
  destruct (select_worker_read _ _ _ _ _ Hint Hw) as (r & Hr & _ & _).
  destruct (read_worker_row d r w Hr) as (Hn & Hj & Hst & _).
  destruct (negb _); [apply wp_raise; unchanged|]. wp_steps.
  apply wp_worker_save_any; [|intros; unchanged]. wp_steps.
  pose proof (read_worker_idle d n r w Hs Hr) as Hidle.
  assert (w_status (Worker.heartbeat (clock k) w) = IDLE → w_running_job (Worker.heartbeat (clock k) w) = None)
    as Hidle' by (by apply Worker.heartbeat_wf).
  destruct (Worker.heartbeat_fields (clock k) w) as (Ei & En & Ej).
  apply (sound_step_worker d n _ r); [lia|done|rewrite Ei; apply (rw_row d r w Hr)| | |done].
  - by rewrite En.
  - by rewrite Ej.
Qed.

(** Saving a worker on its node with the job it was read with, or none. *)
Lemma wp_save_read_worker w w' r Q R d n :
  integrity d → read_worker d r w → w_id w' = w_id w → w_node w' = w_node w →
  w_running_job w' = None ∨ w_running_job w' = w_running_job w →
  Q tt (mkWorld (set_workers (<[w_id w := row_of_worker w']> (db_workers d)) d) (S n)) →
  wp (WorkerRepository.save w') Q R (mkWorld d n).
Proof using All.
  intros Hint Hr Hid Hnode Hj HQ.
  destruct (int_workers d Hint _ _ (rw_row _ _ _ Hr)) as (_ & Ht & Hfk & Hfj).
  destruct (read_worker_row d r w Hr) as (En & Ej & _ & Et).
  unfold w_tenant_id in *. apply wp_worker_save; unfold w_tenant_id; rewrite ?Hnode, ?Hid, ?Et, ?En; try done.
  - intros x Hx. destruct Hj as [Hj|Hj]; [congruence|]. rewrite Hj in Hx. rewrite Hx in Ej. cbn in Ej.
    rewrite fk_opt_spec in Hfj. by apply Hfj.
  - intros i l Hl Hlw. destruct (int_leases d Hint i l Hl) as (_ & _ & (y & Hy & <-)%fk_worker_spec & _).
    rewrite Hlw, (rw_row _ _ _ Hr) in Hy. by injection Hy as ->.
Qed.

(** [K] survives when a worker is only marked OFFLINE. *)
Lemma wp_mark_dead_workers (K : world → Prop) R d n :
  (∀ d n n' w r, read_worker d r w → (n ≤ n')%nat → K (mkWorld d n) → K (mkWorld d n') ∧
     K (mkWorld (set_workers (<[w_id w := row_of_worker (Worker.offline w)]> (db_workers d)) d) n')) →
  (∀ d n n', (n ≤ n')%nat → K (mkWorld d n) → K (mkWorld d n')) →
  integrity d → sound (mkWorld d n) → K (mkWorld d n) →
  wp mark_dead_workers (λ _ s, sound s ∧ K s) R (mkWorld d n).
Proof using All.
  intros HKo HKn. pose proof (quiet_keeps integrity).
  intros Hint Hs HK. unfold mark_dead_workers. wp_step.
  apply wp_worker_list; [apply consistent_loadable, Hs|done|]. intros l ws k Hl Hf Hk.
  apply wp_for_workers; [unfold mark_dead_worker; intros; service_preserves| |done|unchanged|by eapply HKn|
    by eapply hydrated_list_read].
  clear d n Hint Hs HK l ws k Hl Hf Hk. intros w ws d n r Hint Hs HK Hrs Hr. unfold mark_dead_worker. wp_steps.
  destruct (Worker.is_alive _ w).
  { apply wp_ret. split_and!; [unchanged|by eapply HKn; [|done]; lia|]. by eapply read_workers_tail. }
  apply (wp_save_read_worker w _ r); [done..|by right|].
  destruct (read_worker_row d r w Hr) as (Hn & Hj & Hst & _).
  split_and!; [|by eapply (HKo d n _ w r); [done|lia|done]|].
  { apply (sound_step_worker d n _ r (Worker.offline w)); try done; [lia|apply (rw_row d r w Hr)]. }
  destruct Hrs as [[Hnw Hnd]%NoDup_cons Hin]. split; [done|]. intros v Hv.
  destruct (Hin v) as [rv Hrv]; [by right|]. exists rv. destruct Hrv as [H1 H2 H3 H4]. split; try done.
  cbn. rewrite lookup_insert_ne; [done|]. intros E'. apply Hnw, list_elem_of_fmap. exists v. by rewrite <- E'.
Qed.

Lemma mark_dead_workers_integrity :
  interference_keeps integrity → preserves (on_db integrity) mark_dead_workers.
Proof using. intros Hi. unfold mark_dead_workers, mark_dead_worker. service_preserves. Qed.

End fleet.
