(* ===== verification/Tenancy.v ===== *)
(** Tenant isolation (ADR 0064): whatever a request does, it leaves every row of
    every other tenant alone. *)
From S2P Require Import Prelude Values Job Node ApiKey Worker Db Prog Repos Keys Services Http Cluster Invariant.
Local Open Scope Z_scope.

(** * The rows of the other tenants *)

Definition foreign {K V} `{Countable K} (tenant_of : V → TenantId) (t : TenantId) (m : gmap K V) : gmap K V :=
  filter (λ kv, tenant_of kv.2 ≠ t) m.

(** No row of a tenant other than [t] differs between the two databases. *)
Record untouched (t : TenantId) (d0 d : db) : Prop := mkUntouched {
  un_tenants : db_tenants d = db_tenants d0;
  un_nodes : foreign n_tenant_id t (db_nodes d) = foreign n_tenant_id t (db_nodes d0);
  un_jobs : foreign j_tenant_id t (db_jobs d) = foreign j_tenant_id t (db_jobs d0);
  un_workers : foreign r_tenant_id t (db_workers d) = foreign r_tenant_id t (db_workers d0);
  un_leases : foreign l_tenant_id t (db_leases d) = foreign l_tenant_id t (db_leases d0);
  un_events : filter (λ e, e_tenant_id e ≠ t) (db_events d) = filter (λ e, e_tenant_id e ≠ t) (db_events d0);
  un_keys : foreign k_tenant_id t (db_keys d) = foreign k_tenant_id t (db_keys d0);
}.

#[global] Instance untouched_preorder t : PreOrder (untouched t).
Proof. split; [done|]. intros x y z [] []. split; congruence. Qed.

Section foreign.
Context {K V : Type} `{Countable K} (tenant_of : V → TenantId) (t : TenantId).
Implicit Types m : gmap K V.

Lemma foreign_lookup m k v : foreign tenant_of t m !! k = Some v ↔ m !! k = Some v ∧ tenant_of v ≠ t.
Proof. unfold foreign. by rewrite map_lookup_filter_Some. Qed.

Lemma foreign_ext m m' :
  (∀ k v, tenant_of v ≠ t → m !! k = Some v ↔ m' !! k = Some v) → foreign tenant_of t m = foreign tenant_of t m'.
Proof. intros Hm. apply map_eq. intros k. apply option_eq. intros v. rewrite !foreign_lookup. naive_solver. Qed.

Lemma foreign_insert m k v :
  tenant_of v = t → (∀ v0, m !! k = Some v0 → tenant_of v0 = t) → foreign tenant_of t (<[k := v]> m) = foreign tenant_of t m.
Proof.
  intros Hv Hold. apply foreign_ext. intros k' v' Hv'. rewrite lookup_insert. case_decide; [|done]. subst k'.
  split; [congruence|]. intros Hk. by apply Hold in Hk.
Qed.

Lemma foreign_shrink (P : K * V → Prop) `{∀ x, Decision (P x)} m :
  (∀ k v, m !! k = Some v → tenant_of v ≠ t → P (k, v)) → foreign tenant_of t (filter P m) = foreign tenant_of t m.
Proof.
  intros HP. apply foreign_ext. intros k v Hv. rewrite map_lookup_filter_Some. naive_solver.
Qed.

Lemma foreign_member m m0 k v :
  foreign tenant_of t m = foreign tenant_of t m0 → m !! k = Some v →
  (∀ v0, m0 !! k = Some v0 → tenant_of v0 = t) → tenant_of v = t.
Proof.
  intros Hm Hk H0. destruct (decide (tenant_of v = t)) as [|Hne]; [done|]. exfalso.
  assert (foreign tenant_of t m !! k = Some v) as Hf by (by apply foreign_lookup).
  rewrite Hm in Hf. apply foreign_lookup in Hf as [Hf _]. eauto.
Qed.
End foreign.

(** * What a program run for tenant [t] keeps *)

(** The state of such a program that started from [d0] after [n0] effects. *)
Record confined {E : Env} (t : TenantId) (d0 : db) (n0 : nat) (w : world) : Prop := mkConfined {
  cf_integrity : integrity (w_db w);
  cf_untouched : untouched t d0 (w_db w);
  cf_steps : (n0 ≤ w_step w)%nat;
}.

(** [m] keeps [I], raising or not, and what it returns satisfies [P]. *)
Definition returns {S X A} (I : S → Prop) (m : stM S X A) (P : A → Prop) : Prop :=
  triple I m (λ a s, I s ∧ P a) (λ _, I).

Section returns_rules.
Context {S X : Type} (I : S → Prop).

Lemma returns_ret {A} (a : A) (P : A → Prop) : P a → returns I (mret a : stM S X A) P.
Proof. by intros HP s Hs. Qed.

Lemma returns_raise {A} (e : X) (P : A → Prop) : returns I (raise e : stM S X A) P.
Proof. by intros s Hs. Qed.

Lemma returns_bind {A B} (m : stM S X A) (k : A → stM S X B) (P : A → Prop) (P' : B → Prop) :
  returns I m P → (∀ a, P a → returns I (k a) P') → returns I (m ≫= k) P'.
Proof.
  intros Hm Hk s Hs. specialize (Hm s Hs). unfold mbind, stM_bind.
  destruct (m s) as [s' [e|a]]; [done|]. destruct Hm as [Hs' HP]. by apply Hk.
Qed.

Lemma returns_try {A} (m : stM S X A) h (P : A → Prop) :
  returns I m P → (∀ e k, h e = Some k → returns I k P) → returns I (try_except m h) P.
Proof.
  intros Hm Hh s Hs. specialize (Hm s Hs). unfold try_except.
  destruct (m s) as [s' [e|a]]; [|done]. destruct (h e) as [k|] eqn:He; [|done]. by apply (Hh e k He).
Qed.

Lemma returns_weaken {A} (m : stM S X A) (P P' : A → Prop) :
  returns I m P → (∀ a, P a → P' a) → returns I m P'.
Proof. intros Hm HP s Hs. specialize (Hm s Hs). destruct (m s) as [s' [e|a]]; naive_solver. Qed.

Lemma returns_preserves {A} (m : stM S X A) (P : A → Prop) : returns I m P → preserves I m.
Proof. intros Hm s Hs. specialize (Hm s Hs). destruct (m s) as [s' [e|a]]; naive_solver. Qed.

Lemma preserves_of_returns {A} (m : stM S X A) : returns I m (λ _, True) → preserves I m.
Proof. apply returns_preserves. Qed.

Lemma preserves_returns {A} (m : stM S X A) : preserves I m → returns I m (λ _, True).
Proof. intros Hm s Hs. specialize (Hm s Hs). destruct (m s) as [s' [e|a]]; naive_solver. Qed.
End returns_rules.

Create HintDb tenancy discriminated.

Section statements.
Context {E : Env} `{!Quiet E} (t : TenantId) (d0 : db) (n0 : nat).
Abbreviation I := (confined t d0 n0).

(** A statement that keeps the schema's constraints and the rows of the others. *)
Lemma statement_confined {A} (s : sql A) :
  preserves integrity s → (∀ d, integrity d → untouched t d0 d → untouched t d (s d).1) → preserves I (statement s).
Proof.
  intros Hi Hu [d n] [Hd Hun Hn]. unfold statement. rewrite quiet. cbn in *. specialize (Hi d Hd). specialize (Hu d Hd Hun).
  destruct (s d) as [d' [e|a]]; cbn in *; (split; cbn; [done|by etransitivity|lia]).
Qed.

Lemma select_confined {A} (f : db → A) (P : A → Prop) :
  (∀ d, integrity d → untouched t d0 d → P (f d)) → returns I (statement (gets f)) P.
Proof.
  intros HP [d n] [Hd Hun Hn]. unfold statement. rewrite quiet. cbn in *. split; [|by apply HP].
  split; cbn; [done..|lia].
Qed.

Lemma utc_now_confined : preserves I utc_now.
Proof. intros w []. split; cbn; [done..|lia]. Qed.
Lemma new_uuid_confined : returns I new_uuid (λ u, ∃ m, (n0 ≤ m)%nat ∧ u = uuid4 m).
Proof. intros w []. split; [split; cbn; [done..|lia]|eauto]. Qed.
Lemma new_secret_confined : preserves I new_secret.
Proof. intros w []. split; cbn; [done..|lia]. Qed.
Lemma draw_name_confined : preserves I draw_name.
Proof. intros w []. split; cbn; [done..|lia]. Qed.
Lemma unordered_confined {A} (l : list A) : returns I (unordered l) (λ l', l' ≡ₚ l).
Proof. intros w []. split; [split; cbn; [done..|lia]|apply row_order_perm]. Qed.
Lemma of_sum_confined {A} (r : exn + A) (P : A → Prop) : (∀ a, r = inr a → P a) → returns I (of_sum r) P.
Proof. intros HP w Hw. destruct r; [done|]. cbn. auto. Qed.
Lemma on_object_confined {Y A} (m : stM Y exn A) y (P : Y * A → Prop) :
  (∀ y' a, m y = (y', inr a) → P (y', a)) → returns I (on_object m y) P.
Proof. intros HP w Hw. unfold on_object. destruct (m y) as [y' [e|a]]; [done|]. cbn. auto. Qed.

Lemma upsert_job_confined j : j_tenant_id j = t → preserves I (statement (upsert_job j)).
Proof.
  intros Ht. apply statement_confined; [auto with db|]. intros d Hd _. unfold upsert_job.
  destruct (job_int4 j); [|done]. cbn. destruct (db_jobs d !! j_id j) as [old|] eqn:Ho.
  - case_bool_decide; [|done]. destruct (fk_opt _ _); [|done]. split; cbn; try done.
    apply foreign_insert; [done|]. intros v Hv. congruence.
  - destruct (fk_tenant _ _); [|done]. destruct (fk_opt _ _); [|done]. split; cbn; try done.
    apply foreign_insert; [done|]. intros v Hv. congruence.
Qed.

Lemma upsert_node_confined n : n_tenant_id n = t → preserves I (statement (upsert_node n)).
Proof.
  intros Ht. apply statement_confined; [auto with db|]. intros d Hd _. unfold upsert_node.
  destruct (node_int4 n); [|done]. cbn. destruct (db_nodes d !! n_id n) as [old|] eqn:Ho.
  - case_bool_decide; [|done]. split; cbn; try done. apply foreign_insert; [done|]. intros v Hv. congruence.
  - destruct (fk_tenant _ _); [|done]. split; cbn; try done. apply foreign_insert; [done|]. intros v Hv. congruence.
Qed.

(** The identifier of a worker that is not another tenant's. *)
Definition own_worker (w : WorkerId) : Prop := ∀ r, db_workers d0 !! w = Some r → r_tenant_id r = t.

Lemma upsert_worker_confined r :
  r_tenant_id r = t → own_worker (r_id r) → preserves I (statement (upsert_worker r)).
Proof.
  intros Ht Hown. apply statement_confined; [auto with db|]. intros d Hd Hun. unfold upsert_worker.
  repeat match goal with |- context [if ?b then _ else _] => destruct b; [done|] end.
  split; cbn; try done. apply foreign_insert; [done|]. intros v Hv.
  eapply foreign_member; [apply Hun|done|done].
Qed.

Lemma update_lease_confined i e : preserves I (statement (update_lease_expiry i t e)).
Proof.
  apply statement_confined; [auto with db|]. intros d Hd _. unfold update_lease_expiry.
  destruct (db_leases d !! i) as [l|] eqn:Hl; [|done]. case_bool_decide; [|done]. split; cbn; try done.
  apply foreign_insert; [done|]. intros v Hv. congruence.
Qed.

Lemma delete_lease_confined j : preserves I (statement (delete_lease j t)).
Proof.
  apply statement_confined; [auto with db|]. intros d Hd _. split; cbn; try done.
  apply foreign_shrink. intros k l _ Ht. cbn. unfold lease_matches_job. by rewrite (bool_decide_eq_false_2 _ Ht), andb_false_r.
Qed.

Lemma insert_event_confined e : e_tenant_id e = t → preserves I (statement (insert_event e)).
Proof.
  intros Ht. apply statement_confined; [auto with db|]. intros d Hd _. unfold insert_event.
  destruct (existsb _ _); [done|]. destruct (fk_tenant _ _); [|done]. destruct (fk_job _ _ _); [|done]. split; cbn; try done.
  rewrite filter_app, filter_cons_False, filter_nil, app_nil_r; [done|]. by intros [].
Qed.

Lemma upsert_key_confined k : k_tenant_id k = t → preserves I (statement (upsert_key k)).
Proof.
  intros Ht. apply statement_confined; [auto with db|]. intros d Hd _. unfold upsert_key.
  destruct (db_keys d !! k_id k) as [old|] eqn:Ho.
  - case_bool_decide; [|done]. split; cbn; try done. apply foreign_insert; [cbn; congruence|]. intros v Hv. congruence.
  - repeat match goal with |- context [if ?b then _ else _] => destruct b; [done|] end.
    split; cbn; try done. apply foreign_insert; [done|]. intros v Hv. congruence.
Qed.

(** Deleting a node takes workers, leases and assignments of its own tenant
    with it. *)
Lemma delete_node_confined n : preserves I (statement (delete_node n t)).
Proof.
  apply statement_confined; [auto with db|]. intros d Hd _. unfold delete_node.
  destruct (db_nodes d !! n) as [nd|] eqn:Hn; [|done]. case_bool_decide as Ht; [|done]. split; cbn; try done.
  - apply foreign_ext. intros k v Hv. rewrite lookup_delete_Some. split; [naive_solver|]. intros Hk. split; [|done].
    intros <-. congruence.
  - apply foreign_ext. intros k v Hv. rewrite lookup_fmap, fmap_Some. unfold unassign_from. split.
    + intros (x & Hx & Hxv). case_bool_decide as Ha; [|by subst]. exfalso. apply Hv. subst v. cbn.
      destruct (int_jobs d Hd k x Hx) as (_ & _ & _ & Hfk). rewrite Ha in Hfk. cbn in Hfk.
      apply fk_node_spec in Hfk as (nd' & Hnd' & <-). congruence.
    + intros Hx. exists v. split; [done|]. case_bool_decide as Ha; [|done]. exfalso. apply Hv.
      destruct (int_jobs d Hd k v Hx) as (_ & _ & _ & Hfk). rewrite Ha in Hfk. cbn in Hfk.
      apply fk_node_spec in Hfk as (nd' & Hnd' & <-). congruence.
  - apply foreign_shrink. intros k r Hr Hv. cbn. intros E'. apply Hv.
    destruct (int_workers d Hd k r Hr) as (_ & _ & Hfk & _). rewrite E' in Hfk.
    apply fk_node_spec in Hfk as (nd' & Hnd' & <-). congruence.
  - apply foreign_shrink. intros k l Hl Hv. cbn.
    destruct (int_leases d Hd k l Hl) as (_ & _ & (r & Hr & Htr)%fk_worker_spec & _).
    exists r. apply map_lookup_filter_Some. split; [done|]. cbn. intros E'. apply Hv. rewrite <- Htr.
    destruct (int_workers d Hd _ r Hr) as (_ & _ & Hfk & _). rewrite E' in Hfk.
    apply fk_node_spec in Hfk as (nd' & Hnd' & <-). congruence.
Qed.
End statements.

#[export] Hint Resolve utc_now_confined new_secret_confined draw_name_confined upsert_job_confined
  upsert_node_confined upsert_worker_confined update_lease_confined delete_lease_confined
  insert_event_confined upsert_key_confined delete_node_confined preserves_returns preserves_ret preserves_raise : tenancy.

(** Walk through a program that only reads, or whose writes are in the database
    of lemmas. *)
Ltac iso_step :=
  lazymatch goal with
  | |- preserves _ (_ ≫= _) => apply preserves_bind; [|intros]
  | |- preserves _ (match ?x with _ => _ end) => destruct x
  | |- preserves _ (if ?b then _ else _) => destruct b
  | |- preserves _ (try_except _ _) => apply preserves_try; [|intros]
  | |- preserves _ (statement (gets _)) => apply (returns_preserves _ _ (λ _, True)); by apply select_confined
  | |- preserves _ (unordered _) => eapply returns_preserves; apply unordered_confined
  | |- preserves _ (of_sum _) => apply (returns_preserves _ _ (λ _, True)); by apply of_sum_confined
  | |- preserves _ (on_object _ _) => apply (returns_preserves _ _ (λ _, True)); by apply on_object_confined
  | |- preserves _ new_uuid => eapply returns_preserves; apply new_uuid_confined
  | |- preserves _ _ => solve [eauto 3 with tenancy]
  end.

Section repositories.
Context {E : Env} `{!Quiet E} (t : TenantId) (d0 : db) (n0 : nat).
Abbreviation I := (confined t d0 n0).

Lemma load_each_confined {A B} (f : A → prog B) l : (∀ x, preserves I (f x)) → preserves I (load_each f l).
Proof. intros Hf. induction l as [|x l IH]; cbn; repeat (first [apply Hf|apply IH|iso_step]). Qed.

Lemma load_some_confined {A B} (f : A → prog (option B)) l : (∀ x, preserves I (f x)) → preserves I (load_some f l).
Proof. intros Hf. induction l as [|x l IH]; cbn; repeat (first [apply Hf|apply IH|iso_step]). Qed.

Lemma job_read j : returns I (JobRepository.get_by_id j t) (λ o, ∀ x, o = Some x → j_tenant_id x = t).
Proof.
  unfold JobRepository.get_by_id. eapply returns_bind.
  { apply (select_confined _ _ _ _ (λ o, ∀ x, o = Some x → j_tenant_id x = t)). intros d _ _ x Hx.
    unfold select_job, in_tenant in Hx. destruct (db_jobs d !! j); [|done]. case_bool_decide; [|done]. congruence. }
  cbn beta. intros o Ho. unfold JobRepository.load. destruct o as [row|]; [|by apply returns_ret].
  eapply returns_bind; [apply (of_sum_confined _ _ _ _ (λ x, x = row))|].
  - intros x. unfold JobRepository._to_entity, job_post_init. destruct (load_resources _); [done|].
    by repeat match goal with |- context [if ?b then _ else _] => destruct b end; try done; intros [= <-].
  - cbn beta. intros x ->. apply returns_ret. intros y [= <-]. by apply Ho.
Qed.

Lemma node_entity_same row n : NodeRepository._to_entity row = inr n → n = row.
Proof.
  unfold NodeRepository._to_entity, node_post_init. destruct (load_resources _); [done|]. destruct (load_resources _); [done|].
  by repeat match goal with |- context [if ?b then _ else _] => destruct b end; try done; intros [= <-].
Qed.

Lemma node_read n : returns I (NodeRepository.get_by_id n t) (λ o, ∀ x, o = Some x → n_tenant_id x = t).
Proof.
  unfold NodeRepository.get_by_id. eapply returns_bind.
  { apply (select_confined _ _ _ _ (λ o, ∀ x, o = Some x → n_tenant_id x = t)). intros d _ _ x Hx.
    unfold select_node_row, in_tenant in Hx. destruct (db_nodes d !! n); [|done]. case_bool_decide; [|done]. congruence. }
  cbn beta. intros o Ho. unfold NodeRepository.load. destruct o as [row|]; [|by apply returns_ret].
  eapply returns_bind; [apply (of_sum_confined _ _ _ _ (λ x, x = row)), node_entity_same|].
  cbn beta. intros x ->. apply returns_ret. intros y [= <-]. by apply Ho.
Qed.

(** A worker object this program may save. *)
Record own (w : worker) : Prop := mkOwn {
  own_tenant : w_tenant_id w = t;
  own_id : own_worker t d0 (w_id w);
  own_job x : w_running_job w = Some x → j_tenant_id x = t;
}.

(** Reading a worker of the tenant: its row, its node and its job belong to the
    tenant too, and nothing changes in between. *)
Lemma worker_entity_read r d n :
  integrity d → untouched t d0 d → (n0 ≤ n)%nat → db_workers d !! r_id r = Some r → r_tenant_id r = t →
  wp (WorkerRepository._to_entity r) (λ o w, I w ∧ ∀ wk, o = Some wk → own wk) (λ _, I) (mkWorld d n).
Proof.
  intros Hint Hun Hn Hr Ht. destruct (int_workers d Hint _ r Hr) as (_ & _ & Hfn & Hfj).
  rewrite Ht in Hfn, Hfj. apply fk_node_spec in Hfn as (nd & Hnd & Htn).
  unfold WorkerRepository._to_entity. wp_step. apply wp_gets. rewrite Hnd. wp_steps.
  destruct (WorkerRepository._node_from_row _ _) as [e|n'] eqn:Hn'; [by split; cbn; try lia|].
  apply node_entity_same in Hn'. subst n'.
  assert (own_worker t d0 (r_id r)) as Hown.
  { intros r0 Hr0. destruct (decide (r_tenant_id r0 = t)) as [|Hne]; [done|]. exfalso.
    assert (foreign r_tenant_id t (db_workers d) !! r_id r = Some r0) as Hf.
    { rewrite (un_workers _ _ _ Hun). by apply foreign_lookup. }
    apply foreign_lookup in Hf as [Hf _]. congruence. }
  wp_step. unfold WorkerRepository.running_job_of. destruct (r_running_job_id r) as [j|].
  2:{ wp_steps. split; [split; cbn; [done..|lia]|]. intros wk [= <-]. by split. }
  cbn in Hfj. apply fk_job_spec in Hfj as (x & Hx & Htx). wp_step. apply wp_gets. rewrite Hx. wp_steps.
  destruct (WorkerRepository._job_from_row x) as [e|x'] eqn:Hx'; [by split; cbn; try lia|].
  wp_steps. split; [split; cbn; [done..|lia]|]. intros wk [= <-]. split; cbn; [done..|].
  intros y [= <-]. revert Hx'. unfold WorkerRepository._job_from_row, JobRepository._to_entity, job_post_init.
  destruct (load_resources _); [done|].
  by repeat match goal with |- context [if ?b then _ else _] => destruct b end; try done; intros [= <-].
Qed.

Lemma worker_read w : returns I (WorkerRepository.get_by_id w t) (λ o, ∀ wk, o = Some wk → own wk).
Proof.
  intros [d n] [Hint Hun Hn]. cbn in *. change (wp (WorkerRepository.get_by_id w t)
    (λ o w, I w ∧ ∀ wk, o = Some wk → own wk) (λ _, I) (mkWorld d n)).
  unfold WorkerRepository.get_by_id. wp_step. apply wp_gets. unfold WorkerRepository.load, select_worker, in_tenant.
  destruct (db_workers d !! w) as [r|] eqn:Hr; [case_bool_decide as Ht|].
  - pose proof (int_workers d Hint w r Hr) as [Hid _]. apply worker_entity_read; [done..|lia|by rewrite Hid|done].
  - wp_steps. split; [split; cbn; [done..|lia]|done].
  - wp_steps. split; [split; cbn; [done..|lia]|done].
Qed.

Lemma worker_of_node_read n : returns I (WorkerRepository.get_by_node_id n t) (λ o, ∀ wk, o = Some wk → own wk).
Proof.
  intros [d k] [Hint Hun Hk]. cbn in *. change (wp (WorkerRepository.get_by_node_id n t)
    (λ o w, I w ∧ ∀ wk, o = Some wk → own wk) (λ _, I) (mkWorld d k)).
  unfold WorkerRepository.get_by_node_id. wp_step. apply wp_fetchone. intros o k' Ho Hk'. unfold WorkerRepository.load.
  destruct o as [r|]; [|wp_steps; split; [split; cbn; [done..|lia]|done]].
  apply list_elem_of_filter in Ho as [[_ Ht] [i Hi]%elem_of_rows].
  pose proof (int_workers d Hint i r Hi) as [Hid _]. apply worker_entity_read; [done..|lia|by rewrite Hid|done].
Qed.

Lemma worker_save w : own w → preserves I (WorkerRepository.save w).
Proof. intros [Ht Hid _]. by apply upsert_worker_confined. Qed.

Lemma fetchone_confined {A} (f : db → list A) : preserves I (fetchone f).
Proof. unfold fetchone, select_rows. repeat iso_step. Qed.

Lemma event_save j ty : j_tenant_id j = t → preserves I (record_for_job j ty).
Proof.
  intros Ht. unfold record_for_job, EventRepository.save. repeat iso_step.
Qed.
End repositories.

Section services.
Context {E : Env} `{!Quiet E} (t : TenantId) (d0 : db) (n0 : nat).
Abbreviation I := (confined t d0 n0).

(** ** Objects keep their tenant *)

Lemma job_op_tenant op x x' : run_op op x = (x', inr tt) → j_tenant_id x' = j_tenant_id x.
Proof. intros H. pose proof (run_op_sound op x) as Hs. rewrite H in Hs. by destruct Hs as [(_ & _ & ? & _) _]. Qed.

Lemma job_op_confined op x :
  j_tenant_id x = t → returns I (on_object (run_op op) x) (λ y, j_tenant_id (y.1) = t).
Proof. intros Ht. apply on_object_confined. intros x' [] H. cbn. by rewrite (job_op_tenant op x x' H). Qed.

Lemma own_recover w : own t d0 w → own t d0 (Worker.recover w).
Proof. by intros []. Qed.

Lemma own_start now w w' x : own t d0 w → Worker.start now w = (w', inr x) → own t d0 w'.
Proof.
  intros [Ht Hid Hj] Hs. rewrite Worker.start_spec in Hs. destruct (w_running_job w) as [y|] eqn:Hy; [|done].
  destruct (Job.start now y) as [y' [e|[]]] eqn:Hrun; [done|]. injection Hs as <- <-. split; [done..|].
  intros z [= <-]. rewrite (job_op_tenant (OpStart now) y y' Hrun). by apply Hj.
Qed.

Lemma own_finish op w w' x :
  own t d0 w → Worker.finish (run_op op) w = (w', inr x) → own t d0 w' ∧ j_tenant_id x = t.
Proof.
  intros Ho Hf. pose proof (own_recover w Ho). destruct Ho as [Ht Hid Hj]. rewrite Worker.finish_spec in Hf.
  destruct (w_running_job w) as [y|] eqn:Hy; [|done].
  destruct (run_op op y) as [y' [e|[]]] eqn:Hrun; [done|]. injection Hf as <- <-. split; [done|].
  rewrite (job_op_tenant op y y' Hrun). by apply Hj.
Qed.

Lemma release_tenant r n n' u : release r n = (n', inr u) → n_tenant_id n' = n_tenant_id n.
Proof.
  unfold release, assign_available. stM_unfold. destruct (new_resources _ _ _); [done|]. by intros [= <- _].
Qed.

(** Giving resources back to a node of the tenant. *)
Lemma release_confined r n :
  n_tenant_id n = t → preserves I (x ← on_object (release r) n; NodeRepository.save (x.1)).
Proof.
  intros Ht. apply preserves_of_returns. eapply returns_bind.
  - apply (on_object_confined _ _ _ _ _ (λ x, n_tenant_id (x.1) = t)). intros n' u H. cbn. by rewrite (release_tenant r n n' u H).
  - cbn beta. intros x Hx. apply preserves_returns. unfold NodeRepository.save. by apply upsert_node_confined.
Qed.

(** ** Leases *)

Lemma renew_lease_confined w l dur : preserves I (renew_lease w l t dur).
Proof.
  unfold renew_lease, LeaseRepository.get_by_worker_id, LeaseRepository.renew.
  apply preserves_bind; [apply fetchone_confined|]. intros o. repeat iso_step.
Qed.

Lemma release_lease_confined w l : preserves I (release_lease w l t).
Proof.
  unfold release_lease, LeaseRepository.get_by_worker_id. apply preserves_bind; [apply fetchone_confined|].
  intros [x|]; [|repeat iso_step]. destruct (negb _); [repeat iso_step|].
  apply preserves_bind; [eapply returns_preserves, worker_read|]. intros [wk|]; [|repeat iso_step].
  apply preserves_of_returns; eapply returns_bind; [apply job_read|]. cbn beta. intros [y|] Hy; [|apply returns_raise].
  apply preserves_returns. unfold LeaseRepository.delete. repeat first [apply event_save; eauto|iso_step].
Qed.

(** ** Jobs *)

Lemma create_job_confined r c : preserves I (create_job r t c).
Proof.
  unfold create_job. apply preserves_bind; [iso_step|]. intros id. apply preserves_bind; [iso_step|]. intros now.
  apply preserves_of_returns; eapply returns_bind; [apply (of_sum_confined _ _ _ _ (λ x, j_tenant_id x = t))|].
  - intros x. unfold new_job, job_post_init. cbn. by repeat case_match; intros; simplify_eq/=.
  - cbn beta. intros x Hx. eapply returns_bind; [by apply (job_op_confined OpQueue)|].
    cbn beta. intros y Hy. apply preserves_returns. unfold JobRepository.save.
    repeat first [by apply event_save|iso_step].
Qed.

Lemma save_job_confined {A} x (r : A) : j_tenant_id x = t → preserves I (JobRepository.save x ;; mret r).
Proof. intros Ht. unfold JobRepository.save. repeat iso_step. Qed.

Lemma cancel_job_confined j : preserves I (cancel_job j t).
Proof.
  unfold cancel_job. apply preserves_of_returns; eapply returns_bind; [apply job_read|]. cbn beta. intros [x|] Hx; [|by apply returns_ret].
  specialize (Hx x eq_refl). eapply (returns_bind _ _ _ (λ y, j_tenant_id y = t)).
  - destruct (is_running x); [|destruct (negb _)].
    + eapply returns_bind; [apply preserves_returns, utc_now_confined|]. intros now _.
      eapply returns_bind; [by apply (job_op_confined (OpRequestCancellation now))|]. cbn beta. intros y Hy. by apply returns_ret.
    + eapply returns_bind; [by apply (job_op_confined OpCancel)|]. cbn beta. intros y Hy. by apply returns_ret.
    + by apply returns_ret.
  - cbn beta. intros y Hy. by apply preserves_returns, save_job_confined.
Qed.

Lemma retry_job_confined j : preserves I (retry_job j t).
Proof.
  unfold retry_job. apply preserves_of_returns; eapply returns_bind; [apply job_read|]. cbn beta. intros [x|] Hx; [|by apply returns_ret].
  specialize (Hx x eq_refl). destruct (negb _); [by apply returns_ret|]. destruct (negb _); [by apply returns_ret|].
  eapply returns_bind; [by apply (job_op_confined OpRetry)|]. cbn beta. intros y Hy. by apply preserves_returns, save_job_confined.
Qed.

Lemma reclaim_job_confined j node flag :
  j_tenant_id j = t → (∀ n, node = Some n → n_tenant_id n = t) → preserves I (reclaim_job j node flag).
Proof.
  intros Ht Hn. unfold reclaim_job. apply preserves_bind.
  { destruct flag; [iso_step|]. unfold LeaseRepository.delete. rewrite Ht. iso_step. }
  intros _. apply preserves_bind; [destruct node; [by apply release_confined, Hn|iso_step]|].
  intros _. apply preserves_bind; [iso_step|]. intros now.
  pose proof (run_op_sound (OpReclaim now) j) as Hs. cbn [run_op] in Hs.
  destruct (reclaim now j) as [j' [e|u]].
  - destruct e; iso_step.
  - apply save_job_confined. destruct Hs as [(_ & _ & -> & _) _]. done.
Qed.

(** ** Workers *)

Lemma start_job_confined w j : preserves I (start_job w j t).
Proof.
  unfold start_job. apply preserves_of_returns; eapply returns_bind; [apply worker_read|]. cbn beta. intros [wk|] Hw; [|apply returns_raise].
  specialize (Hw wk eq_refl). destruct (negb _); [apply returns_raise|]. destruct (negb _); [apply returns_raise|].
  eapply returns_bind; [apply preserves_returns, utc_now_confined|]. intros now _.
  eapply returns_bind; [apply (on_object_confined _ _ _ _ _ (λ x, own t d0 (x.1)))|].
  { intros w' x Hs. by eapply own_start. }
  cbn beta. intros x Hx. apply preserves_returns. apply preserves_bind; [by apply worker_save|]. intros _.
  apply preserves_bind; [|intros; apply preserves_ret]. unfold persist_job_started, JobRepository.save.
  destruct (w_running_job (x.1)) as [y|] eqn:Hy; [|iso_step]. apply upsert_job_confined. by eapply (own_job t d0 (x.1)).
Qed.

Lemma finish_confined wk w j ty l : own t d0 wk → j_tenant_id j = t → preserves I (_finish wk w j ty l t).
Proof.
  intros Hw Hj. unfold _finish. apply preserves_bind; [apply release_lease_confined|]. intros _.
  apply preserves_bind; [by apply worker_save|]. intros _. apply preserves_bind.
  - destruct (j_assigned_node_id j) as [nid|]; [|iso_step].
    apply preserves_of_returns; eapply returns_bind; [apply node_read|]. cbn beta. intros [n|] Hn; [|by apply returns_ret].
    apply preserves_returns, release_confined. auto.
  - intros _. unfold JobRepository.save. repeat first [by apply event_save|iso_step].
Qed.

Lemma report_confined fin op ty w j l :
  (∀ now, fin now = Worker.finish (run_op (op now))) → preserves I (report fin ty w j t l).
Proof.
  intros Hfin. unfold report, _get_owning_worker.
  apply preserves_of_returns; eapply (returns_bind _ _ _ (λ x, own t d0 (x.1))).
  - eapply returns_bind; [apply worker_read|]. cbn beta. intros [wk|] Hw; [|apply returns_raise].
    destruct (negb _); [apply returns_raise|]. destruct (w_running_job wk); [|apply returns_raise].
    destruct (negb _); [apply returns_raise|]. apply returns_ret. by apply Hw.
  - cbn beta. intros owned Ho. eapply returns_bind; [apply preserves_returns, utc_now_confined|]. intros now _.
    eapply returns_bind; [apply (on_object_confined _ _ _ _ _ (λ x, own t d0 (x.1) ∧ j_tenant_id (x.2) = t))|].
    { intros w' x Hs. rewrite Hfin in Hs. by eapply own_finish. }
    cbn beta. intros x [Hx Hj]. by apply preserves_returns, finish_confined.
Qed.

Lemma worker_heartbeat_confined w : preserves I (worker_heartbeat w t).
Proof.
  unfold worker_heartbeat. apply preserves_of_returns; eapply returns_bind; [apply worker_read|]. cbn beta.
  intros [wk|] Hw; [|apply returns_raise]. specialize (Hw wk eq_refl). destruct (negb _); [apply returns_raise|].
  apply preserves_returns. apply preserves_bind; [iso_step|]. intros now.
  apply preserves_bind; [|intros; iso_step]. apply worker_save. destruct (Worker.heartbeat_fields now wk) as (Hi & Hn & Hr).
  destruct Hw as [Ht Hid Hj]. split; [by unfold w_tenant_id; rewrite Hn|by rewrite Hi|by rewrite Hr].
Qed.

(** A worker registered for a node of the tenant. *)
Lemma create_worker_confined n m :
  (∀ k, (n0 ≤ k)%nat → db_workers d0 !! mkWorkerId (uuid4 k) = None) → n_tenant_id n = t →
  returns I (create_worker n m) (own t d0).
Proof.
  intros Hfresh Ht. unfold create_worker. rewrite Ht. eapply returns_bind; [apply worker_of_node_read|]. cbn beta.
  intros [w|] Hw.
  - specialize (Hw w eq_refl). eapply (returns_bind _ _ _ (λ _, True)).
    { apply preserves_returns. destruct (w_running_job w) as [j|] eqn:Hj; [|iso_step].
      apply preserves_bind; [|intros; iso_step]. apply reclaim_job_confined; [by eapply own_job|by intros n' [= <-]]. }
    intros _ _. assert (own t d0 (set_managed_by m (Worker.recover w))) as Hown by (by destruct Hw).
    eapply returns_bind; [by apply preserves_returns, worker_save|]. intros _ _. by apply returns_ret.
  - eapply returns_bind; [apply new_uuid_confined|]. cbn beta. intros u (k & Hk & ->).
    eapply returns_bind; [apply preserves_returns, utc_now_confined|]. intros now _.
    assert (own t d0 (Worker.ready (Worker.new (mkWorkerId (uuid4 k)) n m now))) as Hown.
    { split; cbn; [done| |done]. intros r Hr. by rewrite Hfresh in Hr. }
    eapply returns_bind; [by apply preserves_returns, worker_save|]. intros _ _. by apply returns_ret.
Qed.

Lemma register_worker_confined w : own t d0 w → preserves I (register_worker w).
Proof.
  intros Hw. unfold register_worker. assert (own t d0 (Worker.ready w)) as Hr by (by destruct Hw).
  apply preserves_bind; [by apply worker_save|]. intros _. rewrite (own_tenant _ _ _ Hr).
  apply preserves_bind; [eapply returns_preserves, worker_read|]. intros [s|]; iso_step.
Qed.

(** ** Nodes *)

Lemma create_node_confined c nm : preserves I (create_node c t nm).
Proof.
  unfold create_node. do 3 (apply preserves_bind; [iso_step|intros ?]). apply preserves_of_returns.
  eapply returns_bind; [apply (of_sum_confined _ _ _ _ (λ n, n_tenant_id n = t))|].
  - intros n. unfold register, node_post_init. cbn. by repeat case_match; intros; simplify_eq/=.
  - cbn beta. intros n Hn. apply preserves_returns. unfold NodeRepository.save. repeat iso_step.
Qed.

Lemma get_node_confined n : returns I (get_node n t) (λ x, n_tenant_id x = t).
Proof.
  unfold get_node. eapply returns_bind; [apply node_read|]. cbn beta. intros [x|] Hx; [|apply returns_raise].
  apply returns_ret. auto.
Qed.

Lemma heartbeat_node_confined n : preserves I (heartbeat_node n t).
Proof.
  unfold heartbeat_node. apply preserves_of_returns. eapply returns_bind; [apply node_read|]. cbn beta.
  intros [x|] Hx; [|by apply returns_ret]. specialize (Hx x eq_refl). apply preserves_returns.
  unfold NodeRepository.save. repeat iso_step.
Qed.

Lemma drain_node_confined n : preserves I (drain_node n t).
Proof.
  unfold drain_node. apply preserves_of_returns. eapply returns_bind; [apply node_read|]. cbn beta.
  intros [x|] Hx; [|apply returns_raise]. specialize (Hx x eq_refl). apply preserves_returns.
  unfold NodeRepository.save. repeat iso_step.
Qed.

Lemma remove_offline_node_confined n : preserves I (remove_offline_node n t).
Proof.
  unfold remove_offline_node, NodeRepository.delete. apply preserves_bind; [eapply returns_preserves, node_read|].
  intros [x|]; repeat iso_step.
Qed.

(** ** Keys *)

Lemma post_api_key_confined caller label : k_tenant_id caller = t → preserves I (post_api_key caller label).
Proof.
  intros Ht. unfold post_api_key, answering, create_api_key, issue_child, issue, ApiKeyRepository.save.
  apply preserves_bind; [|intros _].
  { apply preserves_try; [iso_step|]. intros e k He. destruct (scope_denied e); [|done]. injection He as <-. iso_step. }
  apply preserves_of_returns. eapply (returns_bind _ _ _ (λ x, k_tenant_id (x.1) = t)).
  - destruct (is_blank label); [apply returns_raise|].
    do 4 (eapply (returns_bind _ _ _ (λ _, True)); [apply preserves_returns; iso_step|intros ? _]). by apply returns_ret.
  - cbn beta. intros x Hx. apply preserves_returns. repeat iso_step.
Qed.

Lemma post_revoke_confined caller k : k_tenant_id caller = t → preserves I (post_revoke caller k).
Proof.
  intros Ht. unfold post_revoke, answering, revoke_api_key, ApiKeyRepository.get_by_id, ApiKeyRepository.save.
  apply preserves_try.
  - apply preserves_of_returns. eapply returns_bind.
    { apply (select_confined _ _ _ _ (λ o, ∀ x, o = Some x → k_tenant_id x = t)). intros d _ _ x Hx.
      unfold in_tenant in Hx. destruct (db_keys d !! k); [|done]. case_bool_decide; [|done]. congruence. }
    cbn beta. intros [x|] Hx; [|apply returns_raise]. specialize (Hx x eq_refl). apply preserves_returns.
    do 2 (apply preserves_bind; [iso_step|intros ?]). rewrite revoke_spec. destruct (k_revoked_at x); [iso_step|].
    by apply upsert_key_confined.
  - intros e k' He. destruct (missing_or_denied e); [|done]. injection He as <-. iso_step.
Qed.
End services.

(** * Programs that write nothing *)

(** Whatever it returns or raises, the database is as it was. *)
Definition only_reads {E : Env} {A} (m : prog A) : Prop :=
  ∀ d n, let same w := w_db w = d ∧ (n ≤ w_step w)%nat in wp m (λ _, same) (λ _, same) (mkWorld d n).

Section only_reads.
Context {E : Env} `{!Quiet E}.

Lemma only_reads_ret {A} (a : A) : only_reads (mret a).
Proof. by intros d n. Qed.
Lemma only_reads_raise {A} e : only_reads (raise e : prog A).
Proof. by intros d n. Qed.
Lemma only_reads_later {A} (m : prog A) d n0 n :
  only_reads m → (n0 ≤ n)%nat →
  wp m (λ _ w, w_db w = d ∧ (n0 ≤ w_step w)%nat) (λ _ w, w_db w = d ∧ (n0 ≤ w_step w)%nat) (mkWorld d n).
Proof.
  intros Hm Hn. specialize (Hm d n). eapply wp_mono; [apply Hm|..]; cbn; intros ? w [? ?]; (split; [done|lia]).
Qed.

Lemma only_reads_bind {A B} (m : prog A) (k : A → prog B) :
  only_reads m → (∀ a, only_reads (k a)) → only_reads (m ≫= k).
Proof.
  intros Hm Hk d n. cbn zeta. apply wp_bind. eapply wp_mono; [apply Hm| |done].
  intros a [d' n'] [Hd Hn]. cbn in *. subst. by apply only_reads_later.
Qed.
Lemma only_reads_gets {A} (f : db → A) : only_reads (statement (gets f)).
Proof. intros d n. apply wp_gets. cbn. auto with lia. Qed.
Lemma only_reads_now : only_reads utc_now.
Proof. intros d n. apply wp_utc_now. cbn. auto with lia. Qed.
Lemma only_reads_draw : only_reads draw_name.
Proof. intros d n. apply wp_draw_name. cbn. auto with lia. Qed.
Lemma only_reads_unordered {A} (l : list A) : only_reads (unordered l).
Proof. intros d n. apply wp_unordered. cbn. auto with lia. Qed.
Lemma only_reads_of_sum {A} (r : exn + A) : only_reads (of_sum r).
Proof. intros d n. apply wp_of_sum. destruct r; cbn; auto with lia. Qed.
Lemma only_reads_try {A} (m : prog A) h :
  only_reads m → (∀ e k, h e = Some k → only_reads k) → only_reads (try_except m h).
Proof.
  intros Hm Hh d n. cbn zeta. apply wp_try. eapply wp_mono; [apply Hm|..]; [done|].
  intros e [d' n'] [Hd Hn]. cbn in *. subst. destruct (h e) as [k|] eqn:He; [|done].
  apply only_reads_later; [by apply (Hh e k He)|done].
Qed.

Lemma only_reads_load_each {A B} (f : A → prog B) l : (∀ x, only_reads (f x)) → only_reads (load_each f l).
Proof.
  intros Hf. induction l as [|x l IH]; [apply only_reads_ret|]. cbn.
  apply only_reads_bind; [apply Hf|]. intros y. apply only_reads_bind; [apply IH|]. intros ys. apply only_reads_ret.
Qed.
Lemma only_reads_load_some {A B} (f : A → prog (option B)) l : (∀ x, only_reads (f x)) → only_reads (load_some f l).
Proof.
  intros Hf. induction l as [|x l IH]; [apply only_reads_ret|]. cbn.
  apply only_reads_bind; [apply Hf|]. intros y. apply only_reads_bind; [apply IH|]. intros ys. apply only_reads_ret.
Qed.

Lemma only_reads_confined {A} (m : prog A) t d0 n0 : only_reads m → preserves (confined t d0 n0) m.
Proof.
  intros Hm [d n] [Hi Hu Hn]. cbn in *. specialize (Hm d n). unfold wp in Hm.
  destruct (m (mkWorld d n)) as [[d' n'] [e|a]]; cbn in *; destruct Hm as [-> ?]; (split; cbn; [done..|lia]).
Qed.

Lemma only_reads_good {A} (m : prog A) : only_reads m → preserves good m.
Proof.
  intros Hm [d n] [Hi Hs]. specialize (Hm d n). unfold wp in Hm.
  destruct (m (mkWorld d n)) as [[d' n'] [e|a]]; cbn in *; destruct Hm as [-> ?]; (split; [done|by eapply wp_sound_le]).
Qed.
End only_reads.

#[export] Hint Resolve only_reads_ret only_reads_raise only_reads_gets only_reads_now only_reads_draw
  only_reads_unordered only_reads_of_sum : tenancy.

Ltac reads :=
  repeat first
    [ progress unfold answering, ok, or_404, select_rows, fetchone
    | lazymatch goal with
      | |- only_reads (_ ≫= _) => apply only_reads_bind; [|intros]
      | |- only_reads (match ?x with _ => _ end) => destruct x
      | |- only_reads (if ?b then _ else _) => destruct b
      | |- only_reads (load_each _ _) => apply only_reads_load_each; intros
      | |- only_reads (load_some _ _) => apply only_reads_load_some; intros
      | |- only_reads (try_except _ _) => apply only_reads_try; [|intros e ? He; destruct e; simplify_eq/=]
      | |- only_reads _ => solve [eauto 2 with tenancy]
      end ].
