(* ===== verification/Holding.v ===== *)
(** Giving up a job: the services that end a worker's hold on a job (a reported
    outcome, an expired lease, an offline node, a re-registered worker) delete
    the lease, save the worker, give the node its resources back and save the
    job, in different orders.  Whatever the order, the tables end up
    consistent. *)
From S2P Require Import Prelude Values Job Node Scheduler Worker Db Prog Repos Services Cluster Invariant.
Local Open Scope Z_scope.

(** * A worker, its job, its node and its lease *)

(** Everything the tables say about a worker that holds a job. *)
Record holding (d : db) (w : WorkerId) (r : worker_row) (x : job) (nd : node) (i : LeaseId) (l : lease)
    : Prop := mkHolding {
  ho_worker : db_workers d !! w = Some r;
  ho_running : r_running_job_id r = Some (j_id x);
  ho_job : db_jobs d !! j_id x = Some x;
  ho_node : db_nodes d !! n_id nd = Some nd;
  ho_on : r_node_id r = n_id nd;
  ho_assigned : j_assigned_node_id x = Some (n_id nd);
  ho_status : holdable (j_status x) = true;
  ho_lease : db_leases d !! i = Some l;
  ho_lease_worker : l_worker_id l = w;
  ho_lease_job : l_job_id l = j_id x;
  ho_tenant_worker : r_tenant_id r = n_tenant_id nd;
  ho_tenant_job : j_tenant_id x = n_tenant_id nd;
  ho_tenant_lease : l_tenant_id l = n_tenant_id nd;
  ho_tenant : n_tenant_id nd ∈ db_tenants d;
}.

Lemma holding_of_worker d w r j :
  integrity d → consistent d → db_workers d !! w = Some r → r_running_job_id r = Some j →
  ∃ x nd i l, holding d w r x nd i l ∧ j_id x = j.
Proof.
  intros Hint Hd Hw Hj.
  destruct (int_workers d Hint w r Hw) as (_ & Ht & (nd & Hnd & Htn)%fk_node_spec & Hfk).
  destruct (co_held d Hd w r j Hw Hj) as (x & Hx & Ha & Hh).
  destruct (co_lease_of d Hd w r j Hw Hj) as (i & l & Hl & Hlw & Hlj).
  destruct (int_jobs d Hint j x Hx) as [Hid _]. destruct (int_nodes d Hint _ nd Hnd) as [Hnid _].
  rewrite fk_opt_spec in Hfk. destruct (proj1 (fk_job_spec _ _ _) (Hfk j Hj)) as (x0 & Hx0 & Htx).
  assert (x0 = x) as -> by congruence.
  destruct (int_leases d Hint i l Hl) as (_ & _ & (r0 & Hr0 & Htr)%fk_worker_spec & _).
  rewrite Hlw in Hr0. assert (r0 = r) as -> by congruence. subst j.
  exists x, nd, i, l. split; [|done]. split; try done; try congruence.
Qed.

Lemma holding_of_lease d i l :
  integrity d → consistent d → db_leases d !! i = Some l →
  ∃ r x nd, holding d (l_worker_id l) r x nd i l ∧ j_id x = l_job_id l.
Proof.
  intros Hint Hd Hl. destruct (co_worker_of d Hd i l Hl) as (r & Hr & Hj).
  destruct (holding_of_worker d _ r _ Hint Hd Hr Hj) as (x & nd & i' & l' & Hh & Hid).
  assert (i' = i) as ->.
  { eapply (int_lease_job d Hint); [apply Hh|apply Hl|]. rewrite (ho_lease_job _ _ _ _ _ _ _ Hh). done. }
  assert (l' = l) as -> by (pose proof (ho_lease _ _ _ _ _ _ _ Hh); congruence). eauto 10.
Qed.

(** * Deleting the lease of a job *)

Definition leases_except (j : JobId) (L L' : gmap LeaseId lease) : Prop :=
  ∀ i l, L' !! i = Some l ↔ L !! i = Some l ∧ l_job_id l ≠ j.

Lemma delete_lease_except d j x t :
  integrity d → db_jobs d !! j = Some x → j_tenant_id x = t →
  leases_except j (db_leases d) (filter (λ kv, lease_matches_job j t kv.2 = false) (db_leases d)).
Proof.
  intros Hint Hx Ht i l. rewrite map_lookup_filter_Some. cbn. unfold lease_matches_job.
  split; intros [Hl Hm]; (split; [done|]).
  - intros E. apply andb_false_iff in Hm. rewrite !bool_decide_eq_false in Hm. destruct Hm as [Hm|Hm]; [done|].
    apply Hm. destruct (int_leases d Hint i l Hl) as (_ & _ & _ & (y & Hy & <-)%fk_job_spec).
    rewrite E in Hy. congruence.
  - by rewrite bool_decide_eq_false_2.
Qed.

(** [delete_if_expired] deletes the lease of the job when its expiry lies
    strictly in the past, and else nothing. *)
Lemma delete_if_expired_except d i l now :
  integrity d → db_leases d !! i = Some l →
  match delete_lease_if_expired (l_job_id l) (l_tenant_id l) now d with
  | (d', inr b) => b = (l_expires_at l <? now) ∧
      if b then ∃ L', d' = set_leases L' d ∧ leases_except (l_job_id l) (db_leases d) L' else d' = d
  | (_, inl _) => False
  end.
Proof.
  intros Hint Hl. unfold delete_lease_if_expired.
  assert (∀ i' l', db_leases d !! i' = Some l' →
    lease_matches_job (l_job_id l) (l_tenant_id l) l' = bool_decide (i' = i)) as Hm.
  { intros i' l' Hl'. unfold lease_matches_job. case_bool_decide as Hj; case_bool_decide as Ht; cbn;
      case_bool_decide as Hi; try done; exfalso.
    - by eapply Hi, (int_lease_job d Hint).
    - subst i'. congruence.
    - subst i'. congruence.
    - subst i'. congruence. }
  assert (existsb (λ l', lease_matches_job (l_job_id l) (l_tenant_id l) l' && (l_expires_at l' <? now))
    (rows (db_leases d)) = (l_expires_at l <? now)) as Hex.
  { destruct (l_expires_at l <? now) eqn:Hexp.
    - apply existsb_rows_true. exists i, l. split; [done|]. by rewrite (Hm i), bool_decide_eq_true_2.
    - apply existsb_rows_false. intros i' l' Hl'. rewrite (Hm i') by done. case_bool_decide; [|done].
      subst i'. by replace l' with l by congruence. }
  rewrite Hex. split; [done|]. destruct (l_expires_at l <? now) eqn:Hexp.
  - eexists. split; [done|]. intros i' l'. rewrite map_lookup_filter_Some. cbn.
    split; intros [Hl' H]; (split; [done|]); rewrite (Hm i') in * by done; case_bool_decide as Hi.
    + subst i'. replace l' with l in H by congruence. by rewrite Hexp in H.
    + intros Hj. by eapply Hi, (int_lease_job d Hint).
    + subst i'. exfalso. apply H. congruence.
    + done.
  - rewrite map_filter_id; [by destruct d|]. intros i' l' Hl'. cbn. rewrite (Hm i') by done.
    case_bool_decide; [|done]. subst i'. by replace l' with l by congruence.
Qed.

(** * Int4 bounds *)

Lemma int4_between a b c : int4 a = true → int4 c = true → a <= b → b <= c → int4 b = true.
Proof. unfold int4. rewrite !andb_true_iff, !Z.leb_le. lia. Qed.

Lemma released_int4 r nd nd' :
  node_row_ok nd → node_int4 nd = true → resources_ok r →
  n_capacity nd' = n_capacity nd → n_available nd' = released r nd → node_int4 nd' = true.
Proof.
  intros [(? & ? & ?) [(? & ? & ?) (? & ? & ?)]] Hi (? & ? & ?) Hc Ha.
  unfold node_int4, resources_int4 in *. rewrite Hc, Ha. cbn. rewrite !andb_true_iff in *.
  destruct Hi as [[[Hc1 Hc2] Hc3] [[Ha1 Ha2] Ha3]]. split_and!; try done.
  - eapply (int4_between (cpu_cores (n_available nd)) _ (cpu_cores (n_capacity nd))); try done; lia.
  - eapply (int4_between (memory_mib (n_available nd)) _ (memory_mib (n_capacity nd))); try done; lia.
  - eapply (int4_between (vram_mib (n_available nd)) _ (vram_mib (n_capacity nd))); try done; lia.
Qed.

(** The 32-bit columns of a job a method leaves. *)
Lemma run_op_int4 op x x' :
  job_wf x → job_int4 x = true → run_op op x = (x', inr tt) →
  match op with OpComplete (Some c) _ | OpFail (Some c) _ | OpConfirmCancelled (Some c) _ => int4 c = true | _ => True end →
  job_int4 x' = true.
Proof.
  unfold job_wf, retries_ok, job_int4. intros (_ & _ & _ & Hr & _) Hi Hrun Hc.
  rewrite !andb_true_iff in *. destruct Hi as [[[[Hres Hp] Hmax] Hrc] Hec].
  pose proof (run_op_sound op x) as Hid. pose proof (run_op_retries_ok op x Hr) as Hr'.
  rewrite Hrun in Hid, Hr'. cbn in Hr'. destruct Hid as [(_ & -> & _ & -> & _ & E & _) _]. rewrite E.
  unfold retries_ok in Hr'. split_and!; try done.
  - eapply (int4_between 0 _ (Z.max 0 (j_max_retries x))); [done| |lia|rewrite <- E; lia].
    destruct (Z.max_spec 0 (j_max_retries x)) as [[_ ->]|[_ ->]]; done.
  - clear Hr'. revert Hrun. destruct op as [| | | |[]|[]| | |[]| |]; job_unfold; job_cases x; intros [= <-]; cbn in *; done.
Qed.

(** * The final state *)

(** What is left of a job once its worker is done with it. *)
Record given_up (x x' : job) : Prop := mkGivenUp {
  gu_wf : job_wf x';
  gu_identity : same_identity x x';
  gu_inactive : active (j_status x') = true → j_assigned_node_id x' = None;
}.

Section drop.
Context {E : Env} `{!Quiet E}.
Implicit Types (R : exn → world → Prop) (d : db).

Lemma sound_drop d d' n n' w r r' x x' nd nd' i l :
  db_nodes d' = <[n_id nd := nd']> (db_nodes d) → db_jobs d' = <[j_id x := x']> (db_jobs d) →
  db_workers d' = <[w := r']> (db_workers d) → leases_except (j_id x) (db_leases d) (db_leases d') →
  (n ≤ n')%nat → integrity d → sound (mkWorld d n) → holding d w r x nd i l →
  given_up x x' →
  r_node_id r' = n_id nd → r_running_job_id r' = None →
  n_capacity nd' = n_capacity nd → n_available nd' = released (j_resources x) nd →
  sound (mkWorld d' n').
Proof using.
  intros EN EJ EW EL Hn Hint [Hd Hm] Hh [Hwf Hid Hact] Hrn Hrj Hcap Hav. cbn in *. split.
  - eapply (drop_consistent d _ w r r' (j_id x) x x' (n_id nd) nd nd'); eauto using ho_worker, ho_running,
      ho_on, ho_job, ho_node. by destruct Hid as (_ & ? & _).
  - eapply minted_shrink, Hm; [..|done]; intros k; cbn.
    + rewrite EJ. apply is_Some_insert_old. eauto using ho_job.
    + rewrite EN. apply is_Some_insert_old. eauto using ho_node.
    + rewrite EW. apply is_Some_insert_old. eauto using ho_worker.
    + intros [v [? _]%EL]. eauto.
Qed.

(** [Job.reclaim] on a job a worker holds. *)
Lemma reclaim_given_up now x :
  job_wf x → holdable (j_status x) = true →
  match reclaim now x with
  | (x', inr _) => given_up x x'
  | (_, inl e) => e = InvalidJobTransition ∧ given_up x x
  end.
Proof using.
  intros Hwf Hh. pose proof (run_op_sound (OpReclaim now) x) as Hs. cbn [run_op] in Hs.
  destruct (reclaim now x) as [x' [e|[]]] eqn:Hr.
  - assert (run_op (OpReclaim now) x = (x', inl e)) as Hr' by done.
    apply run_op_raises in Hr' as [->|[? _]]; [|done]. split; [done|]. split; [done|done|].
    revert Hr Hh. job_unfold. job_cases x; try done; naive_solver.
  - split; [|by destruct Hs|].
    + eapply (run_op_wf (OpReclaim now)); [done|by split|done].
    + clear Hs. revert Hr Hh. job_unfold. job_cases x; try done; intros [= <-]; done.
Qed.

(** What [reclaim_job] returns and leaves of the job. *)
Definition reclaimed (now : datetime) (x : job) (o : option job) (x' : job) : Prop :=
  match reclaim now x with
  | (y, inr _) => o = Some y ∧ x' = y
  | (_, inl _) => o = None ∧ x' = x
  end.

(** [reclaim_job] on a job and its node; [L'] is the lease table it leaves. *)
Lemma wp_reclaim_job x nd0 nd (flag : bool) L' Q R d n :
  db_jobs d !! j_id x = Some x → db_nodes d !! n_id nd = Some nd →
  (flag = true → L' = db_leases d) →
  (flag = false → L' = filter (λ kv, lease_matches_job (j_id x) (j_tenant_id x) kv.2 = false) (db_leases d)) →
  job_wf x → job_int4 x = true → holdable (j_status x) = true →
  node_row_ok nd → node_int4 nd = true →
  n_id nd0 = n_id nd → n_tenant_id nd0 = n_tenant_id nd →
  n_capacity nd0 = n_capacity nd → n_available nd0 = n_available nd →
  j_assigned_node_id x = Some (n_id nd) → j_tenant_id x = n_tenant_id nd →
  (∀ o x' now k, (n ≤ k)%nat → given_up x x' → reclaimed now x o x' →
     Q o (mkWorld (mkDb (db_tenants d)
       (<[n_id nd := set_available (released (j_resources x) nd0) nd0]> (db_nodes d))
       (<[j_id x := x']> (db_jobs d)) (db_workers d) L' (db_events d) (db_keys d)) k)) →
  wp (reclaim_job x (Some nd0) flag) Q R (mkWorld d n).
Proof using All.
  intros Hx Hnd HLt HLf Hwf Hi Hh Hok Hni Hid Htn Hcap Hav Hasg Htx HQ.
  assert (node_row_ok nd0) as Hok0 by (unfold node_row_ok, node_wf in *; by rewrite Hcap, Hav).
  set (nd' := set_available (released (j_resources x) nd0) nd0).
  set (d1 := set_leases L' d).
  (* after the lease is settled *)
  assert (∀ k, (n ≤ k)%nat → wp (
    (x0 ← on_object (release (j_resources x)) nd0; NodeRepository.save (x0.1)) ;;
    now ← utc_now;
    match reclaim now x with
    | (_, inl InvalidJobTransition) => mret None
    | (_, inl e) => raise e
    | (j', inr _) => JobRepository.save j' ;; mret (Some j')
    end) Q R (mkWorld d1 k)) as Hrest.
  { intros k Hk. wp_steps. rewrite (release_spec _ _ (job_wf_resources x Hwf) (proj2 Hok0)). wp_steps.
    apply (wp_node_save nd); [cbn; by rewrite Hid|done| |].
    { eapply (released_int4 (j_resources x) nd); try done; [by apply job_wf_resources|].
      unfold released. cbn. by rewrite Hcap, Hav. }
    wp_steps. cbn [fst]. fold nd'.
    pose proof (reclaim_given_up (clock (S k)) x Hwf Hh) as Hg.
    destruct (reclaim (clock (S k)) x) as [x' [e|[]]] eqn:Hrec.
    - destruct Hg as [-> Hg]. apply wp_ret. unfold set_nodes. cbn. rewrite Hid.
      rewrite <- (insert_id (db_jobs d) (j_id x) x) by done. apply (HQ _ _ (clock (S k))); [lia|done|by unfold reclaimed; rewrite Hrec].
    - destruct Hg as [Hwf' Hid' Hact'] eqn:Eg. clear Eg.
      destruct Hid' as (Ej & _ & Et & _). wp_steps.
      apply (wp_job_save x); [cbn; by rewrite Ej|done| | |].
      + by eapply (run_op_int4 (OpReclaim (clock (S k))) x x').
      + intros m Hm. assert (j_assigned_node_id x' = None ∨ j_assigned_node_id x' = j_assigned_node_id x) as [E1|E1].
        { clear -Hrec. revert Hrec. job_unfold. job_cases x; intros [= <-]; auto. }
        * congruence.
        * rewrite E1, Hasg in Hm. injection Hm as <-. apply fk_node_spec. exists nd'. cbn. rewrite Hid, lookup_insert_eq.
          split; [done|]. by rewrite Htn, Et, Htx.
      + wp_steps. unfold set_jobs, set_nodes. cbn. rewrite Hid, Ej.
        apply (HQ _ _ (clock (S k))); [lia|by destruct Hg|by unfold reclaimed; rewrite Hrec]. }
  unfold reclaim_job. destruct flag.
  - apply wp_bind, wp_ret. specialize (HLt eq_refl). subst L'.
    replace d1 with d in Hrest by (by destruct d). by apply Hrest.
  - apply wp_bind. unfold LeaseRepository.delete. apply wp_statement. unfold wp, delete_lease.
    specialize (HLf eq_refl). subst L'. by apply Hrest; lia.
Qed.
End drop.

(** * Reading what a worker holds *)

Lemma loadable_ext d d' :
  db_jobs d' = db_jobs d → db_nodes d' = db_nodes d → loadable d → loadable d'.
Proof. intros EJ EN [Hj Hn]. split; rewrite ?EJ, ?EN; done. Qed.

Lemma select_job_holding d j t x :
  db_jobs d !! j = Some x → j_tenant_id x = t → select_job j t d = Some x.
Proof. intros Hx Ht. unfold select_job, in_tenant. by rewrite Hx, bool_decide_eq_true_2. Qed.

Lemma select_node_holding d n t x :
  db_nodes d !! n = Some x → n_tenant_id x = t → select_node_row n t d = Some x.
Proof. intros Hx Ht. unfold select_node_row, in_tenant. by rewrite Hx, bool_decide_eq_true_2. Qed.

Lemma select_worker_holding d w t r dr :
  integrity d → db_workers d !! w = Some r → r_tenant_id r = t →
  ∃ wk, select_worker w t d ≫= hydrate d dr = Some wk ∧ read_worker d r wk ∧ w_id wk = w.
Proof.
  intros Hint Hr Ht. unfold select_worker, in_tenant. rewrite Hr, bool_decide_eq_true_2 by done. cbn.
  destruct (int_workers d Hint w r Hr) as (Hid & _ & (nd & Hnd & _)%fk_node_spec & _).
  destruct (hydrate d dr r) as [wk|] eqn:Hh.
  - exists wk. assert (read_worker d r wk) by (by eapply hydrate_read). split_and!; try done.
    unfold hydrate in Hh. rewrite Hnd in Hh. by injection Hh as <-.
  - exfalso. unfold hydrate in Hh. by rewrite Hnd in Hh.
Qed.

Section giving_up.
Context {E : Env} `{!Quiet E}.
Implicit Types (R : exn → world → Prop) (d : db).

(** ** An expired lease *)

Definition leases_read (d : db) (ls : list lease) : Prop :=
  NoDup (l_id <$> ls) ∧ ∀ l, l ∈ ls → db_leases d !! l_id l = Some l.

Lemma leases_read_except d d' l ls :
  integrity d → leases_read d (l :: ls) → leases_except (l_job_id l) (db_leases d) (db_leases d') →
  leases_read d' ls.
Proof using.
  intros Hint [[Hnl Hnd]%NoDup_cons Hin] HL. split; [done|]. intros y Hy. apply HL. split; [apply Hin; by right|].
  intros E'. apply Hnl, list_elem_of_fmap. exists y. split; [|done].
  symmetry. eapply (int_lease_job d Hint); [apply Hin; by right|apply Hin; by left|done].
Qed.

(** The tables after worker [w] has given up job [x] on node [nd]; [nd0] is
    the node object that was saved. *)
Definition dropped (d : db) (w : WorkerId) (r' : worker_row) (x x' : job) (nd0 : node)
    (L' : gmap LeaseId lease) (evs : list event) : db :=
  mkDb (db_tenants d)
    (<[n_id nd0 := set_available (released (j_resources x) nd0) nd0]> (db_nodes d))
    (<[j_id x := x']> (db_jobs d)) (<[w := r']> (db_workers d)) L' evs (db_keys d).

(** A lease that has not run out is left alone; one that has run out is
    deleted, its worker freed, its node credited and its job reclaimed.
    Nothing is raised. *)
Lemma wp_recover_expired_lease l Q R d n :
  integrity d → consistent d → db_leases d !! l_id l = Some l →
  ((clock n < l_expires_at l ∨ clock (S n) <= l_expires_at l) → ∀ k, (n ≤ k)%nat → Q tt (mkWorld d k)) →
  (l_expires_at l <= clock n → l_expires_at l < clock (S n) →
   ∀ r wk x x' o nd now L' evs k,
     holding d (l_worker_id l) r x nd (l_id l) l → row_of_worker wk = r →
     given_up x x' → reclaimed now x o x' → leases_except (j_id x) (db_leases d) L' → (n ≤ k)%nat →
     Q tt (mkWorld (dropped d (l_worker_id l) (row_of_worker (Worker.recover wk)) x x' nd L' evs) k)) →
  wp (recover_expired_lease l) Q R (mkWorld d n).
Proof using All.
  intros Hint Hd Hl Hkeep Hrec.
  destruct (holding_of_lease d (l_id l) l Hint Hd Hl) as (r & x & nd & Hh & Hid).
  pose proof Hh as [Hw Hrun Hjob Hnode Hon Hasg Hst _ _ Hlj Htw Htj Htl' Hten].
  unfold recover_expired_lease. wp_steps. unfold Lease.is_expired.
  destruct (Z.leb_spec (l_expires_at l) (clock n)) as [Hexp|Hexp]; cbn [negb];
    [|wp_steps; apply Hkeep; [by left|lia]].
  wp_steps. unfold LeaseRepository.delete_if_expired. wp_steps.
  pose proof (delete_if_expired_except d (l_id l) l (clock (S n)) Hint Hl) as Hdel.
  pose proof (delete_lease_if_expired_integrity (l_job_id l) (l_tenant_id l) (clock (S n)) d Hint) as Hint1.
  unfold wp at 1. destruct (delete_lease_if_expired _ _ _ d) as [d1 [e|b]]; [done|].
  destruct Hdel as [-> Hdel]. destruct (Z.ltb_spec (l_expires_at l) (clock (S n))) as [Hexp'|Hexp']; cbn [negb].
  2:{ subst d1. wp_steps. apply Hkeep; [by right|lia]. }
  destruct Hdel as (L' & -> & HL). wp_steps.
  assert (loadable (set_leases L' d)) as Hld.
  { eapply loadable_ext; [..|by apply consistent_loadable]; done. }
  apply wp_worker_get_by_id; [done|]. intros dr k Hk.
  destruct (select_worker_holding (set_leases L' d) (l_worker_id l) (l_tenant_id l) r dr Hint1)
    as (wk & -> & Hrw & Hwid); [done|congruence|].
  wp_steps. apply wp_job_get_by_id; [done|].
  rewrite (select_job_holding _ _ _ x); [|cbn; by rewrite Hlj|congruence].
  wp_steps. unfold recover_worker.
  apply (wp_save_read_worker wk _ r); [done..|by left|]. wp_steps. rewrite Hasg.
  set (d2 := set_workers _ _).
  apply wp_node_get_by_id; [by apply (loadable_ext (set_leases L' d))|].
  rewrite (select_node_holding _ _ _ nd); [|done|congruence]. wp_steps.
  destruct (int_jobs d Hint _ _ Hjob) as (_ & _ & Hji & _).
  destruct (int_nodes d Hint _ _ Hnode) as (_ & _ & Hni). destruct (co_nodes d Hd _ _ Hnode) as [Hnok _].
  apply (wp_reclaim_job x nd nd true L'); try done; [by eapply co_jobs|].
  intros o x' now k' Hk' Hgu Ho.
  assert (∀ evs k'', (k' ≤ k'')%nat → Q tt (mkWorld
    (dropped d (l_worker_id l) (row_of_worker (Worker.recover wk)) x x' nd L' evs) k'')) as HQ.
  { intros evs k'' Hk''. eapply Hrec; [done|done|done|apply (rw_back _ _ _ Hrw)|done|done| |lia]. by rewrite <- Hlj. }
  unfold d2. cbn. rewrite Hwid. cbn.
  destruct o as [y|]; [|wp_steps; by apply HQ].
  assert (y = x') as ->.
  { unfold reclaimed in Ho. destruct (reclaim now x) as [z [?|?]]; naive_solver. }
  destruct (gu_identity _ _ Hgu) as (Ej & _ & Et & _).
  wp_step. apply wp_record_for_job.
  - apply fk_job_spec. exists x'. cbn. by rewrite Ej, lookup_insert_eq.
  - cbn. by rewrite Et, Htj.
  - intros e evs k'' Hk''. wp_steps. by apply HQ.
Qed.

(** What else a pass keeps: [K] survives the passing of time and the drop of a
    job whose lease has run out at some reading of the clock. *)
Definition kept_by_drops (K : world → Prop) : Prop :=
  (∀ d n n', (n ≤ n')%nat → K (mkWorld d n) → K (mkWorld d n')) ∧
  (∀ d n w r r' x x' nd nd0 i l L' evs k k0,
     K (mkWorld d n) → integrity d → holding d w r x nd i l →
     n_id nd0 = n_id nd → leases_except (j_id x) (db_leases d) L' →
     (n ≤ k0)%nat → l_expires_at l <= clock k0 → (n ≤ k)%nat →
     K (mkWorld (dropped d w r' x x' nd0 L' evs) k)).

Lemma kept_True : kept_by_drops (λ _, True).
Proof using. by split. Qed.

Lemma recover_expired_lease_sound K l ls d n :
  kept_by_drops K → integrity d → sound (mkWorld d n) → K (mkWorld d n) → leases_read d (l :: ls) →
  ∀ R, wp (recover_expired_lease l) (λ _ s, sound s ∧ K s ∧ leases_read (w_db s) ls) R (mkWorld d n).
Proof using All.
  intros HK Hint Hs HKd Hls R. pose proof Hs as [Hd _]. cbn in Hd.
  apply wp_recover_expired_lease; [done|done|apply Hls; left|..].
  - intros _ k Hk. split_and!; [unchanged|by eapply HK; [|done]|]. destruct Hls as [[_ ?]%NoDup_cons Hin]. split; [done|].
    intros y Hy. apply Hin. by right.
  - intros Hexp _ r wk x x' o nd now L' evs k Hh Hwk Hgu _ HL Hk. split_and!; cycle 1.
    { eapply (proj2 HK d n _ r _ x x' nd nd _ l L' evs k n); try done; lia. }
    + eapply (leases_read_except d _ l); [done..|]. by rewrite (ho_lease_job _ _ _ _ _ _ _ Hh).
    + eapply (sound_drop d _ n _ (l_worker_id l) r _ x x' nd); try done. cbn.
      rewrite <- (ho_on _ _ _ _ _ _ _ Hh), <- Hwk. done.
Qed.

Lemma recover_expired_lease_integrity l :
  interference_keeps integrity → preserves (on_db integrity) (recover_expired_lease l).
Proof using.
  intros Hi. unfold recover_expired_lease, recover_worker, reclaim_job, record_for_job. service_preserves.
Qed.

Lemma leases_read_all d ls : integrity d → ls ≡ₚ rows (db_leases d) → leases_read d ls.
Proof using.
  intros Hint Hls. split.
  - rewrite Hls. apply rows_keys. intros i l Hl. by destruct (int_leases d Hint i l Hl).
  - intros l Hl. rewrite Hls in Hl. apply elem_of_rows in Hl as [i Hl].
    destruct (int_leases d Hint i l Hl) as [<- _]. done.
Qed.

Lemma wp_recover_expired_leases K R d n :
  kept_by_drops K → integrity d → sound (mkWorld d n) → K (mkWorld d n) →
  wp recover_expired_leases (λ _ s, sound s ∧ K s) R (mkWorld d n).
Proof using All.
  intros HK. pose proof (quiet_keeps integrity).
  intros Hint Hs HKd. unfold recover_expired_leases, LeaseRepository.list_across_tenants. wp_step.
  apply wp_select_rows. intros ls k Hls Hk. eapply wp_mono.
  - apply (wp_for (λ ls s, integrity (w_db s) ∧ sound s ∧ K s ∧ leases_read (w_db s) ls) R).
    + intros l l' [d' n'] (Hint' & Hs' & HK' & Hr'). eapply wp_mono;
        [apply wp_and_integrity; [by apply recover_expired_lease_integrity|done|by apply recover_expired_lease_sound]|
         naive_solver|by intros e s' [_ ?]].
    + split_and!; [done|unchanged|by eapply HK; [|done]|]. by apply leases_read_all.
  - naive_solver.
  - done.
Qed.

(** ** A worker on an offline node *)

(** The other workers are untouched when one gives up its job. *)
Lemma read_workers_drop d d' w ws r x nd nd' x' r' i l :
  integrity d → consistent d → read_workers d (w :: ws) → holding d (w_id w) r x nd i l →
  db_nodes d' = <[n_id nd := nd']> (db_nodes d) → db_jobs d' = <[j_id x := x']> (db_jobs d) →
  db_workers d' = <[w_id w := r']> (db_workers d) →
  read_workers d' ws.
Proof using.
  intros Hint Hd [[Hnw Hnd]%NoDup_cons Hin] Hh EN EJ EW. split; [done|]. intros v Hv.
  destruct (Hin v) as [rv Hrv]; [by right|].
  assert (w_id v ≠ w_id w) as Hne.
  { intros E'. apply Hnw, list_elem_of_fmap. by exists v. }
  exists rv. destruct Hrv as [H1 H2 (ndv & nmv & H3 & H4) H5].
  split; rewrite ?EN, ?EW.
  - by rewrite lookup_insert_ne.
  - done.
  - exists ndv, nmv. split; [|done]. rewrite lookup_insert_ne; [done|]. intros E'. apply Hne.
    eapply (co_one d Hd); [done|apply Hh|]. by rewrite <- E', (ho_on _ _ _ _ _ _ _ Hh).
  - intros j Hj. destruct (H5 j Hj) as (y & Hy & Hvy). exists y. rewrite EJ, lookup_insert_ne; [done|].
    intros <-. apply Hne. destruct (co_lease_of d Hd _ _ _ H1 Hj) as (iv & lv & Hlv & <- & Hlj).
    rewrite <- (ho_lease_worker _ _ _ _ _ _ _ Hh).
    assert (iv = i) as -> by (eapply (int_lease_job d Hint); [done|apply Hh|];
      rewrite (ho_lease_job _ _ _ _ _ _ _ Hh); done).
    pose proof (ho_lease _ _ _ _ _ _ _ Hh). congruence.
Qed.

(** The same for a worker found on an offline node, except that the node
    object saved is the one the worker was read with. *)
Lemma wp_recover_offline_worker offline w r Q R d n :
  integrity d → consistent d → read_worker d r w →
  (∀ k, (n ≤ k)%nat → Q tt (mkWorld d k)) →
  (∀ x x' o nd i l now L' evs k,
     holding d (w_id w) r x nd i l → n_id nd ∈ offline →
     given_up x x' → reclaimed now x o x' → leases_except (j_id x) (db_leases d) L' → (n ≤ k)%nat →
     (∃ nm, w_node w = set_name nm nd) → (∃ k0, (n ≤ k0)%nat ∧ l_expires_at l <= clock k0) →
     Q tt (mkWorld (dropped d (w_id w) (row_of_worker (Worker.recover w)) x x' (w_node w) L' evs) k)) →
  wp (recover_offline_worker offline w) Q R (mkWorld d n).
Proof using All.
  intros Hint Hd Hrw Hkeep Hrec.
  unfold recover_offline_worker. case_bool_decide as Hoff; cbn [negb]; [|wp_steps; apply Hkeep; lia].
  destruct (w_running_job w) as [x|] eqn:Hwx; [|wp_steps; apply Hkeep; lia].
  destruct (read_worker_row d r w Hrw) as (Hn & Hj & _). rewrite Hwx in Hj. cbn in Hj. symmetry in Hj.
  destruct (holding_of_worker d _ r _ Hint Hd (rw_row _ _ _ Hrw) Hj) as (x0 & nd & i & l & Hh & Hid).
  assert (x0 = x) as ->.
  { destruct (rw_job _ _ _ Hrw _ Hj) as (y & Hy & Hy'). pose proof (ho_job _ _ _ _ _ _ _ Hh). congruence. }
  clear Hid. pose proof Hh as [_ Hrun Hjob Hnode Hon Hasg Hst Hl Hlw Hlj Htw Htj Htl' Hten].
  destruct (rw_node _ _ _ Hrw) as (nd1 & nm & Hnd1 & Hwn).
  assert (nd1 = nd) as -> by congruence.
  destruct (int_jobs d Hint _ _ Hjob) as (_ & _ & Hji & _).
  destruct (int_nodes d Hint _ _ Hnode) as (_ & _ & Hni). destruct (co_nodes d Hd _ _ Hnode) as [Hnok _].
  wp_step. apply wp_lease_get_by_job_id. intros o k Ho Hk. destruct o as [l'|].
  2:{ exfalso. eapply Ho; [exact Hl|done|congruence]. }
  assert (l' = l) as ->.
  { destruct Ho as (i' & Hi' & Hl'j & _). assert (i' = i) as -> by (eapply (int_lease_job d Hint); eauto; congruence).
    congruence. }
  wp_steps. unfold Lease.is_expired.
  destruct (Z.leb_spec (l_expires_at l) (clock k)) as [Hexp|Hexp]; cbn [negb]; [|wp_steps; apply Hkeep; lia].
  wp_steps. unfold LeaseRepository.delete_if_expired. wp_steps.
  pose proof (delete_if_expired_except d i l (clock (S k)) Hint Hl) as Hdel.
  pose proof (delete_lease_if_expired_integrity (j_id x) (j_tenant_id x) (clock (S k)) d Hint) as Hint1.
  rewrite Hlj, Htl', <- Htj in Hdel.
  unfold wp at 1. destruct (delete_lease_if_expired _ _ _ d) as [d1 [e|b]]; [done|].
  destruct Hdel as [_ Hdel]. destruct b; cbn [negb].
  2:{ subst d1. wp_steps. apply Hkeep; lia. }
  destruct Hdel as (L' & -> & HL). unfold reclaim_from_worker. wp_steps.
  apply (wp_save_read_worker w _ r); [done|by destruct Hrw; split|done|done|by left|].
  wp_steps. rewrite Hwn.
  apply (wp_reclaim_job x (set_name nm nd) nd true L'); try done; [by eapply co_jobs|].
  intros o x' now k' Hk' Hgu Ho'.
  assert (∀ evs k'', (k' ≤ k'')%nat → Q tt (mkWorld
    (dropped d (w_id w) (row_of_worker (Worker.recover w)) x x' (set_name nm nd) L' evs) k'')) as HQ.
  { intros evs k'' Hk''. rewrite <- Hwn. eapply Hrec; [done| |done|done|done|lia|by eauto|by eauto].
    rewrite <- Hon, <- Hn. done. }
  cbn. destruct o as [y|]; [|wp_steps; by apply HQ].
  assert (y = x') as ->.
  { unfold reclaimed in Ho'. destruct (reclaim now x) as [z [?|?]]; naive_solver. }
  destruct (gu_identity _ _ Hgu) as (Ej & _ & Et & _).
  wp_step. apply wp_record_for_job.
  - apply fk_job_spec. exists x'. cbn. by rewrite Ej, lookup_insert_eq.
  - cbn. by rewrite Et, Htj.
  - intros e evs k'' Hk''. wp_steps. by apply HQ.
Qed.

Lemma recover_offline_worker_sound K offline w ws r d n :
  kept_by_drops K → integrity d → sound (mkWorld d n) → K (mkWorld d n) →
  read_workers d (w :: ws) → read_worker d r w →
  ∀ R, wp (recover_offline_worker offline w) (λ _ s, sound s ∧ K s ∧ read_workers (w_db s) ws)
    R (mkWorld d n).
Proof using All.
  intros HK Hint Hs HKd Hws Hrw R. pose proof Hs as [Hd _]. cbn in Hd.
  apply (wp_recover_offline_worker offline w r);
    [done..|intros; split_and!; [unchanged|by eapply HK; [|done]|by eapply read_workers_tail]|].
  intros x x' o nd i l now L' evs k Hh _ Hgu _ HL Hk [nm Hnm] (k0 & Hk0 & Hexp).
  assert (n_id (w_node w) = n_id nd) as En by (by rewrite Hnm).
  split_and!; [|by eapply (proj2 HK d n _ r _ x x' nd (w_node w) i l L' evs k k0)|].
  - eapply (sound_drop d _ n _ (w_id w) r _ x x' nd (set_available (released (j_resources x) (w_node w)) (w_node w)));
      try done; cbn; by rewrite Hnm.
  - eapply (read_workers_drop d _ w); try done. cbn. by rewrite En.
Qed.

Lemma wp_offline_node_ids nodes Q R d n :
  (∀ s k, (n ≤ k)%nat → Q s (mkWorld d k)) → wp (offline_node_ids nodes) Q R (mkWorld d n).
Proof using.
  revert Q n. induction nodes as [|x nodes IH]; intros Q n HQ; cbn [offline_node_ids]; wp_steps.
  - by apply HQ.
  - apply IH. intros s k Hk. wp_steps. apply HQ. lia.
Qed.

Lemma offline_node_ids_integrity nodes : preserves (on_db integrity) (offline_node_ids nodes).
Proof using. induction nodes; cbn [offline_node_ids]; prog_preserves; done. Qed.

Lemma recover_offline_worker_integrity s w :
  interference_keeps integrity → preserves (on_db integrity) (recover_offline_worker s w).
Proof using.
  intros Hi. unfold recover_offline_worker, reclaim_from_worker, reclaim_job, record_for_job. service_preserves.
Qed.

Lemma wp_recover_offline_nodes K R d n :
  kept_by_drops K → integrity d → sound (mkWorld d n) → K (mkWorld d n) →
  wp recover_offline_nodes (λ _ s, sound s ∧ K s) R (mkWorld d n).
Proof using All.
  intros HK. pose proof (quiet_keeps integrity).
  intros Hint Hs HKd. unfold recover_offline_nodes. wp_step.
  apply wp_node_list; [apply consistent_loadable, Hs|]. intros nodes k _ Hk. wp_step.
  apply wp_offline_node_ids. intros s k' Hk'.
  case_bool_decide; [wp_steps; split; [unchanged|by eapply HK; [|done]; lia]|]. wp_step.
  apply wp_worker_list; [apply consistent_loadable, Hs|done|]. intros l ws k'' Hl Hf Hk''.
  apply wp_for_workers; [intros; by apply recover_offline_worker_integrity| |done|unchanged|
    by eapply HK; [|done]; lia|by eapply hydrated_list_read].
  intros. by eapply recover_offline_worker_sound.
Qed.

Lemma reconciliation_integrity :
  interference_keeps integrity → preserves (on_db integrity) reconciliation_loop.
Proof using.
  intros Hi. unfold reconciliation_loop, recover_expired_leases, recover_offline_nodes.
  repeat first [prog_step|by apply mark_dead_workers_integrity|by apply recover_expired_lease_integrity|
    by apply recover_offline_worker_integrity|apply offline_node_ids_integrity|repo_unfold|
    apply load_each_integrity; intros|apply load_some_integrity; intros].
Qed.

(** A reconciliation pass never raises. *)
Lemma wp_reconciliation_loop K R d n :
  (∀ d n n' w r, read_worker d r w → (n ≤ n')%nat → K (mkWorld d n) → K (mkWorld d n') ∧
     K (mkWorld (set_workers (<[w_id w := row_of_worker (Worker.offline w)]> (db_workers d)) d) n')) →
  kept_by_drops K → integrity d → sound (mkWorld d n) → K (mkWorld d n) →
  wp reconciliation_loop (λ _ s, integrity (w_db s) ∧ sound s ∧ K s) R (mkWorld d n).
Proof using All.
  intros HKo HK. pose proof (quiet_keeps integrity) as Hi. intros Hint Hs HKd. eapply wp_mono.
  - apply (wp_and_integrity _ (λ _ s, sound s ∧ K s) R); [by apply reconciliation_integrity|done|].
    unfold reconciliation_loop. wp_step. eapply wp_mono.
    { apply wp_and_integrity; [by apply mark_dead_workers_integrity|done|].
      by apply (wp_mark_dead_workers K); [|apply HK|..]. }
    2:{ intros e s' [_ H]. exact H. }
    intros [] [d1 n1] (Hint1 & Hs1 & HK1). wp_step. eapply wp_mono.
    { apply wp_and_integrity; [|done|by apply (wp_recover_expired_leases K)].
      unfold recover_expired_leases. repeat first [prog_step|by apply recover_expired_lease_integrity|repo_unfold]. }
    2:{ intros e s' [_ H]. exact H. }
    intros [] [d2 n2] (Hint2 & Hs2 & HK2). by apply (wp_recover_offline_nodes K).
  - done.
  - by intros e s' [_ ?].
Qed.

Lemma reconciliation_loop_good : preserves good reconciliation_loop.
Proof using All.
  intros [d n] [Hint Hs]. eapply wp_mono; [by apply (wp_reconciliation_loop (λ _, True) (λ _, good)); [|apply kept_True|..]|..].
  - intros [] s (? & ? & _). by split.
  - done.
Qed.
End giving_up.
