(* ===== verification/Outcome.v ===== *)
(** Starting a job, reporting its outcome, renewing its lease and registering a
    worker keep the cluster consistent. *)
From S2P Require Import Prelude Values Job Node Scheduler Worker Db Prog Repos Services Cluster Invariant Holding.
Local Open Scope Z_scope.

(** The job methods with which a worker finishes its job. *)
Definition finishing (op : job_op) : bool :=
  match op with OpComplete _ _ | OpFail _ _ | OpConfirmCancelled _ _ => true | _ => false end.

(** The exit code fits the INTEGER column. *)
Definition exit_code_ok (c : option Z) : Prop :=
  match c with Some z => int4 z = true | None => True end.

Definition op_exit_code (op : job_op) : option Z :=
  match op with OpComplete c _ | OpFail c _ | OpConfirmCancelled c _ => c | _ => None end.

Lemma finishing_given_up op x x' :
  job_wf x → finishing op = true → run_op op x = (x', inr tt) →
  given_up x x' ∧ j_assigned_node_id x' = j_assigned_node_id x.
Proof.
  intros Hwf Hf Hrun. split; [split|].
  - eapply run_op_wf; [done| |done]. by destruct op; split.
  - pose proof (run_op_sound op x) as Hs. rewrite Hrun in Hs. apply Hs.
  - revert Hrun. destruct op; try done; job_unfold; job_cases x; intros [= <-]; done.
  - revert Hrun. destruct op; try done; job_unfold; job_cases x; intros [= <-]; done.
Qed.

Section outcome.
Context {E : Env} `{!Quiet E}.
Implicit Types (R : exn → world → Prop) (d : db).

(** ** Starting *)

Lemma start_job_good w j t : preserves good (start_job w j t).
Proof using All.
  pose proof (quiet_keeps integrity).
  apply preserves_good; [unfold start_job, persist_job_started; service_preserves|].
  intros d n Hint Hs. unfold start_job. wp_step.
  apply wp_worker_get_by_id; [apply consistent_loadable, Hs|]. intros dr k Hk.
  destruct (_ ≫= _) as [wk|] eqn:Hw; [|apply wp_raise; unchanged].
  destruct (select_worker_read _ _ _ _ _ Hint Hw) as (r & Hr & _ & _).
  destruct (negb _); [apply wp_raise; unchanged|].
  destruct (negb (bool_decide (_ <$> _ = _))) eqn:Hm; [apply wp_raise; unchanged|].
  apply negb_false_iff, bool_decide_eq_true in Hm. wp_steps.
  rewrite Worker.start_spec. destruct (w_running_job wk) as [x|] eqn:Hx; [|done].
  destruct (Job.start (clock k) x) as [x' [e|[]]] eqn:Hst; [unchanged|]. wp_steps.
  destruct (read_worker_row d r wk Hr) as (Hn & Hj & Hstat & _). rewrite Hx in Hj. cbn in Hj.
  assert (db_jobs d !! j_id x = Some x) as Hdx.
  { destruct (rw_job _ _ _ Hr (j_id x)) as (y & Hy & Hy'); [done|]. congruence. }
  pose proof (run_op_sound (OpStart (clock k)) x) as Hid. cbn [run_op] in Hid. rewrite Hst in Hid.
  destruct Hid as [(Eid & _) _].
  assert (sound (mkWorld (set_workers (<[w_id wk := row_of_worker (set_running_job (Some x') wk)]>
    (db_workers d)) d) (S (S k)))) as Hs1.
  { apply (sound_step_worker d n _ r (set_running_job (Some x') wk)); cbn; try done; [lia|apply (rw_row _ _ _ Hr)| |].
    - by rewrite Eid.
    - intros Hi. by rewrite (read_worker_idle d n r wk Hs Hr Hi) in Hx. }
  assert (row_of_worker (set_running_job (Some x') wk) = r) as Erow.
  { rewrite <- (rw_back _ _ _ Hr). unfold row_of_worker. cbn. by rewrite Hx, Eid. }
  rewrite Erow in Hs1. rewrite insert_id in Hs1 by apply (rw_row _ _ _ Hr).
  apply wp_worker_save_any; [|intros; unchanged]. cbn [fst snd]. wp_step. unfold persist_job_started. cbn [w_running_job set_running_job].
  rewrite Erow. rewrite insert_id by apply (rw_row _ _ _ Hr).
  replace (set_workers (db_workers d) d) with d by (by destruct d).
  apply wp_job_save_any; [|intros; unchanged]. wp_steps.
  eapply (sound_job_op d n _ (OpStart (clock k)) x); try done; lia.
Qed.

(** ** Renewing *)

Lemma renew_lease_good w l t dur : preserves good (renew_lease w l t dur).
Proof using All.
  pose proof (quiet_keeps integrity).
  apply preserves_good; [unfold renew_lease; service_preserves|].
  intros d n Hint Hs. unfold renew_lease. wp_step. apply wp_lease_get_by_worker_id.
  intros o k Ho Hk. destruct o as [y|]; [|apply wp_raise; unchanged].
  destruct Ho as (i & Hi & Hyw & Hyt). destruct (negb _); [apply wp_raise; unchanged|].
  unfold LeaseRepository.renew. wp_steps. unfold wp, update_lease_expiry.
  destruct (int_leases d Hint i y Hi) as [<- _]. rewrite Hi, bool_decide_eq_true_2 by done.
  destruct Hs as [Hd Hm]. split; cbn.
  - by eapply (update_lease_consistent d _ (l_id y) y).
  - eapply minted_shrink, Hm; try done; [|cbn; lia]. intros k'. cbn. apply is_Some_insert_old. eauto.
Qed.

(** ** Reporting *)

(** Releasing the lease of a worker that holds a job: a stale lease id is
    refused, the right one deletes the lease. *)
Lemma wp_release_lease w r x nd i l expected Q R d n :
  integrity d → loadable d → holding d w r x nd i l →
  (l_id l ≠ expected → ∀ k, (n ≤ k)%nat → R (LeaseNotFoundError expected) (mkWorld d k)) →
  (l_id l = expected → ∀ L' evs k, leases_except (j_id x) (db_leases d) L' → (n ≤ k)%nat →
     Q tt (mkWorld (set_events evs (set_leases L' d)) k)) →
  wp (release_lease w expected (n_tenant_id nd)) Q R (mkWorld d n).
Proof using All.
  intros Hint Hld Hh Hbad Hgood. pose proof Hh as [Hw Hrun Hjob Hnode Hon Hasg Hst Hl Hlw Hlj Htw Htj Htl Hten].
  unfold release_lease. wp_step. apply wp_lease_get_by_worker_id. intros o k Ho Hk.
  destruct o as [l'|]; [|exfalso; by eapply Ho].
  destruct Ho as (i' & Hi' & Hl'w & _). assert (i' = i) as -> by (eapply (int_lease_worker d Hint); eauto; congruence).
  assert (l' = l) as -> by congruence. clear Hi' Hl'w.
  destruct (decide (l_id l = expected)) as [Heq|Hne].
  2:{ rewrite bool_decide_eq_false_2 by done. apply wp_raise. by apply Hbad. }
  rewrite bool_decide_eq_true_2 by done. cbn [negb]. wp_step.
  apply wp_worker_get_by_id; [done|]. intros dr k' Hk'.
  destruct (select_worker_holding d w (n_tenant_id nd) r dr Hint) as (wk & -> & _); [done..|].
  wp_step. apply wp_job_get_by_id; [done|]. rewrite Hlj, (select_job_holding _ _ _ x) by done.
  unfold LeaseRepository.delete. wp_steps. unfold wp at 1, delete_lease. wp_steps.
  apply wp_record_for_job; [|by rewrite Htj|].
  - apply fk_job_spec. by exists x.
  - intros e evs k'' Hk''. wp_steps. apply Hgood; [done| |lia]. by apply (delete_lease_except d _ x).
Qed.

(** The report comes from the worker that holds the job, in its tenant, with
    the current lease, and the job can make the transition. *)
Definition report_applies (mk : datetime → job_op) (d : db) (w : WorkerId) (j : JobId) (t : TenantId)
    (lid : LeaseId) : Prop :=
  ∃ r x nd i l, holding d w r x nd i l ∧ j_id x = j ∧ n_tenant_id nd = t ∧ l_id l = lid ∧
    ∀ now, (run_op (mk now) x).2 = inr tt.

(** Such a report settles everything, any other is refused and changes
    nothing. *)
Lemma wp_report (mk : datetime → job_op) ty w j t lid Q R d n :
  (∀ now, finishing (mk now) = true ∧ exit_code_ok (op_exit_code (mk now))) →
  integrity d → consistent d →
  (¬ report_applies mk d w j t lid → ∀ e k, (n ≤ k)%nat → R e (mkWorld d k)) →
  (∀ r wk x x' nd i l now L' evs k,
     read_worker d r wk → holding d w r x nd i l → j_id x = j → n_tenant_id nd = t → l_id l = lid →
     run_op (mk now) x = (x', inr tt) → leases_except (j_id x) (db_leases d) L' → (n ≤ k)%nat →
     Q (Worker.recover wk)
       (mkWorld (dropped d w (row_of_worker (Worker.recover wk)) x x' nd L' evs) k)) →
  wp (report (λ now, Worker.finish (run_op (mk now))) ty w j t lid) Q R (mkWorld d n).
Proof using All.
  intros Hmk Hint Hd HR HQ. pose proof (consistent_loadable d Hd) as Hld.
  unfold report, _get_owning_worker. wp_steps.
  apply wp_worker_get_by_id; [done|]. intros dr k Hk.
  destruct (_ ≫= _) as [wk|] eqn:Hw.
  2:{ apply wp_raise, HR; [|lia]. intros (r & x & nd & i & l & Hh & _ & Ht & _).
      destruct (select_worker_holding d w t r dr Hint) as (wk & Hwk & _); [apply Hh| |congruence].
      rewrite (ho_tenant_worker _ _ _ _ _ _ _ Hh). done. }
  destruct (select_worker_read _ _ _ _ _ Hint Hw) as (r & Hr & Hwid & Hrt). subst w.
  destruct (read_worker_row d r wk Hr) as (Hn & Hj & _ & Ewt).
  rewrite bool_decide_eq_true_2 by (unfold w_tenant_id in Ewt; congruence). cbn [negb].
  assert (∀ r' x' nd' i' l', holding d (w_id wk) r' x' nd' i' l' → w_running_job wk = Some x') as Hsame.
  { intros r' x' nd' i' l' Hh. assert (r' = r) as -> by (pose proof (rw_row _ _ _ Hr); pose proof (ho_worker _ _ _ _ _ _ _ Hh); congruence).
    destruct (rw_job _ _ _ Hr (j_id x')) as (y & Hy & ->); [apply Hh|].
    pose proof (ho_job _ _ _ _ _ _ _ Hh). congruence. }
  destruct (w_running_job wk) as [x|] eqn:Hwx.
  2:{ apply wp_raise, HR; [|lia]. intros (r' & x & nd & i & l & Hh & _). by eapply Hsame in Hh. }
  case_bool_decide as Hxj; cbn [negb].
  2:{ apply wp_raise, HR; [|lia]. intros (r' & x' & nd & i & l & Hh & ? & _). eapply Hsame in Hh. congruence. }
  wp_steps. cbn [fst]. rewrite Worker.finish_spec, Hwx.
  destruct (run_op (mk (clock k)) x) as [x' [e|[]]] eqn:Hrun.
  { apply HR; [|lia]. intros (r' & x0 & nd & i & l & Hh & _ & _ & _ & Hok). eapply Hsame in Hh.
    specialize (Hok (clock k)). replace x0 with x in Hok by congruence. by rewrite Hrun in Hok. }
  wp_steps. cbn [fst snd]. cbn in Hj. symmetry in Hj.
  destruct (holding_of_worker d _ r _ Hint Hd (rw_row _ _ _ Hr) Hj) as (x0 & nd & i & l0 & Hh & _).
  assert (x0 = x) as -> by (eapply Hsame in Hh; congruence).
  pose proof Hh as [_ _ Hjob Hnode Hon Hasg Hst Hl Hlw Hlj Htw Htj Htl Hten].
  assert (job_wf x) as Hwf by (by eapply co_jobs).
  destruct (Hmk (clock k)) as [Hfin Hcode].
  destruct (finishing_given_up _ _ _ Hwf Hfin Hrun) as [Hgu Hasg'].
  destruct (int_jobs d Hint _ _ Hjob) as (_ & _ & Hji & _).
  destruct (int_nodes d Hint _ _ Hnode) as (_ & _ & Hni). destruct (co_nodes d Hd _ _ Hnode) as [Hnok _].
  destruct (gu_identity _ _ Hgu) as (Ejid & Ejres & Ejt & _).
  unfold _finish. wp_step. assert (n_tenant_id nd = t) as <- by congruence.
  eapply (wp_release_lease (w_id wk) r x nd i l0); [done..| |].
  { intros Hne k1 Hk1. apply HR; [|lia]. intros (r' & x1 & nd1 & i1 & l1 & Hh1 & _ & _ & Hl1 & _). apply Hne.
    assert (i1 = i) as -> by (eapply (int_lease_worker d Hint); [apply Hh1|apply Hl|];
      rewrite (ho_lease_worker _ _ _ _ _ _ _ Hh1); done).
    pose proof (ho_lease _ _ _ _ _ _ _ Hh1). congruence. }
  intros Hlid L' evs k' HL Hk'. wp_step.
  apply wp_worker_save; unfold w_tenant_id in *; cbn; rewrite ?Ewt, ?Hn; try done; [congruence|..].
  { apply fk_node_spec. exists nd. by rewrite Hon, Htw. }
  { intros i1 l1 [Hl1 _]%HL Hlw1. destruct (int_leases d Hint i1 l1 Hl1) as (_ & _ & (y & Hy & <-)%fk_worker_spec & _).
    rewrite Hlw1, (rw_row _ _ _ Hr) in Hy. by injection Hy as <-. }
  wp_steps. rewrite Hasg', Hasg. wp_step. apply wp_node_get_by_id; [by apply (loadable_ext d)|].
  rewrite (select_node_holding _ _ _ nd) by done. wp_steps.
  rewrite Ejres, (release_spec _ _ (job_wf_resources x Hwf) (proj2 Hnok)). wp_steps.
  apply (wp_node_save nd); [done|done| |].
  { by eapply (released_int4 (j_resources x) nd); [..|apply job_wf_resources| |]. }
  wp_steps. cbn [fst].
  apply (wp_job_save x); [cbn; by rewrite Ejid|done| | |].
  { eapply run_op_int4; [exact Hwf|exact Hji|exact Hrun|]. destruct (mk (clock k)) as [| | | |[]|[]| | |[]| |]; done. }
  { intros m Hm. rewrite Hasg', Hasg in Hm. injection Hm as <-. apply fk_node_spec. eexists. cbn.
    rewrite lookup_insert_eq. split; [done|]. cbn. congruence. }
  wp_step.
  apply wp_record_for_job; [apply fk_job_spec; exists x'; cbn; by rewrite lookup_insert_eq|cbn; congruence|].
  intros e evs' k'' Hk''. wp_steps. rewrite Ejid. cbn. eapply HQ; [done..|lia].
Qed.

Lemma report_good (mk : datetime → job_op) ty w j t l :
  (∀ now, finishing (mk now) = true ∧ exit_code_ok (op_exit_code (mk now))) →
  preserves good (report (λ now, Worker.finish (run_op (mk now))) ty w j t l).
Proof using All.
  intros Hmk. pose proof (quiet_keeps integrity).
  apply preserves_good.
  { unfold report, _get_owning_worker, _finish, release_lease, record_for_job. service_preserves. }
  intros d n Hint Hs. pose proof Hs as [Hd _]. cbn in Hd.
  apply wp_report; [done..|intros; unchanged|].
  intros r wk x x' nd i l0 now L' evs k Hr Hh _ _ _ Hrun HL Hk.
  destruct (finishing_given_up (mk now) x x') as [Hgu _]; [by eapply co_jobs, Hh|apply Hmk|done|].
  eapply (sound_drop d _ n _ w r (row_of_worker (Worker.recover wk)) x x' nd); try done; cbn.
  destruct (read_worker_row d r wk Hr) as (-> & _). by apply Hh.
Qed.

(** ** Registering a worker *)

(** A registered worker holds nothing. *)
Definition registered (w : worker) (d : db) : Prop :=
  db_workers d !! w_id w = Some (row_of_worker w) ∧ w_running_job w = None.

Lemma register_worker_sound w d n :
  sound (mkWorld d n) → registered w d →
  wp (register_worker w) (λ _, sound) (λ _, sound) (mkWorld d n).
Proof using All.
  intros Hs [Hrow Hj]. unfold register_worker. wp_step.
  assert (sound (mkWorld (set_workers (<[w_id w := row_of_worker (Worker.ready w)]> (db_workers d)) d) (S n))) as Hs'.
  { eapply (sound_step_worker d n _ (row_of_worker w) (Worker.ready w)); try done; lia. }
  apply wp_worker_save_any; [|intros; unchanged]. wp_step.
  apply wp_worker_get_by_id; [apply consistent_loadable, Hs'|]. intros dr k Hk.
  destruct (_ ≫= _); wp_steps; unchanged.
Qed.

Lemma create_worker_fresh x m d n :
  integrity d → sound (mkWorld d n) → db_nodes d !! n_id x = Some x →
  (∀ w r, db_workers d !! w = Some r → r_node_id r = n_id x → r_tenant_id r ≠ n_tenant_id x) →
  ∀ k, (n ≤ k)%nat →
  sound (mkWorld (set_workers (<[mkWorkerId (uuid4 k) :=
    row_of_worker (Worker.ready (Worker.new (mkWorkerId (uuid4 k)) x m (clock (S k))))]> (db_workers d)) d)
    (S (S (S k)))).
Proof using All.
  intros Hint Hs Hx Hnone k Hk. pose proof Hs as [Hd Hm]. cbn in Hd, Hm.
  assert (∀ w r, db_workers d !! w = Some r → r_node_id r ≠ n_id x) as Hnone'.
  { intros w r Hr E'. eapply Hnone; [done..|].
    destruct (int_workers d Hint w r Hr) as (_ & _ & (y & Hy & <-)%fk_node_spec & _). congruence. }
  split.
  - eapply (new_worker_consistent d); try done. cbn. eapply fresh_worker; [exact Hm|lia].
  - destruct Hm as [Mj Mn Mw Ml]. split; cbn; intros k' Hk'.
    + destruct (Mj k' Hk') as (m' & ? & ?). exists m'. by split; [lia|].
    + destruct (Mn k' Hk') as (m' & ? & ?). exists m'. by split; [lia|].
    + apply lookup_insert_is_Some in Hk' as [<-|[_ (m' & ? & ?)%Mw]]; [exists k|exists m']; by split; [lia|].
    + destruct (Ml k' Hk') as (m' & ? & ?). exists m'. by split; [lia|].
Qed.

Lemma create_worker_sound x m d n :
  integrity d → sound (mkWorld d n) → db_nodes d !! n_id x = Some x →
  wp (create_worker x m) (λ w s, sound s ∧ registered w (w_db s)) (λ _, sound) (mkWorld d n).
Proof using All.
  intros Hint Hs Hx. pose proof Hs as [Hd _]. cbn in Hd. unfold create_worker. wp_step.
  apply wp_worker_get_by_node_id; [by apply consistent_loadable|]. intros o dr k Hk Ho.
  destruct o as [r|]; cbn [mbind option_bind].
  2:{ wp_steps. apply wp_worker_save_any; [|intros; unchanged]. wp_steps.
      split; [by apply (create_worker_fresh x m d n)|]. split; [|done]. cbn. by rewrite lookup_insert_eq. }
  destruct Ho as (w & Hw & Hrn & Hrt).
  destruct (int_workers d Hint w r Hw) as (Hrid & Hten & Hfkn & _).
  destruct (hydrate d dr r) as [wk|] eqn:Hhy.
  2:{ exfalso. unfold hydrate in Hhy. by rewrite Hrn, Hx in Hhy. }
  pose proof (hydrate_read d dr w r wk Hint Hw Hhy) as Hrw.
  destruct (read_worker_row d r wk Hrw) as (Hn & Hj & _ & Ht). wp_step.
  set (wk' := set_managed_by m (Worker.recover wk)).
  destruct (w_running_job wk) as [y|] eqn:Hwy.
  2:{ wp_steps. apply (wp_save_read_worker wk _ r); [done..|by left|]. wp_steps.
      split; [|split; [|done]; cbn; by rewrite lookup_insert_eq].
      apply (sound_step_worker d n _ r wk'); try done; [lia|apply Hrw]. }
  cbn in Hj. symmetry in Hj.
  destruct (holding_of_worker d _ r _ Hint Hd (rw_row _ _ _ Hrw) Hj) as (y0 & nd & i & l & Hh & _).
  assert (y0 = y) as ->.
  { destruct (rw_job _ _ _ Hrw _ Hj) as (z & Hz & Hz'). pose proof (ho_job _ _ _ _ _ _ _ Hh).
    pose proof (ho_running _ _ _ _ _ _ _ Hh). congruence. }
  pose proof Hh as [_ _ Hjob Hnode Hon Hasg Hst Hl Hlw Hlj Htw Htj Htl _].
  assert (nd = x) as -> by congruence.
  destruct (int_jobs d Hint _ _ Hjob) as (_ & _ & Hji & _).
  destruct (int_nodes d Hint _ _ Hnode) as (_ & _ & Hni). destruct (co_nodes d Hd _ _ Hnode) as [Hnok _].
  wp_step. apply (wp_reclaim_job y x x false
    (filter (λ kv, lease_matches_job (j_id y) (j_tenant_id y) kv.2 = false) (db_leases d)));
    try done; [by eapply co_jobs|].
  intros o y' now k' Hk' Hgu _. wp_steps.
  pose proof (delete_lease_except d (j_id y) y (j_tenant_id y) Hint Hjob eq_refl) as HL.
  apply wp_worker_save; cbn; unfold w_tenant_id in *; cbn; rewrite ?Hn, ?Ht; try done.
  { apply fk_node_spec. eexists. cbn. rewrite Hrn, lookup_insert_eq. split; [done|]. by cbn. }
  { intros i1 l1 [Hl1 _]%HL Hlw1. destruct (int_leases d Hint i1 l1 Hl1) as (_ & _ & (z & Hz & <-)%fk_worker_spec & _).
    rewrite Hlw1, (rw_row _ _ _ Hrw) in Hz. by injection Hz as <-. }
  wp_steps. split; [|split; [|done]; cbn; by rewrite lookup_insert_eq].
  eapply (sound_drop d _ n _ (w_id wk) r (row_of_worker wk') y y' x); try done; cbn; [lia|congruence].
Qed.

Lemma post_worker_good nid m t : preserves good (post_worker nid m t).
Proof using All.
  pose proof (quiet_keeps integrity).
  apply preserves_good.
  { unfold post_worker, get_node, create_worker, reclaim_job, register_worker. service_preserves. }
  intros d n Hint Hs. unfold post_worker, get_node. wp_steps.
  apply wp_node_get_by_id; [apply consistent_loadable, Hs|].
  destruct (select_node_row nid t d) as [x|] eqn:Hx; [|wp_steps; unchanged].
  destruct (select_node_row_Some _ _ _ _ Hint Hx) as (_ & Hx' & _). wp_steps.
  eapply wp_mono; [apply create_worker_sound; [done|unchanged|done]| |done].
  intros w [d' n'] [Hs' Hreg]. by apply register_worker_sound.
Qed.
End outcome.
