(* ===== verification/Scheduling.v ===== *)
(** One pass of the scheduler (SchedulerLoopService with AssignWorkerService and
    AcquireLeaseService) keeps the cluster consistent: a job that finds a worker
    ends up leased to it, one that finds none goes back to the queue and the node
    gets its resources back. *)
From S2P Require Import Prelude Values Job Node Scheduler Worker Db Prog Repos Services Cluster Invariant Holding.
Local Open Scope Z_scope.

(** The state between "the job is saved as SCHEDULED" and "a worker has it". *)
Record placed (d d2 : db) (x x1 : job) (nd n1 : node) : Prop := mkPlaced {
  pl_nodes : db_nodes d2 = <[n_id nd := n1]> (db_nodes d);
  pl_jobs : db_jobs d2 = <[j_id x := x1]> (db_jobs d);
  pl_workers : db_workers d2 = db_workers d;
  pl_leases : db_leases d2 = db_leases d;
  pl_job : db_jobs d !! j_id x = Some x;
  pl_queued : j_status x = QUEUED;
  pl_x1 : x1 = set_status SCHEDULED (set_assigned_node_id (Some (n_id nd)) x);
  pl_node : db_nodes d !! n_id nd = Some nd;
  pl_fits : resources_le (j_resources x) (n_available nd);
  pl_n1 : n1 = set_available (resources_sub (n_available nd) (j_resources x)) nd;
  pl_tenant : j_tenant_id x = n_tenant_id nd;
  pl_int : integrity d2;
}.

Lemma scheduled_wf x n : job_wf x → j_status x = QUEUED →
  job_wf (set_status SCHEDULED (set_assigned_node_id n x)).
Proof.
  unfold job_wf, retries_ok, fields_ok. destruct x; cbn. intros Hwf ->. naive_solver.
Qed.

(** Under any interference that keeps the schema's constraints. *)
Section interference.
Context {E : Env} (Hi : interference_keeps integrity).

Lemma assign_worker_loop_integrity j nid ws : preserves (on_db integrity) (assign_worker_loop j nid ws).
Proof using Hi.
  induction ws as [|w ws IH]; cbn [assign_worker_loop]; [service_preserves|].
  unfold acquire_lease, record_for_job. repeat first [prog_step|repo_unfold|done].
  unfold refused_lease in *. repeat case_match; simplify_eq; service_preserves.
Qed.

Lemma schedule_job_integrity x nodes : preserves (on_db integrity) (schedule_job x nodes).
Proof using Hi.
  pose proof assign_worker_loop_integrity.
  unfold schedule_job, assign_worker, record_for_job. repeat first [prog_step|repo_unfold|done].
  - apply load_some_integrity. intros. service_preserves.
  - repeat case_match; simplify_eq. service_preserves.
Qed.

Lemma scheduler_loop_integrity : preserves (on_db integrity) scheduler_loop.
Proof using Hi.
  unfold scheduler_loop. apply preserves_bind; [service_preserves|intros nodes].
  apply preserves_bind; [service_preserves|intros jobs].
  generalize (sort_desc j_priority (filter (λ j, j_status j = QUEUED) jobs)). intros js. revert nodes.
  induction js as [|x js IH]; intros nodes; cbn [schedule_all]; [service_preserves|].
  apply preserves_bind; [apply schedule_job_integrity|done].
Qed.
End interference.

Section scheduling.
Context {E : Env} `{!Quiet E}.
Implicit Types (R : exn → world → Prop) (d : db).

Lemma placed_loadable d d2 x x1 nd n1 :
  consistent d → placed d d2 x x1 nd n1 → loadable d2.
Proof using.
  intros Hd [EN EJ EW EL Hx Hq -> Hnd Hfit -> Ht _].
  pose proof (co_jobs d Hd _ _ Hx) as Hwf. destruct (co_nodes d Hd _ _ Hnd) as [Hok _].
  destruct (consistent_loadable d Hd) as [Lj Ln]. split; rewrite ?EN, ?EJ.
  - intros k y. rewrite lookup_insert. case_decide; [|apply Lj]. intros [= <-].
    destruct Hwf as (? & ? & ? & _). by destruct x.
  - intros k y. rewrite lookup_insert. case_decide; [|apply Ln]. intros [= <-].
    destruct Hwf as (? & ? & ? & _). unfold node_row_ok, node_wf, resources_ok, resources_le, resources_sub in *. cbn.
    split_and!; lia.
Qed.

(** The worker takes the job. *)
Lemma sound_take d d2 d' n n' k x x1 nd n1 w r l wk :
  sound (mkWorld d n) → placed d d2 x x1 nd n1 → (n ≤ k)%nat → (k < n')%nat →
  db_nodes d' = db_nodes d2 → db_jobs d' = db_jobs d2 →
  db_workers d' = <[w := row_of_worker wk]> (db_workers d2) →
  db_leases d' = <[mkLeaseId (uuid4 k) := l]> (db_leases d2) →
  db_workers d !! w = Some r → r_running_job_id r = None → r_node_id r = n_id nd →
  l_worker_id l = w → l_job_id l = j_id x →
  n_id (w_node wk) = n_id nd → w_running_job wk = Some x1 → w_status wk = BUSY →
  sound (mkWorld d' n').
Proof using.
  intros [Hd Hm] [EN EJ EW EL Hx Hq -> Hnd Hfit -> Ht _] Hk Hkn EN' EJ' EW' EL' Hw Hrj Hrn Hlw Hlj Hwn Hwj Hws.
  cbn in *. pose proof (co_jobs d Hd _ _ Hx) as Hwf. split; cbn.
  - eapply (take_consistent d d' w r (row_of_worker wk) (j_id x) x
      (set_status SCHEDULED (set_assigned_node_id (Some (n_id nd)) x)) (n_id nd) nd
      (set_available (resources_sub (n_available nd) (j_resources x)) nd)
      (mkLeaseId (uuid4 k)) l); try done;
      rewrite ?EN', ?EJ', ?EW', ?EL', ?EN, ?EJ, ?EW, ?EL; try done.
    + by eapply fresh_lease.
    + cbn. rewrite Hwj. by destruct x.
    + by apply scheduled_wf.
  - destruct Hm as [Mj Mn Mw Ml]. cbn in *. split; cbn; intros k'; rewrite ?EN', ?EJ', ?EW', ?EL', ?EN, ?EJ, ?EW, ?EL.
    + intros Hk'%is_Some_insert_old; [|eauto]. destruct (Mj k' Hk') as (m & ? & ?). exists m. by split; [lia|].
    + intros Hk'%is_Some_insert_old; [|eauto]. destruct (Mn k' Hk') as (m & ? & ?). exists m. by split; [lia|].
    + intros Hk'%is_Some_insert_old; [|eauto]. destruct (Mw k' Hk') as (m & ? & ?). exists m. by split; [lia|].
    + rewrite lookup_insert_is_Some. intros [<-|[_ (m & ? & ?)%Ml]]; [exists k|exists m]; by split; [lia|].
Qed.

(** AcquireLeaseService for the idle worker of the node. *)
Lemma wp_acquire_lease d d2 n x x1 nd n1 w r k0 Q R :
  sound (mkWorld d n) → placed d d2 x x1 nd n1 → read_worker d2 r w →
  n_id (w_node w) = n_id nd → Worker.is_idle w = true → (n ≤ k0)%nat →
  (∀ l k evs k', (k0 ≤ k)%nat → (k < k')%nat → l_worker_id l = w_id w → l_job_id l = j_id x →
     l_tenant_id l = n_tenant_id nd →
     Q l (mkWorld (set_events evs (set_leases (<[mkLeaseId (uuid4 k) := l]> (db_leases d2)) d2)) k')) →
  wp (acquire_lease w x1) Q R (mkWorld d2 k0).
Proof using All.
  intros Hs Hpl Hrw Hwn Hidle Hk0 HQ. pose proof Hs as [Hd Hm]. cbn in Hd, Hm.
  pose proof Hpl as [EN EJ EW EL Hx Hq Hx1 Hnd Hfit Hn1 Ht Hint2].
  assert (j_id x1 = j_id x ∧ j_tenant_id x1 = j_tenant_id x) as [Eid Et] by (subst x1; by destruct x).
  destruct (read_worker_row _ _ _ Hrw) as (Hrn & Hrj & Hrs & Hrt).
  apply bool_decide_eq_true in Hidle.
  assert (r_running_job_id r = None) as Hnone.
  { apply (co_idle d Hd (w_id w)); [rewrite <- EW; apply (rw_row _ _ _ Hrw)|congruence]. }
  assert (w_tenant_id w = n_tenant_id nd) as Hwt.
  { rewrite Hrt. destruct (int_workers d2 Hint2 _ _ (rw_row _ _ _ Hrw)) as (_ & _ & (y & Hy & <-)%fk_node_spec & _).
    rewrite <- Hrn, Hwn, EN, lookup_insert_eq in Hy. injection Hy as <-. by subst n1. }
  assert (∀ i l, db_leases d2 !! i = Some l → l_worker_id l ≠ w_id w ∧ l_job_id l ≠ j_id x) as Hfree.
  { intros i l Hl. rewrite EL in Hl. destruct (co_worker_of d Hd i l Hl) as (y & Hy & Hyj). split; intros E'.
    - rewrite E', <- EW, (rw_row _ _ _ Hrw) in Hy. congruence.
    - destruct (co_held d Hd _ _ _ Hy Hyj) as (z & Hz & _ & Hh). rewrite E', Hx in Hz.
      injection Hz as <-. by rewrite Hq in Hh. }
  assert (n_tenant_id nd ∈ db_tenants d2) as Hten.
  { destruct (int_workers d2 Hint2 _ _ (rw_row _ _ _ Hrw)) as (_ & ? & _). congruence. }
  unfold acquire_lease. rewrite bool_decide_eq_true_2 by congruence. cbn [negb]. wp_step.
  apply wp_lease_get_by_job_id. intros o k Ho Hk. destruct o as [l|].
  { destruct Ho as (i & Hl & Hlj & _). destruct (Hfree i l Hl). congruence. }
  wp_steps.
  apply wp_lease_save; cbn.
  - rewrite EL. eapply fresh_lease; [exact Hm|lia].
  - intros i l' Hl'. rewrite Eid. by eapply Hfree.
  - apply fk_worker_spec. exists r. split; [apply (rw_row _ _ _ Hrw)|]. congruence.
  - apply fk_job_spec. exists x1. rewrite EJ, Eid, lookup_insert_eq. split; [done|congruence].
  - by rewrite Hwt.
  - wp_step. apply wp_record_for_job.
    + apply fk_job_spec. exists x1. cbn. rewrite EJ, Eid, lookup_insert_eq. done.
    + cbn. by rewrite Et, Ht.
    + intros e evs k' Hk'. wp_steps. apply HQ; cbn; try done; lia.
Qed.

(** AssignWorkerService: a worker took the job, or the tables are as before
    the call and [NoAvailableNodeError] is raised. *)
Lemma wp_assign_worker_loop d d2 n x x1 nd n1 ws k0 :
  sound (mkWorld d n) → placed d d2 x x1 nd n1 → (∀ w, w ∈ ws → ∃ r, read_worker d2 r w) → (n ≤ k0)%nat →
  wp (assign_worker_loop x1 (n_id nd) ws)
    (λ _ s, sound s ∧ db_nodes (w_db s) = db_nodes d2 ∧ db_jobs (w_db s) = db_jobs d2)
    (λ e s, e = NoAvailableNodeError ∧ ∃ k, (k0 ≤ k)%nat ∧ s = mkWorld d2 k) (mkWorld d2 k0).
Proof using All.
  intros Hs Hpl. pose proof Hpl as [EN EJ EW EL Hx Hq Hx1 Hnd Hfit Hn1 Ht Hint2].
  pose proof Hs as [Hd Hm]. cbn in Hd, Hm.
  assert (j_id x1 = j_id x ∧ j_tenant_id x1 = j_tenant_id x) as [Eid Et] by (subst x1; by destruct x).
  induction ws as [|w ws IH]; intros Hws Hk0; cbn [assign_worker_loop].
  { wp_steps. eauto. }
  specialize (IH (λ v Hv, Hws v (list_elem_of_further _ _ _ Hv)) Hk0).
  case_bool_decide as Hwn; cbn [negb]; [|exact IH].
  destruct (Worker.is_idle w) eqn:Hidle; cbn [negb]; [|exact IH]. clear IH.
  destruct (Hws w) as [r Hrw]; [left|].
  destruct (read_worker_row _ _ _ Hrw) as (Hrn & Hrj & Hrs & Hrt).
  pose proof Hidle as Hid'. apply bool_decide_eq_true in Hid'.
  assert (r_running_job_id r = None) as Hnone.
  { apply (co_idle d Hd (w_id w)); [rewrite <- EW; apply (rw_row _ _ _ Hrw)|congruence]. }
  destruct (int_workers d2 Hint2 _ _ (rw_row _ _ _ Hrw)) as (_ & Hten & Hfkn & _).
  assert (w_tenant_id w = n_tenant_id nd) as Hwt.
  { rewrite Hrt. destruct (proj1 (fk_node_spec _ _ _) Hfkn) as (y & Hy & <-).
    rewrite <- Hrn, Hwn, EN, lookup_insert_eq in Hy. injection Hy as <-. by subst n1. }
  wp_steps. apply (wp_acquire_lease d d2 n x x1 nd n1 w r); try done.
  intros l k evs k' Hk Hk' Hlw Hlj Hlt. wp_steps. rewrite Worker.accept_spec, Hidle.
  rewrite bool_decide_eq_true_2 by (subst x1; destruct x; cbn in *; congruence). wp_steps. cbn [fst].
  set (wk := set_worker_status BUSY (set_running_job (Some x1) w)).
  set (d3 := set_events evs _).
  assert (fk_job d3 (j_id x1) (w_tenant_id w) = true) as Hfkj.
  { apply fk_job_spec. exists x1. cbn. rewrite EJ, Eid, lookup_insert_eq. split; [done|congruence]. }
  apply wp_worker_save; unfold wk; cbn; fold wk; unfold w_tenant_id in *; cbn.
  - by rewrite Hrt.
  - rewrite Hrn, Hrt. exact Hfkn.
  - intros y [= <-]. done.
  - intros i l'. rewrite lookup_insert. case_decide; [intros [= <-] _; congruence|].
    intros Hl' Hlw'. destruct (int_leases d2 Hint2 i l' Hl') as (_ & _ & (y & Hy & <-)%fk_worker_spec & _).
    rewrite Hlw', (rw_row _ _ _ Hrw) in Hy. by injection Hy as <-.
  - wp_step. apply wp_record_for_job.
    + exact (eq_trans (f_equal (fk_job d3 (j_id x1)) (eq_trans Et (eq_trans Ht (eq_sym Hwt)))) Hfkj).
    + cbn. congruence.
    + intros e evs' k'' Hk''. wp_steps. split_and!; [|done..].
      eapply (sound_take d d2 _ n _ k x x1 nd n1 (w_id w) r l wk); try done; cbn; try lia.
      * rewrite <- EW. apply (rw_row _ _ _ Hrw).
      * congruence.
Qed.

(** The node objects and the jobs the pass still has to look at mirror the
    tables. *)
Definition nodes_read (d : db) (nodes : list node) : Prop :=
  NoDup (n_id <$> nodes) ∧ ∀ x, x ∈ nodes → db_nodes d !! n_id x = Some x.
Definition jobs_read (d : db) (js : list job) : Prop :=
  NoDup (j_id <$> js) ∧ ∀ x, x ∈ js → db_jobs d !! j_id x = Some x ∧ j_status x = QUEUED.

Lemma jobs_read_tail d d' x x' js :
  jobs_read d (x :: js) → db_jobs d' = <[j_id x := x']> (db_jobs d) → jobs_read d' js.
Proof using.
  intros [[Hnx Hnd]%NoDup_cons Hin] EJ. split; [done|]. intros y Hy. rewrite EJ, lookup_insert_ne.
  - apply Hin. by right.
  - intros E'. apply Hnx, list_elem_of_fmap. by exists y.
Qed.

Lemma nodes_read_update d d' nodes i nd n1 :
  nodes_read d nodes → nodes !! i = Some nd → n_id n1 = n_id nd →
  db_nodes d' = <[n_id nd := n1]> (db_nodes d) → nodes_read d' (<[i := n1]> nodes).
Proof using.
  intros [Hnd Hin] Hi Hid EN. split.
  - rewrite list_fmap_insert, Hid, list_insert_id; [done|]. by rewrite list_lookup_fmap, Hi.
  - intros y [i' Hi']%list_elem_of_lookup. rewrite EN. destruct (decide (i' = i)) as [->|Hne].
    + rewrite list_lookup_insert_eq in Hi' by (by eapply lookup_lt_Some). injection Hi' as <-.
      by rewrite Hid, lookup_insert_eq.
    + rewrite list_lookup_insert_ne in Hi' by done. rewrite lookup_insert_ne.
      * apply Hin. by eapply list_elem_of_lookup_2.
      * intros E'. apply Hne. eapply (NoDup_lookup _ _ _ (n_id y) Hnd); rewrite list_lookup_fmap, ?Hi', ?Hi; cbn; congruence.
Qed.

(** Allocating and placing, up to the saved SCHEDULED job. *)
Lemma placed_intro d n x nd :
  sound (mkWorld d n) → integrity d → db_jobs d !! j_id x = Some x → j_status x = QUEUED →
  db_nodes d !! n_id nd = Some nd → resources_le (j_resources x) (n_available nd) →
  j_tenant_id x = n_tenant_id nd →
  let n1 := set_available (resources_sub (n_available nd) (j_resources x)) nd in
  let x1 := set_status SCHEDULED (set_assigned_node_id (Some (n_id nd)) x) in
  let d1 := set_nodes (<[n_id nd := n1]> (db_nodes d)) d in
  node_int4 n1 = true ∧ job_int4 x1 = true ∧
  placed d (set_jobs (<[j_id x := x1]> (db_jobs d)) d1) x x1 nd n1.
Proof using.
  intros [Hd _] Hint Hx Hq Hnd Hfit Ht n1 x1 d1. cbn in Hd.
  destruct (int_nodes d Hint _ _ Hnd) as (_ & Hten & Hni). destruct (int_jobs d Hint _ _ Hx) as (_ & _ & Hji & _).
  destruct (co_nodes d Hd _ _ Hnd) as [Hok _]. pose proof (co_jobs d Hd _ _ Hx) as (? & ? & ? & _).
  assert (node_int4 n1 = true) as Hn1.
  { unfold n1, node_int4, resources_int4 in *. cbn. rewrite !andb_true_iff in *.
    destruct Hok as [_ [(? & ? & ?) _]], Hfit as (? & ? & ?), Hni as [[[? ?] ?] [[? ?] ?]].
    split_and!; try done.
    - eapply (int4_between 0 _ (cpu_cores (n_available nd))); try done; lia.
    - eapply (int4_between 0 _ (memory_mib (n_available nd))); try done; lia.
    - eapply (int4_between 0 _ (vram_mib (n_available nd))); try done; lia. }
  assert (job_int4 x1 = true) as Hx1 by (by destruct x).
  assert (integrity d1) as Hint1.
  { pose proof (upsert_node_integrity n1 d Hint) as H'. unfold upsert_node in H'.
    change (n_id n1) with (n_id nd) in H'. rewrite Hn1, Hnd, bool_decide_eq_true_2 in H' by done. exact H'. }
  split_and!; [done..|]. split; try done.
  pose proof (upsert_job_integrity x1 d1 Hint1) as H'. unfold upsert_job in H'.
  assert (j_id x1 = j_id x ∧ j_tenant_id x1 = j_tenant_id x ∧ j_assigned_node_id x1 = Some (n_id nd)) as (E1 & E2 & E3)
    by (by destruct x).
  rewrite Hx1, E1, E3 in H'. cbn in H'. rewrite Hx, ?E2, bool_decide_eq_true_2 in H' by done.
  assert (fk_node d1 (n_id nd) (j_tenant_id x) = true) as Hfk.
  { apply fk_node_spec. exists n1. cbn. by rewrite lookup_insert_eq. }
  rewrite Hfk in H'. exact H'.
Qed.

(** Undoing a placement gives the original rows back. *)
Lemma unplace x nd :
  job_wf x → j_status x = QUEUED → node_row_ok nd → resources_le (j_resources x) (n_available nd) →
  let n1 := set_available (resources_sub (n_available nd) (j_resources x)) nd in
  let x1 := set_status SCHEDULED (set_assigned_node_id (Some (n_id nd)) x) in
  unschedule x1 = (x, inr tt) ∧ release (j_resources x1) n1 = (nd, inr tt).
Proof using.
  intros Hwf Hq [Hc [Ha Hle]] Hfit n1 x1. split.
  - destruct Hwf as (_ & _ & _ & _ & Hf). unfold fields_ok in Hf. rewrite Hq in Hf. destruct Hf as [Hf _].
    unfold x1. clear x1 n1. destruct x as [? ? ? ? ? ? ? ? ? asg]. cbn in *. subst.
    unfold unschedule, _transition_to, is_scheduled, allowed. stM_unfold. cbn. eval_closed_decisions. cbn.
    eval_closed_decisions. done.
  - assert (j_resources x1 = j_resources x) as -> by (by destruct x).
    pose proof (job_wf_resources x Hwf) as Hr. rewrite release_spec; [|done|].
    + f_equal. unfold n1, set_available. destruct nd as [? cap ? ? ? ? ? av]; cbn in *. f_equal.
      destruct Hr as (? & ? & ?), Hfit as (? & ? & ?), Hle as (? & ? & ?).
      unfold released, resources_sub. destruct av; cbn in *. f_equal; lia.
    + destruct Hr as (? & ? & ?), Hfit as (? & ? & ?), Hle as (? & ? & ?), Ha as (? & ? & ?).
      unfold node_wf, resources_ok, resources_le, n1, resources_sub. cbn. lia.
Qed.

Lemma assign_to_queued nid x :
  j_status x = QUEUED →
  assign_to nid x = (set_status SCHEDULED (set_assigned_node_id (Some nid) x), inr tt).
Proof using.
  destruct x; cbn. intros ->. unfold assign_to, _transition_to, allowed. stM_unfold. cbn.
  eval_closed_decisions. done.
Qed.

Lemma schedule_job_sound x js nodes R d n :
  integrity d → sound (mkWorld d n) → nodes_read d nodes → jobs_read d (x :: js) →
  wp (schedule_job x nodes)
    (λ nodes' s, sound s ∧ nodes_read (w_db s) nodes' ∧ jobs_read (w_db s) js) R (mkWorld d n).
Proof using All.
  intros Hint Hs Hns Hjs. pose proof Hs as [Hd _]. cbn in Hd.
  destruct (proj2 Hjs x) as [Hx Hq]; [left|].
  assert (jobs_read d js) as Htl.
  { eapply (jobs_read_tail d _ x x); [done|]. by rewrite insert_id. }
  pose proof (co_jobs d Hd _ _ Hx) as Hwf. pose proof (job_wf_resources x Hwf) as Hres.
  assert (Forall node_wf nodes) as Hnwf.
  { apply Forall_forall. intros y Hy. destruct (co_nodes d Hd _ y (proj2 Hns y Hy)) as [[_ ?] _]. done. }
  unfold schedule_job. wp_steps. set (now := λ i, clock (i + n)).
  pose proof (select_node_best now x nodes Hres Hnwf) as Hbest.
  destruct (candidates_from 0 now x nodes) as [|c cs] eqn:Hcand.
  { rewrite Hbest. wp_steps. split_and!; [unchanged|done..]. }
  destruct Hbest as ([i nd] & kb & Hsel & _). rewrite Hsel.
  destruct (select_node_some _ _ _ _ _ Hres Hnwf Hsel) as [Hi Hel].
  apply eligible_spec in Hel as (Hten & _ & _ & _ & Hfit).
  assert (nd ∈ nodes) as Hin by (by eapply list_elem_of_lookup_2).
  pose proof (proj2 Hns nd Hin) as Hnd. destruct (co_nodes d Hd _ _ Hnd) as [Hok _].
  destruct (placed_intro d n x nd) as (Hn1 & Hx1 & Hpl); [done..|].
  set (n1 := set_available _ nd) in *. set (x1 := set_status _ _) in *.
  wp_steps. rewrite (allocate_spec _ _ Hres (proj2 Hok)), (proj2 (can_host_spec _ _) Hfit). wp_steps.
  rewrite (assign_to_queued _ _ Hq). wp_steps. cbn [fst]. fold n1 x1.
  assert (j_id x1 = j_id x ∧ j_tenant_id x1 = j_tenant_id x ∧ j_assigned_node_id x1 = Some (n_id nd)) as (E1 & E2 & E3)
    by (by destruct x).
  apply (wp_node_save nd); [done..|]. wp_steps.
  apply (wp_job_save x); [by rewrite E1|done|done| |].
  { intros m. rewrite E3. intros [= <-]. apply fk_node_spec. exists n1. cbn. by rewrite lookup_insert_eq, ?E2. }
  wp_steps. rewrite E1. change (n_id n1) with (n_id nd). cbn [db_jobs set_nodes].
  destruct (int_jobs d Hint _ _ Hx) as (_ & Htin & _).
  apply wp_record_integrity; [apply (pl_int _ _ _ _ _ _ Hpl)|..].
  { apply fk_job_spec. exists x1. cbn. by rewrite ?E1, lookup_insert_eq. }
  { cbn. by rewrite ?E2. }
  intros e evs k Hint2 Hk. wp_steps.
  set (d2 := set_events evs _) in *.
  assert (placed d d2 x x1 nd n1) as Hpl2 by (by destruct Hpl; split).
  assert (nodes_read d2 (<[i := n1]> nodes)) as Hns2 by (by eapply (nodes_read_update d)).
  assert (jobs_read d2 js) as Hjs2 by (by eapply (jobs_read_tail d)).
  unfold assign_worker. rewrite E3. wp_step.
  apply wp_worker_list; [by eapply placed_loadable|done|]. intros l ws k' Hl Hf Hk'.
  pose proof (hydrated_list_read d2 l ws Hint2 Hl Hf) as [_ Hws].
  eapply wp_mono; [apply (wp_assign_worker_loop d d2 n x x1 nd n1); [done..|lia]| |].
  { intros w s (Hs' & EN' & EJ'). wp_steps. split_and!; [done|..].
    - destruct Hns2 as [? Hin2]. split; [done|]. intros y Hy. rewrite EN'. by apply Hin2.
    - destruct Hjs2 as [? Hin2]. split; [done|]. intros y Hy. rewrite EJ'. by apply Hin2. }
  intros e0 s (-> & k2 & Hk2 & ->).
  destruct (unplace x nd Hwf Hq Hok Hfit) as [Hun Hrel]. fold x1 n1 in Hun, Hrel.
  wp_steps. rewrite Hun. wp_steps. rewrite Hrel. wp_steps. cbn [fst].
  destruct (int_nodes d Hint _ _ Hnd) as (_ & _ & Hni). destruct (int_jobs d Hint _ _ Hx) as (_ & _ & Hji & Hfk).
  apply (wp_node_save n1); [cbn; by rewrite lookup_insert_eq|done..|]. wp_steps.
  apply (wp_job_save x1); [cbn; by rewrite lookup_insert_eq|done|done| |].
  { intros m Hm. destruct Hwf as (_ & _ & _ & _ & Hfo). unfold fields_ok in Hfo. rewrite Hq in Hfo.
    destruct Hfo as [Hfo _]. congruence. }
  wp_step. set (d4 := set_jobs _ _).
  assert (db_nodes d4 = db_nodes d ∧ db_jobs d4 = db_jobs d ∧ db_workers d4 = db_workers d ∧
    db_leases d4 = db_leases d) as (F1 & F2 & F3 & F4).
  { cbn. rewrite !insert_insert_eq, !insert_id by done. done. }
  assert (∀ evs' n', (n ≤ n')%nat → sound (mkWorld (set_events evs' d4) n')) as Hs4.
  { intros evs' n' Hn'. destruct Hs as [_ Hm]. split; [by apply (consistent_ext d)|].
    eapply minted_shrink, Hm; [..|done]; intros k4; cbn [w_db db_jobs db_nodes db_workers db_leases set_events];
      by rewrite ?F1, ?F2, ?F3, ?F4. }
  apply wp_record_for_job; [apply fk_job_spec; exists x; by rewrite F2|done|].
  intros e1 evs1 k1 Hk1. wp_steps. split_and!; [apply Hs4; lia|..].
    + replace (<[i := nd]> nodes) with nodes by (by rewrite list_insert_id). destruct Hns as [? Hin4].
      split; [done|]. intros y Hy. cbn [w_db db_nodes set_events]. rewrite F1. by apply Hin4.
    + destruct Htl as [? Hin4]. split; [done|]. intros y Hy. cbn [w_db db_jobs set_events]. rewrite F2. by apply Hin4.
Qed.

Lemma schedule_all_sound js nodes R d n :
  integrity d → sound (mkWorld d n) → nodes_read d nodes → jobs_read d js →
  wp (schedule_all js nodes) (λ _, sound) R (mkWorld d n).
Proof using All.
  revert nodes d n. induction js as [|x js IH]; intros nodes d n Hint Hs Hns Hjs; cbn [schedule_all]; [by wp_steps|].
  wp_step. eapply wp_mono.
  - apply wp_and_integrity; [apply schedule_job_integrity, quiet_keeps|done|by apply (schedule_job_sound x js)].
  - intros nodes' [d' n'] (? & ? & ? & ?). by apply IH.
  - intros e s [_ H]. exact H.
Qed.

(** A scheduler pass never raises. *)
Lemma wp_scheduler_loop R d n :
  integrity d → sound (mkWorld d n) →
  wp scheduler_loop (λ _ s, integrity (w_db s) ∧ sound s) R (mkWorld d n).
Proof using All.
  intros Hint Hs. eapply wp_mono; [apply (wp_and_integrity scheduler_loop (λ _, sound) R);
    [apply scheduler_loop_integrity, quiet_keeps|done|]|done|intros e s [_ H]; exact H].
  pose proof Hs as [Hd _]. cbn in Hd. unfold scheduler_loop. wp_step.
  apply wp_node_list_available; [by apply consistent_loadable|done|]. intros nodes k Hnd Hin Hk. wp_step.
  apply wp_job_list; [by apply consistent_loadable|]. intros l k' Hl Hk'.
  apply schedule_all_sound; [done|unchanged|done|]. split.
  - rewrite sort_desc_perm. eapply sublist_NoDup, fmap_sublist, sublist_filter. rewrite Hl.
    apply rows_keys. intros i x Hx. by destruct (int_jobs d Hint i x Hx).
  - intros x. rewrite sort_desc_perm, list_elem_of_filter, Hl, elem_of_rows. intros [Hq [j Hj]].
    destruct (int_jobs d Hint j x Hj) as [<- _]. done.
Qed.

Lemma scheduler_loop_good : preserves good scheduler_loop.
Proof using All. intros [d n] [Hint Hs]. by apply wp_scheduler_loop. Qed.
End scheduling.
