(* ===== verification/Driving.v ===== *)
(** The cluster tick keeps the cluster consistent: a worker driven by the server
    starts its job, keeps its lease, and settles the result. *)
From S2P Require Import Prelude Values Job Node Scheduler Float64 Execution ApiKey Worker Db Prog Repos Services WorkerLoop Frame Cluster Invariant Holding Outcome Scheduling.
Local Open Scope Z_scope.

(** * Results *)

(** The job method a result stands for. *)
Definition result_op (r : JobExecutionResult) (now : datetime) : job_op :=
  if cancelled r then OpConfirmCancelled (exit_code r) now
  else if succeeded r then OpComplete (exit_code r) now
  else OpFail (exit_code r) now.

Lemma outcome_of_op r : (outcome_of r).1 = λ now, Worker.finish (run_op (result_op r now)).
Proof. unfold outcome_of, result_op. destruct (cancelled r); [done|]. by destruct (succeeded r). Qed.

Lemma result_op_finishing r now :
  exit_code_ok (exit_code r) → finishing (result_op r now) = true ∧ exit_code_ok (op_exit_code (result_op r now)).
Proof. unfold result_op. destruct (cancelled r); [done|]. by destruct (succeeded r). Qed.

Section results.
Context {E : Env}.

Lemma execution_code n command timeout set r :
  (execution_at n command timeout set).2 = inr r → exit_code_ok (exit_code r).
Proof.
  intros Hr. pose proof (execute_codes (H := os_at n) (λ c, -128 <= c < 256)
    (communicate_code n) (poll_code n) DEFAULT_TERMINATION_GRACE_PERIOD DEFAULT_POLL_INTERVAL (S (overdue_from n timeout))
    command timeout (Some (event_seen n set)) None ltac:(cbn; lia)) as Hc.
  unfold wp in Hc. unfold execution_at in Hr. destruct (execute _ _ _ _ _ _ _ _) as [s [e|r']]; [done|].
  cbn in Hr. injection Hr as ->. unfold exit_code_ok. destruct (exit_code r) as [c|] eqn:Hx; [|done].
  specialize (Hc c Hx). unfold int4. apply andb_true_iff. rewrite !Z.leb_le. cbn in Hc. lia.
Qed.

(** The command is stopped as cancelled only if the renewal thread set the event. *)
Lemma execution_cancelled n command timeout set r :
  (execution_at n command timeout set).2 = inr r → Forall (λ b, b = false) set → cancelled r = false.
Proof.
  intros Hr Hset. assert (∀ i, event_seen n set i = false) as Hno.
  { intros i. unfold event_seen. apply not_true_iff_false. intros (b & Hb%list_elem_of_In & Ht)%existsb_exists.
    cbn in Ht. subst b. eapply list_elem_of_lookup in Hb as [k Hk]. apply lookup_take_Some in Hk as [Hk _].
    by apply (Forall_lookup_1 _ _ _ _ Hset) in Hk. }
  unfold execution_at in Hr. destruct command as [c|]; [|by injection Hr as <-].
  pose proof (execute_spec (H := os_at n) DEFAULT_TERMINATION_GRACE_PERIOD DEFAULT_POLL_INTERVAL
    (S (overdue_from n timeout)) c timeout (Some (event_seen n set)) None) as Hs.
  unfold wp in Hs. destruct (execute _ _ _ _ _ _ _ _) as [s [e|r']]; [done|]. cbn in Hr. injection Hr as ->.
  destruct Hs as (_ & k & tail & _ & Hend).
  inversion Hend as [| | |? why i ? (_ & _ & Hw) Hdue|? why i ? (_ & _ & Hw) Hdue]; subst; try done;
    rewrite Hw; apply bool_decide_eq_false; intros ->; destruct Hdue as (f & [= <-] & Hf); by rewrite Hno in Hf.
Qed.
End results.

Section settle.
Context {E : Env} `{!Quiet E}.
Implicit Types (R : exn → world → Prop) (d : db).

(** A worker object whose running job is the stored one. *)
Lemma read_worker_running d w r x nd i l wk :
  holding d w r x nd i l → read_worker d r wk → w_running_job wk = Some x.
Proof using.
  intros Hh Hr. destruct (rw_job _ _ _ Hr (j_id x)) as (y & Hy & ->); [apply Hh|].
  pose proof (ho_job _ _ _ _ _ _ _ Hh). congruence.
Qed.

Lemma holding_events d w r x nd i l evs :
  holding d w r x nd i l → holding (set_events evs d) w r x nd i l.
Proof using. intros []. by split. Qed.

(** Nothing was requested that the job at hand does not know of. *)
Lemma keep_request_same c j :
  j_cancellation_requested_at c = j_cancellation_requested_at j → keep_request (Some c) j = j.
Proof using. intros E'. unfold keep_request. rewrite E'. by case_bool_decide. Qed.

Lemma finishing_request op x x' :
  finishing op = true → run_op op x = (x', inr tt) →
  j_cancellation_requested_at x' = j_cancellation_requested_at x.
Proof using. intros Hf. destruct op; try done; job_unfold; job_cases x; by intros [= <-]. Qed.

Lemma loadable_released d nd q :
  loadable d → node_row_ok nd → resources_ok q →
  loadable (set_nodes (<[n_id nd := set_available (released q nd) nd]> (db_nodes d)) d).
Proof using.
  intros [Hj Hn] [Hc Hwf] Hq. split; [done|]. intros k m. cbn. rewrite lookup_insert.
  case_decide; [|apply Hn]. intros [= <-]. split; [done|].
  eapply release_wf; [done|done|by apply release_spec].
Qed.

Lemma wp_settle w r wk x nd i l result Q R d n :
  exit_code_ok (exit_code result) → integrity d → consistent d → holding d w r x nd i l →
  read_worker d r wk → w_id wk = w →
  ((run_op (result_op result (clock n)) x).2 ≠ inr tt → ∀ e k, (n ≤ k)%nat → R e (mkWorld d k)) →
  (∀ x' now L' evs k,
     run_op (result_op result now) x = (x', inr tt) → leases_except (j_id x) (db_leases d) L' → (n ≤ k)%nat →
     Q tt (mkWorld (dropped d w (row_of_worker (Worker.recover wk)) x x' nd L' evs) k)) →
  wp (settle w (l_id l) (n_tenant_id nd) wk result) Q R (mkWorld d n).
Proof using All.
  intros Hcode Hint Hd Hh Hr Hwid HR HQ.
  pose proof (consistent_loadable d Hd) as Hld. pose proof Hh as [Hw Hrun Hjob Hnode Hon Hasg Hst Hl Hlw Hlj Htw Htj Htl Hten].
  destruct (read_worker_row d r wk Hr) as (Hn & _ & _ & Ewt).
  unfold settle. wp_steps. rewrite outcome_of_op, Worker.finish_spec, (read_worker_running d w r x nd i l wk Hh Hr).
  destruct (run_op (result_op result (clock n)) x) as [x' [e|[]]] eqn:Hop; [by apply HR; [|lia]|].
  wp_steps. cbn [fst snd].
  assert (job_wf x) as Hwf by (by eapply co_jobs). destruct (result_op_finishing result (clock n) Hcode) as [Hfin Hok].
  destruct (finishing_given_up _ _ _ Hwf Hfin Hop) as [Hgu Hasg'].
  destruct (int_jobs d Hint _ _ Hjob) as (_ & _ & Hji & _).
  destruct (int_nodes d Hint _ _ Hnode) as (_ & _ & Hni). destruct (co_nodes d Hd _ _ Hnode) as [Hnok _].
  destruct (gu_identity _ _ Hgu) as (Ejid & Ejres & Ejt & _).
  apply wp_record_integrity; [done|rewrite Ejid, Ejt; apply fk_job_spec; eauto|congruence|].
  intros _ evs k Hint' Hk. wp_step.
  eapply (wp_release_lease w r x nd i l); [done|by apply (loadable_ext d)|by apply holding_events|done|].
  intros _ L' evs' k' HL Hk'. wp_step.
  apply wp_worker_save; unfold w_tenant_id in *; cbn; rewrite ?Ewt, ?Hn, ?Hwid; try done; [congruence|..].
  { apply fk_node_spec. exists nd. by rewrite Hon, Htw. }
  { intros i1 l1 [Hl1 _]%HL Hlw1. destruct (int_leases d Hint i1 l1 Hl1) as (_ & _ & (y & Hy & <-)%fk_worker_spec & _).
    rewrite Hlw1, Hw in Hy. by injection Hy as <-. }
  rewrite Hasg', Hasg. wp_steps. apply wp_node_get_by_id; [by apply (loadable_ext d)|].
  rewrite (select_node_holding _ _ _ nd) by done. wp_steps.
  rewrite Ejres, (release_spec _ _ (job_wf_resources x Hwf) (proj2 Hnok)). wp_steps.
  apply (wp_node_save nd); [done|done|by eapply (released_int4 (j_resources x) nd); [..|apply job_wf_resources| |]|].
  wp_steps. cbn [fst]. rewrite Ejid. apply wp_job_get_by_id.
  { by apply (loadable_released _ nd (j_resources x)); [apply (loadable_ext d)| |apply job_wf_resources]. }
  rewrite (select_job_holding _ _ _ x) by done.
  rewrite keep_request_same by (symmetry; by eapply finishing_request).
  apply (wp_job_save x); [cbn; by rewrite Ejid|done| | |].
  { eapply run_op_int4; [exact Hwf|exact Hji|exact Hop|]. by destruct (result_op result (clock n)) as [| | | |[]|[]| | |[]| |]. }
  { intros m Hm. rewrite Hasg', Hasg in Hm. injection Hm as <-. apply fk_node_spec. eexists. cbn.
    rewrite lookup_insert_eq. split; [done|]. cbn. congruence. }
  rewrite Ejid. eapply HQ; [done..|lia].
Qed.

(** Without the lease it was started under, a result is not recorded: the
    settling raises before any row but the log of events is written. *)
Lemma wp_settle_fenced w lid t wk result (Q : unit → world → Prop) R d n :
  (∀ i l, db_leases d !! i = Some l → l_worker_id l = w → l_tenant_id l = t → l_id l ≠ lid) →
  (∀ e evs k, (n ≤ k)%nat → R e (mkWorld (set_events evs d) k)) →
  wp (settle w lid t wk result) Q R (mkWorld d n).
Proof using All.
  intros Hno HR. assert (∀ e k, (n ≤ k)%nat → R e (mkWorld d k)) as HR'.
  { intros e k Hk. replace d with (set_events (db_events d) d) by (by destruct d). by apply HR. }
  unfold settle. wp_steps. destruct ((outcome_of result).1 (clock n) wk) as [wk' [e|x]]; [apply HR'; lia|]. wp_steps.
  apply wp_record_any; [|intros; apply HR'; lia]. intros _ evs k Hk. wp_step.
  unfold release_lease. wp_step. apply wp_lease_get_by_worker_id. intros [l|] k' Ho Hk'; [|apply HR; lia].
  destruct Ho as (i & Hi & Hlw & Hlt). rewrite bool_decide_eq_false_2 by (by eapply Hno). apply HR; lia.
Qed.
End settle.

Section driving.
Context {E : Env} `{!Quiet E}.
Implicit Types (R : exn → world → Prop) (d : db).

(** ** Keeping the lease *)

(** The same lease with a new expiry. *)
Definition extended (l l' : lease) : Prop := ∃ t, l' = set_expires_at t l.

Definition with_lease (i : LeaseId) (l : lease) (d : db) : db := set_leases (<[i := l]> (db_leases d)) d.

Lemma extended_refl l : extended l l.
Proof using. exists (l_expires_at l). by destruct l. Qed.

Lemma extended_trans l1 l2 l3 : extended l1 l2 → extended l2 l3 → extended l1 l3.
Proof using. intros [t ->] [t' ->]. by exists t'. Qed.

Lemma with_lease_twice i l l' d : with_lease i l' (with_lease i l d) = with_lease i l' d.
Proof using. unfold with_lease, set_leases. cbn. by rewrite insert_insert_eq. Qed.

Lemma with_lease_id i l d : db_leases d !! i = Some l → with_lease i l d = d.
Proof using. intros Hl. unfold with_lease. rewrite insert_id by done. by destruct d. Qed.

Lemma holding_extended d w r x nd i l l' :
  holding d w r x nd i l → extended l l' → holding (with_lease i l' d) w r x nd i l'.
Proof using.
  intros [] [t ->]. split; try done. cbn. by rewrite lookup_insert_eq.
Qed.

Lemma wp_renew_held w r x nd i l Q R d n :
  integrity d → holding d w r x nd i l →
  (∀ l' k, extended l l' → (n < k)%nat → Q tt (mkWorld (with_lease i l' d) k)) →
  wp (renew_lease w (l_id l) (n_tenant_id nd) DEFAULT_LEASE_DURATION) Q R (mkWorld d n).
Proof using All.
  intros Hint Hh HQ. pose proof Hh as [Hw Hrun Hjob Hnode Hon Hasg Hst Hl Hlw Hlj Htw Htj Htl Hten].
  unfold renew_lease. wp_step. apply wp_lease_get_by_worker_id. intros o k Ho Hk.
  destruct o as [l'|]; [|exfalso; by eapply Ho].
  destruct Ho as (i' & Hi' & Hl'w & _). assert (i' = i) as -> by (eapply (int_lease_worker d Hint); eauto; congruence).
  assert (l' = l) as -> by congruence. rewrite bool_decide_eq_true_2 by done. cbn [negb].
  unfold LeaseRepository.renew. wp_steps. unfold wp, update_lease_expiry.
  destruct (int_leases d Hint i l Hl) as [Hid _]. rewrite Hid, Hl, bool_decide_eq_true_2 by done.
  apply HQ; [by eexists|lia].
Qed.

(** A turn of the renewal thread while nobody else writes: the lease is
    extended, the job runs on, the event stays clear. *)
Lemma wp_renewal_turn w r x nd i l Q R d n :
  integrity d → loadable d → holding d w r x nd i l → j_status x = RUNNING →
  (∀ l' k, extended l l' → (n < k)%nat → Q (Renewed x false) (mkWorld (with_lease i l' d) k)) →
  wp (renewal_turn w (l_id l) (n_tenant_id nd) x false) Q R (mkWorld d n).
Proof using All.
  intros Hint Hld Hh Hrun HQ. unfold renewal_turn. wp_step. wp_step. wp_step. wp_step.
  eapply wp_renew_held; [done..|]. intros l' k Hl' Hk. wp_steps. apply wp_job_get_by_id; [by apply (loadable_ext d)|].
  rewrite (select_job_holding _ _ _ x) by (apply Hh). unfold is_cancelling. rewrite Hrun. cbn.
  rewrite bool_decide_eq_false_2 by done. cbn. apply HQ; [done|lia].
Qed.

Lemma with_lease_integrity i l l' d :
  integrity d → db_leases d !! i = Some l → extended l l' → integrity (with_lease i l' d).
Proof using.
  intros Hint Hl [t ->]. destruct (int_leases d Hint i l Hl) as [Hid _].
  pose proof (update_lease_expiry_integrity i (l_tenant_id l) t d Hint) as H. unfold update_lease_expiry in H.
  by rewrite Hl, bool_decide_eq_true_2 in H.
Qed.

Lemma with_lease_sound i l l' d n n' :
  sound (mkWorld d n) → db_leases d !! i = Some l → extended l l' → (n ≤ n')%nat →
  sound (mkWorld (with_lease i l' d) n').
Proof using.
  intros [Hd Hm] Hl [t ->] Hn. split; cbn.
  - by eapply (update_lease_consistent d _ i l).
  - eapply minted_shrink, Hm; try done. intros k. cbn. apply is_Some_insert_old. eauto.
Qed.

Lemma wp_keep_lease_alive turns w r x nd i l Q R d n :
  integrity d → loadable d → holding d w r x nd i l → j_status x = RUNNING →
  (∀ l' k, extended l l' → (n ≤ k)%nat →
     Q (mkRenewing x (replicate turns false) None) (mkWorld (with_lease i l' d) k)) →
  wp (keep_lease_alive turns w (l_id l) (n_tenant_id nd) x false) Q R (mkWorld d n).
Proof using All.
  intros Hint Hld Hh Hrun. revert l d n Q Hint Hld Hh.
  induction turns as [|turns IH]; intros l d n Q Hint Hld Hh HQ; cbn [keep_lease_alive].
  - apply wp_ret. rewrite <- (with_lease_id i l d) by apply Hh. apply HQ; [apply extended_refl|lia].
  - wp_step. eapply wp_renewal_turn; [done..|]. intros l' k Hl' Hk. wp_step.
    pose proof Hl' as [t ->]. change (l_id l) with (l_id (set_expires_at t l)).
    apply IH; [by eapply with_lease_integrity; [|apply Hh|]|by apply (loadable_ext d)|by eapply holding_extended|].
    intros l2 k2 Hl2 Hk2. apply wp_ret. cbn. rewrite with_lease_twice. apply HQ; [eapply extended_trans; [exact Hl'|exact Hl2]|lia].
Qed.

(** ** Starting the job *)

Lemma holding_started d w r x nd i l op x1 :
  holding d w r x nd i l → safe_op op = true → run_op op x = (x1, inr tt) →
  holding (set_jobs (<[j_id x := x1]> (db_jobs d)) d) w r x1 nd i l ∧ j_id x1 = j_id x.
Proof using.
  intros [Hw Hr Hj Hn Hon Ha Hst Hl Hlw Hlj Htw Htj Htl Ht] Hop Hrun. pose proof (run_op_sound op x) as Hs. rewrite Hrun in Hs.
  destruct Hs as [(Eid & _ & Et & _) _]. destruct (safe_op_effect op x x1 Hop Hrun) as [Hh _].
  destruct (Hh Hst) as [Ea Hst']. split; [|done]. split; cbn; rewrite ?Eid, ?Ea, ?Et; try done.
  by rewrite lookup_insert_eq.
Qed.

(** The job a driven worker runs: the stored one, or that one started. *)
Definition running_from (x x1 : job) : Prop :=
  j_status x1 = RUNNING ∧ (x1 = x ∨ ∃ now, run_op (OpStart now) x = (x1, inr tt)).

(** The tables while the command of the job runs. *)
Definition in_progress (d : db) (x1 : job) (i : LeaseId) (l1 : lease) : db :=
  with_lease i l1 (set_jobs (<[j_id x1 := x1]> (db_jobs d)) d).

(** What there is to say once the command is running. *)
Record driven (d : db) (n : nat) (w : WorkerId) (r : worker_row) (wk : worker) (x x1 : job) (nd : node)
    (i : LeaseId) (l l1 : lease) (k : nat) : Prop := mkDriven {
  dr_holding : holding d w r x nd i l;
  dr_worker : read_worker d r wk;
  dr_id : w_id wk = w;
  dr_running : running_from x x1;
  dr_lease : extended l l1;
  dr_now : holding (in_progress d x1 i l1) w r x1 nd i l1;
  dr_integrity : integrity (in_progress d x1 i l1);
  dr_sound : sound (mkWorld (in_progress d x1 i l1) k);
  dr_later : (n ≤ k)%nat;
}.

Lemma hydrate_all d dr w r :
  integrity d → db_workers d !! w = Some r → ∃ wk, hydrate d dr r = Some wk ∧ read_worker d r wk ∧ w_id wk = w.
Proof using.
  intros Hint Hr. destruct (int_workers d Hint w r Hr) as (Hid & _ & (nd & Hnd & _)%fk_node_spec & _).
  destruct (hydrate d dr r) as [wk|] eqn:Hh.
  - exists wk. assert (read_worker d r wk) by (by eapply hydrate_read). split_and!; try done.
    unfold hydrate in Hh. rewrite Hnd in Hh. by injection Hh as <-.
  - exfalso. unfold hydrate in Hh. by rewrite Hnd in Hh.
Qed.

(** A program that keeps the constraints of the schema may rely on them. *)
Lemma wp_keep_integrity {A} (m : prog A) (Q : A → world → Prop) R d n :
  preserves (on_db integrity) m → integrity d →
  wp m (λ a s, integrity (w_db s) → Q a s) (λ e s, integrity (w_db s) → R e s) (mkWorld d n) →
  wp m Q R (mkWorld d n).
Proof using.
  intros Hp Hint Hm. specialize (Hp (mkWorld d n) Hint). unfold wp in *.
  destruct (m _) as [s [e|a]]; by apply Hm.
Qed.

Lemma read_worker_in_progress d r wk x x1 i l1 nd w l :
  read_worker d r wk → holding d w r x nd i l → j_id x1 = j_id x →
  read_worker (in_progress d x1 i l1) r (set_running_job (Some x1) wk).
Proof using.
  intros Hr Hh Hid. pose proof (read_worker_running _ _ _ _ _ _ _ _ Hh Hr) as Hx.
  destruct Hr as [Hrow Hback (nd' & nm & Hnd & Hwn) Hj]. split; cbn; [done| |eauto|].
  - rewrite <- Hback. unfold row_of_worker. cbn. by rewrite Hx, Hid.
  - intros j Hrj. rewrite (ho_running _ _ _ _ _ _ _ Hh) in Hrj. injection Hrj as <-.
    exists x1. by rewrite Hid, lookup_insert_eq.
Qed.

Section with_goals.
Context (d : db) (n : nat) (w : WorkerId) (Q : unit → world → Prop) (R : exn → world → Prop).
Context (HF : ∀ r wk x x1 nd i l l1 m turns k f, driven d n w r wk x x1 nd i l l1 k →
     (execution_at m (j_command x1) (j_execution_timeout x1) (replicate turns false)).2 = inl f →
     R HostFault (mkWorld (in_progress d x1 i l1) k)).
Context (HS : ∀ r wk x x1 x2 nd i l l1 m turns k res now L' evs k', driven d n w r wk x x1 nd i l l1 k →
     (execution_at m (j_command x1) (j_execution_timeout x1) (replicate turns false)).2 = inr res →
     run_op (result_op res now) x1 = (x2, inr tt) →
     leases_except (j_id x1) (db_leases (in_progress d x1 i l1)) L' → (k ≤ k')%nat →
     Q tt (mkWorld (dropped (in_progress d x1 i l1) w (row_of_worker (Worker.recover wk)) x1 x2 nd L' evs) k')).

(** A running job that was not cancelled can take either result. *)
Lemma result_op_runs res now x1 :
  j_status x1 = RUNNING → cancelled res = false → (run_op (result_op res now) x1).2 = inr tt.
Proof using.
  intros Hrun Hc. unfold result_op. rewrite Hc. destruct (succeeded res); job_unfold; by job_cases x1.
Qed.

(** From the moment the job is stored as running. *)
Lemma wp_drive r wk x x1 nd i l k :
  let d1 := set_jobs (<[j_id x1 := x1]> (db_jobs d)) d in
  holding d w r x nd i l → read_worker d r wk → w_id wk = w → running_from x x1 → j_id x1 = j_id x →
  holding d1 w r x1 nd i l → integrity d1 → sound (mkWorld d1 k) → (n ≤ k)%nat →
  wp (turns ← turns_taken;
      renewed ← keep_lease_alive turns w (l_id l) (n_tenant_id nd) x1 false;
      result ← run_command (j_command x1) (j_execution_timeout x1) (rn_set renewed);
      match rn_lost renewed with
      | Some e => raise e
      | None => settle w (l_id l) (n_tenant_id nd) (set_running_job (Some (rn_job renewed)) wk) result
      end) Q R (mkWorld d1 k).
Proof using All.
  intros d1 Hh Hr Hid Hrun Hjid Hh1 Hint1 Hs1 Hk. pose proof (proj1 Hs1) as Hd1. cbn in Hd1.
  wp_step. unfold turns_taken. wp_steps. unfold wp at 1, effect_number. cbn -[wp]. wp_steps.
  apply (wp_keep_lease_alive _ w r x1 nd i l); [done|by apply consistent_loadable|done|apply Hrun|].
  intros l1 k1 Hl1 Hk1. fold (in_progress d x1 i l1).
  assert (driven d n w r wk x x1 nd i l l1 k1) as Hdr.
  { split; try done; [by eapply holding_extended|eapply with_lease_integrity; [done|apply Hh1|done]| |lia].
    eapply (with_lease_sound i l l1 d1 k); [done|apply Hh1|done|lia]. }
  wp_step. unfold run_command. wp_steps. unfold wp at 1, effect_number. cbn -[wp execution_at settle].
  destruct (execution_at k1 _ _ _).2 as [f|res] eqn:Hex; wp_step.
  { eapply HF; [|exact Hex]. destruct Hdr. split; try done; [|lia]. by eapply wp_sound_le; [|done]; lia. }
  pose proof Hl1 as [t El1]. replace (l_id l) with (l_id l1) by (by subst l1).
  eapply (wp_settle w r _ x1 nd i l1); [by eapply execution_code|apply Hdr|apply Hdr|apply Hdr| |done|..].
  - by eapply read_worker_in_progress.
  - intros Hno. exfalso. apply Hno, result_op_runs; [apply Hrun|]. eapply execution_cancelled; [exact Hex|].
    by apply Forall_replicate.
  - intros x2 now L' evs k2 Hop HL Hk2. eapply (HS r wk x x1 x2 nd i l l1); try done. lia.
Qed.
End with_goals.

(** The outcome of the loop for a worker: nothing to do; the job cannot be
    started, because it is or was cancelled; the host cannot run the command; the
    result is settled. *)
Lemma wp_worker_loop w Q R d n :
  integrity d → sound (mkWorld d n) →
  ((∀ r x nd i l, holding d w r x nd i l → j_status x = CANCELLING ∨ j_status x = CANCELLED) → ∀ e k, (n ≤ k)%nat → R e (mkWorld d k)) →
  ((∀ r, db_workers d !! w = Some r → r_running_job_id r = None) → ∀ k, (n ≤ k)%nat → Q tt (mkWorld d k)) →
  (∀ r wk x x1 nd i l l1 m turns k f, driven d n w r wk x x1 nd i l l1 k →
     (execution_at m (j_command x1) (j_execution_timeout x1) (replicate turns false)).2 = inl f →
     R HostFault (mkWorld (in_progress d x1 i l1) k)) →
  (∀ r wk x x1 x2 nd i l l1 m turns k res now L' evs k', driven d n w r wk x x1 nd i l l1 k →
     (execution_at m (j_command x1) (j_execution_timeout x1) (replicate turns false)).2 = inr res →
     run_op (result_op res now) x1 = (x2, inr tt) →
     leases_except (j_id x1) (db_leases (in_progress d x1 i l1)) L' → (k ≤ k')%nat →
     Q tt (mkWorld (dropped (in_progress d x1 i l1) w (row_of_worker (Worker.recover wk)) x1 x2 nd L' evs) k')) →
  wp (worker_execution_loop w) Q R (mkWorld d n).
Proof using All.
  intros Hint Hs HR HQ HF HS. pose proof Hs as [Hd _]. cbn in Hd. pose proof (consistent_loadable d Hd) as Hld.
  unfold worker_execution_loop. wp_step. apply wp_worker_get_across; [done|]. intros dr k Hk.
  destruct (db_workers d !! w) as [r|] eqn:Hw; cbn [mbind option_bind].
  2:{ wp_steps. apply HR; [|lia]. intros r x nd i l Hh. pose proof (ho_worker _ _ _ _ _ _ _ Hh). congruence. }
  destruct (hydrate_all d dr w r Hint Hw) as (wk & -> & Hr & Hid).
  destruct (read_worker_row d r wk Hr) as (_ & Hj & _ & Ewt).
  destruct (w_running_job wk) as [x|] eqn:Hx; cbn in Hj.
  2:{ wp_steps. apply HQ; [|lia]. intros r' Hr'. congruence. }
  destruct (holding_of_worker d w r (j_id x) Hint Hd Hw (eq_sym Hj)) as (x' & nd & i & l & Hh & _).
  assert (x' = x) as -> by (pose proof (read_worker_running _ _ _ _ _ _ _ _ Hh Hr); congruence).
  pose proof Hh as [_ Hrj Hjob Hnode Hon Hasg Hst Hl Hlw Hlj Htw Htj Htl Hten].
  rewrite Ewt, Htw. wp_step. apply wp_lease_get_by_worker_id. intros o k1 Ho Hk1.
  destruct o as [l'|]; [|exfalso; by eapply Ho].
  destruct Ho as (i' & Hi' & Hl'w & _). assert (i' = i) as -> by (eapply (int_lease_worker d Hint); eauto; congruence).
  assert (l' = l) as -> by congruence. clear Hi' Hl'w. wp_step.
  unfold is_running. case_bool_decide as Hrunning.
  { wp_step. cbn [fst snd].
    pose proof (wp_drive d n w Q R HF HS r wk x x nd i l k1) as Hgo. cbv zeta in Hgo.
    rewrite (insert_id (db_jobs d)) in Hgo by done. replace (set_jobs (db_jobs d) d) with d in Hgo by (by destruct d).
    apply Hgo; try done; [split; [done|by left]|by eapply wp_sound_le; [|done]; lia|lia]. }
  wp_steps. rewrite Worker.start_spec, Hx.
  destruct (Job.start (clock k1) x) as [x1 [e|[]]] eqn:Hstart.
  { apply HR; [|lia]. intros r2 x2 nd2 i2 l2 Hh2.
    assert (x2 = x) as -> by (pose proof (ho_worker _ _ _ _ _ _ _ Hh2); pose proof (ho_running _ _ _ _ _ _ _ Hh2);
      pose proof (ho_job _ _ _ _ _ _ _ Hh2); congruence).
    clear -Hstart Hst Hrunning. revert Hstart Hst Hrunning. job_unfold. job_cases x; auto; done. }
  wp_steps. unfold persist_job_started. cbn [fst snd w_running_job set_running_job].
  assert (run_op (OpStart (clock k1)) x = (x1, inr tt)) as Hop by done.
  destruct (holding_started d w r x nd i l (OpStart (clock k1)) x1 Hh eq_refl Hop) as [Hh1 Ejid].
  assert (job_wf x) as Hwf by (by eapply co_jobs). destruct (int_jobs d Hint _ _ Hjob) as (_ & _ & Hji & _).
  eapply wp_keep_integrity; [unfold JobRepository.save; pose proof (quiet_keeps integrity); service_preserves|done|].
  apply (wp_job_save x); [by rewrite Ejid|rewrite Htj; symmetry; apply Hh1| | |].
  { by eapply (run_op_int4 (OpStart (clock k1)) x). }
  { intros m Hm. rewrite (ho_assigned _ _ _ _ _ _ _ Hh1) in Hm. injection Hm as <-. apply fk_node_spec.
    exists nd. split; [done|]. symmetry. apply Hh1. }
  intros Hint1. cbn in Hint1. wp_steps. cbn [fst snd].
  apply (wp_drive d n w Q R HF HS r wk x x1 nd i l); try done; [|by rewrite Ejid| |lia].
  - split; [|right; by eexists]. clear -Hstart. revert Hstart. job_unfold. job_cases x; by intros [= <-].
  - eapply (sound_job_op d n _ (OpStart (clock k1)) x); try done; lia.
Qed.

(** ** The tick *)

Lemma worker_loop_sound w d n :
  integrity d → sound (mkWorld d n) → wp (worker_execution_loop w) (λ _, sound) (λ _, sound) (mkWorld d n).
Proof using All.
  intros Hint Hs. apply wp_worker_loop; [done..|intros _ e k Hk; unchanged|intros _ k Hk; unchanged| |].
  - intros r wk x x1 nd i l l1 m turns k f Hdr _. apply Hdr.
  - intros r wk x x1 x2 nd i l l1 m turns k res now L' evs k' Hdr Hex Hop HL Hk'.
    pose proof (dr_now _ _ _ _ _ _ _ _ _ _ _ _ Hdr) as Hh. pose proof (dr_sound _ _ _ _ _ _ _ _ _ _ _ _ Hdr) as [Hd1 Hm1].
    cbn in Hd1. destruct (result_op_finishing res now (execution_code _ _ _ _ _ Hex)) as [Hfin _].
    destruct (finishing_given_up _ x1 x2 (co_jobs _ Hd1 _ _ (ho_job _ _ _ _ _ _ _ Hh)) Hfin Hop) as [Hgu _].
    eapply (sound_drop (in_progress d x1 i l1) _ k k' w r (row_of_worker (Worker.recover wk)) x1 x2 nd);
      try done; [apply (dr_integrity _ _ _ _ _ _ _ _ _ _ _ _ Hdr)|]; cbn.
    destruct (read_worker_row d r wk (dr_worker _ _ _ _ _ _ _ _ _ _ _ _ Hdr)) as (-> & _). by apply Hh.
Qed.
End driving.

Section tick_interference.
Context {E : Env} (Hi : interference_keeps integrity).

Lemma effect_number_preserves I : preserves (on_db I) effect_number.
Proof. by intros w Hw. Qed.

Lemma renewal_turn_integrity w l t j b : preserves (on_db integrity) (renewal_turn w l t j b).
Proof using Hi.
  unfold renewal_turn, renew_lease. apply preserves_try; [|intros e k [= <-]; apply preserves_ret].
  apply preserves_bind; [apply preserves_try; [service_preserves|]|intros; service_preserves].
  intros e k. destruct e; try done. intros [= <-]. apply preserves_ret.
Qed.

Lemma keep_lease_alive_integrity turns w l t j b : preserves (on_db integrity) (keep_lease_alive turns w l t j b).
Proof using Hi.
  revert j b. induction turns as [|turns IH]; intros j b; cbn [keep_lease_alive]; [apply preserves_ret|].
  apply preserves_bind; [apply renewal_turn_integrity|]. intros [j' b'|e|j']; try apply preserves_ret.
  apply preserves_bind; [done|intros; apply preserves_ret].
Qed.

Lemma worker_loop_integrity w : preserves (on_db integrity) (worker_execution_loop w).
Proof using Hi.
  unfold worker_execution_loop, turns_taken, run_command, settle, release_lease, persist_job_started, record_for_job.
  repeat first [apply keep_lease_alive_integrity|apply effect_number_preserves|prog_step|repo_unfold].
Qed.

Lemma cluster_tick_integrity : preserves (on_db integrity) cluster_tick.
Proof using Hi.
  unfold cluster_tick. apply preserves_bind; [by apply scheduler_loop_integrity|intros _].
  apply preserves_bind; [service_preserves|intros ws]. apply preserves_for. intros wk. unfold drive_worker.
  destruct (w_running_job wk); [|apply preserves_ret]. case_bool_decide; [apply preserves_ret|].
  apply preserves_try; [apply worker_loop_integrity|]. intros e k [= <-]. apply preserves_ret.
Qed.
End tick_interference.

Section tick.
Context {E : Env} `{!Quiet E}.

Lemma worker_loop_good w : preserves good (worker_execution_loop w).
Proof using All.
  apply preserves_good; [apply worker_loop_integrity, quiet_keeps|]. intros d n. apply worker_loop_sound.
Qed.

Lemma drive_worker_good wk : preserves good (drive_worker wk).
Proof using All.
  unfold drive_worker. destruct (w_running_job wk); [|apply preserves_ret]. case_bool_decide; [apply preserves_ret|].
  apply preserves_try; [apply worker_loop_good|]. intros e k [= <-]. apply preserves_ret.
Qed.

(** A read of all workers. *)
Lemma worker_list_good : preserves good WorkerRepository.list_across_tenants.
Proof using All.
  intros [d n] [Hint Hs]. apply (wp_worker_list (λ _, good) (λ _, good)); [apply consistent_loadable, Hs|done|].
  intros l ws k _ _ Hk. split; [done|unchanged].
Qed.

Lemma cluster_tick_good : preserves good cluster_tick.
Proof using All.
  unfold cluster_tick. apply preserves_bind; [apply scheduler_loop_good|intros _].
  apply preserves_bind; [apply worker_list_good|intros ws]. apply preserves_for, drive_worker_good.
Qed.

Lemma run_cluster_tick_good : preserves good _run_cluster_tick.
Proof using All.
  unfold _run_cluster_tick. apply preserves_bind; [|intros _]; apply preserves_try;
    [apply cluster_tick_good| |apply reconciliation_loop_good|]; intros e k [= <-]; apply preserves_ret.
Qed.

(** The tick raises nothing. *)
Lemma wp_cluster_tick R d n :
  integrity d → sound (mkWorld d n) → wp cluster_tick (λ _, good) R (mkWorld d n).
Proof using All.
  intros Hint Hs. unfold cluster_tick. wp_step. eapply wp_mono; [by apply (wp_scheduler_loop R)| |done].
  intros [] [d1 n1] [Hint1 Hs1]. cbn in Hint1. wp_step. apply wp_worker_list; [apply consistent_loadable, Hs1|done|].
  intros l ws k _ _ Hk. eapply (wp_for (λ _, good)); [|split; [done|unchanged]].
  intros wk ws' s Hg. pose proof (drive_worker_good wk s Hg) as H. unfold wp, drive_worker in *.
  destruct (w_running_job wk); [|done]. case_bool_decide; [done|]. unfold try_except in *.
  by destruct (worker_execution_loop (w_id wk) s) as [s' [e|a]].
Qed.
End tick.

(** What the services cannot disturb, the tick cannot either. *)
Section tick_frame.
Context {E : Env} (J : world → Prop) `{!Frame J}.

Lemma effect_number_frame : preserves J effect_number.
Proof. intros w Hw. exact (fr_now w Hw). Qed.

Lemma keep_lease_alive_frame turns w l t j b : preserves J (keep_lease_alive turns w l t j b).
Proof.
  revert j b. induction turns as [|turns IH]; intros j b; cbn [keep_lease_alive]; [apply preserves_ret|].
  apply preserves_bind.
  - unfold renewal_turn, renew_lease. apply preserves_try; [|intros e k [= <-]; apply preserves_ret].
    apply preserves_bind; [apply preserves_try; [framed|]|intros; framed].
    intros e k. destruct e; try done. intros [= <-]. apply preserves_ret.
  - intros [j' b'|e|j']; try apply preserves_ret. apply preserves_bind; [done|intros; apply preserves_ret].
Qed.

Lemma run_cluster_tick_frame : preserves J _run_cluster_tick.
Proof.
  unfold _run_cluster_tick. apply preserves_bind; [|intros _]; apply preserves_try;
    [|intros e k [= <-]; apply preserves_ret|by apply reconciliation_loop_frame|intros e k [= <-]; apply preserves_ret].
  unfold cluster_tick. apply preserves_bind; [by apply scheduler_loop_frame|intros _].
  apply preserves_bind; [framed|intros ws]. apply preserves_for. intros wk. unfold drive_worker.
  destruct (w_running_job wk); [|apply preserves_ret]. case_bool_decide; [apply preserves_ret|].
  apply preserves_try; [|intros e k [= <-]; apply preserves_ret].
  unfold worker_execution_loop, turns_taken, run_command, settle, release_lease, persist_job_started.
  repeat first [apply keep_lease_alive_frame|apply effect_number_frame|by apply record_for_job_frame|frame_step].
Qed.
End tick_frame.
