(* ===== verification/System.v ===== *)
(** The control plane as a whole: the calls that change the cluster, arriving in
    any order, and what holds after any number of them. *)
From S2P Require Import Prelude Values Job Node Scheduler Float64 Execution ApiKey Worker Db Prog Repos Services WorkerLoop Cluster Invariant Holding Outcome Scheduling Driving.
From Stdlib Require Import Floats.SpecFloat.
Local Open Scope Z_scope.

(** * Calls *)

(** The operations the routers (src/app/presentation/routers) and the background
    loop (src/app/presentation/api.py) run. *)
Inductive call :=
  | CreateJob (r : ResourceRequirements) (t : TenantId) (command : option (list string))
  | CancelJob (j : JobId) (t : TenantId)
  | RetryJob (j : JobId) (t : TenantId)
  | StartJob (w : WorkerId) (j : JobId) (t : TenantId)
  | CompleteJob (w : WorkerId) (j : JobId) (t : TenantId) (l : LeaseId) (exit_code : option Z)
  | FailJob (w : WorkerId) (j : JobId) (t : TenantId) (l : LeaseId) (exit_code : option Z)
  | ConfirmCancellation (w : WorkerId) (j : JobId) (t : TenantId) (l : LeaseId) (exit_code : option Z)
  | RenewLeaseOf (w : WorkerId) (l : LeaseId) (t : TenantId)
  | CreateNode (capacity : ResourceRequirements) (t : TenantId) (name : option string)
  | PostWorker (n : NodeId) (managed_by : WorkerManagement) (t : TenantId)
  | WorkerHeartbeat (w : WorkerId) (t : TenantId)
  | NodeHeartbeat (n : NodeId) (t : TenantId)
  | DrainNode (n : NodeId) (t : TenantId)
  | RemoveNode (n : NodeId) (t : TenantId)
  | SchedulerPass
  | ReconciliationPass
  | ClusterTick.

Definition ignore {A} (m : prog A) : prog unit := m ;; mret tt.

Definition run_call {E : Env} (c : call) : prog unit :=
  match c with
  | CreateJob r t cmd => ignore (create_job r t cmd)
  | CancelJob j t => ignore (cancel_job j t)
  | RetryJob j t => ignore (retry_job j t)
  | StartJob w j t => ignore (start_job w j t)
  | CompleteJob w j t l code => ignore (report_complete w j t l code)
  | FailJob w j t l code => ignore (report_fail w j t l code)
  | ConfirmCancellation w j t l code => ignore (report_cancel w j t l code)
  | RenewLeaseOf w l t => renew_lease w l t DEFAULT_LEASE_DURATION
  | CreateNode c t name => ignore (create_node c t name)
  | PostWorker n m t => ignore (post_worker n m t)
  | WorkerHeartbeat w t => ignore (worker_heartbeat w t)
  | NodeHeartbeat n t => ignore (heartbeat_node n t)
  | DrainNode n t => ignore (drain_node n t)
  | RemoveNode n t => remove_offline_node n t
  | SchedulerPass => scheduler_loop
  | ReconciliationPass => reconciliation_loop
  | ClusterTick => _run_cluster_tick
  end.

(** Requests the schemas let through: a [ResourceRequirements] object exists, so
    it passed its own validation; an exit code fits its column. *)
Definition call_ok (c : call) : Prop :=
  match c with
  | CreateJob r _ _ | CreateNode r _ _ => resources_ok r
  | CompleteJob _ _ _ _ code | FailJob _ _ _ _ code | ConfirmCancellation _ _ _ _ code => exit_code_ok code
  | _ => True
  end.

(** One call, whatever it returns or raises. *)
Inductive call_step {E : Env} (w : world) : world → Prop :=
  | CallStep c : call_ok c → call_step w (run_call c w).1.

(** * Interleaved with other connections *)

(** Between two statements of this program, other connections run any
    statements of the repositories. *)
Definition concurrent {E : Env} : Prop :=
  ∀ n d, ∃ l : list stmt, interfere n d = foldl exec d l.

Lemma concurrent_keeps {E : Env} : concurrent → interference_keeps integrity.
Proof. intros Hc n d Hd. destruct (Hc n d) as [l ->]. by apply exec_all_integrity. Qed.

Lemma ignore_preserves {A} (I : world → Prop) (m : prog A) : preserves I m → preserves I (ignore m).
Proof. intros Hm. apply preserves_bind; [done|]. intros. apply preserves_ret. Qed.

Lemma reconciliation_loop_integrity {E : Env} :
  interference_keeps integrity → preserves (on_db integrity) reconciliation_loop.
Proof.
  intros Hi. unfold reconciliation_loop, mark_dead_workers, mark_dead_worker, recover_expired_leases,
    recover_expired_lease, recover_worker, recover_offline_nodes, recover_offline_worker, reclaim_from_worker,
    reclaim_job, record_for_job.
  repeat first [prog_step|apply offline_node_ids_integrity|repo_unfold|
    apply load_each_integrity; intros|apply load_some_integrity; intros].
Qed.

Lemma run_cluster_tick_integrity {E : Env} :
  interference_keeps integrity → preserves (on_db integrity) _run_cluster_tick.
Proof.
  intros Hi. unfold _run_cluster_tick. apply preserves_bind; [|intros _]; apply preserves_try;
    [by apply cluster_tick_integrity| |by apply reconciliation_loop_integrity|]; intros e k [= <-]; apply preserves_ret.
Qed.

Lemma run_call_integrity {E : Env} c :
  interference_keeps integrity → preserves (on_db integrity) (run_call c).
Proof.
  intros Hi. destruct c; cbn [run_call]; try apply ignore_preserves;
    try (by apply scheduler_loop_integrity); try (by apply run_cluster_tick_integrity); try (by apply reconciliation_loop_integrity);
    unfold create_job, cancel_job, retry_job, start_job, persist_job_started, report_complete,
      report_fail, report_cancel, report, _get_owning_worker, _finish, release_lease, renew_lease,
      create_node, post_worker, get_node, create_worker, reclaim_job, register_worker,
      worker_heartbeat, heartbeat_node, drain_node, remove_offline_node, record_for_job;
    repeat first [prog_step|repo_unfold|
      apply load_each_integrity; intros|apply load_some_integrity; intros].
Qed.

(** * One call at a time *)

Lemma run_call_good {E : Env} `{!Quiet E} c : call_ok c → preserves good (run_call c).
Proof.
  destruct c; cbn [run_call call_ok]; intros Hok; try apply ignore_preserves;
    eauto using create_job_good, cancel_job_good, retry_job_good, start_job_good, renew_lease_good,
      create_node_good, post_worker_good, worker_heartbeat_good, heartbeat_node_good, drain_node_good,
      remove_offline_node_good, scheduler_loop_good, reconciliation_loop_good, run_cluster_tick_good.
  - by apply (report_good (OpComplete exit_code)).
  - by apply (report_good (OpFail exit_code)).
  - by apply (report_good (OpConfirmCancelled exit_code)).
Qed.

Lemma empty_db_consistent T : consistent (empty_db T).
Proof. split; cbn; intros *; rewrite ?lookup_empty; done. Qed.

Lemma empty_db_good {E : Env} T : good (mkWorld (empty_db T) 0).
Proof.
  split; [apply empty_db_integrity|]. split; [apply empty_db_consistent|].
  split; cbn; intros k; rewrite lookup_empty; by intros [].
Qed.

Lemma call_step_good {E : Env} `{!Quiet E} w w' : rtc call_step w w' → good w → good w'.
Proof.
  induction 1 as [|w w1 w2 [c Hc] _ IH]; [done|]. intros Hw. apply IH.
  pose proof (run_call_good c Hc w Hw) as H. by destruct (run_call c w) as [w' [e|a]].
Qed.

(** A list of calls, one after the other. *)
Definition run_calls {E : Env} (cs : list call) (w : world) : world :=
  foldl (λ w c, (run_call c w).1) w cs.

Lemma run_calls_rtc {E : Env} cs w : Forall call_ok cs → rtc call_step w (run_calls cs w).
Proof.
  revert w. induction cs as [|c cs IH]; intros w Hcs; [done|]. apply Forall_cons in Hcs as [Hc Hcs].
  eapply rtc_l; [by constructor|]. by apply IH.
Qed.

Lemma run_calls_integrity {E : Env} cs w :
  interference_keeps integrity → on_db integrity w → on_db integrity (run_calls cs w).
Proof.
  intros Hi. revert w. induction cs as [|c cs IH]; intros w Hw; [done|]. apply IH.
  pose proof (run_call_integrity c Hi w Hw) as H. by destruct (run_call c w) as [w' [e|a]].
Qed.

(** * A concrete environment and a concrete run *)

(** Identifiers are counted up, secrets grow longer; the clock ticks one second per effect, or stands
    still. *)
Fixpoint sample_secret (n : nat) : string :=
  match n with
  | O => "k"
  | S n => "k" +:+ sample_secret n
  end.

Lemma sample_secret_length n : String.length (sample_secret n) = S n.
Proof. induction n as [|n IH]; [done|]. by apply (f_equal S) in IH. Qed.

Lemma sample_secret_no_space n : no_space (sample_secret n) = true.
Proof. by induction n as [|n IH]. Qed.

(** In every execution the clock reads as many seconds as effects were performed,
    and after a hundred of them it is past any deadline; the command ends with exit
    code 0 after a few polls; the renewal thread wakes up twice. *)
Definition sample_host : Host.
Proof.
  refine {| os_at _ := {|
              monotonic n := if (n <? 100)%nat then binary_normalize 53 1024 (Z.of_nat n) 0 false else S754_infinity false;
              pipe_fails _ := None; spawn_fails _ := None; select_ready _ _ := Some true; status_report _ := NoReport;
              communicate_result n _ := if (n <? 20)%nat then TimeoutExpired else Finished "" "" 0;
              poll_result _ := None; str_of_error := strerror |};
            renewals _ := 2%nat; renewals_seen _ _ := 2%nat; overdue_from _ _ := 100%nat |}.
  - intros n timeout i Hf Hi. cbn [monotonic]. apply Nat.ltb_ge in Hi. rewrite Hi. by destruct (deadline_of timeout).
  - intros n i t out err c. cbn [communicate_result]. destruct (i <? 20)%nat; intros [=]. lia.
  - intros n i c [=].
Defined.

Definition sample_env (clk : nat → datetime) (interference : nat → db → db) : Env.
Proof.
  refine {| clock := clk; uuid4 := N.of_nat; draw _ := mkDraw 0 0 0;
            row_order A _ l := l; token_urlsafe := sample_secret; sha256_hex s := s;
            interfere := interference; host := sample_host |}.
  - done.
  - intros m n Hmn. apply (f_equal String.length) in Hmn. rewrite !sample_secret_length in Hmn. lia.
  - intros n Hn. apply (f_equal String.length) in Hn. by rewrite sample_secret_length in Hn.
  - apply sample_secret_no_space.
Defined.

Definition ticking (n : nat) : datetime := seconds (Z.of_nat n).
Definition calm : Env := sample_env ticking (λ _ d, d).
Definition frozen (t : datetime) : Env := sample_env (λ _, t) (λ _ d, d).
#[global] Instance calm_quiet : Quiet calm.
Proof. by intros n d. Qed.

#[global] Instance frozen_quiet t : Quiet (frozen t).
Proof. by intros n d. Qed.

Definition tenant1 : TenantId := mkTenantId 7.

(** A node (id 0), its worker (id 7) and a job (id 14); the scheduler leases the
    job to the worker (lease 38), the worker starts it. *)
Definition sample_calls : list call :=
  [CreateNode (mkResources 8 1024 0) tenant1 (Some "n"%string);
   PostWorker (mkNodeId 0) AGENT tenant1;
   CreateJob (mkResources 2 256 0) tenant1 None;
   SchedulerPass].

Definition sample_world : world := run_calls (E:=calm) sample_calls (mkWorld (empty_db {[tenant1]}) 0).

Lemma sample_calls_ok : Forall call_ok sample_calls.
Proof. repeat constructor; cbn; lia. Qed.

Lemma sample_good : good (E:=calm) sample_world.
Proof.
  apply (call_step_good (E:=calm) (mkWorld (empty_db {[tenant1]}) 0)); [|apply empty_db_good].
  apply run_calls_rtc, sample_calls_ok.
Qed.

(** The worker has started the job. *)
Definition started_world : world := (run_call (E:=calm) (StartJob (mkWorkerId 7) (mkJobId 14) tenant1) sample_world).1.

Lemma started_good : good (E:=calm) started_world.
Proof.
  apply (call_step_good (E:=calm) sample_world); [|apply sample_good].
  apply rtc_once. by constructor.
Qed.

Definition started_job : job :=
  Eval vm_compute in default (sample_job 0) (db_jobs (w_db started_world) !! mkJobId 14).
Definition started_node : node :=
  Eval vm_compute in default (sample_node 0 0 0) (db_nodes (w_db started_world) !! mkNodeId 0).
Definition started_row : worker_row :=
  Eval vm_compute in default (mkWorkerRow (mkWorkerId 0) (mkNodeId 0) tenant1 OFFLINE AGENT None 0)
    (db_workers (w_db started_world) !! mkWorkerId 7).
Definition started_lease : lease :=
  Eval vm_compute in default (mkLease (mkLeaseId 0) (mkWorkerId 0) (mkJobId 0) tenant1 0 0)
    (db_leases (w_db started_world) !! mkLeaseId 38).

Lemma started_holding :
  holding (w_db started_world) (mkWorkerId 7) started_row started_job started_node (mkLeaseId 38) started_lease.
Proof. split; vm_compute; reflexivity. Qed.

(** The same with a command, on a worker of the server: node 0, worker 7, job 14,
    lease 38. *)
Definition commanded_world : world :=
  run_calls (E:=calm)
    [CreateNode (mkResources 8 1024 0) tenant1 (Some "n"%string);
     PostWorker (mkNodeId 0) DASHBOARD tenant1;
     CreateJob (mkResources 2 256 0) tenant1 (Some ["true"%string]);
     SchedulerPass] (mkWorld (empty_db {[tenant1]}) 0).

Lemma commanded_good : good (E:=calm) (mkWorld (w_db commanded_world) (w_step commanded_world)).
Proof.
  enough (good (E:=calm) commanded_world) by (by destruct commanded_world).
  apply (call_step_good (E:=calm) (mkWorld (empty_db {[tenant1]}) 0)); [|apply empty_db_good].
  apply run_calls_rtc. repeat constructor; cbn; lia.
Qed.

Lemma good_integrity {E : Env} d n : good (mkWorld d n) → integrity d.
Proof. by intros [H _]. Qed.

Definition commanded_job : job :=
  Eval vm_compute in default (sample_job 0) (db_jobs (w_db commanded_world) !! mkJobId 14).
Definition commanded_node : node :=
  Eval vm_compute in default (sample_node 0 0 0) (db_nodes (w_db commanded_world) !! mkNodeId 0).
Definition commanded_row : worker_row :=
  Eval vm_compute in default (mkWorkerRow (mkWorkerId 0) (mkNodeId 0) tenant1 OFFLINE AGENT None 0)
    (db_workers (w_db commanded_world) !! mkWorkerId 7).
Definition commanded_lease : lease :=
  Eval vm_compute in default (mkLease (mkLeaseId 0) (mkWorkerId 0) (mkJobId 0) tenant1 0 0)
    (db_leases (w_db commanded_world) !! mkLeaseId 38).

Lemma commanded_holding :
  holding (w_db commanded_world) (mkWorkerId 7) commanded_row commanded_job commanded_node (mkLeaseId 38) commanded_lease.
Proof. split; vm_compute; reflexivity. Qed.

(** The job was started and then cancelled by its owner. *)
Definition cancelling_world : world :=
  run_calls (E:=calm) [StartJob (mkWorkerId 7) (mkJobId 14) tenant1; CancelJob (mkJobId 14) tenant1] commanded_world.

Lemma cancelling_good : good (E:=calm) (mkWorld (w_db cancelling_world) (w_step cancelling_world)).
Proof.
  enough (good (E:=calm) cancelling_world) by (by destruct cancelling_world).
  apply (call_step_good (E:=calm) commanded_world); [|pose proof commanded_good; by destruct commanded_world].
  apply run_calls_rtc. by repeat constructor.
Qed.

Definition cancelling_job : job :=
  Eval vm_compute in default (sample_job 0) (db_jobs (w_db cancelling_world) !! mkJobId 14).
