(* ===== verification/Server.v ===== *)
(** The server: requests with their credentials, the background passes and the
    bootstrap script, and what holds of all of them together. *)
From S2P Require Import Prelude Values Job Node Scheduler ApiKey Worker Db Prog Repos Keys Services WorkerLoop Http Frame Cluster Invariant Tenancy Holding Outcome Scheduling Driving System.
Local Open Scope Z_scope.

Section reading.
Context {E : Env} `{!Quiet E}.

Lemma worker_entity_reads r : only_reads (WorkerRepository._to_entity r).
Proof. unfold WorkerRepository._to_entity, WorkerRepository.running_job_of. reads. Qed.

Lemma get_worker_reads w t : only_reads (get_worker w t).
Proof.
  unfold get_worker, WorkerRepository.get_by_id, WorkerRepository.load. reads. apply worker_entity_reads.
Qed.

Lemma node_list_reads t : only_reads (NodeRepository.list t).
Proof. unfold NodeRepository.list. reads. Qed.

Lemma lease_if_running_reads w wk t : only_reads (lease_if_running w wk t).
Proof. unfold lease_if_running, get_lease_for_worker, LeaseRepository.get_by_worker_id. reads. Qed.

Lemma get_node_reads n t : only_reads (get_node n t).
Proof. unfold get_node, NodeRepository.get_by_id, NodeRepository.load. reads. Qed.

Lemma node_body_reads n : only_reads (node_body n).
Proof. unfold node_body. reads. Qed.

Lemma nodes_body_reads l : only_reads (nodes_body l).
Proof. unfold nodes_body. reads. Qed.

(** The routes that only read. *)
Definition reading (r : route) : bool :=
  match r with
  | GetJobs | GetQueuedJobs | GetJob _ | GetJobHistory _ | GetNodes | GetOfflineNodes | GetNode _ | GetWorkers
  | GetWorker _ | GetEvents | GetClusterHealth | GetClusterCapacity | GetClusterUtilization | GetApiKeyIssued _ => true
  | _ => false
  end.

Lemma handle_reads caller r : reading r = true → only_reads (handle caller r).
Proof.
  destruct r; intros Hr; try done; cbn [handle]; handler_unfold;
    unfold list_jobs, list_queued_jobs, get_job, get_job_history, list_nodes, list_offline_nodes, list_workers, list_events,
      cluster_health, cluster_capacity, cluster_utilization, get_issued, list_issued_api_keys,
      JobRepository.list_recent, JobRepository.list_queued, JobRepository.get_by_id, JobRepository.load,
      EventRepository.list, EventRepository.list_by_aggregate, WorkerRepository.list,
      ApiKeyRepository.get_by_id, ApiKeyRepository.list_issued_by;
    repeat first [apply node_list_reads|apply get_node_reads|apply node_body_reads|apply nodes_body_reads|apply get_worker_reads
      |apply lease_if_running_reads|apply worker_entity_reads|progress reads].
Qed.
End reading.

Section confined.
Context {E : Env} `{!Quiet E} (caller : api_key) (d0 : db) (n0 : nat).
Abbreviation t := (k_tenant_id caller).
Abbreviation I := (confined t d0 n0).

Lemma answering_preserves {A} (J : world → Prop) status (m : prog A) : preserves J m → preserves J (answering status m).
Proof.
  intros Hm. apply preserves_try; [done|]. intros e k Hk. destruct (status e); [|done]. injection Hk as <-. apply preserves_raise.
Qed.

Lemma answering_returns {A} (J : world → Prop) status (m : prog A) P : returns J m P → returns J (answering status m) P.
Proof.
  intros Hm. apply returns_try; [done|]. intros e k Hk. destruct (status e); [|done]. injection Hk as <-. apply returns_raise.
Qed.

Lemma then_ok_preserves {A} (J : world → Prop) (m : prog A) code b :
  preserves J m → preserves J (x ← m; ok code (b x)).
Proof. intros Hm. apply preserves_bind; [done|]. intros x. apply preserves_ret. Qed.

Lemma or_404_preserves {A} (J : world → Prop) (o : option A) : preserves J (or_404 o).
Proof. destruct o; [apply preserves_ret|apply preserves_raise]. Qed.

(** Every handler works for the tenant of the caller and no other. *)
Lemma handle_confined r :
  (∀ k, (n0 ≤ k)%nat → db_workers d0 !! mkWorkerId (uuid4 k) = None) → preserves I (handle caller r).
Proof.
  intros Hfresh. destruct (reading r) eqn:Hr; [by apply only_reads_confined, handle_reads|].
  destruct r; try done; cbn [handle]; handler_unfold.
  - apply preserves_bind; [apply answering_preserves; iso_step|intros _].
    apply preserves_bind; [iso_step|intros x]. apply then_ok_preserves, create_job_confined.
  - apply preserves_bind; [apply answering_preserves, cancel_job_confined|intros o].
    apply then_ok_preserves, or_404_preserves.
  - apply preserves_bind; [apply retry_job_confined|intros o]. apply then_ok_preserves, or_404_preserves.
  - apply preserves_bind; [iso_step|intros x]. apply then_ok_preserves, create_node_confined.
  - apply preserves_bind; [apply heartbeat_node_confined|intros o].
    apply preserves_bind; [apply or_404_preserves|intros x]. apply only_reads_confined, node_body_reads.
  - apply preserves_bind; [apply answering_preserves, drain_node_confined|intros x].
    apply only_reads_confined, node_body_reads.
  - apply preserves_bind; [apply answering_preserves, remove_offline_node_confined|intros _]. apply preserves_ret.
  - apply preserves_of_returns. eapply returns_bind; [apply answering_returns, get_node_confined|]. cbn beta. intros x Hx.
    eapply returns_bind; [by apply (of_sum_confined _ _ _ _ (λ _, True))|]. intros m _.
    eapply returns_bind; [by apply create_worker_confined|]. cbn beta. intros w Hw.
    apply preserves_returns. apply then_ok_preserves. by apply register_worker_confined.
  - apply preserves_bind; [apply answering_preserves, start_job_confined|intros wk].
    apply then_ok_preserves, only_reads_confined, lease_if_running_reads.
  - apply then_ok_preserves, answering_preserves. by apply (report_confined _ _ _ _ (OpComplete exit_code)).
  - apply then_ok_preserves, answering_preserves. by apply (report_confined _ _ _ _ (OpFail exit_code)).
  - apply then_ok_preserves, answering_preserves. by apply (report_confined _ _ _ _ (OpConfirmCancelled exit_code)).
  - apply preserves_bind; [apply only_reads_confined, get_worker_reads|intros o].
    apply preserves_bind; [apply or_404_preserves|intros wk].
    apply preserves_bind; [apply answering_preserves, renew_lease_confined|intros _].
    apply then_ok_preserves, only_reads_confined, lease_if_running_reads.
  - apply then_ok_preserves, answering_preserves, worker_heartbeat_confined.
  - by apply then_ok_preserves, post_api_key_confined.
  - apply preserves_bind; [by apply post_revoke_confined|intros _]. apply preserves_ret.
Qed.

Lemma used_untouched d now : db_keys d !! k_id caller = Some caller → untouched t d (used caller now d).
Proof. intros Hk. split; try done. cbn. apply foreign_insert; [done|]. intros v Hv. congruence. Qed.
End confined.

(** * The key table while the cluster works *)

(** The services on jobs, nodes, workers and leases leave the key table and the
    tenants as they are, and the counter of effects only grows. *)
Definition keyed (K : gmap ApiKeyId api_key) (T : gset TenantId) (n0 : nat) (w : world) : Prop :=
  db_keys (w_db w) = K ∧ db_tenants (w_db w) = T ∧ (n0 ≤ w_step w)%nat.

Lemma statement_keyed {E : Env} `{!Quiet E} {A} (s : sql A) K T n0 :
  (∀ d, db_keys (s d).1 = db_keys d ∧ db_tenants (s d).1 = db_tenants d) → preserves (keyed K T n0) (statement s).
Proof.
  intros Hs [d n] (Hk & Ht & Hn). unfold statement. rewrite quiet. cbn in *. specialize (Hs d).
  destruct (s d) as [d' [e|a]]; cbn in *; destruct Hs as [H1 H2]; (split_and!; cbn; [congruence..|lia]).
Qed.

Ltac keeps_keys :=
  apply statement_keyed; intros d;
  unfold upsert_job, upsert_node, delete_node, upsert_worker, upsert_lease, update_lease_expiry, delete_lease,
    delete_lease_if_expired, insert_event; cbn zeta;
  repeat match goal with
  | |- context [if ?b then _ else _] => destruct b
  | |- context [match ?x with Some _ => _ | None => _ end] => destruct x
  end; done.

#[global] Instance keyed_frame {E : Env} `{!Quiet E} K T n0 : Frame (keyed K T n0).
Proof.
  split; intros; try (by keeps_keys); intros [d n] (Hk & Ht & Hn); (split_and!; [done..|cbn in *; lia]).
Qed.

(** What holds of the server between two steps. *)
Record server_ok {E : Env} (w : world) : Prop := mkServerOk {
  so_good : good w;
  so_keys : keys_integrity (w_db w);
  so_unseen : keys_unseen (w_step w) (w_db w);
  so_provenance : provenance (w_db w);
}.

Section server.
Context {E : Env} `{!Quiet E}.

Lemma good_set_keys d n n' m : good (mkWorld d n) → (n ≤ n')%nat → good (mkWorld (set_keys m d) n').
Proof.
  intros [Hi [Hc Hm]] Hn. split; [by apply set_keys_integrity|]. split; cbn in *.
  - destruct Hc as [? ? ? ? ? ? ? ?]. by split.
  - apply (minted_le _ _ n') in Hm; [|done]. destruct Hm. by split.
Qed.

Lemma keys_unchanged_ok d n d' n' :
  server_ok (mkWorld d n) → good (mkWorld d' n') → keyed (db_keys d) (db_tenants d) n (mkWorld d' n') →
  server_ok (mkWorld d' n').
Proof.
  intros [Hg Hk Hu Hp] Hg' (Ek & Et & Hn). cbn in *. split; [done|..]; cbn.
  - destruct Hk as [H1 H2 H3 H4]. split; rewrite ?Ek, ?Et; done.
  - intros m Hm. rewrite Ek. apply Hu. cbn. lia.
  - unfold provenance. by rewrite Ek.
Qed.

(** A program that keeps the cluster in order and does not touch the keys. *)
Lemma framed_ok {A} (m : prog A) :
  preserves good m → (∀ K T n0, preserves (keyed K T n0) m) → preserves server_ok m.
Proof.
  intros Hg Hk [d n] Hw. specialize (Hg (mkWorld d n) (so_good _ Hw)).
  specialize (Hk (db_keys d) (db_tenants d) n (mkWorld d n) ltac:(done)).
  destruct (m (mkWorld d n)) as [[d' n'] [e|a]]; by eapply keys_unchanged_ok.
Qed.

(** ** Handlers *)

(** Exit codes that fit their column. *)
Definition route_ok (r : route) : Prop :=
  match r with
  | PostComplete _ _ _ code | PostFail _ _ _ code | PostConfirmCancel _ _ _ code => exit_code_ok code
  | _ => True
  end.

Definition key_route (r : route) : bool :=
  match r with PostApiKeys _ | PostApiKeyRevoke _ | GetApiKeyIssued _ => true | _ => false end.

Lemma of_sum_good {A} (r : exn + A) : preserves good (of_sum r).
Proof. apply only_reads_good. reads. Qed.

Lemma of_sum_then {A B} (J : world → Prop) (r : exn + A) (k : A → prog B) :
  (∀ a, r = inr a → preserves J (k a)) → preserves J (a ← of_sum r; k a).
Proof. intros Hk. destruct r as [e|a]; [by intros w Hw|]. by apply Hk. Qed.

(** POST /workers, whose two saves share the worker object. *)
Lemma post_workers_good t nid m :
  preserves good (x ← answering node_missing (get_node nid t);
                  m' ← of_sum (parse_management m);
                  w ← create_worker x m';
                  w' ← register_worker w;
                  ok 201 (WorkerCreatedBody (w_id w') (w_status w'))).
Proof using All.
  destruct (parse_management m) as [e|m'] eqn:Hm.
  { apply only_reads_good. apply only_reads_bind; [|by intros x d n].
    apply only_reads_try; [apply get_node_reads|]. intros e' k Hk. destruct (node_missing e'); [|done]. injection Hk as <-. reads. }
  pose proof (quiet_keeps integrity). apply preserves_good.
  { unfold answering, get_node, create_worker, reclaim_job, register_worker, ok.
    apply preserves_bind; [apply preserves_try; [service_preserves|]|intros; service_preserves].
    intros e k Hk. destruct (node_missing e); [|done]. injection Hk as <-. apply preserves_raise. }
  intros d n Hint Hs. unfold answering, get_node. wp_steps.
  apply wp_node_get_by_id; [apply consistent_loadable, Hs|].
  destruct (select_node_row nid t d) as [x|] eqn:Hx; [|wp_steps; cbn; wp_steps; unchanged].
  destruct (select_node_row_Some _ _ _ _ Hint Hx) as (_ & Hx' & _). wp_steps.
  eapply wp_mono; [apply create_worker_sound; [done|unchanged|done]| |done].
  intros w [d' n'] [Hs' Hreg]. wp_step. eapply wp_mono; [by apply register_worker_sound|..]; [|done].
  intros w' s' Hs2. by wp_steps.
Qed.

Lemma new_resources_valid c m v r : new_resources c m v = inr r → resources_ok r.
Proof. pose proof (new_resources_spec c m v) as H. intros E'. rewrite E' in H. apply H. Qed.

(** Every handler keeps the cluster consistent, whatever it answers. *)
Lemma handle_good caller r : route_ok r → key_route r = false → preserves good (handle caller r).
Proof using All.
  intros Hok Hk. destruct (reading r) eqn:Hr; [by apply only_reads_good, handle_reads|].
  destruct r; try done; cbn [handle]; handler_unfold.
  - apply preserves_bind; [apply answering_preserves, of_sum_good|intros _].
    apply of_sum_then. intros x Hx%new_resources_valid. by apply then_ok_preserves, create_job_good.
  - apply preserves_bind; [apply answering_preserves, cancel_job_good|intros o].
    apply then_ok_preserves, or_404_preserves.
  - apply preserves_bind; [apply retry_job_good|intros o]. apply then_ok_preserves, or_404_preserves.
  - apply of_sum_then. intros x Hx%new_resources_valid. by apply then_ok_preserves, create_node_good.
  - apply preserves_bind; [apply heartbeat_node_good|intros o].
    apply preserves_bind; [apply or_404_preserves|intros x]. apply only_reads_good, node_body_reads.
  - apply preserves_bind; [apply answering_preserves, drain_node_good|intros x]. apply only_reads_good, node_body_reads.
  - apply preserves_bind; [apply answering_preserves, remove_offline_node_good|intros _]. apply preserves_ret.
  - apply post_workers_good.
  - apply preserves_bind; [apply answering_preserves, start_job_good|intros wk].
    apply then_ok_preserves, only_reads_good, lease_if_running_reads.
  - apply then_ok_preserves, answering_preserves. by apply (report_good (OpComplete exit_code)).
  - apply then_ok_preserves, answering_preserves. by apply (report_good (OpFail exit_code)).
  - apply then_ok_preserves, answering_preserves. by apply (report_good (OpConfirmCancelled exit_code)).
  - apply preserves_bind; [apply only_reads_good, get_worker_reads|intros o].
    apply preserves_bind; [apply or_404_preserves|intros wk].
    apply preserves_bind; [apply answering_preserves, renew_lease_good|intros _].
    apply then_ok_preserves, only_reads_good, lease_if_running_reads.
  - apply then_ok_preserves, answering_preserves, worker_heartbeat_good.
Qed.

(** ** Keys *)

Lemma upsert_key_effect k d : (upsert_key k d).1 = d ∨ ∃ m, (upsert_key k d).1 = set_keys m d.
Proof using.
  unfold upsert_key. destruct (db_keys d !! k_id k); cbn zeta;
    repeat match goal with |- context [if ?b then _ else _] => destruct b end; cbn; eauto.
Qed.

Lemma upsert_key_good k : preserves good (statement (upsert_key k)).
Proof using All.
  intros [d n] Hw. unfold statement. rewrite quiet. cbn. pose proof (upsert_key_effect k d) as Hd.
  assert (good (mkWorld (upsert_key k d).1 (S n))) as Hg.
  { destruct Hd as [->|[m ->]]; [|by apply (good_set_keys d n); [|lia]].
    destruct Hw. split; [done|]. eapply wp_sound_le; [|done]. lia. }
  by destruct (upsert_key k d) as [d' [e|a]].
Qed.

Lemma post_api_key_good caller label : preserves good (post_api_key caller label).
Proof.
  unfold post_api_key, create_api_key, issue_child, issue, ApiKeyRepository.save.
  apply preserves_bind; [apply answering_preserves, of_sum_good|intros _]. apply preserves_bind.
  - apply only_reads_good. reads; [|]. all: intros d n; (apply wp_new_secret || apply wp_new_uuid); cbn; auto with lia.
  - intros x. apply preserves_bind; [apply upsert_key_good|intros; apply preserves_ret].
Qed.

Lemma post_revoke_good caller k : preserves good (post_revoke caller k).
Proof using All.
  unfold post_revoke, revoke_api_key, ApiKeyRepository.get_by_id, ApiKeyRepository.save. apply answering_preserves.
  apply preserves_bind; [apply only_reads_good; reads|]. intros [x|]; [|apply preserves_raise].
  apply preserves_bind; [apply of_sum_good|intros _]. apply preserves_bind; [apply only_reads_good; reads|intros now].
  rewrite revoke_spec. destruct (k_revoked_at x); [apply preserves_ret|apply upsert_key_good].
Qed.

Lemma server_ok_kstate d n : server_ok (mkWorld d n) ↔ good (mkWorld d n) ∧ kstate d (mkWorld d n).
Proof using.
  split; [intros []; split; [done|by apply kstate_refl]|]. intros [Hg []]. by split.
Qed.

Lemma kstate_server_ok d0 w : good w → kstate d0 w → server_ok w.
Proof using. destruct w. intros Hg []. by split. Qed.

(** A program that keeps both invariants. *)
Lemma wp_server_ok {A} (m : prog A) d0 d n :
  good (mkWorld d n) → preserves good m → wp m (λ _, kstate d0) (λ _, kstate d0) (mkWorld d n) →
  wp m (λ _, server_ok) (λ _, server_ok) (mkWorld d n).
Proof using.
  intros Hg Hm Hk. specialize (Hm _ Hg). unfold wp in *.
  destruct (m (mkWorld d n)) as [w' [e|a]]; by eapply kstate_server_ok.
Qed.

Lemma handle_ok caller r d n :
  route_ok r → server_ok (mkWorld d n) → (∃ kp, db_keys d !! k_id caller = Some kp ∧ same_key caller kp) →
  wp (handle caller r) (λ _, server_ok) (λ _, server_ok) (mkWorld d n).
Proof using All.
  intros Hok Hw Hkp. destruct (key_route r) eqn:Hk.
  2:{ apply (framed_ok (handle caller r)); [by apply handle_good| |done].
      intros K T n0. apply handle_frame; [apply _|]. by destruct r. }
  apply server_ok_kstate in Hw as [Hg Hks]. destruct r; try done; cbn [handle]; handler_unfold.
  - apply (wp_server_ok _ d); [done|apply then_ok_preserves, post_api_key_good|].
    wp_step. apply (wp_post_api_key _ _ _ _ d); [done..|]. intros d' n' k. intros. by wp_steps.
  - apply (wp_server_ok _ d); [done|apply preserves_bind; [apply post_revoke_good|intros _; apply preserves_ret]|].
    unfold post_revoke, answering. wp_steps. eapply wp_revoke_api_key; [done|..].
    + intros e d' n' Hks' _ _ _. destruct (missing_or_denied e); cbn; by wp_steps.
    + intros. by wp_steps.
  - apply (wp_server_ok _ d); [done|by apply only_reads_good, (handle_reads caller (GetApiKeyIssued k))|].
    pose proof (handle_reads caller (GetApiKeyIssued k) eq_refl d n) as Hr. cbn in Hr.
    eapply wp_mono; [apply Hr|..]; cbn; intros ? [d' n'] [? ?]; cbn in *; subst; by eapply kstate_step.
Qed.

Lemma used_ok caller d n now k :
  server_ok (mkWorld d n) → db_keys d !! k_id caller = Some caller → (n ≤ k)%nat →
  server_ok (mkWorld (used caller now d) k).
Proof using All.
  intros [Hg Hk Hu Hp] Hc Hn. cbn in *.
  destruct (update_key_ok d (k_id caller) caller (set_last_used_at (Some now) caller) n) as (Hk' & Hu' & _ & Hp'); try done.
  split; cbn; [by eapply good_set_keys|done|by eapply keys_unseen_le|by apply Hp'].
Qed.

Lemma server_ok_later d n k : server_ok (mkWorld d n) → (n ≤ k)%nat → server_ok (mkWorld d k).
Proof using.
  intros [Hg Hk Hu Hp] Hn. split; cbn in *; [|done|by eapply keys_unseen_le|done].
  destruct Hg. split; [done|]. by eapply wp_sound_le.
Qed.

(** A request, whoever sends it and whatever it asks for. *)
Lemma serve_ok auth r : route_ok r → preserves server_ok (serve auth r).
Proof using All.
  intros Hok. apply preserves_try; [|intros e k [= <-]; apply preserves_ret].
  intros [d n] Hw. pose proof Hw as [Hg Hk Hu Hp]. cbn in Hk, Hu, Hp.
  match goal with |- let (_, _) := ?m _ in _ => change (wp m (λ _, server_ok) (λ _, server_ok) (mkWorld d n)) end.
  wp_step. apply wp_caller; [done|intros; by eapply server_ok_later|].
  intros caller now k (raw & _ & _ & Hc & _) Hn. pose proof (used_ok caller d n now k Hw Hc Hn) as Hw'.
  unfold dispatch. destruct (valid_request r); cbn [negb]; [|by wp_steps]. apply handle_ok; [done..|].
  exists (set_last_used_at (Some now) caller). cbn. rewrite lookup_insert_eq. split; [done|by split].
Qed.
End server.

(** * Steps of the server *)

Inductive server_step {E : Env} (w : world) : world → Prop :=
  | Request auth r : route_ok r → server_step w (serve auth r w).1
  | Bootstrap label scopes t : server_step w (create_api_key label scopes None (Some t) w).1
  | SchedulerTick : server_step w (scheduler_loop w).1
  | ReconciliationTick : server_step w (reconciliation_loop w).1
  | BackgroundTick leads : server_step w (_run_leader_tick leads w).1.

Lemma bootstrap_good {E : Env} `{!Quiet E} label scopes t : preserves good (create_api_key label scopes None (Some t)).
Proof.
  unfold create_api_key, tenant_exists, issue, ApiKeyRepository.save. apply preserves_bind.
  - apply only_reads_good. reads; intros d n; (apply wp_new_secret || apply wp_new_uuid); cbn; auto with lia.
  - intros x. apply preserves_bind; [apply upsert_key_good|intros; apply preserves_ret].
Qed.

Lemma server_step_ok {E : Env} `{!Quiet E} w w' : rtc server_step w w' → server_ok w → server_ok w'.
Proof.
  induction 1 as [|w w1 w2 Hstep _ IH]; [done|]. intros Hw. apply IH. clear IH w2.
  destruct Hstep as [auth r Hok|label scopes t| | |].
  - by apply preserves_fst; [apply serve_ok|].
  - destruct w as [d n]. apply server_ok_kstate in Hw as [Hg Hks].
    pose proof (wp_server_ok _ d d n Hg (bootstrap_good label scopes t) (wp_bootstrap label scopes t d d n Hks)) as H.
    unfold wp in H. by destruct (create_api_key _ _ _ _ _) as [w' [e|a]].
  - apply preserves_fst; [|done]. apply framed_ok; [apply scheduler_loop_good|intros; apply scheduler_loop_frame, _].
  - apply preserves_fst; [|done]. apply framed_ok; [apply reconciliation_loop_good|intros; apply reconciliation_loop_frame, _].
  - apply preserves_fst; [|done].
    apply framed_ok; [apply leader_tick_preserves, run_cluster_tick_good|intros; apply leader_tick_preserves, run_cluster_tick_frame, _].
Qed.

Lemma empty_db_ok {E : Env} T : server_ok (mkWorld (empty_db T) 0).
Proof.
  split; [apply empty_db_good|..]; cbn.
  - split; cbn; intros *; by rewrite lookup_empty.
  - intros m _. split; cbn; [by rewrite lookup_empty|]. intros i k. by rewrite lookup_empty.
  - intros i k p. cbn. by rewrite lookup_empty.
Qed.
