(* ===== verification/Access.v ===== *)
(** What the API guarantees about who may do what: authentication, revocation,
    the origin of scopes, and the isolation of tenants. *)
From S2P Require Import Prelude Values Job Node Scheduler ApiKey Worker Db Prog Repos Keys Services Http Frame Cluster Invariant Tenancy Holding Outcome Scheduling System Server.
Local Open Scope Z_scope.

(** * The server as a whole *)


(** The bootstrap script issues key 2 with secret "kk" to tenant 1. *)
Definition bearer (secret : string) : option string := Some ("Bearer " +:+ secret).
Definition keyed_world : world :=
  (create_api_key (E:=calm) "ops" {[KEYS_MANAGE]} None (Some tenant1) (mkWorld (empty_db {[tenant1; mkTenantId 8]}) 0)).1.

Lemma keyed_world_rtc : rtc (server_step (E:=calm)) (mkWorld (empty_db {[tenant1; mkTenantId 8]}) 0) keyed_world.
Proof. apply rtc_once, (@Bootstrap calm). Qed.

Lemma keyed_world_ok : server_ok (E:=calm) keyed_world.
Proof. eapply server_step_ok; [apply keyed_world_rtc|apply empty_db_ok]. Qed.

(** The holder registers a node with it. *)
Definition noded_world : world := (serve (E:=calm) (bearer "kk") (PostNodes 8 1024 0 (Some "n"%string)) keyed_world).1.


(** What a request may do to the tables: with the secret of an active key, touch rows
    of the tenant of that key; without one, nothing, and be told 401. *)
Definition isolated {E : Env} (auth : option string) (d : db) (d' : db) (res : exn + response) : Prop :=
  (∃ caller, speaks_for d auth caller ∧ untouched (k_tenant_id caller) d d') ∨
  ((∀ caller, ¬ speaks_for d auth caller) ∧ d' = d ∧ res = inr (mkResponse 401 NoBody)).

(** It is enough that the handler keeps to the tenant of the caller. *)
Lemma served_isolated {E : Env} `{!Quiet E} auth (f : api_key → prog response) d n :
  server_ok (mkWorld d n) →
  (∀ caller, (∀ k, (n ≤ k)%nat → db_workers d !! mkWorkerId (uuid4 k) = None) → preserves (confined (k_tenant_id caller) d n) (f caller)) →
  let '(w', res) := try_except (caller ← require_api_key auth; f caller) (λ e, Some (mret (error_response e))) (mkWorld d n) in
  isolated auth d (w_db w') res.
Proof.
  intros [[Hint [_ Hm]] Hk _ _] Hf. cbn in Hint, Hm, Hk.
  assert (wp (try_except (caller ← require_api_key auth; f caller) (λ e, Some (mret (error_response e))))
    (λ res w', isolated auth d (w_db w') (inr res)) (λ _ _, False) (mkWorld d n)) as H.
  { wp_step. wp_step. apply wp_caller; [done|..].
    - intros k Hnone _. cbn. unfold ok. wp_steps. by right.
    - intros caller now k Hc Hn. pose proof Hc as (_ & _ & _ & Hkc & _).
      assert (confined (k_tenant_id caller) d n (mkWorld (used caller now d) k)) as Hw.
      { split; cbn; [by apply set_keys_integrity|by apply used_untouched|done]. }
      assert (preserves (confined (k_tenant_id caller) d n) (f caller)) as Hh by (apply Hf; intros m Hm'; by eapply fresh_worker).
      specialize (Hh _ Hw). unfold wp. destruct (f caller _) as [w' [e|a]]; cbn; left; exists caller; by destruct Hh. }
  unfold wp in H. by destruct (try_except _ _ _) as [w' [e|res]].
Qed.

(** Tenants are isolated.  A request either carries the secret of an active
    key, and then no row of any other tenant, in any table, is added, changed or
    removed, whatever the route and its parameters name; or it carries none, and
    then it is answered 401 and the database is left exactly as it was. *)
Lemma serve_isolated {E : Env} `{!Quiet E} auth r d n :
  server_ok (mkWorld d n) → let '(w', res) := serve auth r (mkWorld d n) in isolated auth d (w_db w') res.
Proof.
  intros Hd. apply (served_isolated auth (λ caller, dispatch caller r)); [done|]. intros caller Hfresh.
  unfold dispatch. destruct (valid_request r); [by apply handle_confined|apply preserves_raise].
Qed.

(** Tenant 8 has a key too ("k" fifteen times), with no scopes. *)
Definition two_tenants : world := (create_api_key (E:=calm) "other" ∅ None (Some (mkTenantId 8)) noded_world).1.
Definition secret8 : string := sample_secret 14.

Lemma two_tenants_ok : server_ok (E:=calm) two_tenants.
Proof.
  eapply (server_step_ok (E:=calm) keyed_world); [|apply keyed_world_ok].
  eapply rtc_l; [by apply (@Request calm _ (bearer "kk") (PostNodes 8 1024 0 (Some "n"%string)))|]. apply rtc_once, (@Bootstrap calm).
Qed.

(** * Keys under concurrent use *)

Definition run_key_calls {E : Env} (cs : list key_call) (w : world) : world :=
  foldl (λ w c, (run_key_call c w).1) w cs.

Lemma run_key_calls_kstate {E : Env} `{!KeysRely E} cs d0 w : kstate d0 w → kstate d0 (run_key_calls cs w).
Proof.
  revert w. induction cs as [|c cs IH]; intros w Hw; [done|]. apply IH. destruct w as [d n].
  pose proof (run_key_call_kstate c d0 d n Hw) as H. unfold wp in H. by destruct (run_key_call c _) as [w' [e|a]].
Qed.


(** Another connection keeps presenting key 2. *)
Definition busy : Env := sample_env ticking (λ n d, (mark_key_used (mkApiKeyId 2) tenant1 (ticking n) d).1).

#[global] Instance busy_rely : KeysRely busy.
Proof.
  intros n d. unfold interfere, busy, sample_env, mark_key_used.
  assert (others_step (E:=busy) d d) as Hid by (split; [reflexivity|done..|congruence]).
  destruct (db_keys d !! mkApiKeyId 2) as [k|] eqn:Hk; [|done]. case_bool_decide; [|done].
  by apply (update_key_step (E:=busy) d _ k).
Qed.

(** Key 2 is revoked by its own holder, who has [keys:manage]; a later request
    with its secret to issue a key, and the secret itself, are refused. *)
Definition revoked_world : world := (run_key_call (E:=calm) (PostRevoke (bearer "kk") (mkApiKeyId 2)) keyed_world).1.
Definition revoked_key : api_key :=
  Eval vm_compute in
    default (mkApiKey (mkApiKeyId 0) "" "" 0 tenant1 None None ∅ None) (db_keys (w_db revoked_world) !! mkApiKeyId 2).


(** C12: Scopes never come over HTTP.  Whatever calls are made on the key table,
    and whatever other connections do meanwhile, no key ever changes its scopes or
    its tenant; and every key issued through POST /api-keys carries no scope and
    belongs to the tenant of its issuer, which holds [keys:manage]. *)
Theorem scopes_never_over_http {E : Env} `{!KeysRely E} cs d n :
  keys_integrity d → keys_unseen n d → provenance d →
  let d' := w_db (run_key_calls cs (mkWorld d n)) in
  (∀ i k, db_keys d !! i = Some k →
     ∃ k', db_keys d' !! i = Some k' ∧ k_scopes k' = k_scopes k ∧ k_tenant_id k' = k_tenant_id k) ∧
  (∀ i k p, db_keys d' !! i = Some k → k_issued_by k = Some p →
     k_scopes k = ∅ ∧
     ∃ kp, db_keys d' !! p = Some kp ∧ k_tenant_id kp = k_tenant_id k ∧ KEYS_MANAGE ∈ k_scopes kp).
Proof.
  intros Hi Hu Hp d'. pose proof (run_key_calls_kstate cs d _ (kstate_refl d n Hi Hu Hp)) as Hks. split.
  - intros i k Hk. destruct (ks_evolve _ _ Hks i k Hk) as (k' & Hk' & Hs & _). exists k'. split; [done|].
    by rewrite (sk_scopes _ _ Hs), (sk_tenant _ _ Hs).
  - apply (ks_provenance _ _ Hks).
Qed.

(** The holder of [keys:manage] issues a child, which tries to issue another. *)
Lemma scopes_never_over_http_witness :
  let d' := w_db (run_key_calls (E:=busy) [PostKey (bearer "kk") "child"; PostKey (bearer (sample_secret 9)) "grandchild"] keyed_world) in
  k_scopes <$> db_keys d' !! mkApiKeyId 10 = Some ∅ ∧
  ∀ i k p, db_keys d' !! i = Some k → k_issued_by k = Some p →
     k_scopes k = ∅ ∧
     ∃ kp, db_keys d' !! p = Some kp ∧ k_tenant_id kp = k_tenant_id k ∧ KEYS_MANAGE ∈ k_scopes kp.
Proof.
  intros d'. split; [vm_compute; reflexivity|]. destruct keyed_world_ok as [_ Hk Hu Hp].
  apply (@scopes_never_over_http busy busy_rely [PostKey (bearer "kk") "child"; PostKey (bearer (sample_secret 9)) "grandchild"]
    (w_db keyed_world) (w_step keyed_world)); [exact Hk|exact Hu|exact Hp].
Defined.

(** * Requests on keys *)

Lemma speaks_for_bearer {E : Env} d raw k :
  raw ≠ EmptyString → no_space raw = true → db_keys d !! k_id k = Some k → ¬ revoked k → k_key_hash k = sha256_hex raw →
  speaks_for d (bearer raw) k.
Proof.
  intros Hne Hns Hk Hr Hh. exists raw. split_and!; try done. unfold bearer. cbn [mbind option_bind].
  rewrite after_prefix_app. cbn. by rewrite strip_no_space.
Qed.

(** A secret identifies one key. *)
Lemma speaks_for_unique {E : Env} d auth c c' :
  keys_integrity d → speaks_for d auth c → speaks_for d auth c' → c' = c.
Proof.
  intros Hk (raw & Hr & _ & Hcd & _ & Hh) (raw' & Hr' & _ & Hcd' & _ & Hh').
  assert (k_id c' = k_id c) as E' by (eapply (ki_hash _ Hk); [done..|congruence]). rewrite E' in Hcd'. congruence.
Qed.

(** C13: An issued key works.  When a request with the secret of an active key
    that holds [keys:manage] asks for a new key under a label that is not blank, it
    is answered 201 with a plaintext, and from then on a request with that
    plaintext is a request of the new key: stored, active, in the tenant of its
    issuer, with no scopes, and naming its issuer. *)
Theorem issued_key_works {E : Env} `{!Quiet E} auth caller label d n :
  server_ok (mkWorld d n) → speaks_for d auth caller → KEYS_MANAGE ∈ k_scopes caller → is_blank label = false →
  ∃ w' k raw, serve auth (PostApiKeys label) (mkWorld d n) = (w', inr (mkResponse 201 (KeyCreatedBody (k_id k) (strip label) raw))) ∧
    speaks_for (w_db w') (bearer raw) k ∧
    k_tenant_id k = k_tenant_id caller ∧ k_scopes k = ∅ ∧ k_issued_by k = Some (k_id caller).
Proof.
  intros Hw Hc Hm Hl. pose proof Hw as [_ Hk _ _]. cbn in Hk.
  assert (label ≠ EmptyString) as Hne by (intros ->; by vm_compute in Hl).
  assert (wp (serve auth (PostApiKeys label))
    (λ res w', ∃ k raw, res = mkResponse 201 (KeyCreatedBody (k_id k) (strip label) raw) ∧ speaks_for (w_db w') (bearer raw) k ∧
       k_tenant_id k = k_tenant_id caller ∧ k_scopes k = ∅ ∧ k_issued_by k = Some (k_id caller)) (λ _ _, False) (mkWorld d n)) as H.
  { unfold serve. wp_step. wp_step. apply wp_caller; [done|intros k Hno; by destruct (Hno caller)|].
    intros c now k Hc' Hn. assert (c = caller) as -> by (by eapply speaks_for_unique).
    pose proof Hc as (_ & _ & _ & Hcd & _).
    apply (used_ok caller d n now k Hw) in Hcd as Hw'; [|done]. apply server_ok_kstate in Hw' as [_ Hks].
    unfold dispatch. cbn [valid_request]. rewrite bool_decide_eq_false_2 by done. cbn [negb handle]; handler_unfold. wp_step.
    eapply wp_post_api_key; [done| | |].
    - exists (set_last_used_at (Some now) caller). cbn. rewrite lookup_insert_eq. split; [done|by split].
    - intros e [?|?]; [done|congruence].
    - intros d' n' x _ _ _ Hx _ _ _. unfold ok. wp_steps. exists x, (token_urlsafe k). split_and!; try done.
      apply speaks_for_bearer; try done; [apply token_nonempty|apply token_no_space|by intros []]. }
  unfold wp in H. destruct (serve _ _ _) as [w' [e|res]]; [done|]. destruct H as (k & raw & -> & H). exists w', k, raw. by split.
Qed.

(** The bootstrapped key, as stored. *)
Definition ops_key : api_key :=
  Eval vm_compute in
    default (mkApiKey (mkApiKeyId 0) "" "" 0 tenant1 None None ∅ None) (db_keys (w_db keyed_world) !! mkApiKeyId 2).

Lemma ops_speaks : speaks_for (E:=calm) (w_db keyed_world) (bearer "kk") ops_key.
Proof.
  apply speaks_for_bearer; [done|done| | |]; [vm_compute; reflexivity| |reflexivity]. by intros [].
Qed.

Lemma issued_key_works_witness :
  ∃ w' k raw, serve (E:=calm) (bearer "kk") (PostApiKeys " ci ") keyed_world = (w', inr (mkResponse 201 (KeyCreatedBody (k_id k) "ci" raw))) ∧
    speaks_for (E:=calm) (w_db w') (bearer raw) k ∧ k_tenant_id k = tenant1 ∧ k_scopes k = ∅.
Proof.
  assert (KEYS_MANAGE ∈ k_scopes ops_key) as Hm by (apply (bool_decide_eq_true_1 _); vm_compute; reflexivity).
  destruct (@issued_key_works calm calm_quiet (bearer "kk") ops_key " ci " (w_db keyed_world) (w_step keyed_world)
    keyed_world_ok ops_speaks Hm ltac:(vm_compute; reflexivity))
    as (w' & k & raw & H1 & H2 & H3 & H4 & _).
  exists w', k, raw. split; [exact H1|]. split; [exact H2|]. split; [exact H3|exact H4].
Defined.

(** Who may revoke what.  A revocation request by an active key is answered
    404, whether the target is missing or another tenant's; 403 when the caller
    neither holds [keys:manage] nor issued the target; otherwise 204, and the
    target, and only it, is revoked. *)
Theorem revocation_needs_authority {E : Env} `{!Quiet E} auth id caller d n :
  keys_integrity d → speaks_for d auth caller →
  ∃ now code w', serve auth (PostApiKeyRevoke id) (mkWorld d n) = (w', inr (mkResponse code NoBody)) ∧
    let d1 := used caller now d in
    match in_tenant k_tenant_id (k_tenant_id caller) (db_keys d1 !! id) with
    | None => code = 404 ∧ w_db w' = d1
    | Some k =>
        (may_revoke caller k ∧ code = 204 ∧ ∃ tm, w_db w' = set_keys (<[id := set_revoked_at (Some tm) k]> (db_keys d1)) d1) ∨
        (¬ may_revoke caller k ∧ code = 403 ∧ w_db w' = d1)
    end.
Proof.
  intros Hk Hc.
  assert (wp (serve auth (PostApiKeyRevoke id))
    (λ res w', ∃ now code, res = mkResponse code NoBody ∧
      let d1 := used caller now d in
      match in_tenant k_tenant_id (k_tenant_id caller) (db_keys d1 !! id) with
      | None => code = 404 ∧ w_db w' = d1
      | Some k =>
          (may_revoke caller k ∧ code = 204 ∧ ∃ tm, w_db w' = set_keys (<[id := set_revoked_at (Some tm) k]> (db_keys d1)) d1) ∨
          (¬ may_revoke caller k ∧ code = 403 ∧ w_db w' = d1)
      end) (λ _ _, False) (mkWorld d n)) as H.
  { unfold serve. wp_step. wp_step. apply wp_caller; [done|intros k Hno; by destruct (Hno caller)|].
    intros c now k Hc' Hn. assert (c = caller) as -> by (by eapply speaks_for_unique).
    pose proof Hc as (_ & _ & _ & Hcd & _).
    assert (keys_integrity (used caller now d)) as Hk'.
    { by apply (os_integrity _ _ (update_key_step d (k_id caller) caller (set_last_used_at (Some now) caller) Hcd ltac:(by split) ltac:(done))). }
    unfold dispatch. cbn [valid_request negb handle]; handler_unfold. unfold post_revoke, answering. wp_step. wp_step.
    apply wp_revoke_alone; [done|..]; cbn [missing_or_denied fmap option_fmap option_map]; unfold ok.
    - intros Hnone. wp_steps. exists now, 404. split; [done|]. cbn zeta. by rewrite Hnone.
    - intros x Hx Ht Hno. wp_steps. exists now, 403. split; [done|]. cbn zeta. rewrite Hx. unfold in_tenant.
      rewrite bool_decide_eq_true_2 by done. by right.
    - intros x tm k' Hx Ht Hyes Hk2. wp_steps. exists now, 204. split; [done|]. cbn zeta. rewrite Hx. unfold in_tenant.
      rewrite bool_decide_eq_true_2 by done. left. eauto. }
  unfold wp in H. destruct (serve _ _ _) as [w' [e|res]]; [done|]. destruct H as (now & code & -> & H). by exists now, code, w'.
Qed.

(** The key without scopes of tenant 8 names the key of tenant 1. *)
Definition other_key : api_key :=
  Eval vm_compute in default ops_key (db_keys (w_db two_tenants) !! mkApiKeyId 15).

Lemma revocation_needs_authority_witness :
  ∃ w', serve (E:=calm) (bearer secret8) (PostApiKeyRevoke (mkApiKeyId 2)) two_tenants = (w', inr (mkResponse 404 NoBody)) ∧
    is_active <$> db_keys (w_db w') !! mkApiKeyId 2 = Some true.
Proof.
  assert (speaks_for (E:=calm) (w_db two_tenants) (bearer secret8) other_key) as Hk.
  { apply speaks_for_bearer; [done|done| | |]; [vm_compute; reflexivity| |reflexivity]. by intros []. }
  pose proof two_tenants_ok as [_ Hi _ _].
  destruct (@revocation_needs_authority calm calm_quiet (bearer secret8) (mkApiKeyId 2) other_key
    (w_db two_tenants) (w_step two_tenants) Hi Hk) as (now & code & w' & Hrun & Hres).
  cbv zeta in Hres. replace (in_tenant _ _ _) with (@None api_key) in Hres by (vm_compute; reflexivity).
  destruct Hres as [-> Hd]. exists w'. split; [exact Hrun|]. rewrite Hd. vm_compute. reflexivity.
Defined.
