(* ===== verification/Guarantees.v ===== *)
(** What the control plane guarantees: the theorems about whole runs. *)
From S2P Require Import Prelude Values Job Node Scheduler Float64 Execution ApiKey Worker Db Prog Repos Services WorkerLoop Cluster Invariant Holding Outcome Scheduling Driving System.
Local Open Scope Z_scope.

(** * Consistency *)



(** C2: Leases are exclusive and stay inside one tenant, with any number of
    other connections writing in between.  Whatever the calls do, and whatever
    statements of the repositories other connections run between any two of their
    statements, no two leases are on the same job or on the same worker, and the
    worker of a lease, that worker's node, and the job of the lease exist and
    belong to the tenant of the lease. *)
Theorem leases_exclusive {E : Env} T cs :
  concurrent →
  let d := w_db (run_calls cs (mkWorld (empty_db T) 0)) in
  (∀ i l i' l', db_leases d !! i = Some l → db_leases d !! i' = Some l' →
     l_job_id l = l_job_id l' ∨ l_worker_id l = l_worker_id l' → i = i') ∧
  (∀ i l, db_leases d !! i = Some l →
     ∃ r nd j, db_workers d !! l_worker_id l = Some r ∧ db_nodes d !! r_node_id r = Some nd ∧
       db_jobs d !! l_job_id l = Some j ∧ r_tenant_id r = l_tenant_id l ∧
       n_tenant_id nd = l_tenant_id l ∧ j_tenant_id j = l_tenant_id l).
Proof.
  intros Hc d. assert (integrity d) as Hd.
  { apply (run_calls_integrity cs); [by apply concurrent_keeps|apply empty_db_integrity]. }
  split.
  - intros i l i' l' Hl Hl' [?|?]; [by eapply (int_lease_job d Hd)|by eapply (int_lease_worker d Hd)].
  - intros i l Hl. destruct (int_leases d Hd i l Hl) as (_ & _ & (r & Hr & Htr)%fk_worker_spec & (j & Hj & Htj)%fk_job_spec).
    destruct (int_workers d Hd _ r Hr) as (_ & _ & (nd & Hnd & Htn)%fk_node_spec & _).
    exists r, nd, j. split_and!; try done. congruence.
Qed.

(** Another connection deletes the lease of job 14 before every statement. *)
Definition meddling : Env := sample_env ticking (λ _ d, exec d (DeleteLease (mkJobId 14) tenant1)).

Lemma leases_exclusive_witness :
  let d := w_db (run_calls (E:=meddling) sample_calls (mkWorld (empty_db {[tenant1]}) 0)) in
  r_running_job_id <$> db_workers d !! mkWorkerId 7 = Some (Some (mkJobId 14)) ∧
  ∀ i l i' l', db_leases d !! i = Some l → db_leases d !! i' = Some l' →
     l_job_id l = l_job_id l' ∨ l_worker_id l = l_worker_id l' → i = i'.
Proof.
  intros d. split; [vm_compute; reflexivity|].
  apply (@leases_exclusive meddling {[tenant1]} sample_calls).
  intros n d'. exists [DeleteLease (mkJobId 14) tenant1]. reflexivity.
Defined.



(** * Reports *)

Inductive outcome := Completed | Failed | CancellationConfirmed.

(** The three endpoints of ReportJobOutcomeService. *)
Definition report_outcome {E : Env} (o : outcome) (w : WorkerId) (j : JobId) (t : TenantId) (l : LeaseId)
    (exit_code : option Z) : prog worker :=
  match o with
  | Completed => report_complete w j t l exit_code
  | Failed => report_fail w j t l exit_code
  | CancellationConfirmed => report_cancel w j t l exit_code
  end.

Definition outcome_op (o : outcome) (exit_code : option Z) (now : datetime) : job_op :=
  match o with
  | Completed => OpComplete exit_code now
  | Failed => OpFail exit_code now
  | CancellationConfirmed => OpConfirmCancelled exit_code now
  end.

Lemma wp_report_outcome {E : Env} `{!Quiet E} o w j t lid code Q R d n :
  exit_code_ok code → integrity d → consistent d →
  (¬ report_applies (outcome_op o code) d w j t lid → ∀ e k, (n ≤ k)%nat → R e (mkWorld d k)) →
  (∀ r wk x x' nd i l now L' evs k,
     read_worker d r wk → holding d w r x nd i l → j_id x = j → n_tenant_id nd = t → l_id l = lid →
     run_op (outcome_op o code now) x = (x', inr tt) → leases_except (j_id x) (db_leases d) L' → (n ≤ k)%nat →
     Q (Worker.recover wk) (mkWorld (dropped d w (row_of_worker (Worker.recover wk)) x x' nd L' evs) k)) →
  wp (report_outcome o w j t lid code) Q R (mkWorld d n).
Proof.
  intros Hc Hint Hd HR HQ. destruct o.
  - apply (wp_report (OpComplete code) "JobCompleted" w j t lid Q R d n); [by intros now|exact Hint|exact Hd|exact HR|exact HQ].
  - apply (wp_report (OpFail code) "JobFailed" w j t lid Q R d n); [by intros now|exact Hint|exact Hd|exact HR|exact HQ].
  - apply (wp_report (OpConfirmCancelled code) "JobCancelled" w j t lid Q R d n); [by intros now|exact Hint|exact Hd|exact HR|exact HQ].
Qed.

(** C4: Fencing.  A report that does not name the lease its worker currently
    holds in that tenant raises and leaves every table exactly as it was: a
    worker whose lease was reclaimed can neither finish the job nor disturb
    whoever holds it now. *)
Theorem stale_report_changes_nothing {E : Env} `{!Quiet E} o w j t lid code d n :
  exit_code_ok code → integrity d → consistent d →
  (∀ i l, db_leases d !! i = Some l → l_worker_id l = w → l_tenant_id l = t → l_id l ≠ lid) →
  ∃ e n', report_outcome o w j t lid code (mkWorld d n) = (mkWorld d n', inl e).
Proof.
  intros Hc Hint Hd Hstale.
  pose proof (wp_report_outcome o w j t lid code (λ _ _, False) (λ _ s, ∃ k, s = mkWorld d k) d n Hc Hint Hd) as H.
  unfold wp in H. destruct (report_outcome _ _ _ _ _ _ _) as [w' [e|a]].
  - destruct H as [k ->]; eauto. intros r wk x x' nd i l now L' evs k _ Hh _ Ht Hl _ _ _.
    eapply Hstale; [apply Hh|apply Hh| |done]. by rewrite (ho_tenant_lease _ _ _ _ _ _ _ Hh).
  - exfalso. apply H; [eauto|]. intros r wk x x' nd i l now L' evs k _ Hh _ Ht Hl _ _ _.
    eapply Hstale; [apply Hh|apply Hh| |done]. by rewrite (ho_tenant_lease _ _ _ _ _ _ _ Hh).
Qed.

(** Job 14 is held under lease 38; a report with lease 37 is stale. *)
Lemma stale_report_changes_nothing_witness :
  ∃ e n', report_outcome (E:=calm) Completed (mkWorkerId 7) (mkJobId 14) tenant1 (mkLeaseId 37) (Some 0)
    (mkWorld (w_db started_world) 0) = (mkWorld (w_db started_world) n', inl e).
Proof.
  destruct started_good as [Hint [Hd _]].
  apply (@stale_report_changes_nothing calm calm_quiet); [reflexivity|exact Hint|exact Hd|].
  intros i l Hl _ _ Hid. destruct (int_leases _ Hint i l Hl) as [Hk _]. rewrite Hid in Hk. subst i.
  vm_compute in Hl. discriminate Hl.
Defined.

(** The job a report leaves. *)
Definition finished (o : outcome) (exit_code : option Z) (now : datetime) (x : job) : job :=
  set_status (match o with Completed => COMPLETED | Failed => FAILED | CancellationConfirmed => CANCELLED end)
    (set_exit_code exit_code (set_completed_at (Some now) x)).

(** The statuses in which a report of that outcome is accepted. *)
Definition reportable (o : outcome) (s : JobStatus) : bool :=
  match o, s with
  | CancellationConfirmed, CANCELLING => true
  | (Completed | Failed), (RUNNING | CANCELLING) => true
  | _, _ => false
  end.

Lemma outcome_op_runs o code now x :
  reportable o (j_status x) = true → run_op (outcome_op o code now) x = (finished o code now x, inr tt).
Proof. destruct o; cbn [outcome_op]; job_unfold; job_cases x; done. Qed.

Lemma leases_except_delete d w r x nd i l L' :
  integrity d → holding d w r x nd i l → leases_except (j_id x) (db_leases d) L' →
  L' = delete i (db_leases d).
Proof.
  intros Hint Hh HL. apply map_eq. intros k. apply option_eq. intros l'. rewrite (HL k l'), lookup_delete_Some.
  split; intros [H1 H2]; split; try done.
  - intros <-. apply H2. rewrite <- (ho_lease_job _ _ _ _ _ _ _ Hh). pose proof (ho_lease _ _ _ _ _ _ _ Hh). congruence.
  - intros Hj. apply H1. eapply (int_lease_job d Hint); [apply Hh|done|].
    by rewrite (ho_lease_job _ _ _ _ _ _ _ Hh).
Qed.

(** The node gets back exactly what the job had. *)
Lemma holding_released d w r x nd i l :
  integrity d → consistent d → holding d w r x nd i l →
  released (j_resources x) nd = resources_add (n_available nd) (j_resources x).
Proof.
  intros Hint Hd Hh.
  destruct (held_le_in_use d w r (j_id x) x (n_id nd) nd) as (H1 & H2 & H3); try apply Hh; [done|].
  unfold in_use, resources_sub in *. cbn in *. unfold released, resources_add. f_equal; lia.
Qed.

(** The tables once the outcome is recorded. *)
Definition recorded (o : outcome) (code : option Z) (w : WorkerId) (r : worker_row) (x : job) (nd : node) (i : LeaseId)
    (d d' : db) : Prop :=
  ∃ now r',
    db_jobs d' = <[j_id x := finished o code now x]> (db_jobs d) ∧
    db_leases d' = delete i (db_leases d) ∧
    db_workers d' = <[w := r']> (db_workers d) ∧
    r_status r' = IDLE ∧ r_running_job_id r' = None ∧ r_node_id r' = r_node_id r ∧ r_tenant_id r' = r_tenant_id r ∧
    db_nodes d' = <[n_id nd := set_available (resources_add (n_available nd) (j_resources x)) nd]> (db_nodes d).

Lemma wp_accepted_report {E : Env} `{!Quiet E} o w r x nd i l code d n :
  exit_code_ok code → integrity d → consistent d → holding d w r x nd i l → reportable o (j_status x) = true →
  wp (report_outcome o w (j_id x) (n_tenant_id nd) (l_id l) code)
    (λ _ s, recorded o code w r x nd i d (w_db s)) no_exn (mkWorld d n).
Proof.
  intros Hc Hint Hd Hh Ho. apply wp_report_outcome; [done..| |].
  - intros Hna. exfalso. apply Hna. exists r, x, nd, i, l. split_and!; try done.
    intros now. by rewrite outcome_op_runs.
  - intros r0 wk x0 x' nd0 i0 l0 now L' evs k Hr Hh0 Hj0 _ _ Hrun HL _.
    assert (r0 = r) as -> by (pose proof (ho_worker _ _ _ _ _ _ _ Hh); pose proof (ho_worker _ _ _ _ _ _ _ Hh0); congruence).
    assert (x0 = x) as -> by (pose proof (ho_job _ _ _ _ _ _ _ Hh); pose proof (ho_job _ _ _ _ _ _ _ Hh0); congruence).
    assert (nd0 = nd) as -> by (pose proof (ho_on _ _ _ _ _ _ _ Hh); pose proof (ho_on _ _ _ _ _ _ _ Hh0);
      pose proof (ho_node _ _ _ _ _ _ _ Hh); pose proof (ho_node _ _ _ _ _ _ _ Hh0); congruence).
    rewrite outcome_op_runs in Hrun by done. injection Hrun as <-.
    destruct (read_worker_row d r wk Hr) as (Hn & _ & _ & Ht).
    exists now, (row_of_worker (Worker.recover wk)). split_and!; try done; cbn.
    + by eapply leases_except_delete.
    + do 2 f_equal. by eapply holding_released.
Qed.



(** * Jobs the server runs itself *)

(** The job a result leaves. *)
Definition settled (res : JobExecutionResult) (now : datetime) (x : job) : job :=
  finished (if succeeded res then Completed else Failed) (exit_code res) now x.

Lemma result_op_settled res now x x2 :
  j_status x = RUNNING → cancelled res = false → run_op (result_op res now) x = (x2, inr tt) → x2 = settled res now x.
Proof.
  intros Hrun Hc. unfold result_op, settled. rewrite Hc.
  destruct (succeeded res); job_unfold; job_cases x; by intros [= <-].
Qed.

Lemma running_from_fields x x1 :
  running_from x x1 → j_id x1 = j_id x ∧ j_command x1 = j_command x ∧
    j_execution_timeout x1 = j_execution_timeout x ∧ j_resources x1 = j_resources x.
Proof. intros [_ [->|[now H]]]; [done|]. revert H. job_unfold. job_cases x; by intros [= <-]. Qed.

(** A worker holds at most one job, under one lease. *)
Lemma holding_unique d w r x nd i l r' x' nd' i' l' :
  integrity d → holding d w r x nd i l → holding d w r' x' nd' i' l' →
  r' = r ∧ x' = x ∧ nd' = nd ∧ i' = i ∧ l' = l.
Proof.
  intros Hint [H1 H2 H3 H4 H5 _ _ H6 H7 _ _ _ _ _] [G1 G2 G3 G4 G5 _ _ G6 G7 _ _ _ _ _].
  assert (r' = r) as -> by congruence. assert (i' = i) as ->.
  { eapply (int_lease_worker d Hint); [exact G6|exact H6|congruence]. }
  split_and!; congruence.
Qed.

(** C18: A job the server runs itself is carried through.  For a worker that holds
    a scheduled or running job, WorkerExecutionLoop starts the job if need be,
    executes its command and records what came of it: COMPLETED if the command
    succeeded and FAILED if not, with the exit code of that execution, the
    worker idle and free, the lease gone, the node credited with exactly the
    resources of the job, no other row of these tables changed. *)
Theorem driven_job_settles {E : Env} `{!Quiet E} w r x nd i l d n :
  good (mkWorld d n) → holding d w r x nd i l → j_status x = SCHEDULED ∨ j_status x = RUNNING →
  (∀ m turns, ∃ res, (execution_at m (j_command x) (j_execution_timeout x) (replicate turns false)).2 = inr res) →
  ∃ d' n' m turns res x1 now r',
    worker_execution_loop w (mkWorld d n) = (mkWorld d' n', inr tt) ∧
    (execution_at m (j_command x) (j_execution_timeout x) (replicate turns false)).2 = inr res ∧
    running_from x x1 ∧ db_jobs d' = <[j_id x := settled res now x1]> (db_jobs d) ∧
    db_leases d' = delete i (db_leases d) ∧
    db_workers d' = <[w := r']> (db_workers d) ∧
    r_status r' = IDLE ∧ r_running_job_id r' = None ∧ r_node_id r' = r_node_id r ∧
    db_nodes d' = <[n_id nd := set_available (resources_add (n_available nd) (j_resources x)) nd]> (db_nodes d).
Proof.
  intros [Hint Hs] Hh Hst Hex.
  assert (wp (worker_execution_loop w)
    (λ _ s, ∃ wk x1 l1 m turns k k' res now L' evs, driven d n w r wk x x1 nd i l l1 k ∧
       (execution_at m (j_command x1) (j_execution_timeout x1) (replicate turns false)).2 = inr res ∧
       leases_except (j_id x1) (db_leases (in_progress d x1 i l1)) L' ∧
       s = mkWorld (dropped (in_progress d x1 i l1) w (row_of_worker (Worker.recover wk)) x1 (settled res now x1) nd L' evs) k')
    (λ _ _, False) (mkWorld d n)) as H.
  { apply wp_worker_loop; [done|done|intros Hc; exfalso|intros Hno; exfalso|..].
    - destruct (Hc _ _ _ _ _ Hh), Hst; congruence.
    - pose proof (Hno _ (ho_worker _ _ _ _ _ _ _ Hh)). pose proof (ho_running _ _ _ _ _ _ _ Hh). congruence.
    - intros r0 wk x0 x1 nd0 i0 l0 l1 m turns k f Hdr Hf. pose proof (dr_holding _ _ _ _ _ _ _ _ _ _ _ _ Hdr) as H0.
      destruct (holding_unique _ _ _ _ _ _ _ _ _ _ _ _ Hint Hh H0) as (-> & -> & -> & -> & ->).
      destruct (Hex m turns) as [res Hres].
      destruct (running_from_fields x x1) as (_ & E1 & E2 & _); [apply Hdr|]. congruence.
    - intros r0 wk x0 x1 x2 nd0 i0 l0 l1 m turns k res now L' evs k' Hdr Hres Hop HL _.
      pose proof (dr_holding _ _ _ _ _ _ _ _ _ _ _ _ Hdr) as H0.
      destruct (holding_unique _ _ _ _ _ _ _ _ _ _ _ _ Hint Hh H0) as (-> & -> & -> & -> & ->).
      apply result_op_settled in Hop as ->; [|apply Hdr|eapply execution_cancelled; [exact Hres|by apply Forall_replicate]].
      eauto 20. }
  unfold wp in H. destruct (worker_execution_loop _ _) as [s [e|[]]]; [done|].
  destruct H as (wk & x1 & l1 & m & turns & k & k' & res & now & L' & evs & Hdr & Hres & HL & ->).
  destruct (running_from_fields x x1) as (E0 & E1 & E2 & E3); [apply Hdr|].
  pose proof (dr_now _ _ _ _ _ _ _ _ _ _ _ _ Hdr) as Hh1.
  eexists _, _, m, turns, res, x1, now, (row_of_worker (Worker.recover wk)). split; [reflexivity|]. rewrite <- E0, <- E1, <- E2, <- E3.
  split_and!; [done|apply Hdr|..]; cbn; try done.
  - by rewrite insert_insert_eq.
  - rewrite (leases_except_delete _ w r x1 nd i l1 L' (dr_integrity _ _ _ _ _ _ _ _ _ _ _ _ Hdr) Hh1 HL). cbn.
    apply delete_insert_eq.
  - by destruct (read_worker_row d r wk (dr_worker _ _ _ _ _ _ _ _ _ _ _ _ Hdr)) as (-> & _).
  - do 2 f_equal. eapply (holding_released (in_progress d x1 i l1)); [apply Hdr| |exact Hh1].
    apply (dr_sound _ _ _ _ _ _ _ _ _ _ _ _ Hdr).
Qed.

Lemma driven_job_settles_witness :
  ∃ d' n', worker_execution_loop (E:=calm) (mkWorkerId 7) (mkWorld (w_db commanded_world) (w_step commanded_world)) = (mkWorld d' n', inr tt) ∧
    (∃ x', db_jobs d' !! mkJobId 14 = Some x' ∧ j_exit_code x' = Some 0) ∧ db_leases d' !! mkLeaseId 38 = None.
Proof.
  destruct (@driven_job_settles calm calm_quiet (mkWorkerId 7) commanded_row commanded_job commanded_node (mkLeaseId 38)
    commanded_lease (w_db commanded_world) (w_step commanded_world))
    as (d' & n' & m & turns & res & x1 & now & r' & Hrun & Hres & _ & HJ & HL & _).
  - exact commanded_good.
  - apply commanded_holding.
  - left. reflexivity.
  - intros m [|[|turns]]; eexists; vm_compute; reflexivity.
  - exists d', n'. split; [exact Hrun|]. rewrite HJ, HL. split; [|apply lookup_delete_eq].
    eexists. split; [apply lookup_insert_eq|]. cbn. revert Hres. clear.
    destruct turns as [|[|turns]]; vm_compute; by intros [= <-].
Defined.

(** A result whose lease is gone is not recorded.  If, when the command has
    ended, the worker no longer holds the lease under which the job was
    started, because a reconciliation pass took the job back and perhaps gave it to
    someone else, then settling the result raises, and jobs, workers, leases,
    nodes and keys are left as they are. *)
Theorem stale_result_dropped {E : Env} `{!Quiet E} w lid t wk result d n :
  (∀ i l, db_leases d !! i = Some l → l_worker_id l = w → l_tenant_id l = t → l_id l ≠ lid) →
  ∃ e evs n', settle w lid t wk result (mkWorld d n) = (mkWorld (set_events evs d) n', inl e).
Proof.
  intros Hno. pose proof (wp_settle_fenced w lid t wk result (λ _ _, False)
    (λ _ s, ∃ evs k, s = mkWorld (set_events evs d) k) d n Hno) as H. unfold wp in H.
  destruct (settle _ _ _ _ _ _) as [s [e|[]]]; [|exfalso; eauto].
  destruct H as (evs & k & ->); eauto.
Qed.

Lemma stale_result_dropped_witness :
  ∃ e evs n', settle (E:=calm) (mkWorkerId 7) (mkLeaseId 37) tenant1
      (Worker.new (mkWorkerId 7) commanded_node DASHBOARD 0) (mkResult (Some 0) false false fzero "" "" false)
      (mkWorld (w_db commanded_world) 100) = (mkWorld (set_events evs (w_db commanded_world)) n', inl e).
Proof.
  apply (@stale_result_dropped calm calm_quiet). intros i l Hl _ _ Hid. pose proof (good_integrity _ _ commanded_good) as Hint.
  destruct (int_leases _ Hint i l Hl) as [Hk _]. rewrite Hid in Hk. subst i. vm_compute in Hl. discriminate Hl.
Defined.



(** * Reconciliation *)

(** C8: An expired lease is recovered completely.  When the lease has run out
    at both clock readings of the recovery, the lease is gone, the worker that
    held it is idle and free, its node has the job's resources back, and the job
    is what [Job.reclaim] makes of it (queued again with one retry spent, failed
    when none is left, cancelled if it was being cancelled), or untouched if it
    was cancelled already; nothing is raised and no other row changes. *)
Theorem expired_lease_recovered {E : Env} `{!Quiet E} w r x nd l d n :
  integrity d → consistent d → holding d w r x nd (l_id l) l →
  l_expires_at l <= clock n → l_expires_at l < clock (S n) →
  ∃ d' n' now r',
    recover_expired_lease l (mkWorld d n) = (mkWorld d' n', inr tt) ∧
    db_leases d' = delete (l_id l) (db_leases d) ∧
    db_workers d' = <[w := r']> (db_workers d) ∧
    r_status r' = IDLE ∧ r_running_job_id r' = None ∧ r_node_id r' = r_node_id r ∧
    db_nodes d' = <[n_id nd := set_available (resources_add (n_available nd) (j_resources x)) nd]> (db_nodes d) ∧
    db_jobs d' = <[j_id x := (reclaim now x).1]> (db_jobs d).
Proof.
  intros Hint Hd Hh Hexp Hexp'.
  assert (wp (recover_expired_lease l)
    (λ _ s, ∃ wk now o x' L' evs, row_of_worker wk = r ∧ reclaimed now x o x' ∧
       leases_except (j_id x) (db_leases d) L' ∧
       w_db s = dropped d w (row_of_worker (Worker.recover wk)) x x' nd L' evs)
    (λ _ _, False) (mkWorld d n)) as H.
  { apply wp_recover_expired_lease; [done|done|apply Hh|lia|].
    intros _ _ r0 wk x0 x' o nd0 now L' evs k Hh0 Hwk _ Hrec HL _.
    rewrite (ho_lease_worker _ _ _ _ _ _ _ Hh) in *.
    assert (r0 = r) as -> by (pose proof (ho_worker _ _ _ _ _ _ _ Hh); pose proof (ho_worker _ _ _ _ _ _ _ Hh0); congruence).
    assert (x0 = x) as -> by (pose proof (ho_job _ _ _ _ _ _ _ Hh); pose proof (ho_job _ _ _ _ _ _ _ Hh0);
      pose proof (ho_lease_job _ _ _ _ _ _ _ Hh); pose proof (ho_lease_job _ _ _ _ _ _ _ Hh0); congruence).
    assert (nd0 = nd) as -> by (pose proof (ho_on _ _ _ _ _ _ _ Hh); pose proof (ho_on _ _ _ _ _ _ _ Hh0);
      pose proof (ho_node _ _ _ _ _ _ _ Hh); pose proof (ho_node _ _ _ _ _ _ _ Hh0); congruence).
    eauto 12. }
  unfold wp in H. destruct (recover_expired_lease _ _) as [[d' n'] [e|[]]]; [done|].
  destruct H as (wk & now & o & x' & L' & evs & Hwk & Hrec & HL & E'). cbn in E'. subst d'.
  exists (dropped d w (row_of_worker (Worker.recover wk)) x x' nd L' evs), n', now, (row_of_worker (Worker.recover wk)).
  split_and!; try done; cbn.
  - by eapply leases_except_delete.
  - by rewrite <- Hwk.
  - do 2 f_equal. by eapply holding_released.
  - unfold reclaimed in Hrec. pose proof (reclaim_refused now x) as Href.
    destruct (reclaim now x) as [y [e|[]]]; destruct Hrec as [_ ->]; [|done]. cbn in *. rewrite Href by eauto. done.
Qed.

Lemma expired_lease_recovered_witness :
  ∃ d' n', recover_expired_lease (E:=calm) started_lease (mkWorld (w_db started_world) 70) = (mkWorld d' n', inr tt) ∧
    db_leases d' !! mkLeaseId 38 = None ∧ j_status <$> db_jobs d' !! mkJobId 14 = Some FAILED ∧
    n_available <$> db_nodes d' !! mkNodeId 0 = Some (mkResources 8 1024 0).
Proof.
  destruct started_good as [Hint [Hd _]].
  destruct (@expired_lease_recovered calm calm_quiet _ _ _ _ started_lease _ 70%nat Hint Hd started_holding)
    as (d' & n' & now & r' & Hrun & HL & _ & _ & _ & _ & HN & HJ); [vm_compute; discriminate|reflexivity|].
  exists d', n'. split; [exact Hrun|]. rewrite HL, HJ, HN. split_and!.
  - apply lookup_delete_eq.
  - rewrite lookup_insert_eq. reflexivity.
  - rewrite lookup_insert_eq. reflexivity.
Defined.

(** C7: A reconciliation pass leaves no expired lease behind.  If every clock
    reading from the start of the pass on is later than [t], then after the
    recovery of expired leases every remaining lease runs out after [t]. *)
Theorem no_expired_lease_left {E : Env} `{!Quiet E} t d n :
  integrity d → consistent d → minted d n → (∀ k, (n ≤ k)%nat → t < clock k) →
  ∃ w', recover_expired_leases (mkWorld d n) = (w', inr tt) ∧
    ∀ i l, db_leases (w_db w') !! i = Some l → t < l_expires_at l.
Proof.
  intros Hint Hd Hm Hclock. pose proof (quiet_keeps integrity) as Hi.
  set (I ls s := integrity (w_db s) ∧ sound s ∧ leases_read (w_db s) ls ∧ (n ≤ w_step s)%nat ∧
    ∀ i l, db_leases (w_db s) !! i = Some l → l ∈ ls ∨ t < l_expires_at l).
  assert (wp recover_expired_leases (λ _, I []) (λ _ _, False) (mkWorld d n)) as H.
  { unfold recover_expired_leases, LeaseRepository.list_across_tenants. wp_step. apply wp_select_rows.
    intros ls k Hls Hk. apply wp_for.
    - intros l ls' [d' n'] (Hint' & [Hd' Hm'] & Hr' & Hn' & Hall). cbn in *.
      eapply wp_mono; [apply (wp_and_integrity _ (λ _ s, sound s ∧ leases_read (w_db s) ls' ∧ (n ≤ w_step s)%nat ∧
        ∀ i l, db_leases (w_db s) !! i = Some l → l ∈ ls' ∨ t < l_expires_at l) (λ _ _, False));
        [by apply recover_expired_lease_integrity|done|]|done|by intros e s' [_ []]].
      apply wp_recover_expired_lease; [done|done|apply Hr'; left|..].
      + intros Hlate k' Hk'. split_and!; [split; [done|by eapply minted_le]| |cbn; lia|].
        * destruct Hr' as [[_ ?]%NoDup_cons Hin]. split; [done|]. intros y Hy. apply Hin. by right.
        * intros i0 l0 Hl0. destruct (Hall i0 l0 Hl0) as [[->|?]%elem_of_cons|?]; auto.
          right. pose proof (Hclock n' Hn'). assert (t < clock (S n')) by (apply Hclock; lia). lia.
      + intros Hexp _ r wk x x' o nd now L' evs k' Hh Hwk Hgu Hrec HL Hk'. split_and!.
        * eapply (sound_drop d' _ n' _ (l_worker_id l) r _ x x' nd); try done. cbn.
          rewrite <- (ho_on _ _ _ _ _ _ _ Hh), <- Hwk. done.
        * eapply (leases_read_except d' _ l); [done..|]. by rewrite (ho_lease_job _ _ _ _ _ _ _ Hh).
        * cbn. lia.
        * cbn. intros i0 l0 [Hl0 Hne]%HL. destruct (Hall i0 l0 Hl0) as [[->|?]%elem_of_cons|?]; auto.
          exfalso. apply Hne. apply Hh.
    - split_and!; [done|split; [done|by eapply minted_le]|by apply leases_read_all|done|].
      intros i l Hl. left. rewrite Hls. apply elem_of_rows. eauto. }
  unfold wp in H. destruct (recover_expired_leases _) as [w' [e|[]]]; [done|].
  exists w'. split; [done|]. destruct H as (_ & _ & _ & _ & Hall).
  intros i l Hl. destruct (Hall i l Hl) as [Hin|?]; [by apply not_elem_of_nil in Hin|done].
Qed.

Lemma no_expired_lease_left_witness :
  db_leases (w_db started_world) !! mkLeaseId 38 = Some started_lease ∧ l_expires_at started_lease = seconds 67 ∧
  ∃ w', recover_expired_leases (E:=calm) (mkWorld (w_db started_world) 100) = (w', inr tt) ∧
    ∀ i l, db_leases (w_db w') !! i = Some l → seconds 99 < l_expires_at l.
Proof.
  destruct started_good as [Hint [Hd Hm]]. split; [vm_compute; reflexivity|]. split; [reflexivity|].
  apply (@no_expired_lease_left calm calm_quiet); [exact Hint|exact Hd| |].
  - eapply minted_le; [|exact Hm]. apply Nat.leb_le. vm_compute. reflexivity.
  - intros k Hk. unfold clock, calm, sample_env, ticking, seconds. lia.
Defined.

(** What must not be disturbed while lease [l] runs. *)
Definition undisturbed (i : LeaseId) (l : lease) (x : job) (w : world) : Prop :=
  db_leases (w_db w) !! i = Some l ∧ db_jobs (w_db w) !! l_job_id l = Some x ∧
  ∃ r, db_workers (w_db w) !! l_worker_id l = Some r ∧ r_running_job_id r = Some (l_job_id l).


