(* ===== verification/AgentServer.v ===== *)
(** The agent against the server of this development: the other end of its HTTP
    client is the gateway of Http.v in front of the database, and the network may
    lose requests and responses. *)
From stdpp Require Import pretty.
From S2P Require Import Prelude Values Job Node Float64 FloatOrder RateLimiter Execution ApiKey Worker Db Prog Repos Keys Services Http Frame Cluster Invariant Tenancy Holding Outcome Scheduling System Server Access Guarantees Agent AgentRun Scheduler.
Local Open Scope Z_scope.

(** The URL and body of a request; [None] for a body the request model refuses
    (a null lease_id). *)
Definition outcome_route (p : outcome_path) (w : WorkerId) (j : JobId) (l : LeaseId) (code : option Z) : route :=
  match p with
  | PathCancel => PostConfirmCancel w j l code
  | PathComplete => PostComplete w j l code
  | PathFail => PostFail w j l code
  end.

Definition to_route (q : request) : option route :=
  match q with
  | RegisterWorker n => Some (PostWorkers n "AGENT")
  | HeartbeatWorker w => Some (PostWorkerHeartbeat w)
  | HeartbeatNode n => Some (PostNodeHeartbeat n)
  | PollWorker w => Some (GetWorker w)
  | Agent.StartJob w j => Some (PostStart w j)
  | Agent.RenewLease w l => PostRenew w <$> l
  | ReportOutcome p w j code l => (λ l, outcome_route p w j l code) <$> l
  end.

(** What happens to the exchange at effect [n]: whether the request arrives, when
    the server's clock is read, whether the response comes back. *)
Record network := mkNetwork {
  arrives : nat → bool;
  served_at : nat → float;
  comes_back : nat → bool;
}.

Section connected.
Context {E : Env} (here : Site) (auth : option string) (net : network).

Definition request_handler (q : request) (caller : api_key) : prog response :=
  match to_route q with
  | Some r => dispatch caller r
  | None => raise (HTTPException 422)
  end.

Definition server_send (n : nat) (q : request) (p : limiter * world) : limiter * world * reply :=
  if negb (arrives net n) then (p, TransportFailure) else
  let '(L, w, (res, retry)) := gateway (served_at net n) auth (request_handler q) (p.1) (p.2) in
  (L, w, if comes_back net n then Replied (r_code res) (pretty <$> retry) (r_body res) else TransportFailure).

(** The agent at [here], connected to the server. *)
Definition connected : Site := {|
  peer := limiter * world;
  send := server_send;
  agent_clock := @agent_clock here;
  random_draw := @random_draw here;
  ctrl_c := @ctrl_c here;
  beats := @beats here;
  agent_host := @agent_host here;
  random_unit := @random_unit here;
|}.
End connected.

(** The endpoint a path stands for. *)
Definition path_outcome (p : outcome_path) : outcome :=
  match p with PathCancel => CancellationConfirmed | PathComplete => Completed | PathFail => Failed end.

Lemma report_dispatch {E : Env} caller p w j l code :
  dispatch caller (outcome_route p w j l code) =
  (wk ← answering report_conflict (Guarantees.report_outcome (path_outcome p) w j (k_tenant_id caller) l code);
   ok 200 (WorkerBody (_build_worker_response wk None))).
Proof. by destruct p. Qed.

(** The limiter never raises a status of its own. *)
Lemma unmapped_code now k L L' e : require_rate_limit now k L = (L', inl (Unmapped e)) → r_code (error_response e) = 500.
Proof.
  unfold require_rate_limit, check, float_of_int, int_of_float. repeat (case_match; simplify_eq/=; try done).
Qed.

Section once.
Context {E : Env} `{!Quiet E} (here : Site) (auth : option string) (net : network).
Context (w : WorkerId) (r : worker_row) (x : job) (nd : node) (i : LeaseId) (l : lease) (res : JobExecutionResult) (d : db).
Context (Hh : holding d w r x nd i l) (Hcode : exit_code_ok (exit_code res)).
Context (Hrep : reportable (path_outcome (path_of res)) (j_status x) = true).

Let o : outcome := path_outcome (path_of res).
Let query : request := ReportOutcome (path_of res) w (j_id x) (exit_code res) (Some (l_id l)).

(** The key still speaks for the tenant of the job. *)
Definition spoken (d1 : db) : Prop := ∃ caller, speaks_for d1 auth caller ∧ k_tenant_id caller = n_tenant_id nd.

(** Before the report took effect only the key table has changed; afterwards the
    outcome is recorded. *)
Definition unreported (s : world) : Prop := server_ok s ∧ spoken (w_db s) ∧ ∃ m, w_db s = set_keys m d.
Definition reported (s : world) : Prop :=
  server_ok s ∧ spoken (w_db s) ∧ recorded o (exit_code res) w r x nd i d (w_db s).

Lemma spoken_used d1 caller now : speaks_for d1 auth caller → k_tenant_id caller = n_tenant_id nd → spoken (used caller now d1).
Proof using.
  intros (raw & E1 & Hne & Hk & Hact & Hhash) Ht. exists (set_last_used_at (Some now) caller). split; [|done].
  exists raw. split_and!; try done. cbn. by rewrite lookup_insert_eq.
Qed.

Lemma spoken_keys d1 d2 : db_keys d2 = db_keys d1 → spoken d1 → spoken d2.
Proof using. intros Ek (caller & (raw & ?) & Ht). exists caller. split; [|done]. exists raw. by rewrite Ek. Qed.

(** Authentication. *)
Lemma authenticated d1 n :
  server_ok (mkWorld d1 n) → spoken d1 →
  wp (require_api_key auth)
    (λ caller s, k_tenant_id caller = n_tenant_id nd ∧ server_ok s ∧ spoken (w_db s) ∧
       ∃ now, w_db s = used caller now d1) no_exn (mkWorld d1 n).
Proof using All.
  intros Hs (c & Hc & Ht). apply wp_caller; [apply Hs|intros k Hno _; by destruct (Hno c)|].
  intros caller now k Hsp Hk. assert (caller = c) as -> by (by eapply speaks_for_unique; [apply Hs|..]).
  split_and!; [done| |by eapply spoken_used|by eexists]. pose proof Hsp as (raw & _ & _ & Hkc & _). by eapply used_ok.
Qed.

(** The endpoints keep the server in order and do not touch the keys. *)
Lemma report_frame caller s :
  server_ok s → spoken (w_db s) →
  wp (dispatch caller (outcome_route (path_of res) w (j_id x) (l_id l) (exit_code res)))
    (λ _ s', server_ok s' ∧ spoken (w_db s')) (λ _ s', server_ok s' ∧ spoken (w_db s')) s.
Proof using All.
  intros Hs Hsp. set (rt := outcome_route _ _ _ _ _).
  assert (dispatch caller rt = handle caller rt) as -> by (by unfold rt; destruct (path_of res)).
  assert (route_ok rt ∧ key_route rt = false) as [Hok Hkr] by (unfold rt; by destruct (path_of res)).
  assert (∀ K T n0, preserves (keyed K T n0) (handle caller rt)) as Hkeyed.
  { intros K T n0. apply handle_frame; [apply _|]. unfold rt. by destruct (path_of res). }
  pose proof (framed_ok (handle caller rt) (handle_good caller rt Hok Hkr) Hkeyed s Hs) as H1.
  specialize (Hkeyed (db_keys (w_db s)) (db_tenants (w_db s)) (w_step s) s ltac:(done)).
  unfold wp. destruct (handle caller rt s) as [s' [e|a]]; (split; [done|]); destruct Hkeyed as [Ek _]; by eapply spoken_keys.
Qed.

Lemma wp_and {A} (m : prog A) Q Q' (R R' : exn → world → Prop) s :
  wp m Q R s → wp m Q' R' s → wp m (λ a s', Q a s' ∧ Q' a s') (λ e s', R e s' ∧ R' e s') s.
Proof using. unfold wp. by destruct (m s) as [s' [e|a]]. Qed.

Lemma holding_keys m : holding (set_keys m d) w r x nd i l.
Proof using Hh. destruct Hh. by split. Qed.

(** The first report to arrive is accepted. *)
Lemma first_report caller s :
  k_tenant_id caller = n_tenant_id nd → unreported s →
  wp (dispatch caller (outcome_route (path_of res) w (j_id x) (l_id l) (exit_code res)))
    (λ a s', r_code a = 200 ∧ reported s') no_exn s.
Proof using All.
  intros Ht (Hs & Hsp & m & Ed). eapply wp_mono; [eapply (wp_and _
    (λ a s', r_code a = 200 ∧ recorded o (exit_code res) w r x nd i d (w_db s')) _ no_exn); [|by apply report_frame]|..]; cycle 1.
  - intros a s' [[Ha Hr] [H1 H2]]. split; [exact Ha|]. split_and!; [done..|exact Hr].
  - by intros e s' [? _].
  - destruct s as [d1 n]. cbn in Ed. subst d1. pose proof Hs as [[Hint [Hd _]] _ _ _]. cbn in Hint, Hd.
    rewrite report_dispatch, Ht. apply wp_bind. unfold answering. apply wp_try.
    eapply wp_mono; [apply (wp_accepted_report _ w r x nd i l); [done..|apply holding_keys|done]| |done].
    intros wk s' Hr. split; [done|exact Hr].
Qed.

(** Every later one is answered 409, and nothing changes. *)
Lemma later_report caller s :
  k_tenant_id caller = n_tenant_id nd → reported s →
  wp (dispatch caller (outcome_route (path_of res) w (j_id x) (l_id l) (exit_code res)))
    (λ _ _, False) (λ e s', e = HTTPException 409 ∧ reported s') s.
Proof using All.
  intros Ht (Hs & Hsp & Hr). eapply wp_mono; [eapply (wp_and _ (λ _ _, False) _
    (λ e s', e = HTTPException 409 ∧ w_db s' = w_db s)); [|by apply report_frame]|..]; cycle 1.
  - by intros a s' [[] _].
  - intros e s' [[-> Ed] [H1 H2]]. split; [done|]. split_and!; [done..|]. by rewrite Ed.
  - destruct s as [d1 n]. pose proof Hs as [[Hint [Hd _]] _ _ _]. cbn in Hint, Hd, Hr.
    destruct Hr as (now & r' & _ & _ & HW & _ & Hrun & _ & Hrt & _).
    assert (db_workers d1 !! w = Some r') as Hw by (rewrite HW; apply lookup_insert_eq).
    assert (wp (Guarantees.report_outcome o w (j_id x) (k_tenant_id caller) (l_id l) (exit_code res)) (λ _ _, False)
      (λ e s', e = WorkerJobMismatchError ∧ w_db s' = d1) (mkWorld d1 n)) as Hrefused.
    { assert (∀ fin ty, wp (report fin ty w (j_id x) (k_tenant_id caller) (l_id l)) (λ _ _, False)
        (λ e s', e = WorkerJobMismatchError ∧ w_db s' = d1) (mkWorld d1 n)) as H; [|unfold o; destruct (path_outcome _); apply H].
      intros fin ty. unfold report, _get_owning_worker. wp_steps.
      apply wp_worker_get_by_id; [by apply consistent_loadable|]. intros dr k Hk.
      destruct (select_worker_holding d1 w (k_tenant_id caller) r' dr Hint Hw) as (wk & -> & Hrd & _).
      { rewrite Hrt, Ht. apply Hh. }
      destruct (read_worker_row d1 r' wk Hrd) as (_ & Hj & _ & Et). unfold w_tenant_id in Et.
      rewrite bool_decide_eq_true_2 by (rewrite Et, Hrt, Ht; apply Hh). cbn [negb].
      destruct (w_running_job wk) as [y|]; [rewrite Hrun in Hj; done|]. by wp_steps. }
    rewrite report_dispatch. apply wp_bind. unfold answering. apply wp_try.
    eapply wp_mono; [exact Hrefused|done|]. intros e s' [-> Ed]. cbn. by wp_steps.
Qed.

(** Whether or not the report has taken effect. *)
Definition pending_or_reported (s : world) : Prop := unreported s ∨ reported s.

Lemma authenticated_phase s :
  pending_or_reported s →
  wp (require_api_key auth)
    (λ caller s', k_tenant_id caller = n_tenant_id nd ∧ pending_or_reported s' ∧ (reported s → reported s')) no_exn s.
Proof using All.
  intros Hs. assert (server_ok s ∧ spoken (w_db s)) as [Hok Hsp] by (destruct Hs as [(? & ? & _)|(? & ? & _)]; done).
  destruct s as [d1 n]. eapply wp_mono; [by apply authenticated| |done].
  intros caller s' (Ht & Hok' & Hsp' & now & Ed). cbn in Ed.
  assert (reported (mkWorld d1 n) → reported s') as Hdone.
  { intros (_ & _ & Hr). split_and!; [done..|]. rewrite Ed. exact Hr. }
  split_and!; [done| |done]. destruct Hs as [(_ & _ & m & Em)|Hs]; [left|right; by apply Hdone].
  cbn in Em. subst d1. split_and!; [done..|]. exists (<[k_id caller := set_last_used_at (Some now) caller]> m). by rewrite Ed.
Qed.

(** One attempt, as the network and the server treat it. *)
Lemma send_report n L s :
  pending_or_reported s →
  let '(p, rep) := server_send auth net n query (L, s) in
  pending_or_reported (p.2) ∧
  match rep with
  | TransportFailure => True
  | OtherFailure => False
  | Replied code _ _ => code = 429 ∨ code = 500 ∨ ((code = 200 ∨ code = 409) ∧ reported (p.2))
  end.
Proof using All.
  intros Hs. unfold server_send. destruct (arrives net n); cbn [negb fst snd]; [|done].
  unfold gateway. pose proof (authenticated_phase s Hs) as Ha. unfold wp in Ha.
  destruct (require_api_key auth s) as [s1 [e|caller]]; [done|]. destruct Ha as (Ht & Hs1 & _).
  assert (∀ rep, match rep with TransportFailure => True | OtherFailure => False
    | Replied code _ _ => code = 429 ∨ code = 500 ∨ ((code = 200 ∨ code = 409) ∧ reported s1) end → pending_or_reported s1 ∧
    match rep with TransportFailure => True | OtherFailure => False
    | Replied code _ _ => code = 429 ∨ code = 500 ∨ ((code = 200 ∨ code = 409) ∧ reported s1) end) as Hheld by done.
  destruct (require_rate_limit (served_at net n) (k_id caller) L) as [L' [[sec|e]|[]]] eqn:El; cbn [fst snd].
  - apply Hheld. destruct (comes_back net n); cbn; auto.
  - apply Hheld. apply unmapped_code in El. destruct (comes_back net n); [|done]. rewrite El. auto.
  - change (request_handler query caller s1) with
      (dispatch caller (outcome_route (path_of res) w (j_id x) (l_id l) (exit_code res)) s1).
    destruct Hs1 as [Hs1|Hs1].
    + pose proof (first_report caller s1 Ht Hs1) as Hf. unfold wp in Hf.
      destruct (dispatch _ _ _) as [s2 [e|a]]; [done|]. destruct Hf as [Hc Hr]. cbn [fst snd].
      split; [by right|]. destruct (comes_back net n); [|done]. rewrite Hc. auto.
    + pose proof (later_report caller s1 Ht Hs1) as Hf. unfold wp in Hf.
      destruct (dispatch _ _ _) as [s2 [e|a]]; [|done]. destruct Hf as [-> Hr]. cbn [fst snd].
      split; [by right|]. destruct (comes_back net n); [|done]. cbn. auto.
Qed.

#[local] Existing Instance connected.

(** The agent between two attempts: no heartbeat falls in between. *)
Definition trying (P : world → Prop) (s : @agent (connected here auth net)) : Prop :=
  ag_beating s = false ∧ P ((ag_peer s).2).

Lemma post_outcome_once s :
  trying pending_or_reported s →
  wp (post_outcome (H := connected here auth net) w (j_id x) (Some (l_id l)) res)
    (λ code s', trying reported s' ∧ (code = 200 ∨ code = 409))
    (λ e s', trying pending_or_reported s' ∧ (is_transient e = true ∨ e = KeyboardInterrupted)) s.
Proof using All.
  intros [Hb Hp]. unfold post_outcome, request_main. apply wp_bind, wp_bind.
  unfold background. apply wp_bind. unfold gets, wp at 1. apply wp_bind. unfold wp at 1. rewrite Hb. apply wp_ret.
  unfold wp at 1, interruptible, exchange.
  pose proof (send_report (ag_step s) ((ag_peer s).1) ((ag_peer s).2) Hp) as Hsend. rewrite <- surjective_pairing in Hsend.
  change (@send (connected here auth net) (ag_step s) (ReportOutcome (path_of res) w (j_id x) (exit_code res) (Some (l_id l))) (ag_peer s))
    with (server_send auth net (ag_step s) query (ag_peer s)).
  destruct (server_send auth net (ag_step s) query (ag_peer s)) as [p rep]. destruct Hsend as [Hp' Hrep'].
  destruct rep as [code retry b| |]; [|destruct (ctrl_c _); split; auto; done|done].
  destruct (ctrl_c (ag_step s)); [split; auto; done|]. apply wp_bind.
  destruct Hrep' as [-> | [-> | [[-> | ->] Hr]]]; cbn; unfold wp; cbn; (split; [done|auto]).
Qed.

Lemma report_once fuel attempt s :
  trying pending_or_reported s →
  wp (call_with_retry (H := connected here auth net) fuel attempt (post_outcome w (j_id x) (Some (l_id l)) res))
    (λ code s', trying reported s' ∧ (code = 200 ∨ code = 409))
    (λ e s', trying pending_or_reported s' ∧ (e = KeyboardInterrupted ∨ e = SleepOverflow ∨ e = Unfinished)) s.
Proof using All.
  revert attempt s. induction fuel as [|fuel IH]; intros attempt s Hs; [split; auto|].
  cbn [call_with_retry]. apply wp_try. eapply wp_mono; [by apply post_outcome_once|done|].
  intros e s1 [Hs1 [Ht| ->]]; [|split; auto].
  assert (is_http_error e = true) as -> by (by destruct e). rewrite Ht. cbn [negb].
  apply wp_bind. unfold wp at 1.
  destruct (backoff_delay_val attempt (retry_after_seconds e) s1) as (j & -> & _).
  apply wp_bind. unfold sleep. destruct (sleepable _); [|split; auto].
  unfold wp at 1, interruptible, note. destruct (ctrl_c _); [split; auto|]. by apply IH.
Qed.
End once.


(** * A site and a run *)

(** No randomness, no interruption, no heartbeats; commands run on the sample
    machine; nobody answers. *)
Definition sample_site : Site.
Proof.
  refine {| peer := unit; send _ _ p := (p, TransportFailure); agent_clock _ := fzero; random_draw _ := fzero;
            ctrl_c _ := false; beats _ := 0%nat; agent_host := sample_host |}.
  by vm_compute.
Defined.

(** The response to the first exchange is lost. *)
Definition lossy : network := mkNetwork (λ _, true) (λ _, fone) (λ n, (1 <=? n)%nat).

(** Key 2 (secret "kk") registers worker 20 on node 9; job 31 is scheduled to it
    under lease 55, and started. *)
Definition handed_over : world :=
  (scheduler_loop (E:=calm)
    (serve (E:=calm) (bearer "kk") (PostJobs 2 256 0 None)
      (serve (E:=calm) (bearer "kk") (PostWorkers (mkNodeId 9) "AGENT") noded_world).1).1).1.
Definition running_world : world := (serve (E:=calm) (bearer "kk") (PostStart (mkWorkerId 20) (mkJobId 31)) handed_over).1.

Lemma running_world_ok : server_ok (E:=calm) (mkWorld (w_db running_world) (w_step running_world)).
Proof.
  enough (server_ok (E:=calm) running_world) by (by destruct running_world).
  eapply (server_step_ok (E:=calm) keyed_world); [|apply keyed_world_ok].
  eapply rtc_l; [by apply (@Request calm _ (bearer "kk") (PostNodes 8 1024 0 (Some "n"%string)))|].
  eapply rtc_l; [by apply (@Request calm _ (bearer "kk") (PostWorkers (mkNodeId 9) "AGENT"))|].
  eapply rtc_l; [by apply (@Request calm _ (bearer "kk") (PostJobs 2 256 0 None))|].
  eapply rtc_l; [apply (@SchedulerTick calm)|].
  apply rtc_once. by apply (@Request calm _ (bearer "kk") (PostStart (mkWorkerId 20) (mkJobId 31))).
Qed.

Definition running_job31 : job := Eval vm_compute in default (sample_job 0) (db_jobs (w_db running_world) !! mkJobId 31).
Definition running_node : node := Eval vm_compute in default (sample_node 0 0 0) (db_nodes (w_db running_world) !! mkNodeId 9).
Definition running_row : worker_row :=
  Eval vm_compute in default (mkWorkerRow (mkWorkerId 0) (mkNodeId 0) tenant1 OFFLINE AGENT None 0)
    (db_workers (w_db running_world) !! mkWorkerId 20).
Definition running_lease : lease :=
  Eval vm_compute in default (mkLease (mkLeaseId 0) (mkWorkerId 0) (mkJobId 0) tenant1 0 0)
    (db_leases (w_db running_world) !! mkLeaseId 55).
Definition running_key : api_key :=
  Eval vm_compute in default ops_key (db_keys (w_db running_world) !! mkApiKeyId 2).

Lemma running_holding :
  holding (w_db running_world) (mkWorkerId 20) running_row running_job31 running_node (mkLeaseId 55) running_lease.
Proof. split; vm_compute; reflexivity. Qed.

Lemma running_speaks : speaks_for (E:=calm) (w_db running_world) (bearer "kk") running_key.
Proof. apply speaks_for_bearer; [done|done| | |]; [vm_compute; reflexivity| |reflexivity]. by intros []. Qed.

Definition finished_result : JobExecutionResult := mkResult (Some 0) false false fzero "" "" false.

Definition reporting : @agent (connected (E:=calm) sample_site (bearer "kk") lossy) :=
  mkAgent (connected (E:=calm) sample_site (bearer "kk") lossy) 0
    (deployed, mkWorld (w_db running_world) (w_step running_world)) (mkNodeId 9) (Some (mkWorkerId 20)) false [].


(** Nobody answers: after two turns of its loops the agent is still trying. *)
Definition idle_agent : @agent sample_site := mkAgent sample_site 0 tt (mkNodeId 9) None false [].


(** One turn of the poll loop against the server: the agent finds job 31, starts
    it, runs it and completes it. *)
Definition polling : @agent (connected (E:=calm) sample_site (bearer "kk") (mkNetwork (λ _, true) (λ _, fone) (λ _, true))) :=
  mkAgent (connected (E:=calm) sample_site (bearer "kk") (mkNetwork (λ _, true) (λ _, fone) (λ _, true))) 0
    (deployed, handed_over) (mkNodeId 9) (Some (mkWorkerId 20)) false [].

Example agent_completes_job :
  let out := poll_turn 1 polling in
  out.2 = inr tt ∧ (λ x, (j_status x, j_exit_code x)) <$> db_jobs (w_db ((ag_peer (out.1)).2)) !! mkJobId 31 = Some (COMPLETED, Some 0).
Proof. vm_compute. done. Qed.
