(* ===== verification/Resilient.v ===== *)
(** The client for third-party HTTP APIs
    (src/integrations/resilient_client/resilient_api_client.py): its circuit
    breaker, its configuration, and the request path with retries.

    The partner and the machine are a parameter, the class [Partner]: what each
    exchange comes to, the readings of the monotonic clock, the random numbers, the
    value of a Retry-After date, the files that exist.  An effect is numbered and
    its answer depends on the number. *)
From S2P Require Import Prelude Values Float64 FloatOrder RateLimiter ApiKey Agent.
Local Open Scope Z_scope.

(** * Exceptions *)

(** [OtherError] stands for what the code does not catch: another httpx.HTTPError, a
    body that is no JSON, a delay that is no float. *)
Inductive api_exn :=
  | AuthError
  | CircuitOpenError
  | ClientError (status_code : Z)
  | RateLimitError (retry_after_s : option float)
  | ServerError (status_code : Z) (outcome_unknown : bool)
  | RetryExhaustedError (outcome_unknown : bool)
  | OtherError.

(** * Circuit breaker *)

Inductive CircuitState := CLOSED | OPEN | HALF_OPEN.

#[global] Instance CircuitState_eq_dec : EqDecision CircuitState.
Proof. solve_decision. Defined.

Record breaker := mkBreaker {
  failure_threshold : Z;
  reset_timeout_s : float;
  br_state : CircuitState;
  consecutive_failures : Z;
  opened_at : option float;
}.

(** * Configuration *)

Record RetryConfig := mkRetryConfig {
  max_attempts : Z;
  base_delay_s : float;
  max_delay_s : float;
  jitter_s : float;
  retryable_statuses : list Z;
  retryable_methods : list string;
  max_retry_after_s : float;
}.

Record MTLSConfig := mkMTLS { cert_path : string; key_path : string; ca_bundle_path : option string }.

Record OAuth2Config := mkOAuth2 {
  token_url : string; client_id : string; client_secret : string; scope : option string; expiry_skew_s : float }.

Record ClientConfig := mkClientConfig {
  base_url : string;
  timeout_s : float;
  mtls : option MTLSConfig;
  oauth2 : option OAuth2Config;
  retry : RetryConfig;
  circuit_breaker : breaker;
  idempotency_header : string;
}.

(** [sub in s] *)
Fixpoint contains (sub s : string) : bool :=
  match after_prefix sub s with
  | Some _ => true
  | None => match s with EmptyString => false | String _ s' => contains sub s' end
  end.

Definition starts_with (p s : string) : bool := match after_prefix p s with Some _ => true | None => false end.
Definition empty (s : string) : bool := bool_decide (s = EmptyString).

Inductive config_problem :=
  | BaseUrlRequired | BaseUrlNotHttps | TimeoutNotPositive
  | CertNotFound | KeyNotFound | CaBundleNotFound
  | TokenUrlRequired | ClientIdRequired | ClientSecretRequired
  | IdempotencyHeaderEmpty
  | MaxAttemptsTooSmall | BaseDelayNotPositive | MaxDelayTooSmall
  | FailureThresholdTooSmall | ResetTimeoutNotPositive.

(** * What the client meets *)

(** A transport error before any byte was sent (ConnectError, ConnectTimeout,
    PoolTimeout), or a later one; another httpx.HTTPError; a response. *)
Inductive attempt_result :=
  | NeverSent
  | SentButBroken
  | OtherHttpError
  | Response (status_code : Z) (retry_after : option string) (content : bool) (json : bool).

(** The token endpoint: a failure (or a body that is no JSON); the fields of the
    payload it sent. *)
Inductive token_result :=
  | TokenFailed
  | TokenPayload (access_token : option string) (expires_in : option float).

Class Partner := {
  p_clock : nat → float;
  p_random : nat → float;
  p_exchange : nat → attempt_result;
  p_token : nat → token_result;
  p_date : nat → string → option float;
  p_is_file : string → bool;
  p_random_unit n : canon (p_random n) ∧ fval (p_random n) < fval fone;
}.

(** The headers of a request; dicts of the callers live in a heap. *)
Abbreviation headers := (gmap string string).

(** What the client did, latest first. *)
Inductive client_action :=
  | Attempted (h : headers) (r : attempt_result)
  | FetchedToken (r : token_result)
  | Paused (d : float).

Record client := mkClient {
  cl_step : nat;
  cl_breaker : breaker;
  cl_token : option string;
  cl_token_expiry : float;
  cl_heap : gmap nat headers;
  cl_log : list client_action;
}.

Abbreviation clM := (stM client api_exn).

Section client.
Context `{Partner}.

(** _validate_config: every problem found *)
Definition _validate_config (c : ClientConfig) : list config_problem :=
  let report (b : bool) (p : config_problem) := if b then [p] else [] in
  (if empty (base_url c) then [BaseUrlRequired]
   else report (negb (starts_with "https://" (base_url c) || contains "localhost" (base_url c) ||
                      contains "127.0.0.1" (base_url c))) BaseUrlNotHttps) ++
  report (fle (timeout_s c) fzero) TimeoutNotPositive ++
  match mtls c with
  | None => []
  | Some m =>
      report (negb (p_is_file (cert_path m))) CertNotFound ++
      report (negb (p_is_file (key_path m))) KeyNotFound ++
      match ca_bundle_path m with
      | Some p => report (negb (empty p) && negb (p_is_file p)) CaBundleNotFound
      | None => []
      end
  end ++
  match oauth2 c with
  | None => []
  | Some o =>
      report (empty (token_url o)) TokenUrlRequired ++
      report (empty (client_id o)) ClientIdRequired ++
      report (empty (client_secret o)) ClientSecretRequired
  end ++
  report (is_blank (idempotency_header c)) IdempotencyHeaderEmpty ++
  report (max_attempts (retry c) <? 1) MaxAttemptsTooSmall ++
  report (fle (base_delay_s (retry c)) fzero) BaseDelayNotPositive ++
  report (flt (max_delay_s (retry c)) (base_delay_s (retry c))) MaxDelayTooSmall ++
  report (failure_threshold (circuit_breaker c) <? 1) FailureThresholdTooSmall ++
  report (fle (reset_timeout_s (circuit_breaker c)) fzero) ResetTimeoutNotPositive.

(** ResilientAPIClient.__init__ *)
Definition new_client (c : ClientConfig) : list config_problem + client :=
  match _validate_config c with
  | [] => inr (mkClient 0 (circuit_breaker c) None fzero ∅ [])
  | problems => inl problems
  end.

(** * Effects *)

Definition cl_stepped (s : client) : client :=
  mkClient (S (cl_step s)) (cl_breaker s) (cl_token s) (cl_token_expiry s) (cl_heap s) (cl_log s).
Definition cl_noted (a : client_action) (s : client) : client :=
  mkClient (S (cl_step s)) (cl_breaker s) (cl_token s) (cl_token_expiry s) (cl_heap s) (a :: cl_log s).
Definition set_breaker (b : breaker) (s : client) : client :=
  mkClient (cl_step s) b (cl_token s) (cl_token_expiry s) (cl_heap s) (cl_log s).
Definition set_token (t : option string) (e : float) (s : client) : client :=
  mkClient (cl_step s) (cl_breaker s) t e (cl_heap s) (cl_log s).
Definition set_heap (h : gmap nat headers) (s : client) : client :=
  mkClient (cl_step s) (cl_breaker s) (cl_token s) (cl_token_expiry s) h (cl_log s).

Definition monotonic : clM float := λ s, (cl_stepped s, inr (p_clock (cl_step s))).
Definition http_request (h : headers) : clM attempt_result := λ s,
  (cl_noted (Attempted h (p_exchange (cl_step s))) s, inr (p_exchange (cl_step s))).
Definition pause (d : float) : clM unit := λ s, (cl_noted (Paused d) s, inr tt).

(** * Operations of the breaker *)

Definition set_state (x : CircuitState) (b : breaker) : breaker :=
  mkBreaker (failure_threshold b) (reset_timeout_s b) x (consecutive_failures b) (opened_at b).

(** The property [state] *)
Definition state : clM CircuitState :=
  b ← gets cl_breaker;
  match br_state b, opened_at b with
  | OPEN, Some t =>
      now ← monotonic;
      if fle (reset_timeout_s b) (fsub now t) then modify (set_breaker (set_state HALF_OPEN b)) ;; mret HALF_OPEN
      else mret OPEN
  | x, _ => mret x
  end.

Definition before_call : clM unit :=
  x ← state; if bool_decide (x = OPEN) then raise CircuitOpenError else mret tt.

Definition on_success : clM unit :=
  b ← gets cl_breaker;
  modify (set_breaker (mkBreaker (failure_threshold b) (reset_timeout_s b) CLOSED 0 None)).

Definition _trip : clM unit :=
  now ← monotonic;
  b ← gets cl_breaker;
  modify (set_breaker (mkBreaker (failure_threshold b) (reset_timeout_s b) OPEN (consecutive_failures b) (Some now))).

Definition on_failure : clM unit :=
  modify (λ s, let b := cl_breaker s in
    set_breaker (mkBreaker (failure_threshold b) (reset_timeout_s b) (br_state b) (consecutive_failures b + 1) (opened_at b)) s) ;;
  x ← state;
  if bool_decide (x = HALF_OPEN) then _trip else
  b ← gets cl_breaker;
  if failure_threshold b <=? consecutive_failures b then _trip else mret tt.

(** * Retry-After *)

(** _parse_retry_after: a number of seconds or a date, clamped *)
Definition _parse_retry_after (raw : option string) (max_retry_after : float) : clM (option float) := λ s,
  match raw with
  | None => (s, inr None)
  | Some raw =>
      if empty raw then (s, inr None) else
      match parse_float raw with
      | Some seconds => (s, inr (Some (fmax fzero (fmin seconds max_retry_after))))
      | None =>
          (cl_stepped s, inr match p_date (cl_step s) raw with
                             | Some seconds => Some (fmax fzero (fmin seconds max_retry_after))
                             | None => None
                             end)
      end
  end.

(** * Requests *)

(** _get_access_token: a new token, and the cached one while it lasts *)
Definition fetch_token (o : OAuth2Config) (now : float) : clM string :=
  (λ s, (cl_noted (FetchedToken (p_token (cl_step s))) s, inr (p_token (cl_step s)))) ≫= λ r,
  match r with
  | TokenFailed | TokenPayload None _ => raise AuthError
  | TokenPayload (Some t) expires_in =>
      if empty t then raise AuthError else
      let e := default (float_literal 300 0) expires_in in
      modify (set_token (Some t) (fadd now (fmax (fsub e (expiry_skew_s o)) fzero))) ;; mret t
  end.

Definition _get_access_token (o : OAuth2Config) : clM string :=
  now ← monotonic;
  t ← gets cl_token;
  expiry ← gets cl_token_expiry;
  match t with
  | Some t => if negb (empty t) && flt now expiry then mret t else fetch_token o now
  | None => fetch_token o now
  end.

(** [base * 2 ** (attempt - 1)]; [None] when the power is too large for a float *)
Definition backoff (cfg : RetryConfig) (attempt : Z) : option float :=
  match float_of_int (2 ^ (attempt - 1)) with
  | inr p => Some (fmin (fmul (base_delay_s cfg) p) (max_delay_s cfg))
  | inl _ => None
  end.

Definition _sleep_before_retry (attempt : Z) (cfg : RetryConfig) (retry_after_s : option float) : clM unit :=
  match retry_after_s with
  | Some d => pause d
  | None =>
      match backoff cfg attempt with
      | None => raise OtherError
      | Some d =>
          (λ s, (cl_stepped s, inr (p_random (cl_step s)))) ≫= λ r,
          pause (fadd d (fadd fzero (fmul (fsub (jitter_s cfg) fzero) r)))
      end
  end.

Definition to_upper (c : chr) : chr :=
  if (97 <=? Ascii.N_of_ascii c)%N && (Ascii.N_of_ascii c <=? 122)%N then Ascii.ascii_of_N (Ascii.N_of_ascii c - 32) else c.
Definition upper (s : string) : string := String.string_of_list_ascii (to_upper <$> String.list_ascii_of_string s).

Definition replay_safe (cfg : RetryConfig) (method : string) (idempotency_key : option string) : bool :=
  match idempotency_key with
  | Some _ => true
  | None => existsb (λ m, bool_decide (upper m = upper method)) (retryable_methods cfg)
  end.

(** The attempts [max_attempts - left + 1], ..., [max_attempts] of the loop.  The
    value is whether the response had content to return. *)
Fixpoint attempts (cfg : RetryConfig) (safe : bool) (h : headers) (left : nat) : clM bool :=
  match left with
  | O => raise (RetryExhaustedError false)
  | S left' =>
      let attempt := max_attempts cfg - Z.of_nat left' in
      let is_last_attempt := bool_decide (left' = 0%nat) in
      r ← http_request h;
      match r with
      | OtherHttpError => raise OtherError
      | NeverSent | SentButBroken =>
          let may_have_been_processed := match r with SentButBroken => true | _ => false end in
          let outcome_unknown := may_have_been_processed && negb safe in
          if is_last_attempt || outcome_unknown then
            on_failure ;; raise (RetryExhaustedError outcome_unknown)
          else _sleep_before_retry attempt cfg None ;; attempts cfg safe h left'
      | Response status_code retry_after content json =>
          if status_code <? 400 then
            on_success ;; (if content && negb json then raise OtherError else mret content)
          else if negb (existsb (Z.eqb status_code) (retryable_statuses cfg)) then raise (ClientError status_code)
          else
            let is_rate_limited := status_code =? 429 in
            let outcome_unknown := negb is_rate_limited && negb safe in
            if is_last_attempt || outcome_unknown then
              on_failure ;;
              (if is_rate_limited then
                 ra ← _parse_retry_after retry_after (max_retry_after_s cfg); raise (RateLimitError ra)
               else raise (ServerError status_code outcome_unknown))
            else
              ra ← _parse_retry_after retry_after (max_retry_after_s cfg);
              _sleep_before_retry attempt cfg ra ;;
              attempts cfg safe h left'
      end
  end.

(** [headers = kwargs.pop("headers", {}) or {}]: the caller's dict itself, unless it
    is empty or there is none; [headers[name] = value] then writes to it. *)
Definition caller_headers (at_ : option nat) : clM (option nat * headers) :=
  gets (λ s, match at_ ≫= λ l, cl_heap s !! l with
             | Some h => if bool_decide (h = ∅) then (None, ∅) else (at_, h)
             | None => (None, ∅)
             end).
Definition set_header (name value : string) (x : option nat * headers) : clM (option nat * headers) :=
  let h := <[name := value]> (x.2) in
  match x.1 with
  | Some l => modify (λ s, set_heap (<[l := h]> (cl_heap s)) s)
  | None => mret tt
  end ;;
  mret (x.1, h).

(** _request; [at_] is where the caller keeps the dict it passes as headers *)
Definition _request (c : ClientConfig) (method : string) (idempotency_key : option string) (at_ : option nat) : clM bool :=
  before_call ;;
  h0 ← caller_headers at_;
  h1 ← match oauth2 c with
       | Some o => t ← _get_access_token o; set_header "Authorization" ("Bearer " +:+ t) h0
       | None => mret h0
       end;
  h2 ← match idempotency_key with
       | Some k => set_header (idempotency_header c) k h1
       | None => mret h1
       end;
  attempts (retry c) (replay_safe (retry c) method idempotency_key) (h2.2) (Z.to_nat (max_attempts (retry c))).
End client.

(** * Replays *)

Definition tries (l : list client_action) : list attempt_result :=
  omap (λ a, match a with Attempted _ r => Some r | _ => None end) l.

(** The partner cannot have acted on the request, or has declined it. *)
Definition declined (r : attempt_result) : bool :=
  match r with
  | NeverSent => true
  | Response code _ _ _ => code =? 429
  | _ => false
  end.

(** The partner may or may not have acted: a connection that broke after the
    request was sent, a retryable status other than 429. *)
Definition ambiguous (cfg : RetryConfig) (r : attempt_result) : bool :=
  match r with
  | SentButBroken => true
  | Response code _ _ _ => negb (code <? 400) && existsb (Z.eqb code) (retryable_statuses cfg) && negb (code =? 429)
  | _ => false
  end.

(** The flag [outcome_unknown] of an exception *)
Definition outcome_unknown (e : api_exn) : bool :=
  match e with ServerError _ b | RetryExhaustedError b => b | _ => false end.

Definition result_of {A} (out : api_exn + A) : option api_exn := match out with inl e => Some e | inr _ => None end.

(** What the attempts add to the log. *)
Record replayed (cfg : RetryConfig) (safe : bool) (h : headers) (left : nat) (l : list client_action)
    (e : option api_exn) : Prop := mkReplayed {
  rp_bound : (length (tries l) ≤ left)%nat;
  rp_headers h' r : Attempted h' r ∈ l → h' = h;
  rp_declined : safe = false → Forall (λ r, declined r = true) (tail (tries l));
  rp_flag x : e = Some x →
    outcome_unknown x = negb safe && match head (tries l) with Some r => ambiguous cfg r | None => false end;
}.

Lemma tries_app l l' : tries (l ++ l') = tries l ++ tries l'.
Proof. apply omap_app. Qed.

(** An attempt that is followed by others. *)
Lemma replayed_more cfg safe h left l e r d :
  replayed cfg safe h left l e → (safe = false → declined r = true) → (safe = false → ambiguous cfg r = false) →
  replayed cfg safe h (S left) (l ++ [Paused d; Attempted h r]) e.
Proof.
  intros [Hb Hh Hd Hf] Hr Ha. split; rewrite ?tries_app; cbn [tries omap list_omap].
  - rewrite length_app. cbn. lia.
  - intros h' r' [Hin|Hin]%elem_of_app; [by eapply Hh|].
    apply elem_of_cons in Hin as [[=]|Hin]. apply list_elem_of_singleton in Hin. congruence.
  - intros Hs. specialize (Hd Hs). specialize (Hr Hs). destruct (tries l) as [|r0 rs]; cbn in *; [done|].
    apply Forall_app. split; [done|]. by constructor.
  - intros x Hx. rewrite (Hf x Hx). destruct (tries l) as [|r0 rs]; cbn; [|done].
    destruct safe; cbn; [done|]. by rewrite Ha.
Qed.

Lemma replayed_one cfg safe h left l e r :
  tries l = [r] → (∀ h' r', Attempted h' r' ∈ l → h' = h) →
  (∀ x, e = Some x → outcome_unknown x = negb safe && ambiguous cfg r) →
  replayed cfg safe h (S left) l e.
Proof. intros El Hh Hf. split; rewrite ?El; cbn; [lia|done|done|done]. Qed.

Section replay.
Context `{Partner} (cfg : RetryConfig) (safe : bool) (h : headers).

Definition ends_replayed (left : nat) (s : client) (e : option api_exn) (s' : client) : Prop :=
  ∃ l, cl_log s' = l ++ cl_log s ∧ replayed cfg safe h left l e.

(** The breaker and the parsing of headers write nothing to the log. *)
Lemma wp_state s (Q : CircuitState → client → Prop) (R : api_exn → client → Prop) :
  (∀ s' x, cl_log s' = cl_log s → Q x s') → wp state Q R s.
Proof using.
  intros HQ. unfold state. apply wp_bind. unfold gets, wp at 1.
  destruct (br_state (cl_breaker s)); try by apply HQ. destruct (opened_at (cl_breaker s)); [|by apply HQ].
  apply wp_bind. unfold wp at 1, monotonic. destruct (fle _ _); by apply HQ.
Qed.

Lemma wp_on_failure s (Q : unit → client → Prop) (R : api_exn → client → Prop) :
  (∀ s', cl_log s' = cl_log s → Q tt s') → wp on_failure Q R s.
Proof using.
  intros HQ. unfold on_failure. apply wp_bind. unfold modify at 1, wp at 1. apply wp_bind, wp_state. intros s1 x Hl.
  destruct (bool_decide _); [by apply HQ|]. apply wp_bind. unfold gets, wp at 1. destruct (_ <=? _); by apply HQ.
Qed.

Lemma parse_retry_after_log raw m s :
  ∃ n o, _parse_retry_after raw m s = (mkClient n (cl_breaker s) (cl_token s) (cl_token_expiry s) (cl_heap s) (cl_log s), inr o).
Proof using.
  unfold _parse_retry_after. destruct raw as [raw|]; [|exists (cl_step s); eexists; by destruct s].
  destruct (empty raw); [exists (cl_step s); eexists; by destruct s|].
  destruct (parse_float raw); [exists (cl_step s); eexists; by destruct s|]. by eexists _, _.
Qed.

(** A pause, if the delay can be computed. *)
Lemma sleep_log attempt ra s (Q : unit → client → Prop) (R : api_exn → client → Prop) :
  (∀ s' d, cl_log s' = Paused d :: cl_log s → cl_breaker s' = cl_breaker s → Q tt s') →
  (R OtherError s) → wp (_sleep_before_retry attempt cfg ra) Q R s.
Proof using.
  intros HQ HR. unfold _sleep_before_retry. destruct ra as [d|]; [by eapply HQ|].
  destruct (backoff cfg attempt) as [d|]; [|done]. by eapply HQ.
Qed.

Lemma attempts_replayed left s :
  wp (attempts cfg safe h left) (λ _, ends_replayed left s None) (λ e, ends_replayed left s (Some e)) s.
Proof using.
  revert s. induction left as [|left IH]; intros s.
  { exists []. split; [done|]. split; cbn; [lia|by intros ? ? ?%elem_of_nil|done|]. intros x [= <-]. by rewrite andb_false_r. }
  cbn [attempts]. apply wp_bind. unfold wp at 1, http_request. set (r := p_exchange (cl_step s)).
  assert (∀ s' e, cl_log s' = Attempted h r :: cl_log s →
    (∀ x, e = Some x → outcome_unknown x = negb safe && ambiguous cfg r) → ends_replayed (S left) s e s') as Hone.
  { intros s' e Hl Hf. exists [Attempted h r]. split; [done|]. eapply (replayed_one _ _ _ _ _ _ r); [done| |done].
    intros h' r' Hin. apply list_elem_of_singleton in Hin. congruence. }
  assert (∀ s', (∃ d, cl_log s' = Paused d :: Attempted h r :: cl_log s) → (safe = false → declined r = true ∧ ambiguous cfg r = false) →
    wp (attempts cfg safe h left) (λ _, ends_replayed (S left) s None) (λ e, ends_replayed (S left) s (Some e)) s') as Hmore.
  { intros s' (d & Hl) Hr. assert (∀ e s'', ends_replayed left s' e s'' → ends_replayed (S left) s e s'') as Hstep.
    { intros e s'' (l & El & Hl'). exists (l ++ [Paused d; Attempted h r]). split; [by rewrite El, Hl, <- app_assoc|].
      by apply replayed_more; [done|apply Hr..]. }
    eapply wp_mono; [apply IH|intros; by apply Hstep..]. }
  assert (∀ s1 attempt ra, cl_log s1 = Attempted h r :: cl_log s → (safe = false → declined r = true ∧ ambiguous cfg r = false) →
    ambiguous cfg r = false ∨ safe = true →
    wp (_sleep_before_retry attempt cfg ra ;; attempts cfg safe h left)
      (λ _, ends_replayed (S left) s None) (λ e, ends_replayed (S left) s (Some e)) s1) as Hagain.
  { intros s1 attempt ra Hl Hr Ha. apply wp_bind. apply sleep_log.
    - intros s' d Hl' _. apply Hmore; [|done]. exists d. by rewrite Hl', Hl.
    - apply Hone; [done|]. intros x [= <-]. destruct Ha as [-> | ->]; [by rewrite andb_false_r|done]. }
  clearbody r. destruct r as [| | |code ra content json].
  - destruct (bool_decide _); cbn -[attempts on_failure _sleep_before_retry].
    + apply wp_bind, wp_on_failure. intros s' Hl. apply Hone; [done|]. intros x [= <-]. by rewrite andb_false_r.
    + apply Hagain; [done|done|by left].
  - destruct safe; cbn [andb negb orb] in *.
    + destruct (bool_decide _); cbn -[attempts on_failure _sleep_before_retry].
      * apply wp_bind, wp_on_failure. intros s' Hl. apply Hone; [done|]. by intros x [= <-].
      * apply Hagain; [done|done|by right].
    + rewrite orb_true_r. apply wp_bind, wp_on_failure. intros s' Hl. apply Hone; [done|]. by intros x [= <-].
  - apply Hone; [done|]. intros x [= <-]. by rewrite andb_false_r.
  - cbn [ambiguous declined] in *. destruct (code <? 400) eqn:E400; cbn [andb negb] in *.
    { apply wp_bind. unfold wp at 1, on_success. cbn. destruct (content && negb json).
      - apply Hone; [done|]. intros x [= <-]. by rewrite andb_false_r.
      - by apply Hone. }
    destruct (existsb _ _) eqn:Ere; cbn [andb negb] in *; [|apply Hone; [done|]; intros x [= <-]; by rewrite andb_false_r].
    destruct (bool_decide _ || _) eqn:Estop.
    + apply wp_bind, wp_on_failure. intros s' Hl. destruct (code =? 429) eqn:E429; cbn [negb andb].
      * apply wp_bind. unfold wp at 1. destruct (parse_retry_after_log ra (max_retry_after_s cfg) s') as (n & o & ->).
        apply Hone; [done|]. intros x [= <-]. by rewrite andb_false_r.
      * apply Hone; [done|]. intros x [= <-]. cbn. by rewrite andb_true_r.
    + apply orb_false_iff in Estop as [_ Eu]. apply wp_bind. unfold wp at 1.
      match goal with |- context [_parse_retry_after ra ?m ?s1] => destruct (parse_retry_after_log ra m s1) as (n & o & ->) end.
      apply Hagain; [done| |].
      * intros Hs. rewrite Hs in Eu. by destruct (code =? 429).
      * destruct (code =? 429); [by left|]. by destruct safe; [right|].
Qed.
End replay.

Section requests.
Context `{Partner} (c : ClientConfig) (method : string) (key : option string) (at_ : option nat).

Let safe : bool := replay_safe (retry c) method key.
Let bound : nat := Z.to_nat (max_attempts (retry c)).

Definition request_log (s : client) (e : option api_exn) (s' : client) : Prop :=
  ∃ l h, cl_log s' = l ++ cl_log s ∧ replayed (retry c) safe h bound l e ∧
    (∀ k, key = Some k → tries l ≠ [] → h !! idempotency_header c = Some k).

(** Before the first attempt. *)
Definition no_attempt (s s' : client) : Prop := ∃ l, cl_log s' = l ++ cl_log s ∧ ∀ a, a ∈ l → ∃ r, a = FetchedToken r.

Lemma fetched_tries l : (∀ a, a ∈ l → ∃ r, a = FetchedToken r) → tries l = [] ∧ ∀ h r, Attempted h r ∉ l.
Proof using.
  intros Hl. split; [|by intros h r [? [=]]%Hl]. induction l as [|a l IH]; [done|].
  destruct (Hl a) as [r ->]; [left|]. apply IH. intros a Ha. apply Hl. by right.
Qed.

Lemma no_attempt_request s s' e :
  no_attempt s s' → outcome_unknown e = false → request_log s (Some e) s'.
Proof using.
  intros (l & E & Hl) He. destruct (fetched_tries l Hl) as [Ht Hn]. exists l, ∅. split; [done|]. split; [|by rewrite Ht].
  split; rewrite ?Ht; cbn; [lia| |done|intros x [= <-]; by rewrite andb_false_r, He]. intros h' r Hin. by apply Hn in Hin.
Qed.

Lemma set_header_spec name value x s (Q : option nat * headers → client → Prop) (R : api_exn → client → Prop) :
  (∀ s' y, cl_log s' = cl_log s → y.2 = <[name := value]> (x.2) → Q y s') → wp (set_header name value x) Q R s.
Proof using.
  intros HQ. unfold set_header. apply wp_bind. destruct (x.1); [unfold modify, wp at 1|unfold wp at 1]; by apply HQ.
Qed.

Lemma wp_caller_headers s (Q : option nat * headers → client → Prop) (R : api_exn → client → Prop) :
  (∀ x, Q x s) → wp (caller_headers at_) Q R s.
Proof using. intros HQ. apply HQ. Qed.

Lemma get_access_token_log o s :
  wp (_get_access_token o) (λ _, no_attempt s) (λ e s', no_attempt s s' ∧ outcome_unknown e = false) s.
Proof using.
  assert (∀ s' r, cl_log s' = FetchedToken r :: cl_log s → no_attempt s s') as Hfetch.
  { intros s' r E. exists [FetchedToken r]. split; [done|]. intros a Ha. apply list_elem_of_singleton in Ha. eauto. }
  assert (∀ now, wp (fetch_token o now) (λ _, no_attempt s) (λ e s', no_attempt s s' ∧ outcome_unknown e = false) (cl_stepped s)) as Hget.
  { intros now. apply wp_bind. unfold wp at 1. cbn [cl_step cl_stepped].
    destruct (p_token (S (cl_step s))) as [|[t|] ei] eqn:Et; [by split; [eapply Hfetch|]| |by split; [eapply Hfetch|]].
    destruct (empty t); [by split; [eapply Hfetch|]|]. by eapply Hfetch. }
  unfold _get_access_token. apply wp_bind. unfold wp at 1, monotonic. apply wp_bind. unfold gets, wp at 1. apply wp_bind. unfold wp at 1.
  cbn [cl_token cl_token_expiry cl_stepped]. destruct (cl_token s) as [t|]; [|exact (Hget _)].
  destruct (negb (empty t) && _); [|exact (Hget _)]. exists []. split; [done|by intros ? ?%elem_of_nil].
Qed.

(** A call that gets through the breaker, the token and the headers makes its
    attempts; nothing was sent before. *)
Lemma request_wp s (Q : bool → client → Prop) (R : api_exn → client → Prop) :
  (∀ e s', no_attempt s s' → outcome_unknown e = false → R e s') →
  (∀ h s', no_attempt s s' → (∀ k, key = Some k → h !! idempotency_header c = Some k) → wp (attempts (retry c) safe h bound) Q R s') →
  wp (_request c method key at_) Q R s.
Proof using.
  intros HR HQ.
  assert (∀ s', cl_log s' = cl_log s → no_attempt s s') as Hsame by (intros s' E; exists []; split; [done|by intros ? ?%elem_of_nil]).
  unfold _request. apply wp_bind. unfold before_call. apply wp_bind, wp_state. intros s1 x E1.
  destruct (bool_decide _); [by apply HR; [apply Hsame|]|]. apply wp_ret.
  apply wp_bind, wp_caller_headers. intros h0.
  apply wp_bind. apply (wp_mono _ _ (λ _, no_attempt s) _ R); [|clear h0|done].
  { destruct (oauth2 c) as [o|]; [|by apply Hsame]. apply wp_bind. eapply wp_mono; [apply get_access_token_log|..].
    - intros t s2 (l & E2 & Hl). apply set_header_spec. intros s3 y E3 _. exists l. by rewrite E3, E2, E1.
    - intros e s2 [(l & E2 & Hl) He]. apply HR; [|done]. exists l. by rewrite E2, E1. }
  intros h1 s2 (l2 & E2 & Hl2).
  apply wp_bind. apply (wp_mono _ _ (λ h s3, cl_log s3 = cl_log s2 ∧ ∀ k, key = Some k → h.2 !! idempotency_header c = Some k)
    _ (λ _ _, False)); [|clear h1|done].
  { destruct key as [k|]; [|by split]. apply set_header_spec. intros s3 y E3 Ey. split; [done|].
    intros k' [= <-]. by rewrite Ey, lookup_insert_eq. }
  intros h2 s3 [E3 Hk]. apply HQ; [|done]. exists l2. by rewrite E3, E2.
Qed.

Lemma request_replayed s :
  wp (_request c method key at_) (λ _, request_log s None) (λ e, request_log s (Some e)) s.
Proof using.
  apply request_wp; [intros; by apply no_attempt_request|]. intros h s3 (l2 & E3 & Hl2) Hk.
  destruct (fetched_tries l2 Hl2) as [Ht2 Hn2].
  assert (∀ e s4, ends_replayed (retry c) safe h bound s3 e s4 → request_log s e s4) as Hend.
  { intros e s4 (l & E4 & [Hb Hh Hd Hf]). exists (l ++ l2), h. split; [by rewrite E4, E3, app_assoc|]. split; [|by eauto].
    split; rewrite ?tries_app, ?Ht2, ?app_nil_r; [done| |done|done].
    intros h' r [Hin|Hin]%elem_of_app; [by eapply Hh|]. by apply Hn2 in Hin. }
  eapply wp_mono; [apply attempts_replayed|intros; by apply Hend..].
Qed.

End requests.

(** Nothing is replayed that must not be.  Whatever the partner answers, a call
    makes at most [max_attempts] attempts, all with the same headers, and with the
    caller's idempotency key if there is one.  Unless the method is idempotent or
    such a key is sent, every attempt but the last was declined with 429 or never
    left the client, so the partner acts on the request at most once.  And the
    exception says [outcome_unknown] exactly when the last attempt left it open
    whether the partner acted, on a request that could not be replayed. *)
Theorem replays_are_safe `{Partner} c method key at_ s :
  let '(s', out) := _request c method key at_ s in
  ∃ l h, cl_log s' = l ++ cl_log s ∧
    replayed (retry c) (replay_safe (retry c) method key) h (Z.to_nat (max_attempts (retry c))) l (result_of out) ∧
    (∀ k, key = Some k → tries l ≠ [] → h !! idempotency_header c = Some k).
Proof.
  pose proof (request_replayed c method key at_ s) as Hr. unfold wp in Hr.
  by destruct (_request c method key at_ s) as [s' [e|a]].
Qed.

(** * The breaker *)

Definition breaker_ok (b : breaker) : Prop :=
  1 <= failure_threshold b ∧
  match br_state b with
  | CLOSED => 0 <= consecutive_failures b < failure_threshold b
  | OPEN => failure_threshold b <= consecutive_failures b ∧ is_Some (opened_at b)
  | HALF_OPEN => failure_threshold b <= consecutive_failures b
  end.

(** The breaker is open and its timeout has not passed. *)
Definition still_open (b : breaker) (now : float) : bool :=
  match br_state b, opened_at b with
  | OPEN, Some t => negb (fle (reset_timeout_s b) (fsub now t))
  | _, _ => false
  end.

(** The breaker of a call that is let through, after a success, after a failure
    noticed at [t]. *)
Definition admitting (b : breaker) : breaker := if bool_decide (br_state b = OPEN) then set_state HALF_OPEN b else b.
Definition closed (b : breaker) : breaker := mkBreaker (failure_threshold b) (reset_timeout_s b) Resilient.CLOSED 0 None.
Definition failed (b : breaker) (t : float) : breaker :=
  let n := consecutive_failures b + 1 in
  if bool_decide (br_state b = CLOSED) && (n <? failure_threshold b)
  then mkBreaker (failure_threshold b) (reset_timeout_s b) CLOSED n (opened_at b)
  else mkBreaker (failure_threshold b) (reset_timeout_s b) OPEN n (Some t).

(** What an exception says about the breaker. *)
Definition breaker_after (b : breaker) (e : api_exn) (b' : breaker) : Prop :=
  match e with
  | RateLimitError _ | ServerError _ _ | RetryExhaustedError _ => ∃ t, b' = failed b t
  | ClientError _ | AuthError => b' = b
  | OtherError => b' = b ∨ b' = closed b
  | CircuitOpenError => False
  end.

Lemma breaker_ok_admitting b : breaker_ok b → breaker_ok (admitting b).
Proof. intros [H1 H2]. unfold admitting. case_bool_decide as E; [|done]. rewrite E in H2. by split; [|apply H2]. Qed.

Lemma breaker_ok_closed b : breaker_ok b → breaker_ok (closed b).
Proof. intros [H1 _]. split; cbn; lia. Qed.

Lemma breaker_ok_failed b t : br_state b ≠ OPEN → breaker_ok b → breaker_ok (failed b t).
Proof.
  intros Ho [H1 H2]. unfold failed. case_bool_decide as E; cbn.
  - rewrite E in H2. destruct (Z.ltb_spec (consecutive_failures b + 1) (failure_threshold b)); split; cbn; eauto; lia.
  - split; cbn; [done|]. split; [|by eauto]. destruct (br_state b); try done. lia.
Qed.

Lemma breaker_ok_after b e b' :
  br_state b ≠ OPEN → breaker_ok b → breaker_after b e b' → breaker_ok b'.
Proof.
  intros Ho Hb He. destruct e; cbn in He; try done; try (subst; done).
  - destruct He as [t ->]. by apply breaker_ok_failed.
  - destruct He as [t ->]. by apply breaker_ok_failed.
  - destruct He as [t ->]. by apply breaker_ok_failed.
  - destruct He as [-> | ->]; [done|by apply breaker_ok_closed].
Qed.

Section breaker.
Context `{Partner}.

Lemma on_failure_breaker s (Q : unit → client → Prop) (R : api_exn → client → Prop) :
  br_state (cl_breaker s) ≠ OPEN →
  (∀ s' t, cl_breaker s' = failed (cl_breaker s) t → Q tt s') → wp on_failure Q R s.
Proof.
  intros Ho HQ. unfold on_failure. apply wp_bind. unfold modify at 1, wp at 1. apply wp_bind. unfold state.
  apply wp_bind. unfold gets at 1, wp at 1. cbn [cl_breaker set_breaker br_state opened_at].
  unfold failed in HQ. destruct (br_state (cl_breaker s)) eqn:Es; [|done|].
  - cbn. apply wp_bind. unfold gets, wp at 1. cbn [cl_breaker set_breaker failure_threshold consecutive_failures].
    destruct (Z.leb_spec (failure_threshold (cl_breaker s)) (consecutive_failures (cl_breaker s) + 1)) as [Hle|Hgt].
    + eapply (HQ _ (p_clock (cl_step s))). cbn. by rewrite (proj2 (Z.ltb_ge _ _)).
    + eapply (HQ _ fzero). cbn. by rewrite (proj2 (Z.ltb_lt _ _)).
  - by eapply (HQ _ (p_clock (cl_step s))).
Qed.

Lemma attempts_breaker cfg safe h left s :
  br_state (cl_breaker s) ≠ OPEN → (1 ≤ left)%nat →
  wp (attempts cfg safe h left)
    (λ _ s', cl_breaker s' = closed (cl_breaker s)) (λ e s', breaker_after (cl_breaker s) e (cl_breaker s')) s.
Proof.
  remember (cl_breaker s) as b eqn:Eb. intros Ho. revert s Eb.
  induction left as [|left IH]; intros s Eb Hleft; [lia|]. cbn [attempts]. apply wp_bind. unfold wp at 1, http_request.
  set (s1 := cl_noted _ s). assert (cl_breaker s1 = b) as E1 by done.
  assert (∀ {A} (k : clM A) s0, cl_breaker s0 = b →
    (∀ s' t, cl_breaker s' = failed b t → wp k (λ _ s', cl_breaker s' = closed b) (λ e s', breaker_after b e (cl_breaker s')) s') →
    wp (on_failure ;; k) (λ _ s', cl_breaker s' = closed b) (λ e s', breaker_after b e (cl_breaker s')) s0) as Hfail.
  { intros A k s0 E0 Hk. apply wp_bind. apply on_failure_breaker; rewrite E0; [done|exact Hk]. }
  assert (∀ s0 attempt ra, cl_breaker s0 = b → left ≠ 0%nat →
    wp (_sleep_before_retry attempt cfg ra ;; attempts cfg safe h left)
      (λ _ s', cl_breaker s' = closed b) (λ e s', breaker_after b e (cl_breaker s')) s0) as Hagain.
  { intros s0 attempt ra E0 Hl. apply wp_bind, sleep_log; [|by left]. intros s' d _ E'. apply IH; [congruence|lia]. }
  clearbody s1. destruct (p_exchange (cl_step s)) as [| | |code ra content json].
  - destruct (_ || _) eqn:El; [|apply Hagain; [done|]; apply orb_false_iff in El as [El _]; by apply bool_decide_eq_false in El].
    apply Hfail; [done|]. intros s' t E'. by exists t.
  - destruct (_ || _) eqn:El; [|apply Hagain; [done|]; apply orb_false_iff in El as [El _]; by apply bool_decide_eq_false in El].
    apply Hfail; [done|]. intros s' t E'. by exists t.
  - by left.
  - destruct (code <? 400).
    { unfold on_success. apply wp_bind, wp_bind. unfold gets, wp at 1. rewrite E1. unfold modify, wp at 1.
      destruct (content && _); [by right|done]. }
    destruct (negb _); [done|]. destruct (_ || _) eqn:El.
    + apply Hfail; [done|]. intros s' t E'. destruct (code =? 429); [|by exists t].
      apply wp_bind. unfold wp at 1. destruct (parse_retry_after_log ra (max_retry_after_s cfg) s') as (n & o & ->). by exists t.
    + apply wp_bind. unfold wp at 1. destruct (parse_retry_after_log ra (max_retry_after_s cfg) s1) as (n & o & ->).
      apply Hagain; [done|]. apply orb_false_iff in El as [El _]. by apply bool_decide_eq_false in El.
Qed.
End breaker.

Section breaker_requests.
Context `{Partner}.

Lemma get_access_token_breaker o s :
  wp (_get_access_token o) (λ _ s', cl_breaker s' = cl_breaker s) (λ e s', e = AuthError ∧ cl_breaker s' = cl_breaker s) s.
Proof.
  assert (∀ now, wp (fetch_token o now) (λ _ s', cl_breaker s' = cl_breaker s)
    (λ e s', e = AuthError ∧ cl_breaker s' = cl_breaker s) (cl_stepped s)) as Hget.
  { intros now. apply wp_bind. unfold wp at 1. destruct (p_token _) as [|[t|] ei]; try done. by destruct (empty t). }
  unfold _get_access_token. apply wp_bind. unfold wp at 1, monotonic. apply wp_bind. unfold gets, wp at 1. apply wp_bind. unfold wp at 1.
  cbn [cl_token cl_token_expiry cl_stepped].
  destruct (cl_token s) as [t|]; [|exact (Hget _)]. destruct (negb (empty t) && _); [done|exact (Hget _)].
Qed.

Lemma set_header_breaker name value x s (R : api_exn → client → Prop) :
  wp (set_header name value x) (λ _ s', cl_breaker s' = cl_breaker s) R s.
Proof. unfold set_header. apply wp_bind. by destruct (x.1). Qed.

(** Who gets past the breaker. *)
Lemma before_call_breaker s :
  breaker_ok (cl_breaker s) →
  wp before_call
    (λ _ s', still_open (cl_breaker s) (p_clock (cl_step s)) = false ∧ cl_breaker s' = admitting (cl_breaker s) ∧ cl_log s' = cl_log s)
    (λ e s', still_open (cl_breaker s) (p_clock (cl_step s)) = true ∧ e = CircuitOpenError ∧ cl_breaker s' = cl_breaker s ∧ cl_log s' = cl_log s) s.
Proof.
  intros [_ Hb]. unfold before_call, state, still_open, admitting. apply wp_bind, wp_bind. unfold gets, wp at 1.
  destruct (br_state (cl_breaker s)) eqn:Es; [by unfold wp; cbn| |by unfold wp; cbn].
  destruct Hb as [_ [t Ht]]. rewrite Ht. apply wp_bind. unfold wp at 1, monotonic.
  destruct (fle _ _); by unfold wp; cbn.
Qed.

Lemma request_breaker c method key at_ s :
  1 <= max_attempts (retry c) → breaker_ok (cl_breaker s) →
  wp (_request c method key at_)
    (λ _ s', still_open (cl_breaker s) (p_clock (cl_step s)) = false ∧ cl_breaker s' = closed (admitting (cl_breaker s)))
    (λ e s', if still_open (cl_breaker s) (p_clock (cl_step s))
             then e = CircuitOpenError ∧ cl_breaker s' = cl_breaker s ∧ cl_log s' = cl_log s
             else breaker_after (admitting (cl_breaker s)) e (cl_breaker s')) s.
Proof.
  intros Hm Hb. unfold _request. apply wp_bind. eapply wp_mono; [by apply before_call_breaker| |].
  2:{ intros e s' (-> & ? & ? & ?). done. }
  intros [] s1 (-> & E1 & _).
  assert (br_state (admitting (cl_breaker s)) ≠ OPEN) as Ho by (unfold admitting; by case_bool_decide).
  set (b := admitting (cl_breaker s)) in *. clearbody b.
  apply wp_bind, wp_caller_headers. intros h0. apply wp_bind.
  apply (wp_mono _ _ (λ _ s', cl_breaker s' = b) _ (λ e s', breaker_after b e (cl_breaker s'))); [|clear h0|done].
  { destruct (oauth2 c) as [o|]; [|done]. apply wp_bind. eapply wp_mono; [apply get_access_token_breaker|..].
    - intros t s2 E2. rewrite E1 in E2. rewrite <- E2. apply set_header_breaker.
    - intros e s2 [-> E2]. cbn. congruence. }
  intros h1 s2 E2. apply wp_bind. apply (wp_mono _ _ (λ _ s', cl_breaker s' = b) _ (λ _ _, False)); [|clear h1|done].
  { destruct key as [k|]; [|done]. rewrite <- E2. apply set_header_breaker. }
  intros h2 s3 <-. eapply wp_mono; [apply attempts_breaker; [done|lia]|done|done].
Qed.
End breaker_requests.

Lemma valid_attempts `{Partner} c : _validate_config c = [] → 1 <= max_attempts (retry c).
Proof.
  unfold _validate_config. intros Hv. repeat (apply app_eq_nil in Hv as [? Hv]).
  destruct (Z.ltb_spec (max_attempts (retry c)) 1); done.
Qed.

(** C31: The circuit breaker does its work.  For a valid configuration and any
    breaker in order, a call leaves the breaker in order.  While the breaker is open
    and its timeout has not passed, the call fails at once: nothing is sent and
    nothing changes.  Otherwise the call is let through, on trial if the breaker was
    open: a success closes the breaker and clears its count; a failure of the partner
    adds one to the count and opens it when the count reaches the threshold or the
    call was a trial; a mistake of the client (4xx) and a failed authentication leave
    it as it is. *)
Theorem circuit_breaker_protects `{Partner} c method key at_ s :
  _validate_config c = [] → breaker_ok (cl_breaker s) →
  let b := cl_breaker s in
  let '(s', out) := _request c method key at_ s in
  breaker_ok (cl_breaker s') ∧
  if still_open b (p_clock (cl_step s)) then
    out = inl CircuitOpenError ∧ cl_breaker s' = b ∧ cl_log s' = cl_log s
  else
    match out with
    | inr _ => cl_breaker s' = closed b
    | inl e => breaker_after (admitting b) e (cl_breaker s')
    end.
Proof.
  intros Hv Hb. pose proof (request_breaker c method key at_ s (valid_attempts c Hv) Hb) as Hr. cbn zeta. unfold wp in Hr.
  assert (br_state (admitting (cl_breaker s)) ≠ OPEN) as Ho by (unfold admitting; by case_bool_decide).
  pose proof (breaker_ok_admitting _ Hb) as Ha.
  destruct (_request c method key at_ s) as [s' [e|a]].
  - destruct (still_open _ _); [destruct Hr as (-> & -> & ?); done|]. split; [|done]. by eapply breaker_ok_after.
  - destruct Hr as [-> ->]. assert (closed (admitting (cl_breaker s)) = closed (cl_breaker s)) as ->; [|by split; [apply breaker_ok_closed|]].
    unfold admitting. by destruct (bool_decide _).
Qed.

(** * A partner that breaks every connection *)

Definition broken_partner : Partner.
Proof.
  refine {| p_clock _ := fone; p_random _ := fzero; p_exchange _ := SentButBroken; p_token _ := TokenFailed;
            p_date _ _ := None; p_is_file _ := false |}.
  by vm_compute.
Defined.

(** The defaults of the source, with a threshold of two. *)
Definition default_retry : RetryConfig :=
  mkRetryConfig 4 (float_literal 5 (-1)) (float_literal 8 0) (float_literal 25 (-2)) [429; 500; 502; 503; 504]
    ["GET"; "HEAD"; "OPTIONS"; "PUT"; "DELETE"]%string (float_literal 60 0).
Definition default_config : ClientConfig :=
  mkClientConfig "https://api.example-partner.com" (float_literal 10 0) None None default_retry
    (mkBreaker 2 (float_literal 30 0) CLOSED 0 None) "Idempotency-Key".

(** One failure is on the count; a POST whose connection breaks opens the breaker,
    with its outcome unknown; the next call sends nothing. *)
Definition shaken : client := mkClient 0 (mkBreaker 2 (float_literal 30 0) CLOSED 1 None) None fzero ∅ [].

Lemma circuit_breaker_protects_witness :
  let '(s1, out1) := _request (H := broken_partner) default_config "POST" None None shaken in
  let '(s2, out2) := _request (H := broken_partner) default_config "POST" None None s1 in
  out1 = inl (RetryExhaustedError true) ∧ br_state (cl_breaker s1) = OPEN ∧
  breaker_ok (cl_breaker s2) ∧ out2 = inl CircuitOpenError ∧ cl_log s2 = cl_log s1.
Proof.
  assert (_validate_config (H := broken_partner) default_config = []) as Hv by (vm_compute; reflexivity).
  pose proof (@circuit_breaker_protects broken_partner default_config "POST" None None shaken Hv ltac:(by vm_compute)) as H1.
  assert ((_request (H := broken_partner) default_config "POST" None None shaken).2 = inl (RetryExhaustedError true)) as E1
    by (vm_compute; reflexivity).
  assert (still_open (cl_breaker (_request (H := broken_partner) default_config "POST" None None shaken).1)
    (p_clock (Partner := broken_partner) (cl_step (_request (H := broken_partner) default_config "POST" None None shaken).1)) = true)
    as Eo by (vm_compute; reflexivity).
  assert (br_state (cl_breaker (_request (H := broken_partner) default_config "POST" None None shaken).1) = OPEN) as Es
    by (vm_compute; reflexivity).
  destruct (_request (H := broken_partner) default_config "POST" None None shaken) as [s1 out1]. cbn [fst snd] in *.
  pose proof (@circuit_breaker_protects broken_partner default_config "POST" None None s1 Hv (proj1 H1)) as H2. cbn zeta in H2.
  rewrite Eo in H2. destruct (_request (H := broken_partner) default_config "POST" None None s1) as [s2 out2].
  destruct H2 as (H2 & H3 & _ & H4). by split_and!.
Defined.

(** A caller keeps the headers of its requests in one dict.  A POST with the
    idempotency key "k1" writes the key into that dict; the next POST, for which no
    key was given, sends "k1" again. *)
Definition tracing : client := mkClient 0 (circuit_breaker default_config) None fzero {[0%nat := {["X-Trace" := "t"]}]} [].

Lemma shared_headers_keep_key :
  let s1 := (_request (H := broken_partner) default_config "POST" (Some "k1"%string) (Some 0%nat) tracing).1 in
  let s2 := (_request (H := broken_partner) default_config "POST" None (Some 0%nat) s1).1 in
  replay_safe default_retry "POST" None = false ∧
  option_map (λ a, match a with Attempted h _ => h !! "Idempotency-Key"%string | _ => None end) (head (cl_log s2)) = Some (Some "k1"%string).
Proof. by vm_compute. Qed.
