(* ===== verification/Text.v ===== *)
(** Values as text, the way the SQLite repositories store them: identifiers
    ([str] of a UUID and [UUID(...)]), the members of JobStatus, and
    [json.dumps]/[json.loads] of a list of strings and of a dict from strings to
    strings.  Dates are in Calendar.v.

    An encoding is an instance of [Codec]: a writer, a reader, the values it is for,
    and the law that reading inverts writing. *)
From Stdlib Require Import Strings.Ascii.
From S2P Require Import Prelude Values ApiKey.
Local Open Scope Z_scope.

(** * Encodings *)

Class Codec (A : Type) := mkCodec {
  enc : A → string;
  dec : string → option A;
  enc_ok : A → Prop;
  dec_enc a : enc_ok a → dec (enc a) = Some a;
}.
Global Opaque dec_enc.

Lemma enc_inj `{Codec A} a b : enc_ok a → enc_ok b → enc a = enc b → a = b.
Proof. intros Ha Hb He. apply (inj Some). by rewrite <- (dec_enc a), <- (dec_enc b), He. Qed.

(** A column that may be NULL. *)
Definition enc_opt `{Codec A} (o : option A) : option string := enc <$> o.
Definition dec_opt `{Codec A} (o : option string) : option (option A) :=
  match o with None => Some None | Some s => Some <$> dec s end.
Definition opt_ok `{Codec A} (o : option A) : Prop := from_option enc_ok True o.

Lemma dec_enc_opt `{Codec A} (o : option A) : opt_ok o → dec_opt (enc_opt o) = Some o.
Proof. destruct o as [a|]; cbn; [|done]. intros Ha. by rewrite dec_enc. Qed.

(** * Strings *)

Definition code (c : chr) : N := Ascii.N_of_ascii c.
Definition chr_of (n : N) : chr := Ascii.ascii_of_N n.
Definition one (c : chr) : string := String c EmptyString.

Fixpoint all_chars (P : chr → bool) (s : string) : bool :=
  match s with EmptyString => true | String c s' => P c && all_chars P s' end.

Lemma append_cons c (s t : string) : String c s +:+ t = String c (s +:+ t).
Proof. reflexivity. Qed.

Lemma append_nil_l (t : string) : EmptyString +:+ t = t.
Proof. reflexivity. Qed.

Lemma all_chars_app P s t : all_chars P (s +:+ t) = all_chars P s && all_chars P t.
Proof. induction s as [|c s IH]; [done|]. rewrite append_cons. cbn. by rewrite IH, andb_assoc. Qed.

Lemma all_chars_mono (P Q : chr → bool) s : (∀ c, P c = true → Q c = true) → all_chars P s = true → all_chars Q s = true.
Proof.
  intros HPQ. induction s as [|c s IH]; cbn; [done|]. intros [Hc Hs]%andb_prop. by rewrite (HPQ c Hc), IH.
Qed.

Lemma append_assoc (s t u : string) : (s +:+ t) +:+ u = s +:+ (t +:+ u).
Proof. induction s as [|c s IH]; [done|]. rewrite !append_cons. by cbn; rewrite IH. Qed.

Lemma append_nil_r (s : string) : s +:+ EmptyString = s.
Proof. induction s as [|c s IH]; [done|]. rewrite !append_cons. by cbn; rewrite IH. Qed.

Lemma length_append (s t : string) : String.length (s +:+ t) = (String.length s + String.length t)%nat.
Proof. induction s as [|c s IH]; [done|]. rewrite !append_cons. by cbn; rewrite IH. Qed.

(** [s.replace(p, "")] for a pattern that is not empty *)
Fixpoint remove_all (fuel : nat) (p s : string) : string :=
  match fuel with
  | O => s
  | S fuel =>
      match after_prefix p s with
      | Some t => remove_all fuel p t
      | None => match s with EmptyString => EmptyString | String c s' => String c (remove_all fuel p s') end
      end
  end.
Definition replace_empty (p s : string) : string := remove_all (S (String.length s)) p s.

Lemma replace_empty_id c p s : all_chars (λ x, negb (bool_decide (x = c))) s = true → replace_empty (String c p) s = s.
Proof.
  intros Hs. unfold replace_empty. generalize (S (String.length s)) as fuel. intros fuel. revert s Hs.
  induction fuel as [|fuel IH]; intros s Hs; [done|]. cbn [remove_all]. destruct s as [|x s]; [done|].
  cbn in Hs. apply andb_prop in Hs as [Hx Hs]. case_bool_decide as Hxc; [done|].
  cbn [after_prefix]. rewrite bool_decide_eq_false_2 by congruence. by rewrite IH.
Qed.

(** * Numbers in a base up to sixteen *)

Definition digit_char (d : Z) : chr := chr_of (Z.to_N (if d <? 10 then 48 + d else 87 + d)).

Definition digit_of (c : chr) : option Z :=
  let n := Z.of_N (code c) in
  if (48 <=? n) && (n <=? 57) then Some (n - 48)
  else if (97 <=? n) && (n <=? 102) then Some (n - 87)
  else if (65 <=? n) && (n <=? 70) then Some (n - 55)
  else None.

(** The last [w] digits of [n], most significant first. *)
Fixpoint num (b : Z) (w : nat) (n : Z) : string :=
  match w with
  | O => EmptyString
  | S w' => String (digit_char (n / b ^ Z.of_nat w' mod b)) (num b w' n)
  end.

Fixpoint read_num (b : Z) (w : nat) (acc : Z) (s : string) : option (Z * string) :=
  match w with
  | O => Some (acc, s)
  | S w' =>
      match s with
      | EmptyString => None
      | String c s' =>
          match digit_of c with
          | Some d => if d <? b then read_num b w' (acc * b + d) s' else None
          | None => None
          end
      end
  end.

Lemma digit_of_char d : 0 <= d < 16 → digit_of (digit_char d) = Some d.
Proof.
  intros Hd. assert (d ∈ Z.of_nat <$> seq 0 16) as Hin.
  { apply list_elem_of_fmap. exists (Z.to_nat d). split; [lia|]. apply elem_of_seq. lia. }
  revert Hin. generalize d. clear. apply Forall_forall. repeat constructor.
Qed.

Definition is_hex (c : chr) : bool := match digit_of c with Some _ => true | None => false end.

Section numbers.
Context (b : Z) (Hb : 2 <= b <= 16).

Lemma num_digit n k : 0 <= n / k mod b < 16.
Proof using Hb. pose proof (Z.mod_pos_bound (n / k) b ltac:(lia)). lia. Qed.

Lemma pow_b k : 0 < b ^ Z.of_nat k.
Proof using Hb. apply Z.pow_pos_nonneg; lia. Qed.

Lemma mod_digits w n : n mod b ^ Z.of_nat (S w) = (n / b ^ Z.of_nat w mod b) * b ^ Z.of_nat w + n mod b ^ Z.of_nat w.
Proof using Hb.
  pose proof (pow_b w). rewrite Nat2Z.inj_succ, Z.pow_succ_r, Z.mul_comm by lia.
  rewrite Z.rem_mul_r by lia. lia.
Qed.

Lemma read_num_num w acc n rest :
  read_num b w acc (num b w n +:+ rest) = Some (acc * b ^ Z.of_nat w + n mod b ^ Z.of_nat w, rest).
Proof using Hb.
  revert acc. induction w as [|w IH]; intros acc.
  { cbn. rewrite Z.mod_1_r. f_equal. f_equal. lia. }
  cbn [num]. rewrite append_cons. cbn [read_num]. rewrite digit_of_char by apply num_digit.
  rewrite (proj2 (Z.ltb_lt _ _)) by (apply Z.mod_pos_bound; lia). rewrite IH, mod_digits.
  f_equal. f_equal. rewrite Nat2Z.inj_succ, Z.pow_succ_r by lia. ring.
Qed.

Lemma num_app w1 w2 n : num b (w1 + w2) n = num b w1 (n / b ^ Z.of_nat w2) +:+ num b w2 n.
Proof using Hb.
  induction w1 as [|w1 IH]; [done|]. cbn [num Nat.add]. rewrite append_cons, IH. f_equal. f_equal.
  rewrite Z.div_div by (pose proof (pow_b w1); pose proof (pow_b w2); lia). rewrite <- Z.pow_add_r by lia.
  do 3 f_equal. lia.
Qed.

Lemma num_hex w n : all_chars is_hex (num b w n) = true.
Proof using Hb.
  induction w as [|w IH]; [done|]. cbn. unfold is_hex at 1. by rewrite digit_of_char, IH by apply num_digit.
Qed.

Lemma num_length w n : String.length (num b w n) = w.
Proof using. induction w; cbn; congruence. Qed.

Lemma digit_compare d d' : 0 <= d < 16 → 0 <= d' < 16 → Ascii.compare (digit_char d) (digit_char d') = (d ?= d').
Proof using.
  intros Hd Hd'. assert (∀ x, 0 <= x < 16 → x ∈ Z.of_nat <$> seq 0 16) as Hin.
  { intros x Hx. apply list_elem_of_fmap. exists (Z.to_nat x). split; [lia|]. apply elem_of_seq. lia. }
  apply Hin in Hd, Hd'. revert d' Hd'. revert d Hd. clear.
  assert (Forall (λ d, Forall (λ d', Ascii.compare (digit_char d) (digit_char d') = (d ?= d')) (Z.of_nat <$> seq 0 16)) (Z.of_nat <$> seq 0 16)) as HF
    by (repeat constructor).
  intros d Hd d' Hd'. rewrite Forall_forall in HF. specialize (HF d Hd). rewrite Forall_forall in HF. by apply HF.
Qed.

(** Text of one width is ordered as the numbers are. *)
Lemma compare_num w n n' s s' :
  String.compare (num b w n +:+ s) (num b w n' +:+ s') =
  match n mod b ^ Z.of_nat w ?= n' mod b ^ Z.of_nat w with Eq => String.compare s s' | c => c end.
Proof using Hb.
  induction w as [|w IH]; [cbn; by rewrite !Z.mod_1_r|].
  cbn [num]. rewrite !append_cons. cbn [String.compare]. rewrite digit_compare by apply num_digit. rewrite IH, !mod_digits.
  pose proof (Z.mod_pos_bound n (b ^ Z.of_nat w) (pow_b w)). pose proof (Z.mod_pos_bound n' (b ^ Z.of_nat w) (pow_b w)).
  set (q := n / _ mod b) in *. set (q' := n' / _ mod b) in *.
  destruct (Z.compare_spec q q') as [->|Hlt|Hlt].
  - by rewrite Z.add_compare_mono_l.
  - symmetry. rewrite (proj2 (Z.compare_lt_iff _ _)); [done|]. nia.
  - symmetry. rewrite (proj2 (Z.compare_gt_iff _ _)); [done|]. nia.
Qed.
End numbers.

(** * Identifiers *)

Definition dash : chr := "-"%char.

(** [str(UUID(int=n))] *)
Definition str_uuid (u : N) : string :=
  let n := Z.of_N u in
  num 16 8 (n / 16 ^ 24) +:+ String dash (num 16 4 (n / 16 ^ 20) +:+ String dash (num 16 4 (n / 16 ^ 16) +:+
  String dash (num 16 4 (n / 16 ^ 12) +:+ String dash (num 16 12 n)))).

(** [s.strip("{}")] and [s.replace("-", "")] *)
Definition is_brace (c : chr) : bool := bool_decide (c = "{"%char) || bool_decide (c = "}"%char).
Fixpoint lstrip_braces (s : string) : string :=
  match s with String c s' => if is_brace c then lstrip_braces s' else s | EmptyString => EmptyString end.
Fixpoint rstrip_braces (s : string) : string :=
  match s with
  | EmptyString => EmptyString
  | String c s' =>
      match rstrip_braces s' with
      | EmptyString => if is_brace c then EmptyString else one c
      | t => String c t
      end
  end.
Fixpoint remove_dashes (s : string) : string :=
  match s with
  | EmptyString => EmptyString
  | String c s' => if bool_decide (c = dash) then remove_dashes s' else String c (remove_dashes s')
  end.

(** [int(s, 16)] of a text without dashes: white space around it, a plus sign, a
    prefix 0x and single underscores between digits are allowed. *)
Fixpoint hex_digits (acc : Z) (after_digit : bool) (s : string) : option Z :=
  match s with
  | EmptyString => if after_digit then Some acc else None
  | String c s' =>
      match digit_of c with
      | Some d => hex_digits (acc * 16 + d) true s'
      | None => if after_digit && bool_decide (c = "_"%char) then hex_digits acc false s' else None
      end
  end.
Definition int16 (s : string) : option Z :=
  let s1 := strip s in
  let s2 := match s1 with String c t => if bool_decide (c = "+"%char) then t else s1 | EmptyString => s1 end in
  let prefixed t := match t with String c u => if bool_decide (c = "_"%char) then u else t | EmptyString => t end in
  hex_digits 0 false
    (match after_prefix "0x" s2 with
     | Some t => prefixed t
     | None => match after_prefix "0X" s2 with Some t => prefixed t | None => s2 end
     end).

(** [UUID(s)]; [None] for a ValueError *)
Definition UUID (s : string) : option N :=
  let hex := remove_dashes (rstrip_braces (lstrip_braces (replace_empty "uuid:" (replace_empty "urn:" s)))) in
  if (String.length hex =? 32)%nat then Z.to_N <$> int16 hex else None.

Lemma remove_dashes_app s t : remove_dashes (s +:+ t) = remove_dashes s +:+ remove_dashes t.
Proof. induction s as [|c s IH]; [done|]. rewrite append_cons. cbn. rewrite IH. by case_bool_decide. Qed.

Lemma remove_dashes_id s : all_chars (λ c, negb (bool_decide (c = dash))) s = true → remove_dashes s = s.
Proof. induction s as [|c s IH]; cbn; [done|]. case_bool_decide; cbn; [done|]. intros. by rewrite IH. Qed.

Lemma strip_braces_id s : all_chars (λ c, negb (is_brace c)) s = true → rstrip_braces (lstrip_braces s) = s.
Proof.
  intros Hs. replace (lstrip_braces s) with s by (destruct s as [|c s]; [done|]; cbn in *; by destruct (is_brace c)).
  induction s as [|c s IH]; [done|]. cbn in *. apply andb_prop in Hs as [Hc Hs]. rewrite (IH Hs).
  destruct s; [|done]. by destruct (is_brace c).
Qed.

Lemma hex_not (P : chr → bool) : (∀ c, P c = true → is_hex c = false) → ∀ s, all_chars is_hex s = true → all_chars (λ c, negb (P c)) s = true.
Proof.
  intros HP s. apply all_chars_mono. intros c Hc. destruct (P c) eqn:E; [|done]. apply HP in E. congruence.
Qed.

Lemma hex_digits_num w n acc b : (0 < w)%nat ∨ b = true →
  hex_digits acc b (num 16 w n) = Some (acc * 16 ^ Z.of_nat w + n mod 16 ^ Z.of_nat w).
Proof.
  revert acc b. induction w as [|w IH]; intros acc b Hw.
  { destruct Hw as [Hw|Hw]; [lia|subst b]. cbn. rewrite Z.mod_1_r. f_equal. lia. }
  cbn [num hex_digits]. rewrite digit_of_char by (apply num_digit; lia). rewrite IH by auto. rewrite (mod_digits 16 ltac:(lia)).
  f_equal. rewrite Nat2Z.inj_succ, Z.pow_succ_r by lia. ring.
Qed.

(** The characters of an identifier. *)
Definition id_char (c : chr) : bool := is_hex c || bool_decide (c = dash).

Lemma str_uuid_chars u : all_chars id_char (str_uuid u) = true.
Proof.
  assert (∀ w n, all_chars id_char (num 16 w n) = true) as Hn.
  { intros w n. eapply all_chars_mono, num_hex; [|lia]. intros c Hc. unfold id_char. by rewrite Hc. }
  unfold str_uuid. cbn zeta. rewrite !all_chars_app. cbn [all_chars]. rewrite !all_chars_app. cbn [all_chars].
  rewrite !all_chars_app. cbn [all_chars]. rewrite !all_chars_app. cbn [all_chars]. by rewrite !Hn.
Qed.

Lemma str_uuid_hex u : remove_dashes (str_uuid u) = num 16 32 (Z.of_N u).
Proof.
  assert (∀ w n, remove_dashes (num 16 w n) = num 16 w n) as Hn.
  { intros w n. apply remove_dashes_id, hex_not; [|apply num_hex; lia]. intros c Hc. by apply bool_decide_eq_true in Hc as ->. }
  unfold str_uuid. cbn zeta. rewrite !remove_dashes_app. cbn [remove_dashes dash]. rewrite bool_decide_eq_true_2 by done.
  rewrite !remove_dashes_app. cbn [remove_dashes dash]. rewrite bool_decide_eq_true_2 by done.
  rewrite !remove_dashes_app. cbn [remove_dashes dash]. rewrite bool_decide_eq_true_2 by done.
  rewrite !remove_dashes_app. cbn [remove_dashes dash]. rewrite bool_decide_eq_true_2 by done. rewrite !Hn.
  change 32%nat with (8 + 24)%nat. rewrite num_app by lia. f_equal. change 24%nat with (4 + 20)%nat. rewrite num_app by lia. f_equal.
  change 20%nat with (4 + 16)%nat. rewrite num_app by lia. f_equal. change 16%nat with (4 + 12)%nat. by rewrite num_app by lia.
Qed.

Lemma strip_hex s : all_chars is_hex s = true → strip s = s.
Proof.
  intros Hs. apply strip_no_space. induction s as [|c t IH]; [done|]. cbn in *. apply andb_prop in Hs as [Hc Ht].
  rewrite (IH Ht), andb_true_r. unfold is_hex, digit_of, code in Hc. unfold is_space.
  destruct ((48 <=? _) && _) eqn:E1; [|destruct ((97 <=? _) && _) eqn:E2; [|destruct ((65 <=? _) && _) eqn:E3; [|done]]];
    repeat match goal with E : _ && _ = true |- _ => apply andb_prop in E as [?%Z.leb_le ?%Z.leb_le] end;
    apply negb_true_iff, not_true_iff_false; rewrite !orb_true_iff, !andb_true_iff, !N.leb_le, !N.eqb_eq; lia.
Qed.

Lemma int16_num w n : (0 < w)%nat → int16 (num 16 w n) = Some (n mod 16 ^ Z.of_nat w).
Proof.
  intros Hw. pose proof (num_hex 16 ltac:(lia) w n) as Hh. unfold int16. rewrite strip_hex by done.
  pose proof (hex_digits_num w n 0 false ltac:(auto)) as Hd. rewrite Z.mul_0_l, Z.add_0_l in Hd. rewrite <- Hd. clear Hd. revert Hh. generalize (num 16 w n) as s. intros s Hs. clear Hw.
  assert (∀ c t, s = String c t → is_hex c = true ∧ all_chars is_hex t = true) as Hcons by (intros c t ->; by apply andb_prop in Hs).
  assert (match s with String c t => if bool_decide (c = "+"%char) then t else s | EmptyString => s end = s) as ->.
  { destruct s as [|c t]; [done|]. case_bool_decide as E; [|done]. subst c. by destruct (Hcons _ _ eq_refl). }
  assert (∀ x, is_hex x = false → after_prefix (String "0" (one x)) s = None) as Hp.
  { intros x Hx. destruct s as [|c t]; [done|]. destruct (Hcons _ _ eq_refl) as [_ Ht]. cbn. case_bool_decide; [|done].
    destruct t as [|c' t]; [done|]. cbn. case_bool_decide; [|done]. subst c'. cbn in Ht. by rewrite Hx in Ht. }
  change ("0x"%string) with (String "0" (one "x"%char)). change ("0X"%string) with (String "0" (one "X"%char)). by rewrite !Hp.
Qed.

Definition uuid_ok (u : N) : Prop := (u < 2 ^ 128)%N.

Lemma UUID_str u : uuid_ok u → UUID (str_uuid u) = Some u.
Proof.
  intros Hu. pose proof (str_uuid_chars u) as Hc.
  assert (∀ P : chr → bool, (∀ c, P c = true → id_char c = false) → all_chars (λ c, negb (P c)) (str_uuid u) = true) as Hno.
  { intros P HP. eapply all_chars_mono, Hc. intros c Hi. destruct (P c) eqn:E; [|done]. apply HP in E. congruence. }
  unfold UUID. cbn zeta. rewrite (replace_empty_id "u"%char "rn:"), (replace_empty_id "u"%char "uid:"), strip_braces_id, str_uuid_hex.
  - rewrite num_length. cbn [Nat.eqb]. rewrite int16_num by lia. cbn [fmap option_fmap option_map]. f_equal.
    unfold uuid_ok in Hu. rewrite Z.mod_small; [lia|]. split; [lia|]. change (16 ^ Z.of_nat 32) with (Z.of_N (2 ^ 128)). lia.
  - apply Hno. intros c [E|E]%orb_prop; apply bool_decide_eq_true in E; by subst.
  - apply (Hno (λ c, bool_decide (c = "u"%char))). intros c E. apply bool_decide_eq_true in E. by subst.
  - apply (Hno (λ c, bool_decide (c = "u"%char))). intros c E. apply bool_decide_eq_true in E. by subst.
Qed.

#[global] Instance uuid_codec : Codec N := mkCodec _ str_uuid UUID uuid_ok UUID_str.

(** An identifier class wraps a UUID. *)
Program Definition wrapped_codec {A} (wrap : N → A) (unwrap : A → N) (Hw : ∀ a, wrap (unwrap a) = a) : Codec A :=
  mkCodec A (λ a, str_uuid (unwrap a)) (λ s, wrap <$> UUID s) (λ a, uuid_ok (unwrap a)) _.
Next Obligation. intros A wrap unwrap Hw a Ha. cbn. rewrite UUID_str by done. cbn. by rewrite Hw. Qed.

#[global] Instance JobId_codec : Codec JobId := wrapped_codec mkJobId job_uuid ltac:(by intros []).
#[global] Instance NodeId_codec : Codec NodeId := wrapped_codec mkNodeId node_uuid ltac:(by intros []).
#[global] Instance TenantId_codec : Codec TenantId := wrapped_codec mkTenantId tenant_uuid ltac:(by intros []).
#[global] Instance EventId_codec : Codec EventId := wrapped_codec mkEventId event_uuid ltac:(by intros []).

(** * JobStatus, a StrEnum *)

Definition status_text (s : JobStatus) : string :=
  match s with
  | SUBMITTED => "SUBMITTED" | QUEUED => "QUEUED" | SCHEDULED => "SCHEDULED" | RUNNING => "RUNNING"
  | CANCELLING => "CANCELLING" | COMPLETED => "COMPLETED" | FAILED => "FAILED" | CANCELLED => "CANCELLED"
  end.
Definition status_of (t : string) : option JobStatus :=
  head (filter (λ s, status_text s = t) [SUBMITTED; QUEUED; SCHEDULED; RUNNING; CANCELLING; COMPLETED; FAILED; CANCELLED]).

Lemma status_of_text s : True → status_of (status_text s) = Some s.
Proof. by destruct s. Qed.

#[global] Instance JobStatus_codec : Codec JobStatus := mkCodec _ status_text status_of (λ _, True) status_of_text.

(** * JSON *)

Definition quote : chr := chr_of 34.
Definition backslash : chr := chr_of 92.

(** What [json.dumps] writes for a character: printable ASCII as it is, short escapes,
    and \uXXXX for the rest. *)
Definition escape (c : chr) : string :=
  let n := code c in
  if (n =? 34)%N then String backslash (one quote)
  else if (n =? 92)%N then String backslash (one backslash)
  else if (n =? 10)%N then String backslash "n"
  else if (n =? 13)%N then String backslash "r"
  else if (n =? 9)%N then String backslash "t"
  else if (n =? 8)%N then String backslash "b"
  else if (n =? 12)%N then String backslash "f"
  else if ((32 <=? n) && (n <=? 126))%N then one c
  else String backslash (String "u" (num 16 4 (Z.of_N n))).

Fixpoint escape_all (s : string) : string :=
  match s with EmptyString => EmptyString | String c s' => escape c +:+ escape_all s' end.

Definition json_string (s : string) : string := String quote (escape_all s +:+ one quote).

Fixpoint join (sep : string) (l : list string) : string :=
  match l with
  | [] => EmptyString
  | [x] => x
  | x :: l' => x +:+ sep +:+ join sep l'
  end.

Definition dumps_list (l : list string) : string := "["%string +:+ join ", " (json_string <$> l) +:+ "]".
Definition json_pair (kv : string * string) : string := json_string kv.1 +:+ ": " +:+ json_string kv.2.

(** The items of a dict in the order of [map_to_list]: a [gmap] does not keep the order
    of insertion, and what is read back does not depend on it ([loads_items]). *)
Definition dumps_items (l : list (string * string)) : string := "{"%string +:+ join ", " (json_pair <$> l) +:+ "}".
Definition dumps_dict (m : gmap string string) : string := dumps_items (map_to_list m).

(** [json.loads], for the shapes the columns hold.  The text of a string up to its
    closing quote, with what follows; a code point of 256 or more has no
    representation here. *)
Fixpoint scan_string (s : string) : option (string * string) :=
  match s with
  | EmptyString => None
  | String c s1 =>
      let and_then (x : chr) (t : option (string * string)) := (λ p, (String x p.1, p.2)) <$> t in
      if (code c =? 34)%N then Some (EmptyString, s1)
      else if (code c <? 32)%N then None
      else if negb (code c =? 92)%N then and_then c (scan_string s1)
      else
        match s1 with
        | EmptyString => None
        | String e s2 =>
            let n := code e in
            if (n =? 34)%N then and_then quote (scan_string s2)
            else if (n =? 92)%N then and_then backslash (scan_string s2)
            else if (n =? 47)%N then and_then e (scan_string s2)
            else if (n =? 98)%N then and_then (chr_of 8) (scan_string s2)
            else if (n =? 102)%N then and_then (chr_of 12) (scan_string s2)
            else if (n =? 110)%N then and_then (chr_of 10) (scan_string s2)
            else if (n =? 114)%N then and_then (chr_of 13) (scan_string s2)
            else if (n =? 116)%N then and_then (chr_of 9) (scan_string s2)
            else if (n =? 117)%N then
              match s2 with
              | String h1 (String h2 (String h3 (String h4 s3))) =>
                  match digit_of h1, digit_of h2, digit_of h3, digit_of h4 with
                  | Some 0, Some 0, Some a, Some b => and_then (chr_of (Z.to_N (16 * a + b))) (scan_string s3)
                  | _, _, _, _ => None
                  end
              | _ => None
              end
            else None
        end
  end.

(** White space between tokens *)
Definition json_space (c : chr) : bool := ((code c =? 32) || (code c =? 9) || (code c =? 10) || (code c =? 13))%N.
Fixpoint skip (s : string) : string :=
  match s with String c s' => if json_space c then skip s' else s | EmptyString => EmptyString end.

(** One token that is the character [c] *)
Definition expect (c : chr) (s : string) : option string :=
  match s with String x t => if bool_decide (x = c) then Some t else None | EmptyString => None end.

Definition scan_quoted (s : string) : option (string * string) := t ← expect quote s; scan_string t.

Definition scan_pair (s : string) : option ((string * string) * string) :=
  '(k, s1) ← scan_quoted s;
  s2 ← expect ":"%char (skip s1);
  '(v, s3) ← scan_quoted (skip s2);
  Some ((k, v), s3).

(** The items up to the closing bracket; each takes a character at least, so a fuel of
    the length of the text is enough. *)
Fixpoint scan_items {A} (scan : string → option (A * string)) (close : chr) (fuel : nat) (s : string) : option (list A * string) :=
  match fuel with
  | O => None
  | S fuel =>
      '(a, s1) ← scan s;
      match expect close (skip s1) with
      | Some s2 => Some ([a], s2)
      | None =>
          s2 ← expect ","%char (skip s1);
          '(l, s3) ← scan_items scan close fuel (skip s2);
          Some (a :: l, s3)
      end
  end.

Definition loads {A} (scan : string → option (A * string)) (opening close : chr) (s : string) : option (list A) :=
  s1 ← expect opening (skip s);
  '(l, rest) ← match expect close (skip s1) with
               | Some s2 => Some ([], s2)
               | None => scan_items scan close (String.length s) (skip s1)
               end;
  match skip rest with EmptyString => Some l | String _ _ => None end.

Definition loads_list (s : string) : option (list string) := loads scan_quoted "["%char "]"%char s.
(** A later item wins over an earlier one with its key. *)
Definition loads_dict (s : string) : option (gmap string string) :=
  (λ l, list_to_map (rev l)) <$> loads scan_pair "{"%char "}"%char s.

Lemma scan_escape c t : scan_string (escape c +:+ t) = (λ p, (String c p.1, p.2)) <$> scan_string t.
Proof. destruct c as [[] [] [] [] [] [] [] []]; reflexivity. Qed.

Lemma scan_json_string s r : scan_quoted (json_string s +:+ r) = Some (s, r).
Proof.
  unfold scan_quoted, json_string. rewrite append_cons, append_assoc. cbn [expect].
  rewrite bool_decide_eq_true_2 by done. cbn [mbind option_bind].
  induction s as [|c s IH]; [done|]. cbn [escape_all]. by rewrite append_assoc, scan_escape, IH.
Qed.

Lemma scan_json_pair kv r : scan_pair (json_pair kv +:+ r) = Some (kv, r).
Proof.
  destruct kv as [k v]. unfold scan_pair, json_pair. cbn [fst snd]. rewrite !append_assoc, scan_json_string.
  cbn [mbind option_bind]. change (": " +:+ json_string v +:+ r) with (String ":" (String " " (json_string v +:+ r))).
  cbn [skip]. change (json_space ":") with false. cbn [expect]. rewrite bool_decide_eq_true_2 by done. cbn [mbind option_bind skip].
  change (json_space " ") with true. cbn [skip]. replace (skip (json_string v +:+ r)) with (json_string v +:+ r) by reflexivity.
  by rewrite scan_json_string.
Qed.

Lemma join_cons sep x y l : join sep (x :: y :: l) = x +:+ sep +:+ join sep (y :: l).
Proof. reflexivity. Qed.

Section items.
Context {A : Type} (pr : A → string) (scan : string → option (A * string)) (opening close : chr).
Context (Hscan : ∀ a r, scan (pr a +:+ r) = Some (a, r)).
Context (Hfirst : ∀ a, ∃ t, pr a = String quote t) (Hopen : json_space opening = false).
Context (Hclose : json_space close = false) (Hcomma : close ≠ ","%char) (Hquote : close ≠ quote).

Lemma skip_item a r : skip (pr a +:+ r) = pr a +:+ r.
Proof using Hfirst. destruct (Hfirst a) as [t ->]. reflexivity. Qed.

Lemma expect_close r : expect close (skip (String close r)) = Some r.
Proof using Hclose. cbn. rewrite Hclose. cbn. by rewrite bool_decide_eq_true_2. Qed.

Lemma scan_items_join l fuel r : l ≠ [] → (length l ≤ fuel)%nat →
  scan_items scan close fuel (join ", " (pr <$> l) +:+ String close r) = Some (l, r).
Proof using Hscan Hfirst Hclose Hcomma.
  revert fuel. induction l as [|a l IH]; intros fuel Hl Hf; [done|]. destruct fuel as [|fuel]; [cbn in Hf; lia|].
  cbn [scan_items]. destruct l as [|a' l].
  - cbn [fmap list_fmap join]. rewrite Hscan. cbn [mbind option_bind]. by rewrite expect_close.
  - rewrite !fmap_cons, join_cons, !append_assoc, Hscan. cbn [mbind option_bind]. rewrite <- fmap_cons in *.
    set (rest := join ", " _ +:+ _) in *. change (", " +:+ rest) with (String "," (String " " rest)).
    cbn [skip]. change (json_space ",") with false. cbn [expect]. rewrite bool_decide_eq_false_2 by done.
    rewrite bool_decide_eq_true_2 by done. cbn [mbind option_bind skip]. change (json_space " ") with true. cbn [skip].
    assert (skip rest = rest) as ->.
    { unfold rest. destruct l; [apply skip_item|]. rewrite !fmap_cons, join_cons, !append_assoc. apply skip_item. }
    unfold rest. by rewrite IH by (done || (cbn in *; lia)).
Qed.

Lemma join_length l : (length l ≤ String.length (join ", " (pr <$> l)))%nat.
Proof using Hfirst.
  induction l as [|a l IH]; [done|]. destruct (Hfirst a) as [t Ht].
  destruct l as [|a' l]; [cbn; rewrite Ht; cbn; lia|].
  rewrite !fmap_cons, join_cons, <- fmap_cons, !length_append, Ht. cbn [length String.length] in *. lia.
Qed.

Lemma loads_dumps l : loads scan opening close (one opening +:+ join ", " (pr <$> l) +:+ one close) = Some l.
Proof using Hscan Hfirst Hopen Hclose Hcomma Hquote.
  unfold loads, one. rewrite append_cons, append_nil_l. cbn [skip]. rewrite Hopen. cbn [expect]. rewrite bool_decide_eq_true_2 by done.
  cbn [mbind option_bind]. destruct l as [|a l].
  - cbn [fmap list_fmap join]. rewrite append_nil_l, expect_close. done.
  - assert (skip (join ", " (pr <$> a :: l) +:+ String close EmptyString) = join ", " (pr <$> a :: l) +:+ String close EmptyString) as ->.
    { destruct l; [apply skip_item|]. rewrite !fmap_cons, join_cons, !append_assoc. apply skip_item. }
    assert (expect close (join ", " (pr <$> a :: l) +:+ String close EmptyString) = None) as ->.
    { destruct (Hfirst a) as [t Ht]. destruct l; rewrite ?fmap_cons, ?join_cons; cbn [fmap list_fmap join]; rewrite Ht, !append_cons; cbn [expect];
        by rewrite bool_decide_eq_false_2. }
    rewrite scan_items_join; [done..|]. pose proof (join_length (a :: l)). cbn [String.length]. rewrite length_append. lia.
Qed.
End items.

Lemma loads_dumps_list (l : list string) : True → loads_list (dumps_list l) = Some l.
Proof.
  intros _. unfold loads_list, dumps_list. apply (loads_dumps json_string); try done.
  - intros. apply scan_json_string.
  - intros a. by eexists.
Qed.

(** The order in which the items were written does not matter. *)
Lemma loads_items l (m : gmap string string) : l ≡ₚ map_to_list m → loads_dict (dumps_items l) = Some m.
Proof.
  intros Hl. unfold loads_dict, dumps_items. change "{"%string with (one "{"%char). change "}"%string with (one "}"%char).
  rewrite (loads_dumps json_pair); try done.
  - cbn. f_equal. rewrite <- (list_to_map_to_list m). apply list_to_map_proper.
    + rewrite Permutation_rev_l, Hl || (rewrite <- Permutation_rev, Hl); apply NoDup_fst_map_to_list.
    + by rewrite <- Permutation_rev, Hl.
  - intros. apply scan_json_pair.
  - intros [k v]. by eexists.
Qed.

Lemma loads_dumps_dict (m : gmap string string) : True → loads_dict (dumps_dict m) = Some m.
Proof. intros _. by apply loads_items. Qed.

#[global] Instance list_codec : Codec (list string) := mkCodec _ dumps_list loads_list (λ _, True) loads_dumps_list.
#[global] Instance dict_codec : Codec (gmap string string) := mkCodec _ dumps_dict loads_dict (λ _, True) loads_dumps_dict.
