(* ===== verification/Routes.v ===== *)
(** From the text of a request to a handler (src/app/presentation/routers): the paths of
    the routers, the identifiers in them and in the bodies, and what happens when
    they do not parse.

    A request is its method, the segments of its path (none is empty) and its body, which
    is JSON if there is one, as the request model reads it, with UUID fields still as
    text.  How the models of pydantic read a UUID is the parameter [body_uuid].  The
    probes and documents outside the routers (/, /health, /livez) are in
    [Startup] and [Pipeline]. *)
From S2P Require Import Prelude Values Job Node ApiKey Worker Db Prog Repos Keys Services Http Frame Cluster Invariant Tenancy System Server Access Text.
Local Open Scope Z_scope.

Class BodyUuid := {
  body_uuid : string → option N;
  body_uuid_str u : uuid_ok u → body_uuid (str_uuid u) = Some u;
}.

Inductive method := GET | POST | DELETE | OTHER.

Inductive payload :=
  | NoPayload
  | CreateJobRequest (cpu_cores memory_mib vram_mib : Z) (command : option (list string))
  | CreateNodeRequest (cpu_cores memory_mib vram_mib : Z) (name : option string)
  | CreateWorkerRequest (node_id managed_by : string)
  | ReportJobOutcomeRequest (exit_code : option Z) (lease_id : string)
  | RenewLeaseRequest (lease_id : string)
  | CreateApiKeyRequest (label : string).

Record request := mkRequest { q_method : method; q_path : list string; q_payload : payload }.

(** What a request comes to before a service is called: no such path; a path without
    that method; an exception; the history of a text that is no identifier as the
    events store it; a call of a handler. *)
Inductive parsed := NoRoute | WrongMethod | Refused (e : exn) | NoHistory | Routed (r : route).

(** * Identifiers *)

(** [UUID(text)] in the routers of jobs, nodes and API keys: nothing catches its
    ValueError. *)
Definition badly_formed : exn := ValueError "badly formed hexadecimal UUID string".
Definition uncaught {A} (wrap : N → A) (text : string) (k : A → parsed) : parsed :=
  match UUID text with Some u => k (wrap u) | None => Refused badly_formed end.

(** The router of workers answers 422. *)
Definition malformed_422 {A} (wrap : N → A) (text : string) (k : A → parsed) : parsed :=
  match UUID text with Some u => k (wrap u) | None => Refused (HTTPException 422) end.

(** A UUID field of a body. *)
Definition lease_field `{BodyUuid} (text : string) (k : LeaseId → parsed) : parsed :=
  match body_uuid text with Some u => k (mkLeaseId u) | None => Refused (HTTPException 422) end.

(** A body that is not what the model asks for. *)
Definition invalid_body : parsed := Refused (HTTPException 422).

(** The history is looked up by the text itself. *)
Definition history_of (text : string) : parsed :=
  match UUID text with
  | Some u => if bool_decide (str_uuid u = text) then Routed (GetJobHistory (mkJobId u)) else NoHistory
  | None => NoHistory
  end.

(** * The routers *)

Definition jobs_router (m : method) (path : list string) (p : payload) : parsed :=
  match path with
  | [] =>
      match m with
      | POST => match p with CreateJobRequest c mm v command => Routed (PostJobs c mm v command) | _ => invalid_body end
      | GET => Routed GetJobs
      | _ => WrongMethod
      end
  | [x] =>
      match m with
      | GET => if bool_decide (x = "queued"%string) then Routed GetQueuedJobs else uncaught mkJobId x (λ j, Routed (GetJob j))
      | _ => WrongMethod
      end
  | [x; y] =>
      if bool_decide (y = "history"%string) then match m with GET => history_of x | _ => WrongMethod end
      else if bool_decide (y = "cancel"%string) then match m with POST => uncaught mkJobId x (λ j, Routed (PostJobCancel j)) | _ => WrongMethod end
      else if bool_decide (y = "retry"%string) then match m with POST => uncaught mkJobId x (λ j, Routed (PostJobRetry j)) | _ => WrongMethod end
      else NoRoute
  | _ => NoRoute
  end.

Definition nodes_router (m : method) (path : list string) (p : payload) : parsed :=
  match path with
  | [] =>
      match m with
      | POST => match p with CreateNodeRequest c mm v name => Routed (PostNodes c mm v name) | _ => invalid_body end
      | GET => Routed GetNodes
      | _ => WrongMethod
      end
  | [x] =>
      match m with
      | GET => if bool_decide (x = "offline"%string) then Routed GetOfflineNodes else uncaught mkNodeId x (λ n, Routed (GetNode n))
      | DELETE => uncaught mkNodeId x (λ n, Routed (DeleteNodes n))
      | _ => WrongMethod
      end
  | [x; y] =>
      if bool_decide (y = "heartbeat"%string) then match m with POST => uncaught mkNodeId x (λ n, Routed (PostNodeHeartbeat n)) | _ => WrongMethod end
      else if bool_decide (y = "drain"%string) then match m with POST => uncaught mkNodeId x (λ n, Routed (PostNodeDrain n)) | _ => WrongMethod end
      else NoRoute
  | _ => NoRoute
  end.

Section workers.
Context `{BodyUuid}.

(** [/{worker_id}/jobs/{job_id}/...]: the body is read first, then the worker, then
    the job *)
Definition start_job (w j : string) : parsed :=
  malformed_422 mkWorkerId w (λ w, malformed_422 mkJobId j (λ j, Routed (PostStart w j))).
Definition report_outcome (k : WorkerId → JobId → LeaseId → option Z → route) (w j : string) (p : payload) : parsed :=
  match p with
  | ReportJobOutcomeRequest code l =>
      lease_field l (λ l, malformed_422 mkWorkerId w (λ w, malformed_422 mkJobId j (λ j, Routed (k w j l code))))
  | _ => invalid_body
  end.
Definition create_worker (p : payload) : parsed :=
  match p with
  | CreateWorkerRequest node_id managed_by => uncaught mkNodeId node_id (λ n, Routed (PostWorkers n managed_by))
  | _ => invalid_body
  end.
Definition renew_lease (w : string) (p : payload) : parsed :=
  match p with
  | RenewLeaseRequest l => lease_field l (λ l, malformed_422 mkWorkerId w (λ w, Routed (PostRenew w l)))
  | _ => invalid_body
  end.

Definition workers_router (m : method) (path : list string) (p : payload) : parsed :=
  match path with
  | [] => match m with POST => create_worker p | GET => Routed GetWorkers | _ => WrongMethod end
  | [x] => match m with GET => malformed_422 mkWorkerId x (λ w, Routed (GetWorker w)) | _ => WrongMethod end
  | [x; y] =>
      if bool_decide (y = "heartbeat"%string)
      then match m with POST => malformed_422 mkWorkerId x (λ w, Routed (PostWorkerHeartbeat w)) | _ => WrongMethod end
      else NoRoute
  | [x; y; z] =>
      if bool_decide (y = "lease"%string ∧ z = "renew"%string) then match m with POST => renew_lease x p | _ => WrongMethod end
      else NoRoute
  | [x; y; z; a] =>
      if negb (bool_decide (y = "jobs"%string)) then NoRoute
      else if bool_decide (a = "start"%string) then match m with POST => start_job x z | _ => WrongMethod end
      else if bool_decide (a = "complete"%string) then match m with POST => report_outcome PostComplete x z p | _ => WrongMethod end
      else if bool_decide (a = "fail"%string) then match m with POST => report_outcome PostFail x z p | _ => WrongMethod end
      else if bool_decide (a = "cancel"%string) then match m with POST => report_outcome PostConfirmCancel x z p | _ => WrongMethod end
      else NoRoute
  | _ => NoRoute
  end.
End workers.

Definition cluster_router (m : method) (path : list string) : parsed :=
  match path with
  | [x] =>
      let only_get r := match m with GET => Routed r | _ => WrongMethod end in
      if bool_decide (x = "health"%string) then only_get GetClusterHealth
      else if bool_decide (x = "capacity"%string) then only_get GetClusterCapacity
      else if bool_decide (x = "utilization"%string) then only_get GetClusterUtilization
      else NoRoute
  | _ => NoRoute
  end.

Definition events_router (m : method) (path : list string) : parsed :=
  match path with [] => match m with GET => Routed GetEvents | _ => WrongMethod end | _ => NoRoute end.

Definition api_keys_router (m : method) (path : list string) (p : payload) : parsed :=
  match path with
  | [] =>
      match m with
      | POST => match p with CreateApiKeyRequest label => Routed (PostApiKeys label) | _ => invalid_body end
      | _ => WrongMethod
      end
  | [x; y] =>
      if bool_decide (y = "revoke"%string) then match m with POST => uncaught mkApiKeyId x (λ k, Routed (PostApiKeyRevoke k)) | _ => WrongMethod end
      else if bool_decide (y = "issued"%string) then match m with GET => uncaught mkApiKeyId x (λ k, Routed (GetApiKeyIssued k)) | _ => WrongMethod end
      else NoRoute
  | _ => NoRoute
  end.

Definition parse_request `{BodyUuid} (q : request) : parsed :=
  match q_path q with
  | [] => NoRoute
  | x :: path =>
      let m := q_method q in
      let p := q_payload q in
      if bool_decide (x = "cluster"%string) then cluster_router m path
      else if bool_decide (x = "jobs"%string) then jobs_router m path p
      else if bool_decide (x = "nodes"%string) then nodes_router m path p
      else if bool_decide (x = "workers"%string) then workers_router m path p
      else if bool_decide (x = "events"%string) then events_router m path
      else if bool_decide (x = "api-keys"%string) then api_keys_router m path p
      else NoRoute
  end.

(** * Serving *)

Section serving.
Context {E : Env} `{BodyUuid}.

(** What runs once the caller is known. *)
Definition endpoint (x : parsed) (caller : api_key) : prog response :=
  match x with
  | NoRoute => raise (HTTPException 404)
  | WrongMethod => raise (HTTPException 405)
  | Refused e => raise e
  | NoHistory => l ← select_rows (λ _, [] : list event); ok 200 (EventsBody (view_event <$> l))
  | Routed r => dispatch caller r
  end.

(** No route, no authentication. *)
Definition serve_request (authorization : option string) (q : request) : prog response :=
  match parse_request q with
  | NoRoute => mret (mkResponse 404 NoBody)
  | WrongMethod => mret (mkResponse 405 NoBody)
  | x => try_except (caller ← require_api_key authorization; endpoint x caller) (λ e, Some (mret (error_response e)))
  end.
End serving.

(** * Canonical requests *)

Definition id_text {A} (unwrap : A → N) (a : A) : string := str_uuid (unwrap a).

(** The request a client sends for a route. *)
Definition request_of (r : route) : request :=
  let job j := id_text job_uuid j in
  let node n := id_text node_uuid n in
  let worker w := id_text worker_uuid w in
  let key k := id_text api_key_uuid k in
  let outcome code l := ReportJobOutcomeRequest code (id_text lease_uuid l) in
  match r with
  | PostJobs c m v command => mkRequest POST ["jobs"] (CreateJobRequest c m v command)
  | GetJobs => mkRequest GET ["jobs"] NoPayload
  | GetQueuedJobs => mkRequest GET ["jobs"; "queued"] NoPayload
  | GetJob j => mkRequest GET ["jobs"; job j] NoPayload
  | GetJobHistory j => mkRequest GET ["jobs"; job j; "history"] NoPayload
  | PostJobCancel j => mkRequest POST ["jobs"; job j; "cancel"] NoPayload
  | PostJobRetry j => mkRequest POST ["jobs"; job j; "retry"] NoPayload
  | PostNodes c m v name => mkRequest POST ["nodes"] (CreateNodeRequest c m v name)
  | GetNodes => mkRequest GET ["nodes"] NoPayload
  | GetOfflineNodes => mkRequest GET ["nodes"; "offline"] NoPayload
  | GetNode n => mkRequest GET ["nodes"; node n] NoPayload
  | PostNodeHeartbeat n => mkRequest POST ["nodes"; node n; "heartbeat"] NoPayload
  | PostNodeDrain n => mkRequest POST ["nodes"; node n; "drain"] NoPayload
  | DeleteNodes n => mkRequest DELETE ["nodes"; node n] NoPayload
  | PostWorkers n m => mkRequest POST ["workers"] (CreateWorkerRequest (node n) m)
  | GetWorkers => mkRequest GET ["workers"] NoPayload
  | GetWorker w => mkRequest GET ["workers"; worker w] NoPayload
  | PostStart w j => mkRequest POST ["workers"; worker w; "jobs"; job j; "start"] NoPayload
  | PostComplete w j l code => mkRequest POST ["workers"; worker w; "jobs"; job j; "complete"] (outcome code l)
  | PostFail w j l code => mkRequest POST ["workers"; worker w; "jobs"; job j; "fail"] (outcome code l)
  | PostConfirmCancel w j l code => mkRequest POST ["workers"; worker w; "jobs"; job j; "cancel"] (outcome code l)
  | PostRenew w l => mkRequest POST ["workers"; worker w; "lease"; "renew"] (RenewLeaseRequest (id_text lease_uuid l))
  | PostWorkerHeartbeat w => mkRequest POST ["workers"; worker w; "heartbeat"] NoPayload
  | GetEvents => mkRequest GET ["events"] NoPayload
  | GetClusterHealth => mkRequest GET ["cluster"; "health"] NoPayload
  | GetClusterCapacity => mkRequest GET ["cluster"; "capacity"] NoPayload
  | GetClusterUtilization => mkRequest GET ["cluster"; "utilization"] NoPayload
  | PostApiKeys label => mkRequest POST ["api-keys"] (CreateApiKeyRequest label)
  | PostApiKeyRevoke k => mkRequest POST ["api-keys"; key k; "revoke"] NoPayload
  | GetApiKeyIssued k => mkRequest GET ["api-keys"; key k; "issued"] NoPayload
  end%string.

(** Identifiers have 128 bits. *)
Definition ids_of (r : route) : list N :=
  match r with
  | GetJob j | GetJobHistory j | PostJobCancel j | PostJobRetry j => [job_uuid j]
  | GetNode n | PostNodeHeartbeat n | PostNodeDrain n | DeleteNodes n | PostWorkers n _ => [node_uuid n]
  | GetWorker w | PostWorkerHeartbeat w => [worker_uuid w]
  | PostStart w j => [worker_uuid w; job_uuid j]
  | PostComplete w j l _ | PostFail w j l _ | PostConfirmCancel w j l _ => [worker_uuid w; job_uuid j; lease_uuid l]
  | PostRenew w l => [worker_uuid w; lease_uuid l]
  | PostApiKeyRevoke k | GetApiKeyIssued k => [api_key_uuid k]
  | _ => []
  end.
Definition ids_ok (r : route) : Prop := Forall uuid_ok (ids_of r).

Section canonical.
Context `{BodyUuid}.

Lemma uncaught_text {A} (wrap : N → A) (unwrap : A → N) a k :
  wrap (unwrap a) = a → uuid_ok (unwrap a) → uncaught wrap (id_text unwrap a) k = k a.
Proof using. intros Ha Hu. unfold uncaught, id_text. by rewrite UUID_str, Ha. Qed.

Lemma malformed_text {A} (wrap : N → A) (unwrap : A → N) a k :
  wrap (unwrap a) = a → uuid_ok (unwrap a) → malformed_422 wrap (id_text unwrap a) k = k a.
Proof using. intros Ha Hu. unfold malformed_422, id_text. by rewrite UUID_str, Ha. Qed.

Lemma lease_text l k : uuid_ok (lease_uuid l) → lease_field (id_text lease_uuid l) k = k l.
Proof using. intros Hu. unfold lease_field, id_text. rewrite body_uuid_str by done. by destruct l. Qed.

Lemma history_text j : uuid_ok (job_uuid j) → history_of (id_text job_uuid j) = Routed (GetJobHistory j).
Proof using. intros Hu. unfold history_of, id_text. rewrite UUID_str by done. rewrite bool_decide_eq_true_2 by done. by destruct j. Qed.

(** An identifier is none of the fixed segments. *)
Lemma str_uuid_length u : String.length (str_uuid u) = 36%nat.
Proof using.
  unfold str_uuid. cbn zeta. do 4 (rewrite length_append, num_length; cbn [String.length]). by rewrite num_length.
Qed.

Lemma text_fixed {A} (f : A → N) a (fixed : string) : String.length fixed ≠ 36%nat → bool_decide (id_text f a = fixed) = false.
Proof using. intros Hf. apply bool_decide_eq_false. intros <-. unfold id_text in Hf. by rewrite str_uuid_length in Hf. Qed.

Ltac destruct_all_ids := repeat match goal with x : JobId |- _ => destruct x | x : NodeId |- _ => destruct x | x : WorkerId |- _ => destruct x | x : ApiKeyId |- _ => destruct x end.
Ltac decide_segment :=
  match goal with
  | |- context [bool_decide (id_text ?f ?x = ?s)] => rewrite (text_fixed f x s) by done
  | |- context [bool_decide (String ?c ?a = ?s)] =>
      let b := eval vm_compute in (bool_decide (String c a = s)) in change (bool_decide (String c a = s)) with b
  | |- context [bool_decide (String ?c ?a = ?s ∧ ?Q)] =>
      let b := eval vm_compute in (bool_decide (String c a = s ∧ Q)) in change (bool_decide (String c a = s ∧ Q)) with b
  end; cbn iota beta.

(** The request of a route reaches it. *)
Lemma parse_request_of r : ids_ok r → parse_request (request_of r) = Routed r.
Proof using.
  unfold ids_ok. intros Hr. destruct r; cbn [ids_of] in Hr; decompose_Forall_hyps; unfold request_of; cbn zeta iota beta;
    unfold parse_request; cbn [q_path q_method q_payload]; repeat decide_segment; try reflexivity;
    unfold jobs_router, nodes_router, workers_router, cluster_router, events_router, api_keys_router; repeat decide_segment; try reflexivity;
    unfold start_job, report_outcome, create_worker, renew_lease; cbn iota beta; rewrite ?lease_text by done; cbn [negb];
    repeat first [rewrite uncaught_text by (done || by destruct_all_ids)|rewrite malformed_text by (done || by destruct_all_ids)|rewrite history_text by done];
    reflexivity.
Qed.
End canonical.

(** * Whatever is asked *)

Section requests.
Context {E : Env} `{BodyUuid}.

(** A request that is refused does nothing once its caller is known. *)
Lemma refused_request auth q e w :
  parse_request q = Refused e →
  serve_request auth q w =
    ((require_api_key auth w).1, inr (error_response match (require_api_key auth w).2 with inl e' => e' | inr _ => e end)).
Proof.
  intros Hq. unfold serve_request. rewrite Hq. unfold try_except, mbind, stM_bind, endpoint.
  by destruct (require_api_key auth w) as [w' [e'|caller]].
Qed.

Lemma endpoint_confined q caller d n `{!Quiet E} :
  (∀ k, (n ≤ k)%nat → db_workers d !! mkWorkerId (uuid4 k) = None) →
  preserves (confined (k_tenant_id caller) d n) (endpoint (parse_request q) caller).
Proof.
  intros Hfresh. destruct (parse_request q) as [| |e| |r]; cbn [endpoint]; try apply preserves_raise.
  - unfold select_rows, ok. repeat iso_step.
  - unfold dispatch. destruct (valid_request r); [by apply handle_confined|apply preserves_raise].
Qed.
End requests.


(** C35: A request reaches its handler.  The request a client sends for a route, with every
    identifier as the API prints it, is served as that route, and no two routes have
    the same request. *)
Theorem request_roundtrip {E : Env} `{BodyUuid} r :
  ids_ok r →
  (∀ auth w, serve_request auth (request_of r) w = serve auth r w) ∧
  (∀ r', ids_ok r' → request_of r' = request_of r → r' = r).
Proof.
  intros Hr. pose proof (parse_request_of r Hr) as Hp. split.
  - intros auth w. unfold serve_request. rewrite Hp. done.
  - intros r' Hr' Hq. pose proof (parse_request_of r' Hr') as Hp'. rewrite Hq, Hp in Hp'. congruence.
Qed.

(** * Examples *)

(** Bodies read as the standard library reads UUIDs. *)
Definition plain_uuid : BodyUuid := {| body_uuid := UUID; body_uuid_str := UUID_str |}.

(** Tenant 8 tries to drain the node of tenant 1. *)
Definition foreign_drain : request := mkRequest POST ["nodes"; "00000000-0000-0000-0000-000000000009"; "drain"]%string NoPayload.


Lemma request_roundtrip_witness :
  ids_ok (PostNodeDrain (mkNodeId 9)) ∧
  serve_request (E:=calm) (H:=plain_uuid) (bearer secret8) (request_of (PostNodeDrain (mkNodeId 9))) two_tenants =
    serve (E:=calm) (bearer secret8) (PostNodeDrain (mkNodeId 9)) two_tenants.
Proof.
  assert (ids_ok (PostNodeDrain (mkNodeId 9))) as Hok by (constructor; [vm_compute; reflexivity|constructor]).
  split; [exact Hok|]. apply (@request_roundtrip calm plain_uuid (PostNodeDrain (mkNodeId 9)) Hok).
Defined.

(** A job identifier that does not parse is answered 500, a worker identifier 422. *)
Lemma malformed_ids :
  parse_request (H:=plain_uuid) (mkRequest GET ["jobs"; "x"]%string NoPayload) = Refused badly_formed ∧
  parse_request (H:=plain_uuid) (mkRequest DELETE ["nodes"; "offline"]%string NoPayload) = Refused badly_formed ∧
  parse_request (H:=plain_uuid) (mkRequest POST ["workers"]%string (CreateWorkerRequest "x" "AGENT")) = Refused badly_formed ∧
  parse_request (H:=plain_uuid) (mkRequest GET ["workers"; "x"]%string NoPayload) = Refused (HTTPException 422) ∧
  r_code (error_response badly_formed) = 500.
Proof. vm_compute. done. Qed.

(** The same job, written in capitals: its status is found, its history is not. *)
Lemma history_by_text :
  let text := "0000000A-0000-0000-0000-000000000000"%string in
  parse_request (H:=plain_uuid) (mkRequest GET ["jobs"%string; text] NoPayload) = Routed (GetJob (mkJobId (10 * 16 ^ 24))) ∧
  parse_request (H:=plain_uuid) (mkRequest GET ["jobs"%string; text; "history"%string] NoPayload) = NoHistory.
Proof. vm_compute. done. Qed.
