(* ===== verification/Calendar.v ===== *)
(** Dates as text: [datetime.isoformat] of a time in UTC and [datetime.fromisoformat]
    of such a text, with the calendar of Python's datetime module.  The text is
    ordered as the times are, so that ORDER BY on a TEXT column is chronological.

    The repositories write what [isoformat] gives; of the other forms that
    [fromisoformat] reads, none occurs. *)
From Stdlib Require Import Strings.Ascii.
From S2P Require Import Prelude Values ApiKey Text.
Local Open Scope Z_scope.

(** * The proleptic Gregorian calendar *)

Definition is_leap (y : Z) : bool := (y mod 4 =? 0) && (negb (y mod 100 =? 0) || (y mod 400 =? 0)).
Definition days_before_year (y : Z) : Z := (y - 1) * 365 + (y - 1) / 4 - (y - 1) / 100 + (y - 1) / 400.
Definition days_in_month (leap : bool) (m : Z) : Z :=
  if m =? 2 then (if leap then 29 else 28) else if (m =? 4) || (m =? 6) || (m =? 9) || (m =? 11) then 30 else 31.

(** The days before the first of month [m], and the table of a common year. *)
Definition before_table : list Z := [-1; 0; 31; 59; 90; 120; 151; 181; 212; 243; 273; 304; 334].
Definition days_before_month (leap : bool) (m : Z) : Z :=
  default 0 (before_table !! Z.to_nat m) + (if (2 <? m) && leap then 1 else 0).

Record date := mkDate { d_year : Z; d_month : Z; d_day : Z }.

(** date.toordinal *)
Definition ymd2ord (d : date) : Z :=
  days_before_year (d_year d) + days_before_month (is_leap (d_year d)) (d_month d) + d_day d.

(** The month and day of day [n] of a year, counted from 0. *)
Definition month_day (leap : bool) (n : Z) : Z * Z :=
  let month := (n + 50) / 32 in
  let preceding := days_before_month leap month in
  if n <? preceding then
    let month := month - 1 in (month, n - (preceding - days_in_month leap month) + 1)
  else (month, n - preceding + 1).

(** date.fromordinal *)
Definition ord2ymd (ordinal : Z) : date :=
  let n := ordinal - 1 in
  let n400 := n / 146097 in let n := n mod 146097 in
  let n100 := n / 36524 in let n := n mod 36524 in
  let n4 := n / 1461 in let n := n mod 1461 in
  let n1 := n / 365 in let n := n mod 365 in
  let year := n400 * 400 + 1 + n100 * 100 + n4 * 4 + n1 in
  if (n1 =? 4) || (n100 =? 4) then mkDate (year - 1) 12 31
  else
    let leap := (n1 =? 3) && (negb (n4 =? 24) || (n100 =? 3)) in
    let '(m, d) := month_day leap n in mkDate year m d.

Definition date_ok (d : date) : Prop :=
  1 <= d_year d ∧ 1 <= d_month d <= 12 ∧ 1 <= d_day d <= days_in_month (is_leap (d_year d)) (d_month d).

(** * isoformat and fromisoformat *)

Definition DAY : Z := 86400000000.
Definition EPOCH : Z := 719163.
Definition MAX_ORDINAL : Z := 3652059.

(** A value a datetime can have: the years 1 to 9999. *)
Definition datetime_ok (t : datetime) : Prop := 1 <= t / DAY + EPOCH <= MAX_ORDINAL.

Definition utc_offset : string := "+00:00".
Definition fraction (us : Z) : string := if us =? 0 then utc_offset else String "." (num 10 6 us +:+ utc_offset).

Definition isoformat (t : datetime) : string :=
  let d := ord2ymd (t / DAY + EPOCH) in
  let us := t mod DAY in
  num 10 4 (d_year d) +:+ String "-" (num 10 2 (d_month d) +:+ String "-" (num 10 2 (d_day d) +:+
  String "T" (num 10 2 (us / 3600000000) +:+ String ":" (num 10 2 (us / 60000000 mod 60) +:+
  String ":" (num 10 2 (us / 1000000 mod 60) +:+ fraction (us mod 1000000)))))).

Definition read_fraction (s : string) : option Z :=
  if bool_decide (s = utc_offset) then Some 0
  else
    s1 ← expect "."%char s; '(us, s2) ← read_num 10 6 0 s1;
    if bool_decide (s2 = utc_offset) then Some us else None.

Definition fromisoformat (s : string) : option datetime :=
  '(y, s) ← read_num 10 4 0 s; s ← expect "-"%char s;
  '(m, s) ← read_num 10 2 0 s; s ← expect "-"%char s;
  '(d, s) ← read_num 10 2 0 s; s ← expect "T"%char s;
  '(hh, s) ← read_num 10 2 0 s; s ← expect ":"%char s;
  '(mm, s) ← read_num 10 2 0 s; s ← expect ":"%char s;
  '(ss, s) ← read_num 10 2 0 s;
  us ← read_fraction s;
  if (1 <=? y) && (1 <=? m) && (m <=? 12) && (1 <=? d) && (d <=? days_in_month (is_leap y) m) && (hh <=? 23) && (mm <=? 59) && (ss <=? 59)
  then Some ((ymd2ord (mkDate y m d) - EPOCH) * DAY + ((hh * 60 + mm) * 60 + ss) * 1000000 + us)
  else None.

(** * The calendar is consistent *)

(** Day [n] of a year has the month and day it should. *)
Lemma month_day_spec (leap : bool) n : 0 <= n < 365 + (if leap then 1 else 0) →
  let '(m, d) := month_day leap n in 1 <= m <= 12 ∧ 1 <= d <= days_in_month leap m ∧ days_before_month leap m + d = n + 1.
Proof.
  intros Hn. set (P := λ n : Z, let '(m, d) := month_day leap n in
    (1 <=? m) && (m <=? 12) && (1 <=? d) && (d <=? days_in_month leap m) && (days_before_month leap m + d =? n + 1)).
  assert (P n = true) as HP.
  { assert (forallb P (Z.of_nat <$> seq 0 (365 + if leap then 1 else 0)%nat) = true) as Hall by (destruct leap; vm_compute; reflexivity).
    rewrite forallb_forall in Hall. apply Hall. apply in_map_iff. exists (Z.to_nat n). split; [lia|].
    apply in_seq. destruct leap; lia. }
  unfold P in HP. destruct (month_day leap n) as [m d]. lia.
Qed.

Section ordinal.
Context (a b c e r : Z).
Context (Hb : 0 <= b <= 3) (Hc : 0 <= c <= 24) (He : 0 <= e <= 3).

Lemma year_days : days_before_year (400 * a + 100 * b + 4 * c + e + 1) = 146097 * a + 36524 * b + 1461 * c + 365 * e.
Proof using Hb Hc He.
  unfold days_before_year. set (y := 400 * a + 100 * b + 4 * c + e + 1 - 1).
  replace (y / 4) with (100 * a + 25 * b + c) by (apply (Z.div_unique _ _ _ e); lia).
  replace (y / 100) with (4 * a + b) by (apply (Z.div_unique _ _ _ (4 * c + e)); lia).
  replace (y / 400) with a by (apply (Z.div_unique _ _ _ (100 * b + 4 * c + e)); lia). unfold y. lia.
Qed.

Lemma year_leap : is_leap (400 * a + 100 * b + 4 * c + e + 1) = (e =? 3) && (negb (c =? 24) || (b =? 3)).
Proof using Hb Hc He.
  unfold is_leap. set (y := _ + 1).
  replace (y mod 4) with ((e + 1) mod 4) by (unfold y; symmetry; replace (_ + 1) with (e + 1 + (100 * a + 25 * b + c) * 4) by lia; apply Z.mod_add; lia).
  replace (y mod 100) with ((4 * c + e + 1) mod 100)
    by (unfold y; symmetry; replace (_ + 1) with (4 * c + e + 1 + (4 * a + b) * 100) by lia; apply Z.mod_add; lia).
  replace (y mod 400) with ((100 * b + 4 * c + e + 1) mod 400)
    by (unfold y; symmetry; replace (_ + 1) with (100 * b + 4 * c + e + 1 + a * 400) by lia; apply Z.mod_add; lia).
  clear y. assert (e = 0 ∨ e = 1 ∨ e = 2 ∨ e = 3) as [-> |[-> |[-> | ->]]] by lia; try done. cbn [Z.eqb andb].
  destruct (Z.eqb_spec c 24) as [-> |Hc24].
  - change (4 * 24 + 3 + 1) with 100. cbn. assert (b = 0 ∨ b = 1 ∨ b = 2 ∨ b = 3) as [-> |[-> |[-> | ->]]] by lia; done.
  - rewrite (Z.mod_small (4 * c + 3 + 1)) by lia. rewrite (proj2 (Z.eqb_neq (4 * c + 3 + 1) 0)) by lia. done.
Qed.
End ordinal.

(** Every ordinal is the ordinal of its date. *)
Lemma ord2ymd_spec n : 1 <= n → date_ok (ord2ymd n) ∧ ymd2ord (ord2ymd n) = n.
Proof.
  intros Hn. unfold ord2ymd. cbn zeta.
  pose proof (Z.div_mod (n - 1) 146097 ltac:(lia)) as Ea. pose proof (Z.mod_pos_bound (n - 1) 146097 ltac:(lia)) as Ra.
  pose proof (Z.div_pos (n - 1) 146097 ltac:(lia) ltac:(lia)) as Pa.
  set (a := (n - 1) / 146097) in *. set (n1 := (n - 1) mod 146097) in *.
  pose proof (Z.div_mod n1 36524 ltac:(lia)) as Eb. pose proof (Z.mod_pos_bound n1 36524 ltac:(lia)) as Rb.
  set (b := n1 / 36524) in *. set (n2 := n1 mod 36524) in *.
  pose proof (Z.div_mod n2 1461 ltac:(lia)) as Ec. pose proof (Z.mod_pos_bound n2 1461 ltac:(lia)) as Rc.
  set (c := n2 / 1461) in *. set (n3 := n2 mod 1461) in *.
  pose proof (Z.div_mod n3 365 ltac:(lia)) as Ee. pose proof (Z.mod_pos_bound n3 365 ltac:(lia)) as Re.
  set (e := n3 / 365) in *. set (r := n3 mod 365) in *. clearbody a n1 b n2 c n3 e r.
  assert (0 <= b <= 4 ∧ 0 <= c <= 24 ∧ 0 <= e <= 4) as (Hb & Hc & He) by lia.
  assert (n = 146097 * a + 36524 * b + 1461 * c + 365 * e + r + 1) as -> by lia.
  destruct (Z.eqb_spec e 4) as [-> |He4]; [|destruct (Z.eqb_spec b 4) as [-> |Hb4]]; cbn [orb].
  - (* the last day of a leap year *)
    assert (r = 0 ∧ b <= 3 ∧ (c < 24 ∨ b = 3)) as (-> & Hb3 & Hcb) by lia.
    assert (a * 400 + 1 + b * 100 + c * 4 + 4 - 1 = 400 * a + 100 * b + 4 * c + 3 + 1) as Ey by lia.
    unfold date_ok, ymd2ord. cbn [d_year d_month d_day]. rewrite Ey, year_days, year_leap by lia.
    assert ((3 =? 3) && (negb (c =? 24) || (b =? 3)) = true) as -> by lia.
    change (days_before_month true 12) with 335. change (days_in_month true 12) with 31. lia.
  - (* the last day of four hundred years *)
    assert (r = 0 ∧ c = 0 ∧ e = 0) as (-> & -> & ->) by lia.
    assert (a * 400 + 1 + 4 * 100 + 0 * 4 + 0 - 1 = 400 * a + 100 * 3 + 4 * 24 + 3 + 1) as Ey by lia.
    unfold date_ok, ymd2ord. cbn [d_year d_month d_day]. rewrite Ey, year_days, year_leap by lia.
    change (days_before_month ((3 =? 3) && (negb (24 =? 24) || (3 =? 3))) 12) with 335.
    change (days_in_month ((3 =? 3) && (negb (24 =? 24) || (3 =? 3))) 12) with 31. lia.
  - assert (a * 400 + 1 + b * 100 + c * 4 + e = 400 * a + 100 * b + 4 * c + e + 1) as Ey by lia.
    set (leap := (e =? 3) && (negb (c =? 24) || (b =? 3))).
    pose proof (month_day_spec leap r ltac:(destruct leap; lia)) as Hm. destruct (month_day leap r) as [m d].
    unfold date_ok, ymd2ord. cbn [d_year d_month d_day]. rewrite Ey, year_days, year_leap by lia. fold leap. lia.
Qed.

Lemma days_before_month_bounds leap m : 1 <= m <= 12 →
  0 <= days_before_month leap m ∧ days_before_month leap m + days_in_month leap m <= 365 + (if leap : bool then 1 else 0) ∧
  ∀ m', m < m' <= 12 → days_before_month leap m + days_in_month leap m <= days_before_month leap m'.
Proof.
  intros Hm.
  assert (∀ k, 1 <= k <= 12 → k ∈ [1; 2; 3; 4; 5; 6; 7; 8; 9; 10; 11; 12]) as Hin.
  { intros k Hk. assert (k = 1 ∨ k = 2 ∨ k = 3 ∨ k = 4 ∨ k = 5 ∨ k = 6 ∨ k = 7 ∨ k = 8 ∨ k = 9 ∨ k = 10 ∨ k = 11 ∨ k = 12) as Hk' by lia.
    repeat destruct Hk' as [-> |Hk']; [set_solver..|subst; set_solver]. }
  set (f := λ m, (0 <=? days_before_month leap m) && (days_before_month leap m + days_in_month leap m <=? 365 + (if leap then 1 else 0)) &&
    forallb (λ m', negb (m <? m') || (days_before_month leap m + days_in_month leap m <=? days_before_month leap m')) [1; 2; 3; 4; 5; 6; 7; 8; 9; 10; 11; 12]).
  assert (f m = true) as Hf.
  { assert (forallb f [1; 2; 3; 4; 5; 6; 7; 8; 9; 10; 11; 12] = true) as Hall by (destruct leap; vm_compute; reflexivity).
    rewrite forallb_forall in Hall. apply Hall, list_elem_of_In, Hin, Hm. }
  unfold f in Hf. apply andb_prop in Hf as [Hf Hfa]. rewrite forallb_forall in Hfa. split_and!; [lia..|].
  intros m' Hm'. specialize (Hfa m' ltac:(apply list_elem_of_In, Hin; lia)). lia.
Qed.

Lemma year_step y : 1 <= y → days_before_year (y + 1) = days_before_year y + 365 + (if is_leap y then 1 else 0).
Proof.
  intros Hy. pose proof (Z.div_mod (y - 1) 400 ltac:(lia)) as Ea. pose proof (Z.mod_pos_bound (y - 1) 400 ltac:(lia)) as Ra.
  set (a := (y - 1) / 400) in *. set (n1 := (y - 1) mod 400) in *.
  pose proof (Z.div_mod n1 100 ltac:(lia)) as Eb. pose proof (Z.mod_pos_bound n1 100 ltac:(lia)) as Rb.
  set (b := n1 / 100) in *. set (n2 := n1 mod 100) in *.
  pose proof (Z.div_mod n2 4 ltac:(lia)) as Ec. pose proof (Z.mod_pos_bound n2 4 ltac:(lia)) as Rc.
  set (c := n2 / 4) in *. set (e := n2 mod 4) in *. clearbody a n1 b n2 c e.
  assert (y = 400 * a + 100 * b + 4 * c + e + 1) as -> by lia. rewrite year_leap, year_days by lia.
  destruct (Z.eqb_spec e 3) as [-> |He]; cbn [andb].
  - destruct (Z.eqb_spec c 24) as [-> |Hc]; cbn [negb orb].
    + destruct (Z.eqb_spec b 3) as [-> |Hb].
      * replace (_ + 1 + 1) with (400 * (a + 1) + 100 * 0 + 4 * 0 + 0 + 1) by lia. rewrite year_days; lia.
      * replace (_ + 1 + 1) with (400 * a + 100 * (b + 1) + 4 * 0 + 0 + 1) by lia. rewrite year_days; lia.
    + replace (_ + 1 + 1) with (400 * a + 100 * b + 4 * (c + 1) + 0 + 1) by lia. rewrite year_days; lia.
  - replace (_ + 1 + 1) with (400 * a + 100 * b + 4 * c + (e + 1) + 1) by lia. rewrite year_days; lia.
Qed.

Lemma year_mono y y' : y <= y' → days_before_year y <= days_before_year y'.
Proof.
  intros Hy. unfold days_before_year. pose proof (Z.div_le_mono (y - 1) (y' - 1) 4 ltac:(lia) ltac:(lia)).
  pose proof (Z.div_le_mono (y - 1) (y' - 1) 400 ltac:(lia) ltac:(lia)).
  assert ((y' - 1) / 100 <= (y - 1) / 100 + (y' - y)); [|lia].
  pose proof (Z.div_mod (y - 1) 100 ltac:(lia)). pose proof (Z.mod_pos_bound (y - 1) 100 ltac:(lia)).
  apply Z.lt_succ_r, Z.div_lt_upper_bound; lia.
Qed.

(** The order of dates: by year, then month, then day. *)
Definition date_compare (d d' : date) : comparison :=
  match d_year d ?= d_year d' with
  | Eq => match d_month d ?= d_month d' with Eq => d_day d ?= d_day d' | c => c end
  | c => c
  end.

Lemma ymd2ord_lt d d' : date_ok d → date_ok d' → date_compare d d' = Lt → ymd2ord d < ymd2ord d'.
Proof.
  intros (Hy & Hm & Hd) (Hy' & Hm' & Hd'). unfold date_compare, ymd2ord.
  pose proof (days_before_month_bounds (is_leap (d_year d)) (d_month d) Hm) as (B0 & B1 & B2).
  pose proof (days_before_month_bounds (is_leap (d_year d')) (d_month d') Hm') as (B0' & _ & _).
  destruct (Z.compare_spec (d_year d) (d_year d')) as [E|Hlt|]; [|intros _|done].
  - rewrite <- E in *. destruct (Z.compare_spec (d_month d) (d_month d')) as [E'|Hlt'|]; [rewrite <- E'|intros _|done].
    + intros Hd2. change (d_day d < d_day d') in Hd2. lia.
    + specialize (B2 (d_month d') ltac:(lia)). lia.
  - pose proof (year_mono (d_year d + 1) (d_year d') ltac:(lia)). rewrite year_step in * by lia. lia.
Qed.

Lemma date_compare_antisym d d' : date_compare d' d = CompOpp (date_compare d d').
Proof.
  unfold date_compare. rewrite (Z.compare_antisym (d_year d)), (Z.compare_antisym (d_month d)), (Z.compare_antisym (d_day d)).
  by destruct (d_year d ?= d_year d'), (d_month d ?= d_month d'), (d_day d ?= d_day d').
Qed.

Lemma ord2ymd_lt n n' : 1 <= n → n < n' → date_compare (ord2ymd n) (ord2ymd n') = Lt.
Proof.
  intros Hn Hlt. destruct (ord2ymd_spec n Hn) as [Hok E]. destruct (ord2ymd_spec n' ltac:(lia)) as [Hok' E'].
  destruct (date_compare (ord2ymd n) (ord2ymd n')) eqn:Ed; [exfalso|done|exfalso].
  - unfold date_compare in Ed. destruct (Z.compare_spec (d_year (ord2ymd n)) (d_year (ord2ymd n'))) as [E1| |]; try done.
    destruct (Z.compare_spec (d_month (ord2ymd n)) (d_month (ord2ymd n'))) as [E2| |]; try done. apply Z.compare_eq_iff in Ed.
    unfold ymd2ord in *. rewrite E1, E2, Ed in E. lia.
  - rewrite date_compare_antisym in Ed. destruct (date_compare (ord2ymd n') (ord2ymd n)) eqn:Ed'; try done.
    pose proof (ymd2ord_lt _ _ Hok' Hok Ed'). lia.
Qed.

Lemma ord2ymd_compare n n' : 1 <= n → 1 <= n' → date_compare (ord2ymd n) (ord2ymd n') = (n ?= n').
Proof.
  intros Hn Hn'. destruct (Z.compare_spec n n') as [-> |Hlt|Hlt].
  - unfold date_compare. by rewrite !Z.compare_refl.
  - by apply ord2ymd_lt.
  - by rewrite date_compare_antisym, ord2ymd_lt.
Qed.

Lemma datetime_date t : datetime_ok t → date_ok (ord2ymd (t / DAY + EPOCH)) ∧ d_year (ord2ymd (t / DAY + EPOCH)) <= 9999 ∧
  ymd2ord (ord2ymd (t / DAY + EPOCH)) = t / DAY + EPOCH.
Proof.
  intros [H1 H2]. destruct (ord2ymd_spec (t / DAY + EPOCH) H1) as [Hok E]. split_and!; try done.
  destruct Hok as (Hy & Hm & Hd). pose proof (days_before_month_bounds (is_leap (d_year (ord2ymd (t / DAY + EPOCH)))) _ Hm) as (B0 & _).
  unfold ymd2ord, MAX_ORDINAL in *. apply Z.nlt_ge. intros Hlt.
  pose proof (year_mono 10000 (d_year (ord2ymd (t / DAY + EPOCH))) ltac:(lia)) as Hmono.
  change (days_before_year 10000) with 3652059 in Hmono. lia.
Qed.

Lemma expect_same c s : expect c (String c s) = Some s.
Proof. cbn. by rewrite bool_decide_eq_true_2. Qed.

Lemma read_two w n c s : 0 <= n < 10 ^ Z.of_nat w → read_num 10 w 0 (num 10 w n +:+ String c s) = Some (n, String c s).
Proof. intros Hn. rewrite read_num_num by lia. by rewrite Z.mod_small by lia. Qed.

Lemma read_fraction_ok us : 0 <= us < 1000000 → read_fraction (fraction us) = Some us.
Proof.
  intros Hu. unfold read_fraction, fraction. destruct (Z.eqb_spec us 0) as [-> |Hne]; [done|].
  rewrite bool_decide_eq_false_2 by done. rewrite expect_same. cbn [mbind option_bind]. rewrite read_num_num by lia.
  cbn [mbind option_bind]. rewrite bool_decide_eq_true_2 by done. by rewrite Z.mod_small by (cbn; lia).
Qed.

(** The parts of the time of day. *)
Lemma clock_parts us : 0 <= us < DAY →
  0 <= us / 3600000000 <= 23 ∧ 0 <= us / 60000000 mod 60 <= 59 ∧ 0 <= us / 1000000 mod 60 <= 59 ∧ 0 <= us mod 1000000 < 1000000 ∧
  us = ((us / 3600000000 * 60 + us / 60000000 mod 60) * 60 + us / 1000000 mod 60) * 1000000 + us mod 1000000.
Proof.
  unfold DAY. intros Hu. assert (us / 60000000 = us / 1000000 / 60) as -> by (by rewrite Z.div_div by lia).
  assert (us / 3600000000 = us / 1000000 / 60 / 60) as -> by (by rewrite !Z.div_div by lia).
  pose proof (Z.div_mod us 1000000 ltac:(lia)). pose proof (Z.mod_pos_bound us 1000000 ltac:(lia)).
  set (s := us / 1000000) in *. set (f := us mod 1000000) in *. clearbody s f.
  pose proof (Z.div_mod s 60 ltac:(lia)). pose proof (Z.mod_pos_bound s 60 ltac:(lia)).
  set (m := s / 60) in *. set (ss := s mod 60) in *. clearbody m ss.
  pose proof (Z.div_mod m 60 ltac:(lia)). pose proof (Z.mod_pos_bound m 60 ltac:(lia)).
  set (h := m / 60) in *. set (mm := m mod 60) in *. clearbody h mm. lia.
Qed.

Theorem fromisoformat_isoformat t : datetime_ok t → fromisoformat (isoformat t) = Some t.
Proof.
  intros Ht. destruct (datetime_date t Ht) as ((Hy & Hm & Hd) & Hy' & E).
  pose proof (clock_parts (t mod DAY) (Z.mod_pos_bound t DAY ltac:(done))) as (Hh & Hmm & Hs & Hu & Et).
  pose proof (Z.div_mod t DAY ltac:(done)) as Edm.
  unfold isoformat. cbn zeta. set (d := ord2ymd _) in *. set (us := t mod DAY) in *.
  assert (days_in_month (is_leap (d_year d)) (d_month d) <= 31) as H31.
  { unfold days_in_month. destruct (_ =? 2); [destruct (is_leap _); lia|]. destruct (_ || _); lia. }
  unfold fromisoformat.
  do 5 (rewrite read_two by (cbn; lia); cbn [mbind option_bind]; rewrite expect_same; cbn [mbind option_bind]).
  rewrite read_num_num by lia. cbn [mbind option_bind]. rewrite read_fraction_ok by done. cbn [mbind option_bind].
  rewrite (Z.mod_small (us / 1000000 mod 60)) by (cbn; lia). rewrite Z.mul_0_l, Z.add_0_l.
  repeat rewrite (proj2 (Z.leb_le _ _)) by lia. cbn [andb]. f_equal.
  replace (mkDate (d_year d) (d_month d) (d_day d)) with d by (by destruct d). rewrite E. lia.
Qed.

#[global] Instance datetime_codec : Codec datetime := mkCodec _ isoformat fromisoformat datetime_ok fromisoformat_isoformat.

(** * The order of the text *)

Lemma compare_const c s s' : String.compare (String c s) (String c s') = String.compare s s'.
Proof. cbn. unfold Ascii.compare. by rewrite N.compare_refl. Qed.

Lemma compare_fraction us us' : 0 <= us < 1000000 → 0 <= us' < 1000000 →
  String.compare (fraction us) (fraction us') = (us ?= us').
Proof.
  intros Hu Hu'. unfold fraction. destruct (Z.eqb_spec us 0) as [-> |H0], (Z.eqb_spec us' 0) as [-> |H0'].
  - done.
  - transitivity Lt; [reflexivity|]. symmetry. apply Z.compare_lt_iff. lia.
  - transitivity Gt; [reflexivity|]. symmetry. apply Z.compare_gt_iff. lia.
  - rewrite compare_const, compare_num by lia. rewrite !Z.mod_small by (cbn; lia). by destruct (us ?= us').
Qed.

Lemma compare_two w n n' c s s' : 0 <= n < 10 ^ Z.of_nat w → 0 <= n' < 10 ^ Z.of_nat w →
  String.compare (num 10 w n +:+ String c s) (num 10 w n' +:+ String c s') =
  match n ?= n' with Eq => String.compare s s' | x => x end.
Proof. intros Hn Hn'. rewrite compare_num by lia. rewrite !Z.mod_small by lia. by rewrite compare_const. Qed.

(** Comparing pairs of a number and the rest, both below [k]. *)
Lemma compare_lex k q q' r r' : 0 <= r < k → 0 <= r' < k → (q * k + r ?= q' * k + r') = match q ?= q' with Eq => r ?= r' | x => x end.
Proof.
  intros Hr Hr'. destruct (Z.compare_spec q q') as [-> |Hlt|Hlt].
  - apply Z.add_compare_mono_l.
  - apply Z.compare_lt_iff. nia.
  - apply Z.compare_gt_iff. nia.
Qed.

Lemma clock_compare h m s f h' m' s' f' :
  0 <= m <= 59 → 0 <= m' <= 59 → 0 <= s <= 59 → 0 <= s' <= 59 → 0 <= f < 1000000 → 0 <= f' < 1000000 →
  (((h * 60 + m) * 60 + s) * 1000000 + f ?= ((h' * 60 + m') * 60 + s') * 1000000 + f') =
  match h ?= h' with Eq => match m ?= m' with Eq => match s ?= s' with Eq => f ?= f' | x => x end | x => x end | x => x end.
Proof. intros. rewrite !compare_lex by lia. by destruct (h ?= h'), (m ?= m'). Qed.

(** The text of a time is less than another exactly when the time is earlier. *)
Theorem isoformat_compare t t' : datetime_ok t → datetime_ok t' → String.compare (isoformat t) (isoformat t') = (t ?= t').
Proof.
  intros Ht Ht'. destruct (datetime_date t Ht) as ((Hy & Hm & Hd) & Hy9 & _). destruct (datetime_date t' Ht') as ((Hy' & Hm' & Hd') & Hy9' & _).
  pose proof (clock_parts (t mod DAY) (Z.mod_pos_bound t DAY ltac:(done))) as (Hh & Hmm & Hs & Hu & Et).
  pose proof (clock_parts (t' mod DAY) (Z.mod_pos_bound t' DAY ltac:(done))) as (Hh' & Hmm' & Hs' & Hu' & Et').
  assert ((t ?= t') = match t / DAY ?= t' / DAY with Eq => t mod DAY ?= t' mod DAY | x => x end) as ->.
  { rewrite <- (compare_lex DAY) by (apply Z.mod_pos_bound; done). f_equal; rewrite Z.mul_comm; by apply Z.div_mod. }
  assert ((t / DAY ?= t' / DAY) = date_compare (ord2ymd (t / DAY + EPOCH)) (ord2ymd (t' / DAY + EPOCH))) as ->.
  { rewrite ord2ymd_compare by (apply Ht || apply Ht'). by rewrite Z.add_comm, (Z.add_comm _ EPOCH), Z.add_compare_mono_l. }
  assert (∀ leap m, days_in_month leap m <= 31) as H31.
  { intros leap m. unfold days_in_month. destruct (m =? 2); [destruct leap; lia|]. destruct (_ || _); lia. }
  pose proof (H31 (is_leap (d_year (ord2ymd (t / DAY + EPOCH)))) (d_month (ord2ymd (t / DAY + EPOCH)))).
  pose proof (H31 (is_leap (d_year (ord2ymd (t' / DAY + EPOCH)))) (d_month (ord2ymd (t' / DAY + EPOCH)))).
  unfold isoformat, date_compare. cbn zeta. set (d := ord2ymd (t / _ + _)) in *. set (d' := ord2ymd (t' / _ + _)) in *.
  rewrite compare_two by (cbn; lia). destruct (d_year d ?= d_year d'); [|done..].
  rewrite compare_two by (cbn; lia). destruct (d_month d ?= d_month d'); [|done..].
  rewrite compare_two by (cbn; lia). destruct (d_day d ?= d_day d'); [|done..].
  set (us := t mod DAY) in *. set (us' := t' mod DAY) in *.
  rewrite !compare_two by (cbn; lia). rewrite compare_num by lia. rewrite compare_fraction by done.
  rewrite (Z.mod_small (us / 1000000 mod 60)), (Z.mod_small (us' / 1000000 mod 60)) by (cbn; lia).
  transitivity (((us / 3600000000 * 60 + us / 60000000 mod 60) * 60 + us / 1000000 mod 60) * 1000000 + us mod 1000000 ?=
    ((us' / 3600000000 * 60 + us' / 60000000 mod 60) * 60 + us' / 1000000 mod 60) * 1000000 + us' mod 1000000); [|by rewrite <- Et, <- Et'].
  by rewrite clock_compare.
Qed.

Example isoformat_epoch : isoformat 0 = "1970-01-01T00:00:00+00:00" ∧ isoformat 1709210096000120 = "2024-02-29T12:34:56.000120+00:00"
  ∧ isoformat (-62135596800000000) = "0001-01-01T00:00:00+00:00".
Proof. vm_compute. repeat split; reflexivity. Qed.
