(* ===== verification/Stores.v ===== *)
(** What a repository of jobs, nodes or API keys promises, whichever backend keeps it
    (src/app/domain/repositories): a table from identifiers to entities in which no
    save moves an entity to another tenant.  Implementations are instances of the
    class [Store]; what its clients rely on is proved against the class. *)
From S2P Require Import Prelude Values Db Repos.
Local Open Scope Z_scope.

Section table.
Context {K A : Type} `{Countable K} (key : A → K) (tenant_of : A → TenantId) (conflict : exn).

(** The abstract table: saving, and reading in one tenant. *)
Definition table_put (x : A) (m : gmap K A) : gmap K A * (exn + unit) :=
  match m !! key x with
  | Some old => if bool_decide (tenant_of old = tenant_of x) then (<[key x := x]> m, inr tt) else (m, inl conflict)
  | None => (<[key x := x]> m, inr tt)
  end.

(** Read, change, save. *)
Definition table_update (k : K) (t : TenantId) (f : A → A) (m : gmap K A) : gmap K A * (exn + bool) :=
  match in_tenant tenant_of t (m !! k) with
  | None => (m, inr false)
  | Some x => match table_put (f x) m with (m', inl e) => (m', inl e) | (m', inr _) => (m', inr true) end
  end.

(** A backend.  [rep s m]: the state [s] holds the table [m].  [storable],
    [arg_ok] and [tenant_ok] say for which entities, identifiers and tenants the laws
    hold. *)
Record Store := mkStore {
  store : Type;
  rep : store → gmap K A → Prop;
  storable : A → Prop;
  arg_ok : K → Prop;
  tenant_ok : TenantId → Prop;
  put : A → store → store * (exn + unit);
  update : K → TenantId → (A → A) → store → store * (exn + bool);
  fetch : K → TenantId → store → exn + option A;
  fetch_any : K → store → exn + option A;
  contents : store → exn + list A;
  put_law s m x : rep s m → storable x → ∃ s', put x s = (s', (table_put x m).2) ∧ rep s' (table_put x m).1;
  update_law s m k t f : rep s m → arg_ok k → tenant_ok t → (∀ x, storable x → storable (f x) ∧ key (f x) = key x ∧ tenant_of (f x) = tenant_of x) →
    ∃ s', update k t f s = (s', (table_update k t f m).2) ∧ rep s' (table_update k t f m).1;
  fetch_law s m k t : rep s m → arg_ok k → tenant_ok t → fetch k t s = inr (in_tenant tenant_of t (m !! k));
  fetch_any_law s m k : rep s m → arg_ok k → fetch_any k s = inr (m !! k);
  contents_law s m : rep s m → ∃ l, contents s = inr l ∧ l ≡ₚ rows m;
}.

(** * Clients *)

Inductive request :=
  | Save (x : A)
  | Change (k : K) (t : TenantId) (f : A → A)
  | Get (k : K) (t : TenantId)
  | GetAny (k : K)
  | List.

Inductive answer := Saved (r : exn + unit) | Changed (r : exn + bool) | Found (r : exn + option A) | Listed (r : exn + list A).

Definition serve_request (S : Store) (q : request) (s : store S) : store S * answer :=
  match q with
  | Save x => let '(s', r) := put S x s in (s', Saved r)
  | Change k t f => let '(s', r) := update S k t f s in (s', Changed r)
  | Get k t => (s, Found (fetch S k t s))
  | GetAny k => (s, Found (fetch_any S k s))
  | List => (s, Listed (contents S s))
  end.

Fixpoint serve_all (S : Store) (l : list request) (s : store S) : store S * list answer :=
  match l with
  | [] => (s, [])
  | q :: l' => let '(s1, a) := serve_request S q s in let '(s2, rest) := serve_all S l' s1 in (s2, a :: rest)
  end.

(** The same answer, but for the order of a list. *)
Inductive same_answer : answer → answer → Prop :=
  | same_listed l l' : l ≡ₚ l' → same_answer (Listed (inr l)) (Listed (inr l'))
  | same_other a : same_answer a a.

(** Requests both backends can serve. *)
Definition request_ok (S : Store) (q : request) : Prop :=
  match q with
  | Save x => storable S x
  | Change k t f => (arg_ok S k ∧ tenant_ok S t) ∧ ∀ x, storable S x → storable S (f x) ∧ key (f x) = key x ∧ tenant_of (f x) = tenant_of x
  | Get k t => arg_ok S k ∧ tenant_ok S t
  | GetAny k => arg_ok S k
  | List => True
  end.

Lemma serve_request_spec S q s m : rep S s m → request_ok S q →
  ∃ m' a s', (∀ S' (t : store S'), rep S' t m → request_ok S' q → ∃ t' a', serve_request S' q t = (t', a') ∧ rep S' t' m' ∧ same_answer a a') ∧
    serve_request S q s = (s', a) ∧ rep S s' m'.
Proof.
  intros Hs Hq. destruct q as [x|k t f|k t|k|]; cbn in *.
  - destruct (put_law S s m x Hs Hq) as (s' & E & Hs'). exists (table_put x m).1, (Saved (table_put x m).2), s'.
    rewrite E. split_and!; try done. intros S' t Ht Hx. destruct (put_law S' t m x Ht Hx) as (t' & E' & Ht'). rewrite E'.
    do 2 eexists. split_and!; [done..|constructor].
  - destruct Hq as [[Hk Hn] Hf]. destruct (update_law S s m k t f Hs Hk Hn Hf) as (s' & E & Hs').
    exists (table_update k t f m).1, (Changed (table_update k t f m).2), s'.
    rewrite E. split_and!; try done. intros S' u Hu [[Hk' Hn'] Hf']. destruct (update_law S' u m k t f Hu Hk' Hn' Hf') as (u' & E' & Hu'). rewrite E'.
    do 2 eexists. split_and!; [done..|constructor].
  - exists m. do 2 eexists. split_and!; [|done..]. intros S' u Hu [Hk Hn]. do 2 eexists. split_and!; [done..|].
    destruct Hq. rewrite (fetch_law S s m), (fetch_law S' u m) by done. constructor.
  - exists m. do 2 eexists. split_and!; [|done..]. intros S' u Hu Hk. do 2 eexists. split_and!; [done..|].
    rewrite (fetch_any_law S s m), (fetch_any_law S' u m) by done. constructor.
  - exists m. do 2 eexists. split_and!; [|done..]. intros S' u Hu _. do 2 eexists. split_and!; [done..|].
    destruct (contents_law S s m Hs) as (l & -> & Hl). destruct (contents_law S' u m Hu) as (l' & -> & Hl'). constructor. by rewrite Hl, Hl'.
Qed.

Lemma stores_agree S1 S2 l s1 s2 m : rep S1 s1 m → rep S2 s2 m →
  Forall (request_ok S1) l → Forall (request_ok S2) l →
  let '(s1', as1) := serve_all S1 l s1 in let '(s2', as2) := serve_all S2 l s2 in
  Forall2 same_answer as1 as2 ∧ ∃ m', rep S1 s1' m' ∧ rep S2 s2' m'.
Proof.
  revert s1 s2 m. induction l as [|q l IH]; intros s1 s2 m H1 H2 Hq1 Hq2; cbn; [eauto|].
  apply Forall_cons in Hq1 as [Hq1 Hl1]. apply Forall_cons in Hq2 as [Hq2 Hl2].
  destruct (serve_request_spec S1 q s1 m H1 Hq1) as (m' & a & s1' & Hspec & E1 & H1').
  destruct (Hspec S2 s2 H2 Hq2) as (s2' & a' & E2 & H2' & Ha). rewrite E1, E2.
  specialize (IH s1' s2' m' H1' H2' Hl1 Hl2). destruct (serve_all S1 l s1') as [s1'' as1], (serve_all S2 l s2') as [s2'' as2].
  destruct IH as [IH Hm]. split; [by constructor|done].
Qed.

(** * Tables in insertion order *)

(** A dict and the rowids of a table keep the order of the first insertions. *)
Fixpoint put_in (x : A) (xs : list A) : list A * bool :=
  match xs with
  | [] => ([x], true)
  | y :: xs' =>
      if bool_decide (key y = key x) then (if bool_decide (tenant_of y = tenant_of x) then (x :: xs', true) else (y :: xs', false))
      else ((y :: (put_in x xs').1), (put_in x xs').2)
  end.

Definition table_of (xs : list A) : gmap K A := list_to_map ((λ x, (key x, x)) <$> xs).

Lemma keys_of_pairs xs : ((λ x, (key x, x)) <$> xs).*1 = key <$> xs.
Proof. induction xs; cbn; by f_equal. Qed.

Lemma values_of_pairs xs : ((λ x, (key x, x)) <$> xs).*2 = xs.
Proof. induction xs; cbn; by f_equal. Qed.

Lemma rows_table_of xs : NoDup (key <$> xs) → xs ≡ₚ rows (table_of xs).
Proof. intros Hn. unfold rows, table_of. rewrite map_to_list_to_map by (by rewrite keys_of_pairs). by rewrite values_of_pairs. Qed.

Lemma table_of_head k xs : table_of xs !! k = head (filter (λ x, key x = k) xs).
Proof.
  induction xs as [|x xs IH]; [done|]. change (table_of (x :: xs)) with (<[key x := x]> (table_of xs)). rewrite filter_cons.
  case_decide as Hk; cbn; [by rewrite Hk, lookup_insert_eq|by rewrite lookup_insert_ne].
Qed.

Lemma head_in_tenant k t xs : NoDup (key <$> xs) →
  head (filter (λ x, key x = k ∧ tenant_of x = t) xs) = in_tenant tenant_of t (head (filter (λ x, key x = k) xs)).
Proof.
  induction xs as [|x xs IH]; [done|]. intros [Hx Hn]%NoDup_cons. specialize (IH Hn). rewrite !filter_cons.
  destruct (decide (key x = k)) as [Hk|Hk]; destruct (decide (key x = k ∧ tenant_of x = t)) as [Ht|Ht]; cbn [head in_tenant]; try tauto.
  - rewrite bool_decide_eq_true_2 by apply Ht. done.
  - rewrite bool_decide_eq_false_2 by tauto. rewrite IH. clear IH.
    induction xs as [|y xs IH']; [done|]. rewrite filter_cons_False; [apply IH'|].
    + intros ?. apply Hx. by right.
    + by apply NoDup_cons in Hn as [_ ?].
    + intros Hy. apply Hx. rewrite Hk, <- Hy. left.
Qed.

Lemma put_in_keys x xs : key <$> (put_in x xs).1 = if bool_decide (key x ∈ key <$> xs) then key <$> xs else (key <$> xs) ++ [key x].
Proof.
  induction xs as [|y xs IH]; cbn; [done|]. destruct (decide (key y = key x)) as [Hk|Hk].
  - rewrite (bool_decide_eq_true_2 (key y = key x)) by done. rewrite (bool_decide_eq_true_2 (key x ∈ _)) by (rewrite Hk; left).
    clear IH. case_bool_decide; [rewrite Hk|]; reflexivity.
  - rewrite (bool_decide_eq_false_2 (key y = key x)) by done. cbn. rewrite IH.
    destruct (decide (key x ∈ key <$> xs)).
    + by rewrite !bool_decide_eq_true_2 by (try right; done).
    + rewrite !bool_decide_eq_false_2; [done| |done]. intros [?|?]%elem_of_cons; [congruence|done].
Qed.

Lemma put_in_nodup x xs : NoDup (key <$> xs) → NoDup (key <$> (put_in x xs).1).
Proof.
  intros Hn. rewrite put_in_keys. case_bool_decide as Hx; [done|]. apply NoDup_app. split_and!; [done| |apply NoDup_singleton].
  intros k Hk ->%list_elem_of_singleton. done.
Qed.

Lemma put_in_forall (P : A → Prop) x xs : P x → Forall P xs → Forall P (put_in x xs).1.
Proof.
  intros Hx. induction 1 as [|y xs Hy Hl IH]; cbn; [by constructor|]. repeat case_bool_decide; by constructor.
Qed.

Lemma table_put_in x xs :
  table_put x (table_of xs) = (table_of (put_in x xs).1, if (put_in x xs).2 then inr tt else inl conflict).
Proof.
  unfold table_put. induction xs as [|y xs IH]; [done|]. change (table_of (y :: xs)) with (<[key y := y]> (table_of xs)). cbn [put_in].
  destruct (decide (key y = key x)) as [Hk|Hk].
  - rewrite (bool_decide_eq_true_2 (key y = key x)), Hk, lookup_insert_eq by done. case_bool_decide; cbn; [|by rewrite Hk].
    by rewrite insert_insert_eq.
  - rewrite (bool_decide_eq_false_2 (key y = key x)), lookup_insert_ne by done. cbn [fst snd].
    change (table_of (y :: ?l)) with (<[key y := y]> (table_of l)).
    destruct (table_of xs !! key x) as [old|] eqn:Ho; [case_bool_decide|]; injection IH as IH <-; rewrite IH || rewrite <- IH; try done; by rewrite insert_insert_ne.
Qed.

Lemma put_in_change k x y xs : NoDup (key <$> xs) → head (filter (λ z, key z = k) xs) = Some x → key y = k → tenant_of y = tenant_of x →
  put_in y xs = ((λ z, if bool_decide (key z = k) then y else z) <$> xs, true).
Proof.
  intros Hn Hx <- Ht. induction xs as [|z xs IH]; [done|]. apply NoDup_cons in Hn as [Hz Hn]. rewrite filter_cons in Hx.
  rewrite fmap_cons. cbn [put_in]. case_decide as Hk.
  - injection Hx as ->. rewrite (bool_decide_eq_true_2 _ Hk), (bool_decide_eq_true_2 (tenant_of x = _)) by done. f_equal. f_equal.
    clear -Hz Hk. induction xs as [|z xs IH]; [done|]. rewrite fmap_cons. rewrite bool_decide_eq_false_2.
    + f_equal. apply IH. intros ?. apply Hz. by right.
    + intros E. apply Hz. rewrite Hk, <- E. left.
  - rewrite (bool_decide_eq_false_2 _ Hk), IH by done. done.
Qed.
End table.

Arguments tenant_ok {K A _ _ key tenant_of conflict}.
Arguments store {K A _ _ key tenant_of conflict}.
Arguments rep {K A _ _ key tenant_of conflict}.
Arguments storable {K A _ _ key tenant_of conflict}.
Arguments arg_ok {K A _ _ key tenant_of conflict}.
Arguments put {K A _ _ key tenant_of conflict}.
Arguments update {K A _ _ key tenant_of conflict}.
Arguments fetch {K A _ _ key tenant_of conflict}.
Arguments fetch_any {K A _ _ key tenant_of conflict}.
Arguments contents {K A _ _ key tenant_of conflict}.
Arguments serve_request {K A _ _ key tenant_of conflict}.
Arguments serve_all {K A _ _ key tenant_of conflict}.
Arguments request_ok {K A _ _ key tenant_of conflict}.
Arguments Save {K A}.
Arguments Change {K A}.
Arguments Get {K A}.
Arguments GetAny {K A}.
Arguments List {K A}.
