(* ===== verification/Sqlite.v ===== *)
(** The SQLite repositories
    (src/app/infrastructure/repositories/sqlite_job_repository.py,
    sqlite_node_repository.py, sqlite_event_repository.py): tables of text and
    numbers in a file, upgraded in place when they come from an older release.

    A file holds for each table its columns that were added over time and its rows in
    the order of their rowids.  A connection sees its own uncommitted changes: as in
    the sqlite3 module, INSERT, UPDATE and DELETE open a transaction if none is
    open, CREATE and ALTER do not, and [commit] makes the changes durable.  A SELECT
    without ORDER BY returns rows by rowid.

    Rows are those the repositories wrote: of the forms that [UUID], [fromisoformat]
    and [json.loads] accept, Text.v and Calendar.v read those. *)
From S2P Require Import Prelude Values Job Node Float64 Execution ApiKey Worker Db Prog Repos Text Calendar Stores.
From Stdlib Require Import Floats.SpecFloat.
Local Open Scope Z_scope.

(** * timedelta(seconds=x) *)

(** The whole part of [m * 2 ^ e] and the rest, over [2 ^ -e]. *)
Definition modf (m : positive) (e : Z) : Z * Z :=
  if 0 <=? e then (Zpos m * 2 ^ e, 0) else (Zpos m / 2 ^ (- e), Zpos m mod 2 ^ (- e)).

(** Microseconds of a positive float.  The fraction of a second is multiplied as a
    float, and what is left below a microsecond is rounded half to even. *)
Definition microseconds (m : positive) (e : Z) : Z :=
  let '(whole, rest) := modf m e in
  if rest =? 0 then whole * 1000000
  else
    match fmul (exact_of_Z 1000000) (binary_normalize 53 1024 rest e false) with
    | S754_finite _ m' e' =>
        let '(us, below) := modf m' e' in
        let total := whole * 1000000 + us in
        let twice := 2 * below in
        let unit := 2 ^ (- e') in
        if (unit <? twice) || ((twice =? unit) && Z.odd total) then total + 1 else total
    | _ => whole * 1000000
    end.

Definition timedelta_of_seconds (x : float) : exn + timedelta :=
  match x with
  | S754_zero _ => inr 0
  | S754_finite s m e =>
      let us := if s then - microseconds m e else microseconds m e in
      if (- 999999999 * DAY <=? us) && (us <? 1000000000 * DAY) then inr us else inl OverflowError
  | S754_infinity _ => inl OverflowError
  | S754_nan => inl (ValueError "cannot convert float NaN to integer")
  end.

(** * Rows *)

Record job_row := mkJobRow {
  jr_id : string;
  jr_cpu_cores : Z; jr_memory_mib : Z; jr_vram_mib : Z;
  jr_priority : Z;
  jr_constraints : string;
  jr_max_retries : Z; jr_retry_count : Z;
  jr_status : string;
  jr_assigned_node_id : option string;
  jr_submitted_at : string;
  jr_started_at : option string; jr_completed_at : option string;
  jr_command : option string;
  jr_exit_code : option Z;
  jr_cancellation_requested_at : option string;
  jr_execution_timeout_seconds : option float;
  jr_tenant_id : option string;
}.

Record node_row := mkNodeRow {
  nr_id : string;
  nr_name : string;
  nr_capacity : Z * Z * Z; nr_available : Z * Z * Z;
  nr_labels : string;
  nr_last_seen_at : string;
  nr_draining : Z;
  nr_tenant_id : option string;
}.

Record event_row := mkEventRow {
  er_id : string;
  er_aggregate_id : string; er_aggregate_type : string; er_event_type : string;
  er_occurred_at : string;
  er_payload : string;
  er_tenant_id : option string;
}.

(** A table: which of the later columns it has, and its rows.  A row of a table
    without a column has NULL there. *)
Record table (R : Type) := mkTable { has_tenant : bool; has_timeout : bool; t_rows : list R }.
Arguments mkTable {R}.
Arguments has_tenant {R}.
Arguments has_timeout {R}.
Arguments t_rows {R}.

Record file := mkFile { f_jobs : option (table job_row); f_nodes : option (table node_row); f_events : option (table event_row) }.

(** A connection: what it sees, what is on disk, and whether a transaction is open. *)
Record connection := mkConnection { c_file : file; c_disk : file; in_transaction : bool }.

Abbreviation sqliteM := (stM connection exn).

Definition dml {A} (f : file → file * A) : sqliteM A := λ c,
  let '(g, a) := f (c_file c) in (mkConnection g (c_disk c) true, inr a).
Definition ddl (f : file → file) : sqliteM unit := λ c,
  let g := f (c_file c) in (mkConnection g (if in_transaction c then c_disk c else g) (in_transaction c), inr tt).
Definition commit : sqliteM unit := λ c, (mkConnection (c_file c) (c_file c) false, inr tt).
Definition select {A} (f : file → A) : sqliteM A := gets (λ c, f (c_file c)).

(** What is left when the process dies. *)
Definition reopen (c : connection) : connection := mkConnection (c_disk c) (c_disk c) false.

Definition set_jobs_table (t : table job_row) (g : file) : file := mkFile (Some t) (f_nodes g) (f_events g).
Definition set_nodes_table (t : table node_row) (g : file) : file := mkFile (f_jobs g) (Some t) (f_events g).
Definition set_events_table (t : table event_row) (g : file) : file := mkFile (f_jobs g) (f_nodes g) (Some t).

Definition rows_of {R} (o : option (table R)) : list R := match o with Some t => t_rows t | None => [] end.
Definition with_rows {R} (f : list R → list R) (o : option (table R)) : table R :=
  match o with Some t => mkTable (has_tenant t) (has_timeout t) (f (t_rows t)) | None => mkTable true true (f []) end.

(** [CREATE TABLE IF NOT EXISTS] and [ALTER TABLE ... ADD COLUMN] *)
Definition created {R} (o : option (table R)) : table R := match o with Some t => t | None => mkTable true true [] end.
Definition add_tenant {R} (o : option (table R)) : table R := match created o with mkTable _ b l => mkTable true b l end.
Definition add_timeout {R} (o : option (table R)) : table R := match created o with mkTable a _ l => mkTable a true l end.

Definition DEFAULT_TENANT_ID : TenantId := mkTenantId 1.

(** Integers are bound as 64 bits. *)
Definition fits (z : Z) : bool := (- 2 ^ 63 <=? z) && (z <? 2 ^ 63).

(** The binding of the parameters fails after the transaction was opened. *)
Definition bind (zs : list Z) : sqliteM unit := λ c,
  let c' := mkConnection (c_file c) (c_disk c) true in
  if forallb fits zs then (c', inr tt) else (c', inl OverflowError).

(** [INSERT ... ON CONFLICT(id) DO UPDATE SET ... WHERE t.tenant_id = excluded.tenant_id]:
    the rows, and how many were written. *)
Section upsert.
Context {R : Type} (id_of : R → string) (tenant_of : R → option string).

Definition same_tenant (r old : R) : bool :=
  match tenant_of old, tenant_of r with Some a, Some b => bool_decide (a = b) | _, _ => false end.

Fixpoint upsert (r : R) (l : list R) : list R * nat :=
  match l with
  | [] => ([r], 1%nat)
  | old :: l' =>
      if bool_decide (id_of old = id_of r) then (if same_tenant r old then (r :: l', 1%nat) else (old :: l', 0%nat))
      else let '(l'', n) := upsert r l' in (old :: l'', n)
  end.

Definition find_row (id : string) (l : list R) : option R := head (filter (λ r, id_of r = id) l).
End upsert.

(** [[f(row) for row in rows]] *)
Fixpoint each {A B} (f : A → exn + B) (l : list A) : exn + list B :=
  match l with
  | [] => inr []
  | x :: l' => match f x with inl e => inl e | inr y => match each f l' with inl e => inl e | inr ys => inr (y :: ys) end end
  end.

(** [row = ....fetchone()], [None] if there is none, else [f(row)] *)
Definition fetchone {A B} (f : A → exn + B) (o : option A) : exn + option B :=
  match o with None => inr None | Some r => match f r with inl e => inl e | inr x => inr (Some x) end end.

(** * SqliteJobRepository *)

Module SqliteJobRepository.

Definition jobs (f : option (table job_row) → table job_row) (g : file) : file := set_jobs_table (f (f_jobs g)) g.

Definition backfill (r : job_row) : job_row :=
  match jr_tenant_id r with
  | Some _ => r
  | None =>
      mkJobRow (jr_id r) (jr_cpu_cores r) (jr_memory_mib r) (jr_vram_mib r) (jr_priority r) (jr_constraints r)
        (jr_max_retries r) (jr_retry_count r) (jr_status r) (jr_assigned_node_id r) (jr_submitted_at r) (jr_started_at r)
        (jr_completed_at r) (jr_command r) (jr_exit_code r) (jr_cancellation_requested_at r)
        (jr_execution_timeout_seconds r) (Some (enc DEFAULT_TENANT_ID))
  end.

Definition create_table : sqliteM unit := ddl (jobs created).
Definition add_tenant_column : sqliteM unit :=
  has ← select (λ g, has_tenant (created (f_jobs g)));
  if has : bool then mret tt else ddl (jobs add_tenant).
Definition backfill_tenants : sqliteM unit := dml (λ g, (jobs (with_rows (fmap backfill)) g, tt)).
Definition _upgrade_tenant_column : sqliteM unit := add_tenant_column ;; backfill_tenants.

Definition _upgrade_execution_timeout_column : sqliteM unit :=
  has ← select (λ g, has_timeout (created (f_jobs g)));
  if has : bool then mret tt else ddl (jobs add_timeout).

Definition __init__ : sqliteM unit :=
  create_table ;; _upgrade_tenant_column ;; _upgrade_execution_timeout_column ;; commit.

Definition row_of_job (j : job) : job_row :=
  mkJobRow (enc (j_id j)) (cpu_cores (j_resources j)) (memory_mib (j_resources j)) (vram_mib (j_resources j)) (j_priority j)
    (enc (j_constraints j)) (j_max_retries j) (j_retry_count j) (enc (j_status j)) (enc_opt (j_assigned_node_id j))
    (isoformat (j_submitted_at j)) (enc_opt (H:=datetime_codec) (j_started_at j)) (enc_opt (H:=datetime_codec) (j_completed_at j))
    (enc_opt (j_command j))
    (j_exit_code j) (enc_opt (H:=datetime_codec) (j_cancellation_requested_at j)) (Some (total_seconds (j_execution_timeout j)))
    (Some (enc (j_tenant_id j))).

Definition save (j : job) : sqliteM unit :=
  bind ([cpu_cores (j_resources j); memory_mib (j_resources j); vram_mib (j_resources j); j_priority j; j_max_retries j; j_retry_count j]
        ++ option_list (j_exit_code j)) ;;
  rowcount ← dml (λ g, let '(l, n) := upsert jr_id jr_tenant_id (row_of_job j) (rows_of (f_jobs g)) in (jobs (with_rows (λ _, l)) g, n));
  if (rowcount =? 0)%nat then raise JobTenantConflictError else commit.

(** [None]: a text that does not parse, a ValueError *)
Definition parse_row (r : job_row) : option (timedelta → job) :=
  node ← dec_opt (jr_assigned_node_id r);
  command ← dec_opt (jr_command r);
  id ← dec (jr_id r);
  t ← (jr_tenant_id r ≫= dec);
  constraints ← dec (jr_constraints r);
  status ← dec (jr_status r);
  submitted ← fromisoformat (jr_submitted_at r);
  started ← dec_opt (H:=datetime_codec) (jr_started_at r);
  completed ← dec_opt (H:=datetime_codec) (jr_completed_at r);
  requested ← dec_opt (H:=datetime_codec) (jr_cancellation_requested_at r);
  Some (λ timeout, mkJob id (mkResources (jr_cpu_cores r) (jr_memory_mib r) (jr_vram_mib r)) t (jr_priority r) constraints
    (jr_max_retries r) (jr_retry_count r) timeout status node submitted started completed requested command (jr_exit_code r)).

Definition _row_to_job (r : job_row) : exn + job :=
  match parse_row r with
  | None => inl (ValueError "badly formed row")
  | Some build =>
      match match jr_execution_timeout_seconds r with Some x => timedelta_of_seconds x | None => inr DEFAULT_EXECUTION_TIMEOUT end with
      | inl e => inl e
      | inr timeout => JobRepository._to_entity (build timeout)
      end
  end.

Definition job_rows (c : connection) : list job_row := rows_of (f_jobs (c_file c)).

Definition get_by_id (k : JobId) (t : TenantId) (c : connection) : exn + option job :=
  fetchone _row_to_job (head (filter (λ r, jr_id r = enc k ∧ jr_tenant_id r = Some (enc t)) (job_rows c))).

Definition get_by_id_across_tenants (k : JobId) (c : connection) : exn + option job := fetchone _row_to_job (find_row jr_id (enc k) (job_rows c)).

Definition list_queued (t : TenantId) (c : connection) : exn + list job :=
  each _row_to_job (filter (λ r, jr_status r = enc QUEUED ∧ jr_tenant_id r = Some (enc t)) (job_rows c)).

Definition list_across_tenants (c : connection) : exn + list job := each _row_to_job (job_rows c).

(** [ORDER BY submitted_at DESC LIMIT ?]: by the bytes of the text; of rows with one
    text the earlier rowid comes first here. *)
Fixpoint insert_by_text (r : job_row) (l : list job_row) : list job_row :=
  match l with
  | [] => [r]
  | x :: l' => if String.leb (jr_submitted_at x) (jr_submitted_at r) then r :: l else x :: insert_by_text r l'
  end.
Definition list_recent (limit : nat) (t : TenantId) (c : connection) : exn + list job :=
  each _row_to_job (take limit (foldr insert_by_text [] (filter (λ r, jr_tenant_id r = Some (enc t)) (job_rows c)))).
End SqliteJobRepository.

(** * SqliteNodeRepository *)

Module SqliteNodeRepository.

Definition nodes (f : option (table node_row) → table node_row) (g : file) : file := set_nodes_table (f (f_nodes g)) g.

Definition backfill (r : node_row) : node_row :=
  match nr_tenant_id r with
  | Some _ => r
  | None => mkNodeRow (nr_id r) (nr_name r) (nr_capacity r) (nr_available r) (nr_labels r) (nr_last_seen_at r) (nr_draining r)
              (Some (enc DEFAULT_TENANT_ID))
  end.

Definition create_table : sqliteM unit := ddl (nodes created).
Definition add_tenant_column : sqliteM unit :=
  has ← select (λ g, has_tenant (created (f_nodes g)));
  if has : bool then mret tt else ddl (nodes add_tenant).
Definition backfill_tenants : sqliteM unit := dml (λ g, (nodes (with_rows (fmap backfill)) g, tt)).
Definition _upgrade_tenant_column : sqliteM unit := add_tenant_column ;; backfill_tenants.

Definition __init__ : sqliteM unit := create_table ;; _upgrade_tenant_column ;; commit.

Definition triple (r : ResourceRequirements) : Z * Z * Z := (cpu_cores r, memory_mib r, vram_mib r).
Definition resources (x : Z * Z * Z) : ResourceRequirements := mkResources x.1.1 x.1.2 x.2.

Definition row_of_node (n : node) : node_row :=
  mkNodeRow (enc (n_id n)) (n_name n) (triple (n_capacity n)) (triple (n_available n)) (enc (n_labels n))
    (isoformat (n_last_seen_at n)) (if n_draining n then 1 else 0) (Some (enc (n_tenant_id n))).

Definition save (n : node) : sqliteM unit :=
  bind [cpu_cores (n_capacity n); memory_mib (n_capacity n); vram_mib (n_capacity n);
        cpu_cores (n_available n); memory_mib (n_available n); vram_mib (n_available n)] ;;
  rowcount ← dml (λ g, let '(l, k) := upsert nr_id nr_tenant_id (row_of_node n) (rows_of (f_nodes g)) in (nodes (with_rows (λ _, l)) g, k));
  if (rowcount =? 0)%nat then raise NodeTenantConflictError else commit.

Definition delete (k : NodeId) (t : TenantId) : sqliteM unit :=
  dml (λ g, (nodes (with_rows (filter (λ r, ¬ (nr_id r = enc k ∧ nr_tenant_id r = Some (enc t))))) g, tt)) ;; commit.

Definition parse_row (r : node_row) : option node :=
  id ← dec (nr_id r);
  t ← (nr_tenant_id r ≫= dec);
  labels ← dec (nr_labels r);
  seen ← fromisoformat (nr_last_seen_at r);
  Some (mkNode id (resources (nr_capacity r)) t (nr_name r) labels seen (negb (nr_draining r =? 0)) (resources (nr_available r))).

Definition _row_to_node (r : node_row) : exn + node :=
  match parse_row r with None => inl (ValueError "badly formed row") | Some n => NodeRepository._to_entity n end.

Definition node_rows (c : connection) : Datatypes.list node_row := rows_of (f_nodes (c_file c)).

Definition get_by_id (k : NodeId) (t : TenantId) (c : connection) : exn + option node :=
  fetchone _row_to_node (head (filter (λ r, nr_id r = enc k ∧ nr_tenant_id r = Some (enc t)) (node_rows c))).

Definition get_by_id_across_tenants (k : NodeId) (c : connection) : exn + option node := fetchone _row_to_node (find_row nr_id (enc k) (node_rows c)).

Definition list (t : TenantId) (c : connection) : exn + Datatypes.list node :=
  each _row_to_node (filter (λ r, nr_tenant_id r = Some (enc t)) (node_rows c)).

Definition list_across_tenants (c : connection) : exn + Datatypes.list node := each _row_to_node (node_rows c).

(** [clock i] is what [utc_now()] reads for the node at place [i]. *)
Definition list_available_across_tenants (clock : nat → datetime) (c : connection) : exn + Datatypes.list node :=
  match list_across_tenants c with
  | inl e => inl e
  | inr l => inr ((filter (λ p, is_alive (clock p.1) p.2 = true ∧ is_draining p.2 = false) (imap pair l)).*2)
  end.
End SqliteNodeRepository.

(** * SqliteEventRepository *)

Module SqliteEventRepository.

Definition events (f : option (table event_row) → table event_row) (g : file) : file := set_events_table (f (f_events g)) g.

(** Old events keep a NULL tenant. *)
Definition _upgrade_tenant_column : sqliteM unit :=
  has ← select (λ g, has_tenant (created (f_events g)));
  if has : bool then mret tt else ddl (events add_tenant).

Definition create_table : sqliteM unit := ddl (events created).
Definition __init__ : sqliteM unit := create_table ;; _upgrade_tenant_column ;; commit.

Definition row_of_event (e : event) : event_row :=
  mkEventRow (enc (e_id e)) (enc (e_aggregate_id e)) (e_aggregate_type e) (e_event_type e) (isoformat (e_occurred_at e))
    (enc (e_payload e)) (Some (enc (e_tenant_id e))).

(** The primary key refuses a second event with the identifier; the statement then
    leaves its transaction open. *)
Definition save (e : event) : sqliteM unit :=
  taken ← dml (λ g, let l := rows_of (f_events g) in
                     if existsb (λ r, bool_decide (er_id r = enc (e_id e))) l then (g, true)
                     else (events (with_rows (λ _, l ++ [row_of_event e])) g, false));
  if taken : bool then raise (UniqueViolation "events.id") else commit.

Definition parse_row (r : event_row) : option event :=
  id ← dec (er_id r);
  aggregate ← dec (er_aggregate_id r);
  t ← (er_tenant_id r ≫= dec);
  occurred ← fromisoformat (er_occurred_at r);
  payload ← dec (er_payload r);
  Some (mkEvent id aggregate (er_aggregate_type r) (er_event_type r) t occurred payload).

Definition row_to_event (r : event_row) : exn + event :=
  match parse_row r with None => inl (ValueError "badly formed row") | Some e => inr e end.

Definition event_rows (c : connection) : Datatypes.list event_row := rows_of (f_events (c_file c)).

Definition list (t : TenantId) (c : connection) : exn + Datatypes.list event :=
  each row_to_event (filter (λ r, er_tenant_id r = Some (enc t)) (event_rows c)).

Definition list_by_aggregate (j : JobId) (t : TenantId) (c : connection) : exn + Datatypes.list event :=
  each row_to_event (filter (λ r, er_aggregate_id r = enc j ∧ er_tenant_id r = Some (enc t)) (event_rows c)).
End SqliteEventRepository.

(** * What is stored is what is read *)

(** A timeout that its number of seconds, as a float, determines. *)
Definition timeout_kept (d : timedelta) : Prop := timedelta_of_seconds (total_seconds d) = inr d.

Lemma default_timeout_kept : timeout_kept DEFAULT_EXECUTION_TIMEOUT.
Proof. vm_compute. reflexivity. Qed.

Record job_storable (j : job) : Prop := mkJobStorable {
  js_id : enc_ok (j_id j);
  js_tenant : enc_ok (j_tenant_id j);
  js_node : opt_ok (j_assigned_node_id j);
  js_submitted : datetime_ok (j_submitted_at j);
  js_started : opt_ok (H:=datetime_codec) (j_started_at j);
  js_completed : opt_ok (H:=datetime_codec) (j_completed_at j);
  js_requested : opt_ok (H:=datetime_codec) (j_cancellation_requested_at j);
  js_timeout : timeout_kept (j_execution_timeout j);
  js_ints : forallb fits ([cpu_cores (j_resources j); memory_mib (j_resources j); vram_mib (j_resources j); j_priority j;
    j_max_retries j; j_retry_count j] ++ option_list (j_exit_code j)) = true;
  js_valid : job_row_ok j;
}.

Lemma dec_id_enc `{Codec A} a : enc_ok a → dec (enc a) = Some a.
Proof. apply dec_enc. Qed.

Lemma row_to_job_of j : job_storable j → SqliteJobRepository._row_to_job (SqliteJobRepository.row_of_job j) = inr j.
Proof.
  intros [Hid Ht Hn Hs Hst Hc Hr Hto _ Hv]. unfold SqliteJobRepository._row_to_job, SqliteJobRepository.parse_row, SqliteJobRepository.row_of_job.
  cbn [SqliteJobRepository.row_of_job jr_id jr_assigned_node_id jr_command jr_tenant_id jr_constraints jr_status jr_submitted_at jr_started_at
    jr_completed_at jr_cancellation_requested_at jr_execution_timeout_seconds jr_cpu_cores jr_memory_mib jr_vram_mib jr_priority jr_max_retries
    jr_retry_count jr_exit_code].
  rewrite (dec_enc_opt (j_assigned_node_id j)) by done. cbn [mbind option_bind].
  rewrite (dec_enc_opt (j_command j)) by (by destruct (j_command j)). cbn [mbind option_bind].
  rewrite (dec_enc (j_id j)) by done. cbn [mbind option_bind]. rewrite (dec_enc (j_tenant_id j)) by done. cbn [mbind option_bind].
  rewrite (dec_enc (j_constraints j)) by done. cbn [mbind option_bind]. rewrite (dec_enc (j_status j)) by done. cbn [mbind option_bind].
  rewrite fromisoformat_isoformat by done. cbn [mbind option_bind].
  rewrite (dec_enc_opt (H:=datetime_codec) (j_started_at j)) by done. cbn [mbind option_bind].
  rewrite (dec_enc_opt (H:=datetime_codec) (j_completed_at j)) by done. cbn [mbind option_bind].
  rewrite (dec_enc_opt (H:=datetime_codec) (j_cancellation_requested_at j)) by done. cbn [mbind option_bind].
  unfold timeout_kept in Hto. rewrite Hto. replace (mkJob _ _ _ _ _ _ _ _ _ _ _ _ _ _ _ _) with j by (by destruct j as [? [] ]).
  by apply job_to_entity_ok.
Qed.

Record node_storable (n : node) : Prop := mkNodeStorable {
  ns_id : enc_ok (n_id n);
  ns_tenant : enc_ok (n_tenant_id n);
  ns_seen : datetime_ok (n_last_seen_at n);
  ns_ints : forallb fits [cpu_cores (n_capacity n); memory_mib (n_capacity n); vram_mib (n_capacity n);
        cpu_cores (n_available n); memory_mib (n_available n); vram_mib (n_available n)] = true;
  ns_valid : node_row_ok n;
}.

Lemma row_to_node_of n : node_storable n → SqliteNodeRepository._row_to_node (SqliteNodeRepository.row_of_node n) = inr n.
Proof.
  intros [Hid Ht Hs _ Hv]. unfold SqliteNodeRepository._row_to_node, SqliteNodeRepository.parse_row, SqliteNodeRepository.row_of_node.
  cbn [nr_id nr_tenant_id nr_labels nr_last_seen_at nr_capacity nr_available nr_name nr_draining].
  rewrite (dec_enc (n_id n)) by done. cbn [mbind option_bind]. rewrite (dec_enc (n_tenant_id n)) by done. cbn [mbind option_bind].
  rewrite (dec_enc (n_labels n)) by done. cbn [mbind option_bind]. rewrite fromisoformat_isoformat by done. cbn [mbind option_bind].
  replace (mkNode _ _ _ _ _ _ _ _) with n by (by destruct n as [? [] ? ? ? ? [] []]). by apply node_to_entity_ok.
Qed.

(** * Tables of rows *)

Lemma Forall_filter {A} (P Q : A → Prop) `{!∀ x, Decision (Q x)} l : Forall P l → Forall P (filter Q l).
Proof. rewrite !Forall_forall. intros Hl x [_ Hx]%list_elem_of_filter. auto. Qed.

Lemma NoDup_fmap_filter {A B} (f : A → B) (Q : A → Prop) `{!∀ x, Decision (Q x)} l : NoDup (f <$> l) → NoDup (f <$> filter Q l).
Proof.
  induction l as [|x l IH]; [done|]. rewrite fmap_cons, filter_cons, NoDup_cons. intros [Hx Hn]. case_decide; [|auto].
  rewrite fmap_cons. apply NoDup_cons. split; [|auto]. intros (y & Hy & [_ ?]%list_elem_of_filter)%list_elem_of_fmap.
  apply Hx. rewrite Hy. by apply list_elem_of_fmap_2.
Qed.

Section rows.
Context {K A R : Type} `{Countable K, Codec K} (key : A → K) (tenant_of : A → TenantId) (ok : A → Prop) (conflict : exn).
Context (row_of : A → R) (of_row : R → exn + A) (id_of : R → string) (tenant_col : R → option string).
Context (Hid : ∀ x, id_of (row_of x) = enc (key x)) (Htenant : ∀ x, tenant_col (row_of x) = Some (enc (tenant_of x))).
Context (Hrow : ∀ x, ok x → of_row (row_of x) = inr x) (Hkey : ∀ x, ok x → enc_ok (key x) ∧ enc_ok (tenant_of x)).

Lemma enc_key_iff x k : ok x → enc_ok k → id_of (row_of x) = enc k ↔ key x = k.
Proof. intros Hx Hk. rewrite Hid. split; [|by intros ->]. apply enc_inj; [by apply Hkey|done]. Qed.

Lemma enc_tenant_iff x (t : TenantId) : ok x → enc_ok t → tenant_col (row_of x) = Some (enc t) ↔ tenant_of x = t.
Proof. intros Hx Ht. rewrite Htenant. split; [|by intros ->]. intros He%(inj Some). apply enc_inj in He; [done|by apply Hkey|done]. Qed.

Lemma upsert_rows x xs : ok x → Forall ok xs →
  upsert id_of tenant_col (row_of x) (row_of <$> xs) =
    (row_of <$> (put_in key tenant_of x xs).1, if (put_in key tenant_of x xs).2 then 1%nat else 0%nat).
Proof.
  intros Hx. induction 1 as [|y xs Hy _ IH]; [done|]. rewrite fmap_cons. cbn [upsert put_in]. unfold same_tenant. rewrite !Hid, !Htenant.
  rewrite (bool_decide_ext (enc (key y) = enc (key x)) (key y = key x)) by (rewrite <- Hid; apply enc_key_iff; [done|by apply Hkey]).
  rewrite (bool_decide_ext (enc (tenant_of y) = enc (tenant_of x)) (tenant_of y = tenant_of x)).
  { rewrite IH. clear IH. repeat case_bool_decide; reflexivity. }
  rewrite <- (enc_tenant_iff y (tenant_of x)), Htenant by (done || by apply Hkey). split; [by intros ->|apply (inj Some)].
Qed.

Lemma filter_rows (P : R → Prop) (Q : A → Prop) `{!∀ r, Decision (P r), !∀ x, Decision (Q x)} xs : Forall ok xs →
  (∀ x, ok x → P (row_of x) ↔ Q x) → filter P (row_of <$> xs) = row_of <$> filter Q xs.
Proof.
  intros Hxs HPQ. induction Hxs as [|x xs Hx _ IH]; [done|]. rewrite fmap_cons, !filter_cons, IH.
  specialize (HPQ x Hx). repeat case_decide; tauto || done.
Qed.

Lemma each_rows xs : Forall ok xs → each of_row (row_of <$> xs) = inr xs.
Proof. induction 1 as [|x xs Hx _ IH]; cbn; [done|]. change (list_fmap _ _ row_of xs) with (row_of <$> xs). by rewrite Hrow, IH. Qed.

(** The rows are the entities [xs]. *)
Definition holds_rows (l : list R) (xs : list A) : Prop := l = row_of <$> xs ∧ NoDup (key <$> xs) ∧ Forall ok xs.

Lemma holds_rows_put l xs x : holds_rows l xs → ok x →
  upsert id_of tenant_col (row_of x) l = (row_of <$> (put_in key tenant_of x xs).1, if (put_in key tenant_of x xs).2 then 1%nat else 0%nat)
  ∧ holds_rows (row_of <$> (put_in key tenant_of x xs).1) (put_in key tenant_of x xs).1.
Proof.
  intros (-> & Hn & Hok) Hx. split; [by apply upsert_rows|]. split_and!; [done|by apply put_in_nodup|by apply put_in_forall].
Qed.

(** ** A repository over a table is a store *)

Context (rows_in : connection → list R) (ready : connection → Prop) (save : A → sqliteM unit).
Context (Hsave : ∀ c xs x, ready c → holds_rows (rows_in c) xs → ok x →
  ∃ c', save x c = (c', if (put_in key tenant_of x xs).2 then inr tt else inl conflict) ∧ ready c'
    ∧ rows_in c' = row_of <$> (put_in key tenant_of x xs).1).

Definition sqlite_get (k : K) (t : TenantId) (c : connection) : exn + option A :=
  fetchone of_row (head (filter (λ r, id_of r = enc k ∧ tenant_col r = Some (enc t)) (rows_in c))).
Definition sqlite_get_any (k : K) (c : connection) : exn + option A := fetchone of_row (find_row id_of (enc k) (rows_in c)).

(** Read, change, save. *)
Definition sqlite_update (k : K) (t : TenantId) (f : A → A) (c : connection) : connection * (exn + bool) :=
  match sqlite_get k t c with
  | inl e => (c, inl e)
  | inr None => (c, inr false)
  | inr (Some x) => match save (f x) c with (c', inl e) => (c', inl e) | (c', inr _) => (c', inr true) end
  end.

Definition sqlite_rep (c : connection) (m : gmap K A) : Prop := ready c ∧ ∃ xs, holds_rows (rows_in c) xs ∧ m = table_of key xs.

Lemma fetchone_rows xs : Forall ok xs → fetchone of_row (head (row_of <$> xs)) = inr (head xs).
Proof. intros [|x xs' Hx _]; [done|]. cbn. by rewrite Hrow. Qed.

Lemma sqlite_get_law c m k t : sqlite_rep c m → enc_ok k → enc_ok t → sqlite_get k t c = inr (in_tenant tenant_of t (m !! k)).
Proof.
  intros (_ & xs & (Hl & Hn & Hok) & ->) Hk Ht. unfold sqlite_get. rewrite Hl, (filter_rows _ (λ x, key x = k ∧ tenant_of x = t)) by
    (done || (intros; by rewrite enc_key_iff, enc_tenant_iff)).
  rewrite fetchone_rows by (by apply Forall_filter). by rewrite head_in_tenant, table_of_head.
Qed.

Lemma sqlite_get_any_law c m k : sqlite_rep c m → enc_ok k → sqlite_get_any k c = inr (m !! k).
Proof.
  intros (_ & xs & (Hl & Hn & Hok) & ->) Hk. unfold sqlite_get_any, find_row. rewrite Hl, (filter_rows _ (λ x, key x = k)) by
    (done || (intros; by apply enc_key_iff)).
  rewrite fetchone_rows by (by apply Forall_filter). by rewrite table_of_head.
Qed.

Lemma sqlite_put_law c m x : sqlite_rep c m → ok x →
  ∃ c', save x c = (c', (table_put key tenant_of conflict x m).2) ∧ sqlite_rep c' (table_put key tenant_of conflict x m).1.
Proof.
  intros (Hr & xs & Hxs & ->) Hx. destruct (Hsave c xs x Hr Hxs Hx) as (c' & E & Hr' & Hl'). exists c'. rewrite table_put_in. cbn.
  split; [done|]. split; [done|]. eexists. split; [|done]. rewrite Hl'. by eapply holds_rows_put.
Qed.

Lemma sqlite_ok c m k x : sqlite_rep c m → m !! k = Some x → ok x ∧ key x = k.
Proof.
  intros (_ & xs & (_ & _ & Hok) & ->) Hm. rewrite table_of_head in Hm.
  assert (x ∈ filter (λ x, key x = k) xs) as [Hk Hx]%list_elem_of_filter by (destruct (filter _ _); [done|injection Hm as ->; left]).
  rewrite Forall_forall in Hok. auto.
Qed.

Lemma sqlite_update_law c m k t f : sqlite_rep c m → enc_ok k → enc_ok t →
  (∀ x, ok x → ok (f x) ∧ key (f x) = key x ∧ tenant_of (f x) = tenant_of x) →
  ∃ c', sqlite_update k t f c = (c', (table_update key tenant_of conflict k t f m).2)
    ∧ sqlite_rep c' (table_update key tenant_of conflict k t f m).1.
Proof.
  intros Hc Hk Ht Hf. unfold sqlite_update, table_update. rewrite (sqlite_get_law c m) by done.
  destruct (in_tenant tenant_of t (m !! k)) as [x|] eqn:Hx; [|by exists c].
  assert (m !! k = Some x) as Hm by (destruct (m !! k); [|done]; cbn in Hx; by case_bool_decide).
  destruct (sqlite_put_law c m (f x) Hc) as (c' & E & Hc'); [by apply Hf, (sqlite_ok c m k)|]. rewrite E. exists c'.
  by destruct (table_put key tenant_of conflict (f x) m) as [m' [?|?]].
Qed.

Lemma sqlite_contents_law c m : sqlite_rep c m → ∃ l, each of_row (rows_in c) = inr l ∧ l ≡ₚ rows m.
Proof. intros (_ & xs & (Hl & Hn & Hok) & ->). exists xs. rewrite Hl, each_rows by done. split; [done|by apply rows_table_of]. Qed.

Definition sqlite_store : Store key tenant_of conflict :=
  mkStore key tenant_of conflict connection sqlite_rep ok enc_ok enc_ok save sqlite_update sqlite_get sqlite_get_any (λ c, each of_row (rows_in c))
    sqlite_put_law sqlite_update_law sqlite_get_law sqlite_get_any_law sqlite_contents_law.
End rows.

(** * The repositories *)

Definition jobs_ready (c : connection) : Prop := ∃ t, f_jobs (c_file c) = Some t ∧ has_tenant t = true ∧ has_timeout t = true.
Definition nodes_ready (c : connection) : Prop := ∃ t, f_nodes (c_file c) = Some t ∧ has_tenant t = true.

Lemma job_ids_ok j : job_storable j → enc_ok (j_id j) ∧ enc_ok (j_tenant_id j).
Proof. by intros []. Qed.
Lemma node_ids_ok n : node_storable n → enc_ok (n_id n) ∧ enc_ok (n_tenant_id n).
Proof. by intros []. Qed.

Abbreviation job_rows_hold := (holds_rows j_id job_storable SqliteJobRepository.row_of_job).
Abbreviation node_rows_hold := (holds_rows n_id node_storable SqliteNodeRepository.row_of_node).

(** A save that returns is on disk. *)
Lemma sqlite_save_job c xs j : jobs_ready c → job_rows_hold (SqliteJobRepository.job_rows c) xs → job_storable j →
  ∃ c', SqliteJobRepository.save j c = (c', if (put_in j_id j_tenant_id j xs).2 then inr tt else inl JobTenantConflictError)
    ∧ jobs_ready c' ∧ SqliteJobRepository.job_rows c' = SqliteJobRepository.row_of_job <$> (put_in j_id j_tenant_id j xs).1
    ∧ ((put_in j_id j_tenant_id j xs).2 = true → c_disk c' = c_file c' ∧ in_transaction c' = false)
    ∧ f_nodes (c_file c') = f_nodes (c_file c) ∧ f_events (c_file c') = f_events (c_file c).
Proof.
  intros (t & Ht & Hten & Hto) Hxs Hj.
  destruct (holds_rows_put j_id j_tenant_id job_storable SqliteJobRepository.row_of_job jr_id jr_tenant_id
    (λ _, eq_refl) (λ _, eq_refl) job_ids_ok _ _ j Hxs Hj) as [E _].
  unfold SqliteJobRepository.save, bind, dml. stM_unfold. rewrite (js_ints j Hj). cbn [c_file].
  change (rows_of (f_jobs (c_file c))) with (SqliteJobRepository.job_rows c). rewrite E. unfold jobs_ready, SqliteJobRepository.job_rows.
  destruct (put_in j_id j_tenant_id j xs) as [xs' []]; eexists; (split; [reflexivity|]);
    unfold SqliteJobRepository.jobs, with_rows; rewrite Ht; cbn; split_and!; eauto; done.
Qed.

Lemma sqlite_save_node c xs n : nodes_ready c → node_rows_hold (SqliteNodeRepository.node_rows c) xs → node_storable n →
  ∃ c', SqliteNodeRepository.save n c = (c', if (put_in n_id n_tenant_id n xs).2 then inr tt else inl NodeTenantConflictError)
    ∧ nodes_ready c' ∧ SqliteNodeRepository.node_rows c' = SqliteNodeRepository.row_of_node <$> (put_in n_id n_tenant_id n xs).1
    ∧ ((put_in n_id n_tenant_id n xs).2 = true → c_disk c' = c_file c' ∧ in_transaction c' = false)
    ∧ f_jobs (c_file c') = f_jobs (c_file c) ∧ f_events (c_file c') = f_events (c_file c).
Proof.
  intros (t & Ht & Hten) Hxs Hn.
  destruct (holds_rows_put n_id n_tenant_id node_storable SqliteNodeRepository.row_of_node nr_id nr_tenant_id
    (λ _, eq_refl) (λ _, eq_refl) node_ids_ok _ _ n Hxs Hn) as [E _].
  unfold SqliteNodeRepository.save, bind, dml. stM_unfold. rewrite (ns_ints n Hn). cbn [c_file].
  change (rows_of (f_nodes (c_file c))) with (SqliteNodeRepository.node_rows c). rewrite E. unfold nodes_ready, SqliteNodeRepository.node_rows.
  destruct (put_in n_id n_tenant_id n xs) as [xs' []]; eexists; (split; [reflexivity|]);
    unfold SqliteNodeRepository.nodes, with_rows; rewrite Ht; cbn; split_and!; eauto; done.
Qed.

Lemma job_save_law c xs x : jobs_ready c → job_rows_hold (SqliteJobRepository.job_rows c) xs → job_storable x →
  ∃ c', SqliteJobRepository.save x c = (c', if (put_in j_id j_tenant_id x xs).2 then inr tt else inl JobTenantConflictError) ∧ jobs_ready c'
    ∧ SqliteJobRepository.job_rows c' = SqliteJobRepository.row_of_job <$> (put_in j_id j_tenant_id x xs).1.
Proof. intros Hc Hxs Hx. destruct (sqlite_save_job c xs x Hc Hxs Hx) as (c' & ? & ? & ? & _). by exists c'. Qed.

Lemma node_save_law c xs x : nodes_ready c → node_rows_hold (SqliteNodeRepository.node_rows c) xs → node_storable x →
  ∃ c', SqliteNodeRepository.save x c = (c', if (put_in n_id n_tenant_id x xs).2 then inr tt else inl NodeTenantConflictError) ∧ nodes_ready c'
    ∧ SqliteNodeRepository.node_rows c' = SqliteNodeRepository.row_of_node <$> (put_in n_id n_tenant_id x xs).1.
Proof. intros Hc Hxs Hx. destruct (sqlite_save_node c xs x Hc Hxs Hx) as (c' & ? & ? & ? & _). by exists c'. Qed.

(** The two repositories keep the contract of a store. *)
Definition sqlite_jobs : Store j_id j_tenant_id JobTenantConflictError :=
  sqlite_store j_id j_tenant_id job_storable JobTenantConflictError SqliteJobRepository.row_of_job SqliteJobRepository._row_to_job
    jr_id jr_tenant_id (λ _, eq_refl) (λ _, eq_refl) row_to_job_of job_ids_ok
    SqliteJobRepository.job_rows jobs_ready SqliteJobRepository.save job_save_law.

Definition sqlite_nodes : Store n_id n_tenant_id NodeTenantConflictError :=
  sqlite_store n_id n_tenant_id node_storable NodeTenantConflictError SqliteNodeRepository.row_of_node SqliteNodeRepository._row_to_node
    nr_id nr_tenant_id (λ _, eq_refl) (λ _, eq_refl) row_to_node_of node_ids_ok
    SqliteNodeRepository.node_rows nodes_ready SqliteNodeRepository.save node_save_law.

(** ** Lists *)

Lemma leb_text t t' : datetime_ok t → datetime_ok t' → String.leb (isoformat t) (isoformat t') = (t <=? t').
Proof. intros Ht Ht'. unfold String.leb. rewrite isoformat_compare by done. unfold Z.leb. by destruct (t ?= t'). Qed.

Lemma insert_by_text_rows j js : job_storable j → Forall job_storable js →
  SqliteJobRepository.insert_by_text (SqliteJobRepository.row_of_job j) (SqliteJobRepository.row_of_job <$> js)
    = SqliteJobRepository.row_of_job <$> insert_desc j_submitted_at j js.
Proof.
  intros Hj. induction 1 as [|x js Hx _ IH]; [done|]. rewrite fmap_cons. cbn [SqliteJobRepository.insert_by_text insert_desc].
  change (jr_submitted_at (SqliteJobRepository.row_of_job ?y)) with (isoformat (j_submitted_at y)).
  rewrite leb_text by (by apply js_submitted). destruct (_ <=? _); [done|]. by rewrite IH.
Qed.

Lemma sort_by_text_rows js : Forall job_storable js →
  foldr SqliteJobRepository.insert_by_text [] (SqliteJobRepository.row_of_job <$> js) = SqliteJobRepository.row_of_job <$> sort_desc j_submitted_at js.
Proof.
  induction 1 as [|j js Hj Hjs IH]; [done|]. rewrite fmap_cons. cbn [foldr]. rewrite IH. apply insert_by_text_rows; [done|]. by rewrite sort_desc_perm.
Qed.

Section job_lists.
Context (c : connection) (xs : list job) (Hxs : job_rows_hold (SqliteJobRepository.job_rows c) xs).

Lemma sqlite_list_queued t : enc_ok t → SqliteJobRepository.list_queued t c = inr (filter (λ j, j_status j = QUEUED ∧ j_tenant_id j = t) xs).
Proof.
  intros Ht. destruct Hxs as (Hl & _ & Hok). unfold SqliteJobRepository.list_queued. rewrite Hl.
  rewrite (filter_rows job_storable SqliteJobRepository.row_of_job _ (λ j, j_status j = QUEUED ∧ j_tenant_id j = t)); [|done|].
  - by apply (each_rows job_storable _ _ row_to_job_of), Forall_filter.
  - intros j Hj. rewrite (enc_tenant_iff j_id j_tenant_id job_storable SqliteJobRepository.row_of_job jr_tenant_id (λ _, eq_refl)
      job_ids_ok) by done. cbn. split; [|by intros [-> ?]]. intros [He ?]. split; [|done]. by apply (enc_inj (A:=JobStatus)).
Qed.

(** [ORDER BY submitted_at DESC] on texts is the order of the times. *)
Lemma sqlite_list_recent limit t : enc_ok t →
  SqliteJobRepository.list_recent limit t c = inr (take limit (sort_desc j_submitted_at (filter (λ j, j_tenant_id j = t) xs))).
Proof.
  intros Ht. destruct Hxs as (Hl & _ & Hok). unfold SqliteJobRepository.list_recent. rewrite Hl.
  rewrite (filter_rows job_storable SqliteJobRepository.row_of_job _ (λ j, j_tenant_id j = t)); [|done|].
  - rewrite sort_by_text_rows, <- fmap_take by (by apply Forall_filter). apply (each_rows job_storable _ _ row_to_job_of).
    apply Forall_take. rewrite sort_desc_perm. by apply Forall_filter.
  - intros j Hj. by apply (enc_tenant_iff j_id j_tenant_id job_storable SqliteJobRepository.row_of_job jr_tenant_id (λ _, eq_refl)
      job_ids_ok).
Qed.
End job_lists.

Section node_lists.
Context (c : connection) (xs : list node) (Hxs : node_rows_hold (SqliteNodeRepository.node_rows c) xs).

Lemma node_tenant_iff n (t : TenantId) : node_storable n → enc_ok t → nr_tenant_id (SqliteNodeRepository.row_of_node n) = Some (enc t) ↔ n_tenant_id n = t.
Proof. apply (enc_tenant_iff n_id n_tenant_id node_storable SqliteNodeRepository.row_of_node nr_tenant_id (λ _, eq_refl)
  node_ids_ok). Qed.

Lemma sqlite_list_nodes t : enc_ok t → SqliteNodeRepository.list t c = inr (filter (λ n, n_tenant_id n = t) xs).
Proof.
  intros Ht. destruct Hxs as (Hl & _ & Hok). unfold SqliteNodeRepository.list. rewrite Hl.
  rewrite (filter_rows node_storable SqliteNodeRepository.row_of_node _ (λ n, n_tenant_id n = t)); [|done|intros; by apply node_tenant_iff].
  by apply (each_rows node_storable _ _ row_to_node_of), Forall_filter.
Qed.

(** Alive and not draining, by the clock as it is read for each node. *)
Lemma sqlite_list_available clock : SqliteNodeRepository.list_available_across_tenants clock c =
  inr ((filter (λ p, is_alive (clock p.1) p.2 = true ∧ is_draining p.2 = false) (imap pair xs)).*2).
Proof.
  destruct Hxs as (Hl & _ & Hok). unfold SqliteNodeRepository.list_available_across_tenants, SqliteNodeRepository.list_across_tenants.
  rewrite Hl. by rewrite (each_rows node_storable _ _ row_to_node_of).
Qed.

(** A delete removes the node of this tenant, at once on disk. *)
Lemma sqlite_delete_node k t : enc_ok k → enc_ok t → nodes_ready c →
  ∃ c', SqliteNodeRepository.delete k t c = (c', inr tt) ∧ c_disk c' = c_file c' ∧ in_transaction c' = false ∧ nodes_ready c' ∧
    node_rows_hold (SqliteNodeRepository.node_rows c') (filter (λ n, ¬ (n_id n = k ∧ n_tenant_id n = t)) xs).
Proof.
  intros Hk Ht (tb & Htb & Hten). destruct Hxs as (Hl & Hn & Hok). eexists. split; [reflexivity|].
  unfold nodes_ready, SqliteNodeRepository.node_rows, SqliteNodeRepository.nodes, with_rows, holds_rows in *. rewrite Htb in *.
  cbn [c_file c_disk in_transaction set_nodes_table f_nodes rows_of t_rows] in *. split_and!; try done.
  - by eexists.
  - rewrite Hl. apply (filter_rows node_storable); [done|]. intros n Hn'. rewrite node_tenant_iff by done.
    by rewrite (enc_key_iff n_id n_tenant_id node_storable SqliteNodeRepository.row_of_node nr_id (λ _, eq_refl) node_ids_ok).
  - by apply NoDup_fmap_filter.
  - by apply Forall_filter.
Qed.
End node_lists.

(** ** Events *)

Record event_storable (e : event) : Prop := mkEventStorable {
  es_id : enc_ok (e_id e);
  es_aggregate : enc_ok (e_aggregate_id e);
  es_tenant : enc_ok (e_tenant_id e);
  es_occurred : datetime_ok (e_occurred_at e);
}.

Lemma row_to_event_of e : event_storable e → SqliteEventRepository.row_to_event (SqliteEventRepository.row_of_event e) = inr e.
Proof.
  intros [Hid Ha Ht Ho]. unfold SqliteEventRepository.row_to_event, SqliteEventRepository.parse_row, SqliteEventRepository.row_of_event.
  cbn [er_id er_aggregate_id er_aggregate_type er_event_type er_occurred_at er_payload er_tenant_id].
  rewrite (dec_enc (e_id e)) by done. cbn [mbind option_bind]. rewrite (dec_enc (e_aggregate_id e)) by done. cbn [mbind option_bind].
  rewrite (dec_enc (e_tenant_id e)) by done. cbn [mbind option_bind]. rewrite fromisoformat_isoformat by done. cbn [mbind option_bind].
  rewrite (dec_enc (e_payload e)) by done. cbn [mbind option_bind]. by destruct e.
Qed.

(** The log: the events saved, in the order of the saves, and older ones without a tenant. *)
Definition events_hold (l : list event_row) (es : list event) : Prop :=
  ∃ old, l = old ++ (SqliteEventRepository.row_of_event <$> es) ∧ Forall (λ r, er_tenant_id r = None) old ∧ Forall event_storable es.

Lemma each_filtered_events l es (P : event_row → Prop) (Q : event → Prop) `{!∀ r, Decision (P r), !∀ x, Decision (Q x)} :
  events_hold l es → (∀ r, P r → er_tenant_id r ≠ None) → (∀ e, event_storable e → P (SqliteEventRepository.row_of_event e) ↔ Q e) →
  each SqliteEventRepository.row_to_event (filter P l) = inr (filter Q es).
Proof.
  intros (old & -> & Hold & Hes) HP HPQ. rewrite filter_app, (filter_rows event_storable SqliteEventRepository.row_of_event P Q) by done.
  replace (filter P old) with (@nil event_row).
  - by apply (each_rows event_storable _ _ row_to_event_of), Forall_filter.
  - induction Hold as [|r old Hr _ IH]; [done|]. rewrite filter_cons_False; [done|]. intros Hp. by apply (HP r).
Qed.

Lemma event_tenant_iff e (t : TenantId) : event_storable e → enc_ok t → er_tenant_id (SqliteEventRepository.row_of_event e) = Some (enc t) ↔ e_tenant_id e = t.
Proof. intros He Ht. cbn [er_tenant_id SqliteEventRepository.row_of_event]. split; [|by intros ->]. intros Heq%(inj Some). apply enc_inj in Heq; [done|by apply He|done]. Qed.

(** An event without a tenant is shown to nobody, the others to their tenant, in order. *)
Lemma sqlite_list_events c es t : events_hold (SqliteEventRepository.event_rows c) es → enc_ok t →
  SqliteEventRepository.list t c = inr (filter (λ e, e_tenant_id e = t) es).
Proof. intros Hes Ht. apply each_filtered_events; [done|by intros r ->|]. intros e He. by apply event_tenant_iff. Qed.

Lemma sqlite_list_by_aggregate c es k t : events_hold (SqliteEventRepository.event_rows c) es → enc_ok k → enc_ok t →
  SqliteEventRepository.list_by_aggregate k t c = inr (filter (λ e, e_aggregate_id e = k ∧ e_tenant_id e = t) es).
Proof.
  intros Hes Hk Ht. apply each_filtered_events; [done|by intros r [_ ->]|]. intros e He. rewrite event_tenant_iff by done.
  cbn [er_aggregate_id SqliteEventRepository.row_of_event]. split; [|by intros [-> ?]]. intros [Heq ?]. split; [|done]. apply enc_inj in Heq; [done|by apply He|done].
Qed.

(** A new event goes to the end of the log, at once on disk. *)
Lemma sqlite_save_event c es e : events_hold (SqliteEventRepository.event_rows c) es → event_storable e → is_Some (f_events (c_file c)) →
  Forall (λ r, er_id r ≠ enc (e_id e)) (SqliteEventRepository.event_rows c) →
  ∃ c', SqliteEventRepository.save e c = (c', inr tt) ∧ c_disk c' = c_file c' ∧ in_transaction c' = false ∧
    events_hold (SqliteEventRepository.event_rows c') (es ++ [e]).
Proof.
  intros (old & Hl & Hold & Hes) He [tb Htb] Hfresh. unfold SqliteEventRepository.save, dml. stM_unfold.
  replace (existsb _ _) with false.
  - eexists. split; [reflexivity|]. unfold SqliteEventRepository.event_rows, SqliteEventRepository.events, with_rows in *. rewrite Htb in *.
    cbn [c_file c_disk in_transaction set_events_table f_events rows_of t_rows] in *. split_and!; [done..|]. exists old. rewrite Hl, fmap_app, app_assoc.
    split_and!; [done|done|]. apply Forall_app. by split; [|apply Forall_singleton].
  - symmetry. change (rows_of _) with (SqliteEventRepository.event_rows c). clear Hl. induction Hfresh as [|r l Hr _ IH]; [done|]. cbn [existsb].
    by rewrite (bool_decide_eq_false_2 _ Hr).
Qed.

(** A save that fails leaves the transaction it began open. *)
Lemma failed_save_keeps_transaction j c c' e : SqliteJobRepository.save j c = (c', inl e) → in_transaction c' = true ∧ c_disk c' = c_disk c.
Proof.
  unfold SqliteJobRepository.save, bind, dml, commit. stM_unfold. destruct (forallb _ _); [|by intros [= <- _]].
  destruct (upsert _ _ _ _) as [l n]. destruct (n =? 0)%nat; [by intros [= <- _]|done].
Qed.

(** * Opening a file of an older release *)

(** [_build_repositories]: the three repositories are built on one connection. *)
Definition open_repositories : sqliteM unit :=
  SqliteJobRepository.__init__ ;; SqliteNodeRepository.__init__ ;; SqliteEventRepository.__init__.

(** The statements this executes: the process may die between any two. *)
Definition startup : list (sqliteM unit) :=
  [ SqliteJobRepository.create_table; SqliteJobRepository.add_tenant_column; SqliteJobRepository.backfill_tenants;
    SqliteJobRepository._upgrade_execution_timeout_column; commit;
    SqliteNodeRepository.create_table; SqliteNodeRepository.add_tenant_column; SqliteNodeRepository.backfill_tenants; commit;
    SqliteEventRepository.create_table; SqliteEventRepository._upgrade_tenant_column; commit ].

Definition run_statements (l : list (sqliteM unit)) (c : connection) : connection := foldl (λ c m, (m c).1) c l.

(** A start that died after [n] statements, and a number of those. *)
Definition died_after (c : connection) (n : nat) : connection := reopen (run_statements (take n startup) c).

Definition upgraded (g : file) : file :=
  mkFile (Some (mkTable true true (SqliteJobRepository.backfill <$> rows_of (f_jobs g))))
    (Some (mkTable true (has_timeout (created (f_nodes g))) (SqliteNodeRepository.backfill <$> rows_of (f_nodes g))))
    (Some (mkTable true (has_timeout (created (f_events g))) (rows_of (f_events g)))).

Lemma backfill_job_twice (l : list job_row) : SqliteJobRepository.backfill <$> (SqliteJobRepository.backfill <$> l) = SqliteJobRepository.backfill <$> l.
Proof. rewrite <- list_fmap_compose. apply list_fmap_ext. intros _ r _. cbn. unfold SqliteJobRepository.backfill. by destruct (jr_tenant_id r) eqn:E; [rewrite E|]. Qed.

Lemma backfill_node_twice (l : list node_row) : SqliteNodeRepository.backfill <$> (SqliteNodeRepository.backfill <$> l) = SqliteNodeRepository.backfill <$> l.
Proof. rewrite <- list_fmap_compose. apply list_fmap_ext. intros _ r _. cbn. unfold SqliteNodeRepository.backfill. by destruct (nr_tenant_id r) eqn:E; [rewrite E|]. Qed.

(** On the way, what is seen and what is on disk both lead to the same file. *)
Definition leads_to (u : file) (c : connection) : Prop := upgraded (c_file c) = u ∧ upgraded (c_disk c) = u.

Lemma ddl_leads u f c : (∀ g, upgraded (f g) = upgraded g) → leads_to u c → leads_to u (ddl f c).1.
Proof. intros Hf [H1 H2]. unfold leads_to, ddl. cbn. rewrite Hf. split; [done|]. destruct (in_transaction c); [done|by rewrite Hf]. Qed.

Lemma dml_leads {A} u (f : file → file * A) c : (∀ g, upgraded (f g).1 = upgraded g) → leads_to u c → leads_to u (dml f c).1.
Proof. intros Hf [H1 H2]. unfold leads_to, dml. specialize (Hf (c_file c)). destruct (f (c_file c)). cbn in *. by rewrite Hf. Qed.

Lemma commit_leads u c : leads_to u c → leads_to u (commit c).1.
Proof. by intros [? _]. Qed.

Lemma unless_leads u (b : file → bool) (m : sqliteM unit) c : leads_to u c → (leads_to u c → leads_to u (m c).1) →
  leads_to u ((has ← select b; if has : bool then mret tt else m) c).1.
Proof. intros Hc Hm. unfold select. stM_unfold. destruct (b (c_file c)); [done|by apply Hm]. Qed.

Lemma startup_leads u : Forall (λ m : sqliteM unit, ∀ c, leads_to u c → leads_to u (m c).1) startup.
Proof.
  unfold startup. repeat (apply Forall_cons; split); try apply Forall_nil_2; intros c Hc; (apply commit_leads || apply unless_leads || idtac); try done; try intros _;
    (apply ddl_leads || apply dml_leads); try done; intros g; unfold upgraded; destruct g as [[[]|] [[]|] [[]|]]; cbn;
    rewrite ?backfill_job_twice, ?backfill_node_twice; reflexivity.
Qed.

Lemma statements_lead u l c : Forall (λ m : sqliteM unit, ∀ c, leads_to u c → leads_to u (m c).1) l → leads_to u c → leads_to u (run_statements l c).
Proof. intros Hl. revert c. induction Hl as [|m l Hm _ IH]; intros c Hc; cbn; [done|]. by apply IH, Hm. Qed.

Lemma died_leads u c ns : leads_to u c → leads_to u (foldl died_after c ns).
Proof.
  revert c. induction ns as [|n ns IH]; intros c Hc; cbn; [done|]. apply IH. unfold died_after, reopen.
  destruct (statements_lead u (take n startup) c) as [_ ?]; [|done|done]. apply Forall_take, startup_leads.
Qed.

Lemma died_closed c ns : in_transaction c = false → in_transaction (foldl died_after c ns) = false.
Proof. revert c. induction ns as [|n ns IH]; intros c Hc; cbn; [done|]. by apply IH. Qed.

(** A start executes its statements, and ends with the upgraded file on disk. *)
Lemma open_repositories_runs c : in_transaction c = false →
  open_repositories c = (run_statements startup c, inr tt) ∧
  run_statements startup c = mkConnection (upgraded (c_file c)) (upgraded (c_file c)) false.
Proof.
  destruct c as [[oj on oe] d b]. cbn. intros ->.
  destruct oj as [[[] [] lj]|], on as [[[] bn ln]|], oe as [[[] be le]|]; split; reflexivity.
Qed.


(** ** A saved job survives the process *)

Lemma job_rows_after_restart c : in_transaction c = false → jobs_ready c → Forall (λ r, is_Some (jr_tenant_id r)) (SqliteJobRepository.job_rows c) →
  SqliteJobRepository.job_rows (open_repositories c).1 = SqliteJobRepository.job_rows c ∧ jobs_ready (open_repositories c).1.
Proof.
  intros Hb _ Hr. destruct (open_repositories_runs c Hb) as [-> ->]. split; [|by eexists]. cbn.
  change (rows_of (f_jobs (c_file c))) with (SqliteJobRepository.job_rows c). induction Hr as [|r l [x Hx] _ IH]; [done|].
  rewrite fmap_cons, IH. f_equal. unfold SqliteJobRepository.backfill. by rewrite Hx.
Qed.


(** A first start on an empty disk, and one job. *)
Definition empty_file : file := mkFile None None None.
Definition fresh : connection := Eval vm_compute in (open_repositories (mkConnection empty_file empty_file false)).1.
Definition stored_job : job :=
  mkJob (mkJobId 77) (mkResources 2 512 0) DEFAULT_TENANT_ID 5 {["gpu" := "a100"]} 3 0 DEFAULT_EXECUTION_TIMEOUT QUEUED None 1000000 None None None
    (Some ["sh"; "-c"; "true"]) None.

Lemma stored_job_storable : job_storable stored_job.
Proof. split; try (vm_compute; done). all: try apply default_timeout_kept. all: unfold opt_ok; try done. Qed.

Definition after_save : connection := Eval vm_compute in (SqliteJobRepository.save stored_job fresh).1.

