(* ===== verification/Memory.v ===== *)
(** The in-memory repositories (src/app/infrastructure/repositories/in_memory_*.py).

    They keep references to the entities, not copies: a caller that holds the object a
    repository returned changes what the repository holds.  So entities live in a heap,
    a list of objects in which a reference is a position, and a repository is a dict
    from identifiers to references, in the order of the first insertions. *)
From S2P Require Import Prelude Values Job Node Float64 Execution ApiKey Worker Db Prog Repos Stores.
Local Open Scope Z_scope.

(** * Objects and dicts *)

Abbreviation ref := nat.

Record memory (K V : Type) := mkMemory { heap : list V; dict : list (K * ref) }.
Arguments mkMemory {K V}.
Arguments heap {K V}.
Arguments dict {K V}.

Section memory.
Context {K V : Type} `{EqDecision K}.
Implicit Types (m : memory K V) (d : list (K * ref)).

(** A new object, and an assignment to the fields of one. *)
Definition alloc (v : V) m : memory K V * ref := (mkMemory (heap m ++ [v]) (dict m), length (heap m)).
Definition mutate (p : ref) (f : V → V) m : memory K V := mkMemory (alter f p (heap m)) (dict m).

(** [d.get(k)], [d[k] = p], [del d[k]] *)
Fixpoint dict_get (k : K) d : option ref :=
  match d with [] => None | (k', p) :: d' => if bool_decide (k' = k) then Some p else dict_get k d' end.
Fixpoint dict_set (k : K) (p : ref) d : list (K * ref) :=
  match d with [] => [(k, p)] | (k', q) :: d' => if bool_decide (k' = k) then (k', p) :: d' else (k', q) :: dict_set k p d' end.
Fixpoint dict_del (k : K) d : list (K * ref) :=
  match d with [] => [] | (k', q) :: d' => if bool_decide (k' = k) then d' else (k', q) :: dict_del k d' end.

Definition set_dict d m : memory K V := mkMemory (heap m) d.

(** The objects of the dict's values, and those that satisfy a condition. *)
Definition values m : list (ref * V) := omap (λ e, v ← heap m !! e.2; Some (e.2, v)) (dict m).
Definition where_ (P : V → Prop) `{!∀ v, Decision (P v)} m : list ref := (filter (λ x, P x.2) (values m)).*1.

Section owned.
Context (key : V → K) (tenant_of : V → TenantId) (conflict : exn).

(** [save] of the repositories that refuse another tenant's entity *)
Definition save_owned (p : ref) : stM (memory K V) exn unit := λ m,
  match heap m !! p with
  | None => (m, inr tt)
  | Some v =>
      match (dict_get (key v) (dict m) ≫= λ q, heap m !! q) with
      | Some existing =>
          if bool_decide (tenant_of existing = tenant_of v) then (set_dict (dict_set (key v) p (dict m)) m, inr tt)
          else (m, inl conflict)
      | None => (set_dict (dict_set (key v) p (dict m)) m, inr tt)
      end
  end.

(** [self._entities.get(id)], and the test of its tenant *)
Definition find_any (k : K) m : option ref := dict_get k (dict m).
Definition find_in (k : K) (t : TenantId) m : option ref :=
  match find_any k m with
  | None => None
  | Some p =>
      match heap m !! p with
      | Some v => if bool_decide (tenant_of v = t) then Some p else None
      | None => None
      end
  end.

Definition delete_in (k : K) (t : TenantId) m : memory K V :=
  match find_in k t m with Some _ => set_dict (dict_del k (dict m)) m | None => m end.

Definition save_plain (p : ref) m : memory K V :=
  match heap m !! p with Some v => set_dict (dict_set (key v) p (dict m)) m | None => m end.
End owned.
End memory.

(** * The repositories *)

Module InMemoryJobRepository.
Abbreviation jobs := (memory JobId job).
Definition save (p : ref) : stM jobs exn unit := save_owned j_id j_tenant_id JobTenantConflictError p.
Definition clear (m : jobs) : jobs := set_dict [] m.
Definition get_by_id (j : JobId) (t : TenantId) (m : jobs) : option ref := find_in j_tenant_id j t m.
Definition list_queued (t : TenantId) (m : jobs) : list ref := where_ (λ j, j_tenant_id j = t ∧ j_status j = QUEUED) m.
Definition list_recent (limit : nat) (t : TenantId) (m : jobs) : list ref :=
  (take limit (sort_desc (λ x, j_submitted_at x.2) (filter (λ x, j_tenant_id x.2 = t) (values m)))).*1.
Definition get_by_id_across_tenants (j : JobId) (m : jobs) : option ref := find_any j m.
Definition list_across_tenants (m : jobs) : list ref := (values m).*1.

(** The constructor saves the jobs it is given. *)
Definition __init__ (l : list ref) : stM jobs exn unit := for_each l save.
End InMemoryJobRepository.

Module InMemoryNodeRepository.
Abbreviation nodes := (memory NodeId node).
Definition save (p : ref) : stM nodes exn unit := save_owned n_id n_tenant_id NodeTenantConflictError p.
Definition clear (m : nodes) : nodes := set_dict [] m.
Definition list (t : TenantId) (m : nodes) : list ref := where_ (λ n, n_tenant_id n = t) m.
Definition get_by_id (n : NodeId) (t : TenantId) (m : nodes) : option ref := find_in n_tenant_id n t m.
Definition delete (n : NodeId) (t : TenantId) (m : nodes) : nodes := delete_in n_tenant_id n t m.
Definition get_by_id_across_tenants (n : NodeId) (m : nodes) : option ref := find_any n m.
Definition list_across_tenants (m : nodes) : Datatypes.list ref := (values m).*1.

(** [clock i] is what [utc_now()] reads for the node at place [i]. *)
Definition list_available_across_tenants (clock : nat → datetime) (m : nodes) : Datatypes.list ref :=
  (filter (λ p, is_alive (clock p.1) p.2.2 = true ∧ is_draining p.2.2 = false) (imap pair (values m))).*2.*1.

Definition __init__ (l : Datatypes.list ref) : stM nodes exn unit := for_each l save.
End InMemoryNodeRepository.

Module InMemoryApiKeyRepository.
Abbreviation keys := (memory ApiKeyId api_key).
Definition save (p : ref) : stM keys exn unit := save_owned k_id k_tenant_id ApiKeyTenantConflictError p.
Definition get_by_id (k : ApiKeyId) (t : TenantId) (m : keys) : option ref := find_in k_tenant_id k t m.

(** The object is changed in place; it is not saved. *)
Definition mark_used (k : ApiKeyId) (t : TenantId) (now : datetime) : stM keys exn unit := λ m,
  match get_by_id k t m with
  | None => (m, inl (ApiKeyNotFoundError k))
  | Some p => (mutate p (set_last_used_at (Some now)) m, inr tt)
  end.

Definition get_by_hash_across_tenants (key_hash : string) (m : keys) : option ref := head (where_ (λ k, k_key_hash k = key_hash) m).
Definition list_issued_by (issuer : ApiKeyId) (t : TenantId) (m : keys) : list ref :=
  where_ (λ k, k_issued_by k = Some issuer ∧ k_tenant_id k = t) m.
End InMemoryApiKeyRepository.

Module InMemoryLeaseRepository.
Abbreviation leases := (memory JobId lease).
Definition save (p : ref) (m : leases) : leases := save_plain l_job_id p m.

Definition renew (id : LeaseId) (duration : timedelta) (t : TenantId) (now : datetime) : stM leases exn unit := λ m,
  match head (where_ (λ l, l_id l = id ∧ l_tenant_id l = t) m) with
  | Some p => (mutate p (Lease.renew duration now) m, inr tt)
  | None => (m, inl (LeaseNotFoundError id))
  end.

Definition get_by_job_id (j : JobId) (t : TenantId) (m : leases) : option ref := find_in l_tenant_id j t m.
Definition get_by_worker_id (w : WorkerId) (t : TenantId) (m : leases) : option ref :=
  head (where_ (λ l, l_worker_id l = w ∧ l_tenant_id l = t) m).
Definition list_across_tenants (m : leases) : list ref := (values m).*1.
Definition delete (j : JobId) (t : TenantId) (m : leases) : leases := delete_in l_tenant_id j t m.

Definition delete_if_expired (j : JobId) (t : TenantId) (now : datetime) (m : leases) : leases * bool :=
  match (find_in l_tenant_id j t m ≫= λ p, heap m !! p) with
  | Some l => if Lease.is_expired now l then (set_dict (dict_del j (dict m)) m, true) else (m, false)
  | None => (m, false)
  end.
End InMemoryLeaseRepository.

Module InMemoryEventRepository.
Definition save (e : event) (l : list event) : list event := l ++ [e].
Definition list (t : TenantId) (l : list event) : Datatypes.list event := filter (λ e, e_tenant_id e = t) l.
Definition list_by_aggregate (j : JobId) (t : TenantId) (l : Datatypes.list event) : Datatypes.list event :=
  filter (λ e, e_aggregate_id e = j ∧ e_tenant_id e = t) l.
End InMemoryEventRepository.

(** A worker object refers to its node and to the job it runs; its tenant is that of
    its node. *)
Record worker_object := mkWorkerObject {
  wo_id : WorkerId;
  wo_node : ref;
  wo_status : WorkerStatus;
  wo_managed_by : WorkerManagement;
  wo_running_job : option ref;
  wo_last_seen_at : datetime;
}.

Module InMemoryWorkerRepository.
Section ops.
Context (nodes : list node).
Abbreviation workers := (memory WorkerId worker_object).

(** [worker.node] *)
Definition node_of (w : worker_object) : option node := nodes !! wo_node w.
Definition tenant_id (w : worker_object) : option TenantId := n_tenant_id <$> node_of w.

Definition save (p : ref) (m : workers) : workers := save_plain wo_id p m.
Definition clear (m : workers) : workers := set_dict [] m.

Definition get_by_id_across_tenants (w : WorkerId) (m : workers) : option ref := find_any w m.
Definition get_by_id (w : WorkerId) (t : TenantId) (m : workers) : option ref :=
  match find_any w m with
  | None => None
  | Some p =>
      match heap m !! p with
      | Some x => if bool_decide (tenant_id x = Some t) then Some p else None
      | None => None
      end
  end.
Definition get_by_node_id (n : NodeId) (t : TenantId) (m : workers) : option ref :=
  head (where_ (λ w, n_id <$> node_of w = Some n ∧ tenant_id w = Some t) m).
Definition list (t : TenantId) (m : workers) : list ref := where_ (λ w, tenant_id w = Some t) m.
Definition list_across_tenants (m : workers) : Datatypes.list ref := (values m).*1.
Definition delete (w : WorkerId) (t : TenantId) (m : workers) : workers :=
  match get_by_id w t m with Some _ => set_dict (dict_del w (dict m)) m | None => m end.
Definition __init__ (l : Datatypes.list ref) (m : workers) : workers := foldl (λ m p, save p m) m l.
End ops.
End InMemoryWorkerRepository.

(** * A dict of objects is a table *)

Section tables.
Context {K V : Type} `{Countable K} (key : V → K) (tenant_of : V → TenantId) (conflict : exn).
Implicit Types m : memory K V.

(** The entities, in order. *)
Definition entities m : list V := (values m).*2.

(** Every entry leads to an object with its key, and no key comes twice. *)
Record dict_wf m : Prop := mkDictWf {
  dw_keys : NoDup (dict m).*1;
  dw_objects : Forall (λ e, ∃ v, heap m !! e.2 = Some v ∧ key v = e.1) (dict m);
}.

Lemma values_app m v : dict_wf m → values (mkMemory (heap m ++ [v]) (dict m)) = values m.
Proof.
  intros [_ Ho]. unfold values. cbn. induction Ho as [|[k p] d (x & Hx & _) _ IH]; cbn; [done|].
  rewrite lookup_app_l by (by eapply lookup_lt_Some). cbn in Hx. by rewrite Hx, IH.
Qed.

Lemma alloc_wf v m : dict_wf m → dict_wf (alloc v m).1.
Proof.
  intros [Hk Ho]. split; [done|]. eapply Forall_impl; [exact Ho|]. intros e (x & Hx & ?). exists x. split; [|done]. by apply lookup_app_l_Some.
Qed.

Lemma entities_keys m : dict_wf m → key <$> entities m = (dict m).*1.
Proof.
  intros [_ Ho]. unfold entities, values. induction Ho as [|[k p] d (x & Hx & Hkx) _ IH]; cbn; [done|]. cbn in *. rewrite Hx. cbn. by rewrite Hkx, IH.
Qed.

Lemma get_entity m k : dict_wf m → (dict_get k (dict m) ≫= λ q, heap m !! q) = head (filter (λ v, key v = k) (entities m)).
Proof.
  intros [_ Ho]. unfold entities, values. induction Ho as [|[k' p] d (x & Hx & Hkx) _ IH]; [done|]. cbn in Hx, Hkx. cbn [dict_get omap list_omap].
  cbn. rewrite Hx. cbn. case_bool_decide as Hk.
  - rewrite decide_True by congruence. cbn. by rewrite Hx.
  - rewrite decide_False by congruence. done.
Qed.
Lemma entities_omap m : entities m = omap (λ e, heap m !! e.2) (dict m).
Proof. unfold entities, values. induction (dict m) as [|[k p] d IH]; cbn; [done|]. destruct (heap m !! p); cbn; by rewrite IH. Qed.

Lemma dict_set_keys k p (d : list (K * ref)) : (dict_set k p d).*1 = if bool_decide (k ∈ d.*1) then d.*1 else d.*1 ++ [k].
Proof.
  induction d as [|[k' q] d IH]; cbn; [done|]. destruct (decide (k' = k)) as [->|Hk].
  - rewrite (bool_decide_eq_true_2 (k = k)), bool_decide_eq_true_2 by (done || left). done.
  - rewrite (bool_decide_eq_false_2 (k' = k)) by done. cbn. rewrite IH. destruct (decide (k ∈ d.*1)).
    + by rewrite !bool_decide_eq_true_2 by (try right; done).
    + rewrite !bool_decide_eq_false_2; [done| |done]. intros [?|?]%elem_of_cons; [congruence|done].
Qed.

Lemma dict_set_wf m p v : dict_wf m → heap m !! p = Some v → dict_wf (set_dict (dict_set (key v) p (dict m)) m).
Proof.
  intros [Hk Ho] Hp. split; cbn.
  - rewrite dict_set_keys. case_bool_decide as Hx; [done|]. apply NoDup_app. split_and!; [done| |apply NoDup_singleton].
    intros k ? ->%list_elem_of_singleton. done.
  - clear Hk. induction Ho as [|[k q] d Hq Hd IH]; cbn; [constructor; [by exists v|done]|]. case_bool_decide as Hk; constructor; try done. by exists v.
Qed.

Lemma save_entities m p v : dict_wf m → heap m !! p = Some v →
  let '(m', r) := save_owned key tenant_of conflict p m in
  heap m' = heap m ∧ dict_wf m' ∧ entities m' = (put_in key tenant_of v (entities m)).1 ∧
  r = if (put_in key tenant_of v (entities m)).2 then inr tt else inl conflict.
Proof.
  intros Hm Hp. pose proof (dict_set_wf m p v Hm Hp) as Hset.
  assert (match dict_get (key v) (dict m) ≫= (λ q, heap m !! q) with
    | Some old => if bool_decide (tenant_of old = tenant_of v)
        then put_in key tenant_of v (entities m) = (entities (set_dict (dict_set (key v) p (dict m)) m), true)
        else put_in key tenant_of v (entities m) = (entities m, false)
    | None => put_in key tenant_of v (entities m) = (entities (set_dict (dict_set (key v) p (dict m)) m), true)
    end) as Hcase.
  { rewrite !entities_omap. cbn. destruct Hm as [_ Ho]. clear Hset. induction Ho as [|[k q] d (x & Hx & Hk) _ IH]; cbn; [by rewrite Hp|].
    cbn in Hx, Hk. rewrite Hx. cbn [put_in]. rewrite Hk. case_bool_decide as Hkv.
    - cbn. rewrite Hx. case_bool_decide; [by rewrite Hp|done].
    - cbn. rewrite Hx. destruct (dict_get (key v) d ≫= _); [case_bool_decide|]; by rewrite IH. }
  unfold save_owned. rewrite Hp. destruct (dict_get (key v) (dict m) ≫= _) as [old|]; [case_bool_decide|]; rewrite Hcase; done.
Qed.

(** An object of the dict that is changed, but keeps its key. *)
Lemma mutate_entities m k p v f : dict_wf m → dict_get k (dict m) = Some p → heap m !! p = Some v → key (f v) = key v →
  dict_wf (mutate p f m) ∧ entities (mutate p f m) = (λ x, if bool_decide (key x = k) then f v else x) <$> entities m.
Proof.
  intros Hm Hg Hp Hf. assert (key v = k) as Hvk.
  { destruct Hm as [_ Ho]. induction Ho as [|[k' q] d (x & Hx & Hk) _ IH]; cbn in *; [done|]. case_bool_decide; [|auto]. congruence. }
  assert (Forall (λ e, e.2 = p ↔ e.1 = k) (dict m)) as Hp'.
  { destruct Hm as [Hn Ho]. apply Forall_forall. intros [k' q] He. rewrite Forall_forall in Ho. destruct (Ho _ He) as (x & Hx & Hk). cbn in *. split; [congruence|].
    intros ->. clear -Hn He Hg. induction (dict m) as [|[k1 p1] d IH]; cbn in *; [done|]. apply NoDup_cons in Hn as [Hn1 Hn].
    case_bool_decide; apply elem_of_cons in He as [He|He]; try congruence; [|by apply IH]. subst. destruct Hn1. apply (list_elem_of_fmap_2 fst) in He. done. }
  rewrite !entities_omap. cbn. destruct Hm as [Hn Ho]. split.
  - split; [done|]. cbn. rewrite Forall_forall in *. intros e He. destruct (Ho e He) as (x & Hx & Hk). destruct (decide (e.2 = p)) as [He2|Hne].
    + exists (f v). rewrite He2 in *. rewrite list_lookup_alter_eq, Hp. cbn. split; [done|]. rewrite Hf. congruence.
    + exists x. rewrite list_lookup_alter_ne by congruence. done.
  - clear Hg Hn. induction Ho as [|[k' q] d (x & Hx & Hk) _ IH]; [done|]. apply Forall_cons in Hp' as [Hq Hp']. cbn in *. rewrite Hx. cbn.
    rewrite Hk. rewrite IH by done. case_bool_decide as Hkk.
    + rewrite (proj2 Hq Hkk), list_lookup_alter_eq, Hp. done.
    + rewrite list_lookup_alter_ne by (intros ->; tauto). by rewrite Hx.
Qed.

(** ** The contract of a store *)

Definition memory_put (x : V) m : memory K V * (exn + unit) := let '(m1, p) := alloc x m in save_owned key tenant_of conflict p m1.

(** Read, change the object, save it. *)
Definition memory_update (k : K) (t : TenantId) (f : V → V) m : memory K V * (exn + bool) :=
  match find_in tenant_of k t m with
  | None => (m, inr false)
  | Some p =>
      match save_owned key tenant_of conflict p (mutate p f m) with
      | (m', inl e) => (m', inl e)
      | (m', inr _) => (m', inr true)
      end
  end.

Definition memory_rep m (tb : gmap K V) : Prop := dict_wf m ∧ tb = table_of key (entities m).

Lemma entities_nodup m : dict_wf m → NoDup (key <$> entities m).
Proof. intros Hm. rewrite entities_keys by done. apply Hm. Qed.

Lemma find_entity m k : dict_wf m → (find_any k m ≫= λ p, heap m !! p) = table_of key (entities m) !! k.
Proof. intros Hm. rewrite table_of_head. by apply get_entity. Qed.

Lemma find_in_entity m k t : dict_wf m →
  (find_in tenant_of k t m ≫= λ p, heap m !! p) = in_tenant tenant_of t (table_of key (entities m) !! k).
Proof.
  intros Hm. rewrite <- find_entity by done. unfold find_in. destruct (find_any k m) as [p|]; [|done]. cbn.
  destruct (heap m !! p) as [v|] eqn:Hv; cbn; [|done]. case_bool_decide; cbn; [by rewrite Hv|done].
Qed.

Lemma memory_put_law m tb x : memory_rep m tb → True →
  ∃ m', memory_put x m = (m', (table_put key tenant_of conflict x tb).2) ∧ memory_rep m' (table_put key tenant_of conflict x tb).1.
Proof.
  intros [Hm ->] _. unfold memory_put, alloc. pose proof (save_entities (mkMemory (heap m ++ [x]) (dict m)) (length (heap m)) x (alloc_wf x m Hm)) as Hs.
  destruct (save_owned _ _ _ _ _) as [m' r]. destruct Hs as (_ & Hm' & He & ->); [by apply list_lookup_middle|].
  exists m'. rewrite table_put_in. unfold entities at 2 in He. rewrite (values_app m x Hm) in He. change ((values m).*2) with (entities m) in *.
  unfold entities at 1. rewrite (values_app m x Hm). split; [done|]. split; [done|]. by rewrite He.
Qed.

Lemma memory_update_law m tb k t f : memory_rep m tb → True → True →
  (∀ x, True → True ∧ key (f x) = key x ∧ tenant_of (f x) = tenant_of x) →
  ∃ m', memory_update k t f m = (m', (table_update key tenant_of conflict k t f tb).2)
    ∧ memory_rep m' (table_update key tenant_of conflict k t f tb).1.
Proof.
  intros [Hm ->] _ _ Hf. unfold memory_update, table_update. pose proof (find_in_entity m k t Hm) as Hfind.
  destruct (find_in tenant_of k t m) as [p|] eqn:Hp; cbn in Hfind; rewrite <- Hfind; [|exists m; by split]. clear Hfind.
  unfold find_in, find_any in Hp. destruct (dict_get k (dict m)) as [q|] eqn:Hg; [|done]. destruct (heap m !! q) as [v|] eqn:Hv; [|done].
  case_bool_decide as Ht; [|done]. injection Hp as ->. rewrite Hv. destruct (Hf v I) as (_ & Hkf & Htf).
  destruct (mutate_entities m k p v f Hm Hg Hv Hkf) as [Hm1 He1].
  assert (head (filter (λ z, key z = k) (entities m)) = Some v) as Hhead by (rewrite <- get_entity by done; by rewrite Hg).
  assert (key v = k) as Hk.
  { assert (v ∈ filter (λ z, key z = k) (entities m)) as [? _]%list_elem_of_filter by (destruct (filter _ _); [done|injection Hhead as ->; left]). done. }
  pose proof (put_in_change key tenant_of k v (f v) (entities m) (entities_nodup m Hm) Hhead ltac:(congruence) Htf) as Hput.
  assert (put_in key tenant_of (f v) (entities (mutate p f m)) = (entities (mutate p f m), true)) as Hput1.
  { rewrite (put_in_change key tenant_of k (f v) (f v)); [|by apply entities_nodup| |congruence|done].
    - f_equal. rewrite He1, <- list_fmap_compose. apply list_fmap_ext. intros _ z _. cbn. destruct (decide (key z = k)).
      + by rewrite (bool_decide_eq_true_2 (key z = k)), bool_decide_eq_true_2 by congruence.
      + by rewrite !(bool_decide_eq_false_2 (key z = k)).
    - rewrite <- get_entity by done. cbn. rewrite Hg. cbn. by rewrite list_lookup_alter_eq, Hv. }
  pose proof (save_entities (mutate p f m) p (f v) Hm1) as Hs. rewrite Hput1 in Hs.
  destruct (save_owned _ _ _ p _) as [m' r]. destruct Hs as (_ & Hm' & He & ->); [cbn; by rewrite list_lookup_alter_eq, Hv|]. cbn in *.
  exists m'. rewrite table_put_in, Hput. cbn. split; [done|]. split; [done|]. by rewrite He, He1.
Qed.

Lemma memory_contents_law m tb : memory_rep m tb → ∃ l, (inr (entities m) : exn + list V) = inr l ∧ l ≡ₚ rows tb.
Proof. intros [Hm ->]. eexists. split; [done|]. by apply rows_table_of, entities_nodup. Qed.

Lemma memory_get_law m tb k t : memory_rep m tb → True → True →
  (inr (find_in tenant_of k t m ≫= λ p, heap m !! p) : exn + option V) = inr (in_tenant tenant_of t (tb !! k)).
Proof. intros [Hm ->] _ _. by rewrite find_in_entity. Qed.

Lemma memory_get_any_law m tb k : memory_rep m tb → True → (inr (find_any k m ≫= λ p, heap m !! p) : exn + option V) = inr (tb !! k).
Proof. intros [Hm ->] _. by rewrite find_entity. Qed.

Definition memory_store : Store key tenant_of conflict :=
  mkStore key tenant_of conflict (memory K V) memory_rep (λ _, True) (λ _, True) (λ _, True) memory_put memory_update
    (λ k t m, inr (find_in tenant_of k t m ≫= λ p, heap m !! p)) (λ k m, inr (find_any k m ≫= λ p, heap m !! p)) (λ m, inr (entities m))
    memory_put_law memory_update_law memory_get_law memory_get_any_law memory_contents_law.

(** What a caller does to an object it was given shows at once, saved or not. *)
Lemma unsaved_change_shows m k t p v f : dict_wf m → find_in tenant_of k t m = Some p → heap m !! p = Some v → tenant_of (f v) = tenant_of v →
  (find_in tenant_of k t (mutate p f m) ≫= λ q, heap (mutate p f m) !! q) = Some (f v).
Proof.
  intros Hm Hp Hv Hf. unfold find_in, find_any in *. cbn. destruct (dict_get k (dict m)) as [q|]; [|done]. destruct (heap m !! q) as [x|] eqn:Hx; [|done].
  case_bool_decide as Ht; [|done]. injection Hp as ->. assert (x = v) as -> by congruence.
  rewrite list_lookup_alter_eq, Hv. cbn. rewrite bool_decide_eq_true_2 by congruence. cbn. by rewrite list_lookup_alter_eq, Hv.
Qed.
End tables.

Definition memory_jobs : Store j_id j_tenant_id JobTenantConflictError := memory_store j_id j_tenant_id JobTenantConflictError.
Definition memory_nodes : Store n_id n_tenant_id NodeTenantConflictError := memory_store n_id n_tenant_id NodeTenantConflictError.
Definition memory_keys : Store k_id k_tenant_id ApiKeyTenantConflictError := memory_store k_id k_tenant_id ApiKeyTenantConflictError.

(** * Lists *)

(** The objects references lead to. *)
Definition objects {K V} (m : memory K V) (l : list ref) : list V := omap (λ p, heap m !! p) l.

Lemma values_lookup {K V} (m : memory K V) p v : (p, v) ∈ values m → heap m !! p = Some v.
Proof.
  unfold values. rewrite list_elem_of_omap. intros ([k q] & _ & Hq). cbn in Hq. destruct (heap m !! q) eqn:E; [|done]. cbn in Hq. congruence.
Qed.

Lemma objects_values {K V} (m : memory K V) (l : list (ref * V)) : (∀ x, x ∈ l → x ∈ values m) → objects m l.*1 = l.*2.
Proof.
  induction l as [|[p v] l IH]; intros Hl; [done|]. cbn. rewrite (values_lookup m p v) by (apply Hl; left). f_equal. apply IH. intros x Hx. apply Hl. by right.
Qed.

Lemma objects_where {K V} (m : memory K V) (P : V → Prop) `{!∀ v, Decision (P v)} : objects m (where_ P m) = filter P (entities m).
Proof.
  unfold where_. rewrite objects_values; [|by intros x [_ ?]%list_elem_of_filter]. unfold entities.
  induction (values m) as [|[p v] l IH]; [done|]. rewrite fmap_cons, !filter_cons. cbn [snd]. case_decide; cbn; by rewrite IH.
Qed.

Lemma sort_desc_snd {A B} (key : B → Z) (l : list (A * B)) : (sort_desc (λ x, key x.2) l).*2 = sort_desc key l.*2.
Proof.
  induction l as [|x l IH]; [done|]. rewrite fmap_cons. unfold sort_desc in *. cbn [foldr]. rewrite <- IH.
  generalize (foldr (insert_desc (λ x, key x.2)) [] l). clear. intros l. induction l as [|y l IH]; [done|]. cbn. destruct (_ <=? _); cbn; [done|]. by rewrite IH.
Qed.

Lemma memory_list_queued m t :
  objects m (InMemoryJobRepository.list_queued t m) = filter (λ j, j_tenant_id j = t ∧ j_status j = QUEUED) (entities m).
Proof. apply objects_where. Qed.

Lemma memory_list_recent m limit t : objects m (InMemoryJobRepository.list_recent limit t m) =
  take limit (sort_desc j_submitted_at (filter (λ j, j_tenant_id j = t) (entities m))).
Proof.
  unfold InMemoryJobRepository.list_recent. rewrite objects_values.
  - rewrite fmap_take, sort_desc_snd. f_equal. f_equal. unfold entities. induction (values m) as [|[p v] l IH]; [done|].
    rewrite fmap_cons, !filter_cons. cbn [snd]. case_decide; cbn; by rewrite IH.
  - intros x Hx. assert (x ∈ sort_desc (λ x, j_submitted_at x.2) (filter (λ x, j_tenant_id x.2 = t) (values m))) as Hs by (by eapply elem_of_sublist, sublist_take).
    rewrite sort_desc_perm in Hs. by apply list_elem_of_filter in Hs as [_ ?].
Qed.

(** ** Leases *)

(** Renewing reaches the lease by its identifier, changes its expiry alone, and never
    makes one. *)
Lemma memory_renew_lease m id duration t now : dict_wf l_job_id m →
  match InMemoryLeaseRepository.renew id duration t now m with
  | (m', inr _) => ∃ p l, (p, l) ∈ values m ∧ l_id l = id ∧ l_tenant_id l = t ∧ m' = mutate p (Lease.renew duration now) m ∧ dict m' = dict m
  | (m', inl e) => m' = m ∧ e = LeaseNotFoundError id ∧ Forall (λ l, ¬ (l_id l = id ∧ l_tenant_id l = t)) (entities m)
  end.
Proof.
  intros Hm. unfold InMemoryLeaseRepository.renew. destruct (head (where_ _ m)) as [p|] eqn:Hh.
  - unfold where_ in Hh. destruct (filter _ (values m)) as [|[q l] r] eqn:Hf; [done|]. injection Hh as ->.
    assert ((p, l) ∈ filter (λ x, l_id x.2 = id ∧ l_tenant_id x.2 = t) (values m)) as [[Hi Ht] Hv]%list_elem_of_filter by (rewrite Hf; left).
    by exists p, l.
  - split_and!; [done|done|]. apply Forall_forall. intros l Hl [Hi Ht].
    assert (l ∈ filter (λ l, l_id l = id ∧ l_tenant_id l = t) (entities m)) as Hin by (by apply list_elem_of_filter).
    rewrite <- objects_where in Hin. destruct (where_ _ m); [by apply elem_of_nil in Hin|done].
Qed.

(** Only a lease that is expired now goes, and the answer says whether one went. *)
Lemma memory_delete_if_expired m j t now : dict_wf l_job_id m →
  let '(m', b) := InMemoryLeaseRepository.delete_if_expired j t now m in
  b = match in_tenant l_tenant_id t (table_of l_job_id (entities m) !! j) with Some l => Lease.is_expired now l | None => false end ∧
  heap m' = heap m ∧ dict m' = if b then dict_del j (dict m) else dict m.
Proof.
  intros Hm. unfold InMemoryLeaseRepository.delete_if_expired. rewrite (find_in_entity l_job_id) by done.
  destruct (in_tenant _ _ _) as [l|]; [|done]. by destruct (Lease.is_expired now l).
Qed.
