(* ===== verification/Tenants.v ===== *)
(** Tenants (src/app/domain/entities/tenant.py) and their repositories
    (postgres_tenant_repository.py, in_memory_tenant_repository.py): a tenant's id and
    name are fixed at its creation, and no two tenants share either. *)
From S2P Require Import Prelude Values ApiKey Db Repos Stores.
Local Open Scope Z_scope.

Record tenant := mkTenant { tn_id : TenantId; tn_name : string; tn_created_at : datetime }.
#[global] Instance tenant_eq_dec : EqDecision tenant.
Proof. solve_decision. Defined.

Definition DEFAULT_TENANT_NAME : string := "default".
Definition default_tenant (now : datetime) : tenant := mkTenant (mkTenantId 1) DEFAULT_TENANT_NAME now.

(** [__post_init__] refuses a blank name. *)
Definition tenant_post_init (t : tenant) : exn + tenant :=
  if is_blank (tn_name t) then inl (ValueError "tenant name must be a non-empty, human-readable identifier") else inr t.

Definition create (name : string) (id : uuid) (now : datetime) : exn + tenant := tenant_post_init (mkTenant (mkTenantId id) (strip name) now).

(** * PostgresTenantRepository *)

Module PostgresTenantRepository.

(** The table, with its primary key and its unique column. *)
Abbreviation tenants := (gmap TenantId tenant).

Definition name_taken (name : string) (d : tenants) : bool := existsb (λ t, bool_decide (tn_name t = name)) (rows d).

(** [INSERT ... ON CONFLICT (id) DO NOTHING], and the row count *)
Definition insert (t : tenant) (d : tenants) : tenants * (exn + nat) :=
  match d !! tn_id t with
  | Some _ => (d, inr 0%nat)
  | None => if name_taken (tn_name t) d then (d, inl (UniqueViolation "tenants_name_key")) else (<[tn_id t := t]> d, inr 1%nat)
  end.

(** Other connections may commit between the two statements: [meanwhile]. *)
Definition save (meanwhile : tenants → tenants) (t : tenant) (d : tenants) : tenants * (exn + unit) :=
  match insert t d with
  | (d1, inl _) => (d1, inl TenantAlreadyExistsError)
  | (d1, inr rowcount) =>
      if (rowcount =? 1)%nat then (d1, inr tt) else
      let d2 := meanwhile d1 in
      match tn_name <$> d2 !! tn_id t with
      | None => (d2, inl (RuntimeError "tenant disappeared while saving"))
      | Some name => if bool_decide (name = tn_name t) then (d2, inr tt) else (d2, inl TenantAlreadyExistsError)
      end
  end.

Definition get_by_id (k : TenantId) (d : tenants) : exn + option tenant :=
  match d !! k with None => inr None | Some row => match tenant_post_init row with inl e => inl e | inr t => inr (Some t) end end.
Definition get_by_name (name : string) (d : tenants) : exn + option tenant :=
  match head (filter (λ t, tn_name t = name) (rows d)) with
  | None => inr None
  | Some row => match tenant_post_init row with inl e => inl e | inr t => inr (Some t) end
  end.
End PostgresTenantRepository.

(** * InMemoryTenantRepository *)

Module InMemoryTenantRepository.

(** The values of the dict, in order; tenants are immutable. *)
Definition __init__ (now : datetime) : list tenant := [default_tenant now].

Definition get_by_id (k : TenantId) (l : list tenant) : option tenant := head (filter (λ t, tn_id t = k) l).
Definition get_by_name (name : string) (l : list tenant) : option tenant := head (filter (λ t, tn_name t = name) l).

Definition save (t : tenant) (l : list tenant) : list tenant * (exn + unit) :=
  match get_by_id (tn_id t) l with
  | Some existing => if bool_decide (tn_name existing = tn_name t) then (l, inr tt) else (l, inl TenantAlreadyExistsError)
  | None => match get_by_name (tn_name t) l with Some _ => (l, inl TenantAlreadyExistsError) | None => (l ++ [t], inr tt) end
  end.
End InMemoryTenantRepository.

(** * What saving a tenant means *)

(** Ids and names identify tenants; names are not blank. *)
Record tenants_wf (d : gmap TenantId tenant) : Prop := mkTenantsWf {
  tw_ids k t : d !! k = Some t → tn_id t = k;
  tw_names k1 k2 t1 t2 : d !! k1 = Some t1 → d !! k2 = Some t2 → tn_name t1 = tn_name t2 → k1 = k2;
  tw_valid k t : d !! k = Some t → is_blank (tn_name t) = false;
}.

(** The outcome, as a function of who holds the id and the name. *)
Definition tenant_saved (t : tenant) (d : gmap TenantId tenant) : gmap TenantId tenant * (exn + unit) :=
  match d !! tn_id t with
  | Some old => (d, if bool_decide (tn_name old = tn_name t) then inr tt else inl TenantAlreadyExistsError)
  | None =>
      if PostgresTenantRepository.name_taken (tn_name t) d then (d, inl TenantAlreadyExistsError) else (<[tn_id t := t]> d, inr tt)
  end.

Lemma name_taken_spec name d : PostgresTenantRepository.name_taken name d = true ↔ ∃ k t, d !! k = Some t ∧ tn_name t = name.
Proof.
  unfold PostgresTenantRepository.name_taken. rewrite existsb_exists. split.
  - intros (t & Ht%list_elem_of_In & Hn%bool_decide_eq_true). apply elem_of_rows in Ht as [k Hk]. by exists k, t.
  - intros (k & t & Hk & Hn). exists t. split; [|by apply bool_decide_eq_true_2]. apply list_elem_of_In, elem_of_rows. by exists k.
Qed.

(** A table in which tenants are only ever added. *)
Definition grows (f : gmap TenantId tenant → gmap TenantId tenant) : Prop := ∀ d, tenants_wf d → d ⊆ f d ∧ tenants_wf (f d).

Lemma tenant_saved_wf t d : tenants_wf d → is_blank (tn_name t) = false → tenants_wf (tenant_saved t d).1.
Proof.
  intros Hd Hb. unfold tenant_saved. destruct (d !! tn_id t) eqn:Hk; [done|].
  destruct (PostgresTenantRepository.name_taken (tn_name t) d) eqn:Hn; [done|]. cbn.
  assert (∀ k x, d !! k = Some x → tn_name x ≠ tn_name t) as Hfree.
  { intros k x Hx Hxn. apply not_true_iff_false in Hn. apply Hn, name_taken_spec. by exists k, x. }
  destruct Hd as [Hids Hnames Hvalid]. split.
  - intros k x [[<- <-]|[_ ?%Hids]]%lookup_insert_Some; done.
  - intros k1 k2 t1 t2 [[<- <-]|[? H1]]%lookup_insert_Some [[<- <-]|[? H2]]%lookup_insert_Some He; try done.
    + by destruct (Hfree _ _ H2).
    + by destruct (Hfree _ _ H1).
    + by eapply Hnames.
  - intros k x [[_ <-]|[_ ?%Hvalid]]%lookup_insert_Some; done.
Qed.

Lemma postgres_save_spec meanwhile t d : tenants_wf d → grows meanwhile →
  let '(d', r) := PostgresTenantRepository.save meanwhile t d in
  r = (tenant_saved t d).2 ∧ (d' = (tenant_saved t d).1 ∨ (d' = meanwhile d ∧ is_Some (d !! tn_id t))).
Proof.
  intros Hd Hm. unfold PostgresTenantRepository.save, PostgresTenantRepository.insert, tenant_saved.
  destruct (d !! tn_id t) as [old|] eqn:Hold; cbn.
  - destruct (Hm d Hd) as [Hsub _]. rewrite (lookup_weaken _ _ _ _ Hold Hsub). cbn. case_bool_decide; eauto.
  - destruct (PostgresTenantRepository.name_taken _ _); cbn; eauto.
Qed.

(** The in-memory list holds the table. *)
Definition list_holds (l : list tenant) (d : gmap TenantId tenant) : Prop := NoDup (tn_id <$> l) ∧ d = table_of tn_id l.

Lemma list_holds_in l d t : list_holds l d → t ∈ l ↔ d !! tn_id t = Some t.
Proof.
  intros [Hn ->]. rewrite table_of_head. split.
  - intros Ht. induction l as [|x l IH]; [by apply elem_of_nil in Ht|]. apply NoDup_cons in Hn as [Hx Hn]. rewrite filter_cons.
    apply elem_of_cons in Ht as [->|Ht]; [by rewrite decide_True|]. rewrite decide_False; [by apply IH|]. intros He. apply Hx. rewrite He. by apply list_elem_of_fmap_2.
  - intros Hh. assert (t ∈ filter (λ x, tn_id x = tn_id t) l) as [_ ?]%list_elem_of_filter by (destruct (filter _ _); [done|injection Hh as ->; left]). done.
Qed.

Lemma memory_save_spec t l d : list_holds l d → tenants_wf d →
  let '(l', r) := InMemoryTenantRepository.save t l in r = (tenant_saved t d).2 ∧ list_holds l' (tenant_saved t d).1.
Proof.
  intros Hl Hd. unfold InMemoryTenantRepository.save, tenant_saved, InMemoryTenantRepository.get_by_id.
  assert (head (filter (λ x, tn_id x = tn_id t) l) = d !! tn_id t) as -> by (destruct Hl as [_ ->]; by rewrite table_of_head).
  destruct (d !! tn_id t) as [old|] eqn:Hk; [by case_bool_decide|].
  destruct (InMemoryTenantRepository.get_by_name (tn_name t) l) as [x|] eqn:Hx; unfold InMemoryTenantRepository.get_by_name in Hx.
  - assert (x ∈ filter (λ y, tn_name y = tn_name t) l) as [Hn Hxl]%list_elem_of_filter by (destruct (filter _ _); [done|injection Hx as ->; left]).
    rewrite (proj2 (name_taken_spec _ _)); [done|]. exists (tn_id x), x. split; [|done]. by apply (list_holds_in l d).
  - assert (PostgresTenantRepository.name_taken (tn_name t) d = false) as ->.
    { apply not_true_iff_false. intros (k & y & Hy & Hn)%name_taken_spec. rewrite <- (tw_ids d Hd k y Hy) in Hy.
      assert (y ∈ filter (λ z, tn_name z = tn_name t) l) as Hin by (apply list_elem_of_filter; split; [done|]; by apply (list_holds_in l d)).
      destruct (filter _ l); [by apply elem_of_nil in Hin|done]. }
    cbn. split; [done|]. destruct Hl as [Hn ->]. rewrite table_of_head in Hk. split.
    + rewrite fmap_app. apply NoDup_app. split_and!; [done| |apply NoDup_singleton]. intros k (y & Hyk & Hy)%list_elem_of_fmap Hkt%list_elem_of_singleton.
      assert (y ∈ filter (λ z, tn_id z = tn_id t) l) as Hin. { apply list_elem_of_filter. split; [congruence|done]. }
      destruct (filter _ l); [by apply elem_of_nil in Hin|done].
    + clear -Hk. unfold table_of. induction l as [|y l IH]; [done|]. rewrite filter_cons in Hk. case_decide; [done|].
      cbn. rewrite insert_insert_ne by done. f_equal. by apply IH.
Qed.

Lemma create_valid name id now t : create name id now = inr t → is_blank (tn_name t) = false ∧ tn_id t = mkTenantId id.
Proof. unfold create, tenant_post_init. destruct (is_blank _) eqn:Hb; [done|]. intros [= <-]. done. Qed.

Lemma tenant_saved_err t d : (tenant_saved t d).2 ≠ inr tt →
  (tenant_saved t d) = (d, inl TenantAlreadyExistsError) ∧
  ∃ k x, d !! k = Some x ∧ ((k = tn_id t ∧ tn_name x ≠ tn_name t) ∨ (k ≠ tn_id t ∧ tn_name x = tn_name t)).
Proof.
  unfold tenant_saved. destruct (d !! tn_id t) as [old|] eqn:Hk.
  - case_bool_decide; [done|]. intros _. split; [done|]. exists (tn_id t), old. eauto.
  - destruct (PostgresTenantRepository.name_taken (tn_name t) d) eqn:Hn; [|done]. intros _. split; [done|].
    apply name_taken_spec in Hn as (k & x & Hx & Hxn). exists k, x. split; [done|]. right. split; [|done]. intros ->. congruence.
Qed.

Lemma tenant_saved_ok t d : (tenant_saved t d).2 = inr tt → ∃ t', (tenant_saved t d).1 !! tn_id t = Some t' ∧ tn_name t' = tn_name t.
Proof.
  unfold tenant_saved. destruct (d !! tn_id t) as [old|] eqn:Hk.
  - case_bool_decide; [|done]. intros _. by exists old.
  - destruct (PostgresTenantRepository.name_taken (tn_name t) d); [done|]. intros _. exists t. cbn [fst]. by rewrite lookup_insert_eq.
Qed.

(** Saving a tenant has one outcome, whichever repository and whatever tenants
    other processes add meanwhile: it succeeds and the id then stands for the name, or
    it raises TenantAlreadyExistsError because the id has another name or the name
    another id, and changes nothing.  Ids and names stay in one-to-one correspondence. *)
Theorem tenant_save_outcome meanwhile t l d :
  tenants_wf d → list_holds l d → grows meanwhile → is_blank (tn_name t) = false →
  let '(d', r) := PostgresTenantRepository.save meanwhile t d in
  let '(l', r') := InMemoryTenantRepository.save t l in
  r = r' ∧ tenants_wf d' ∧ d ⊆ d' ∧ (∃ m, list_holds l' m ∧ tenants_wf m ∧ m ⊆ d') ∧
  (r = inr tt → ∃ t', d' !! tn_id t = Some t' ∧ tn_name t' = tn_name t) ∧
  (r ≠ inr tt → r = inl TenantAlreadyExistsError ∧ l' = l ∧ (d' = d ∨ d' = meanwhile d) ∧
     ∃ k x, d !! k = Some x ∧ ((k = tn_id t ∧ tn_name x ≠ tn_name t) ∨ (k ≠ tn_id t ∧ tn_name x = tn_name t))).
Proof.
  intros Hd Hl Hm Hb. pose proof (postgres_save_spec meanwhile t d Hd Hm) as Hp. pose proof (memory_save_spec t l d Hl Hd) as Hmem.
  destruct (PostgresTenantRepository.save meanwhile t d) as [d' r]. destruct (InMemoryTenantRepository.save t l) as [l' r'] eqn:El.
  destruct Hp as [-> Hd']. destruct Hmem as [-> Hl']. pose proof (tenant_saved_wf t d Hd Hb) as Hwf. destruct (Hm d Hd) as [Hsub Hmwf].
  assert (d ⊆ (tenant_saved t d).1) as Hgrow.
  { unfold tenant_saved. destruct (d !! tn_id t) eqn:Hk; [done|]. destruct (PostgresTenantRepository.name_taken _ _); [done|]. by apply insert_subseteq. }
  assert ((tenant_saved t d).1 ⊆ d') as Hle.
  { destruct Hd' as [->|[-> [x Hx]]]; [done|]. unfold tenant_saved. by rewrite Hx. }
  split_and!; [done|by destruct Hd' as [->|[-> _]]|by etrans|eauto| |].
  - intros (t' & Ht' & Hn)%tenant_saved_ok. exists t'. split; [|done]. by eapply lookup_weaken.
  - intros Hr. destruct (tenant_saved_err t d Hr) as [E Hwho]. rewrite E in *. cbn in *. split_and!; [done| |tauto|done].
    revert El. unfold InMemoryTenantRepository.save. destruct (InMemoryTenantRepository.get_by_id _ _); [case_bool_decide|destruct (InMemoryTenantRepository.get_by_name _ _)];
      intros; by simplify_eq.
Qed.

(** A second tenant. *)
Lemma tenant_save_outcome_witness :
  let d := table_of tn_id [default_tenant 0] in
  let t := mkTenant (mkTenantId 2) "acme" 5 in
  (PostgresTenantRepository.save id t d).2 = inr tt ∧
  (InMemoryTenantRepository.save t [default_tenant 0]).2 = (PostgresTenantRepository.save id t d).2.
Proof.
  cbn zeta. split; [vm_compute; reflexivity|].
  assert (tenants_wf (table_of tn_id [default_tenant 0])) as Hd.
  { change (table_of tn_id [default_tenant 0]) with (<[mkTenantId 1 := default_tenant 0]> (∅ : gmap TenantId tenant)). split.
    - intros k t [[<- <-]|[_ []%lookup_empty_Some]]%lookup_insert_Some. done.
    - intros k1 k2 t1 t2 [[<- <-]|[_ []%lookup_empty_Some]]%lookup_insert_Some [[<- <-]|[_ []%lookup_empty_Some]]%lookup_insert_Some _. done.
    - intros k t [[<- <-]|[_ []%lookup_empty_Some]]%lookup_insert_Some. done. }
  pose proof (tenant_save_outcome id (mkTenant (mkTenantId 2) "acme" 5) [default_tenant 0] (table_of tn_id [default_tenant 0]) Hd) as H.
  destruct (PostgresTenantRepository.save _ _ _) as [d' r]. destruct (InMemoryTenantRepository.save _ _) as [l' r'].
  destruct H as [H _]; [split; [apply NoDup_singleton|reflexivity]|by intros|reflexivity|]. symmetry. exact H.
Defined.
