(* ===== verification/Observability.v ===== *)
(** Logging and error tracking
    (src/app/application/services/error_tracking_service.py, request_logging_service.py,
    src/app/presentation/request_logging_middleware.py, and the JSON formatter of
    src/app/presentation/api.py). *)
From S2P Require Import Prelude Values Float64.
Local Open Scope Z_scope.

(** * Log records *)

Inductive level := ERROR | WARNING | INFO.
Inductive log_value := LNone | LStr (s : string) | LInt (z : Z) | LFloat (x : float).

(** A record: [extra] holds the attributes passed as [extra=]. *)
Record log_record := mkLog {
  lr_level : level;
  lr_name : string;
  lr_message : string;
  lr_extra : list (string * log_value);
  lr_exc_info : option string;
}.

Definition levelname (l : level) : string := match l with ERROR => "ERROR" | WARNING => "WARNING" | INFO => "INFO" end.

Definition lookup_extra (k : string) (r : log_record) : option log_value := head ((filter (λ x, x.1 = k) (lr_extra r)).*2).

(** _JsonFormatter.format: the object that is printed as one line *)
Definition REQUEST_FIELDS : list string := ["method"; "path"; "caller_id"; "status_code"; "duration_ms"].
Definition format (r : log_record) : list (string * log_value) :=
  [("level", LStr (levelname (lr_level r))); ("logger", LStr (lr_name r)); ("message", LStr (lr_message r))]
  ++ omap (λ f, v ← lookup_extra f r; Some (f, v)) REQUEST_FIELDS
  ++ match lr_exc_info r with Some t => [("exc_info", LStr t)] | None => [] end.

(** * Error tracking *)

(** An exception object; [str] and the formatting of its traceback may raise. *)
Record exc := mkExc { exc_type : string; exc_str : option string; exc_traceback : option string }.

Record CapturedError := mkCaptured {
  ce_occurred_at : datetime;
  ce_source : string;
  ce_exception_type : string;
  ce_exception_message : string;
  ce_traceback : string;
  ce_context : list (string * log_value);
}.

Module ErrorTrackingService.
(** [deque(maxlen=...)] *)
Record t := mk { max_stored_errors : nat; _errors : list CapturedError }.

Definition __init__ (max_stored : Z) : exn + t :=
  if max_stored <=? 0 then inl (ValueError "max_stored_errors must be a positive number.") else inr (mk (Z.to_nat max_stored) []).

(** [deque.append]: a full deque drops its oldest element. *)
Definition append (x : CapturedError) (self : t) : t :=
  let l := _errors self ++ [x] in mk (max_stored_errors self) (drop (length l - max_stored_errors self) l).

Section capture.
(** Whether the logger raises. *)
Context (logger_raises : bool).

(** Everything inside is under [except Exception: pass]. *)
Definition capture_error (now : datetime) (source : string) (e : exc) (context : list (string * log_value)) (self : t) : t * list log_record :=
  if logger_raises then (self, []) else
  let line := mkLog ERROR "aethergrid.errors" "unhandled error captured" [("source", LStr source); ("exception_type", LStr (exc_type e))]
                (exc_traceback e) in
  match exc_str e, exc_traceback e with
  | Some message, Some trace => (append (mkCaptured now source (exc_type e) message trace context) self, [line])
  | _, _ => (self, [line])
  end.
End capture.

Definition recent_errors (self : t) : list CapturedError := _errors self.
End ErrorTrackingService.

(** * Request logging *)

Definition _DENIAL_STATUS_CODES : list Z := [401; 429].

Definition log_completed_request (method path : string) (caller_id : option string) (status_code : Z) (duration_ms : float) : log_record :=
  let lv := if bool_decide (status_code ∈ _DENIAL_STATUS_CODES) then WARNING else INFO in
  mkLog lv "aethergrid.requests" "request completed"
    [("method", LStr method); ("path", LStr path); ("caller_id", match caller_id with Some c => LStr c | None => LNone end);
     ("status_code", LInt status_code); ("duration_ms", LFloat duration_ms)] None.

(** * The middleware *)

Module RequestLoggingMiddleware.

(** What it writes to: its tracker and the log. *)
Record t := mk { tracker : ErrorTrackingService.t; log : list log_record }.

(** [RequestLoggingMiddleware(app, service=...)] makes a tracker of its own, unless it
    is given one. *)
Definition __init__ (given : option ErrorTrackingService.t) : t :=
  mk (match given with Some s => s | None => ErrorTrackingService.mk 200 [] end) [].

Section dispatch.
Context {W Response : Type} (status_of : Response → Z).

(** A handler: it changes the world, may set [request.state.caller_id], and answers
    or raises. *)
Definition handler : Type := W → W * option string * (exc + Response).

(** [start] and [stop] are the readings of [time.monotonic()]. *)
Definition dispatch (logger_raises : bool) (now : datetime) (start stop : float) (method path : string) (call_next : handler) (w : W) (self : t)
    : W * t * (exc + Response) :=
  let '(w', caller_id, r) := call_next w in
  let duration_ms := fmul (fsub stop start) (exact_of_Z 1000) in
  match r with
  | inl e =>
      let '(tr, lines) := ErrorTrackingService.capture_error logger_raises now "request" e
        [("method", LStr method); ("path", LStr path); ("caller_id", match caller_id with Some c => LStr c | None => LNone end)] (tracker self) in
      (w', mk tr (log self ++ lines ++ [log_completed_request method path caller_id 500 duration_ms]), inl e)
  | inr response =>
      (w', mk (tracker self) (log self ++ [log_completed_request method path caller_id (status_of response) duration_ms]), inr response)
  end.
End dispatch.
End RequestLoggingMiddleware.

(** * What is kept *)

(** The deque after a number of appends holds the latest, oldest first. *)
Lemma appends_keep_latest l self :
  (length (ErrorTrackingService._errors self) ≤ ErrorTrackingService.max_stored_errors self)%nat →
  let all := ErrorTrackingService._errors self ++ l in
  foldl (λ s x, ErrorTrackingService.append x s) self l =
    ErrorTrackingService.mk (ErrorTrackingService.max_stored_errors self) (drop (length all - ErrorTrackingService.max_stored_errors self) all).
Proof.
  revert self. induction l as [|x l IH]; intros [n es] Hn; cbn in *.
  - rewrite app_nil_r. replace (length es - n)%nat with 0%nat by lia. by rewrite drop_0.
  - rewrite IH; cbn; rewrite ?length_drop, ?length_app; cbn; [|lia]. f_equal.
    set (k := (length es + 1 - n)%nat). rewrite <- (drop_app_le (es ++ [x]) l k) by (rewrite length_app; cbn; unfold k; lia).
    rewrite drop_drop, <- app_assoc. rewrite length_drop, length_app. cbn. f_equal. unfold k. lia.
Qed.

Section dispatch.
Context {W Response : Type} (status_of : Response → Z).
Implicit Types self : RequestLoggingMiddleware.t.

(** The records of requests in a log. *)
Definition request_lines (l : list log_record) : list log_record := filter (λ r, lr_name r = "aethergrid.requests"%string) l.

(** What [capture_error] logs is no line of a request. *)
Lemma capture_error_lines logger_raises now source e context tr :
  request_lines (ErrorTrackingService.capture_error logger_raises now source e context tr).2 = [].
Proof using.
  unfold ErrorTrackingService.capture_error. destruct logger_raises; [done|]. by destruct (exc_str e), (exc_traceback e).
Qed.

(** The effect of the handler, its answer or its exception pass through, and one line is
    logged for the request, with the status of the answer or 500. *)
Lemma dispatch_line logger_raises now start stop method path (call_next : @RequestLoggingMiddleware.handler W Response) w self :
  let '(w', self', r) := RequestLoggingMiddleware.dispatch status_of logger_raises now start stop method path call_next w self in
  let '(w0, caller_id, r0) := call_next w in
  w' = w0 ∧ r = r0 ∧
  request_lines (RequestLoggingMiddleware.log self') = request_lines (RequestLoggingMiddleware.log self) ++
    [log_completed_request method path caller_id match r0 with inl _ => 500 | inr x => status_of x end (fmul (fsub stop start) (exact_of_Z 1000))].
Proof using.
  unfold RequestLoggingMiddleware.dispatch. destruct (call_next w) as [[w0 caller_id] [e|response]].
  - pose proof (capture_error_lines logger_raises now "request" e
      [("method", LStr method); ("path", LStr path); ("caller_id", match caller_id with Some c => LStr c | None => LNone end)]%string
      (RequestLoggingMiddleware.tracker self)) as Hl.
    destruct (ErrorTrackingService.capture_error _ _ _ _ _ _) as [tr lines]. cbn in *. split_and!; [done..|].
    unfold request_lines in *. by rewrite !filter_app, Hl.
  - cbn. split_and!; [done..|]. unfold request_lines. by rewrite filter_app.
Qed.

(** A request that was denied is a warning. *)
Lemma completed_level method path caller_id status duration :
  lr_level (log_completed_request method path caller_id status duration) = WARNING ↔ status = 401 ∨ status = 429.
Proof using.
  unfold log_completed_request. cbn. case_bool_decide as Hd; unfold _DENIAL_STATUS_CODES in Hd;
    rewrite !elem_of_cons, elem_of_nil in Hd; [tauto|]. split; [done|tauto].
Qed.

(** An exception is recorded in the tracker as the newest error, unless the logger of
    errors fails or its own text cannot be produced; an answer is not. *)
Lemma dispatch_tracker logger_raises now start stop method path (call_next : @RequestLoggingMiddleware.handler W Response) w self :
  let '(_, self', _) := RequestLoggingMiddleware.dispatch status_of logger_raises now start stop method path call_next w self in
  match (call_next w).2 with
  | inr _ => RequestLoggingMiddleware.tracker self' = RequestLoggingMiddleware.tracker self
  | inl e =>
      match logger_raises, exc_str e, exc_traceback e with
      | false, Some message, Some trace =>
          ∃ context, RequestLoggingMiddleware.tracker self' =
            ErrorTrackingService.append (mkCaptured now "request" (exc_type e) message trace context) (RequestLoggingMiddleware.tracker self)
      | _, _, _ => RequestLoggingMiddleware.tracker self' = RequestLoggingMiddleware.tracker self
      end
  end.
Proof using.
  unfold RequestLoggingMiddleware.dispatch. destruct (call_next w) as [[w0 caller_id] [e|response]]; [|done]. cbn [snd].
  unfold ErrorTrackingService.capture_error. destruct logger_raises; [done|].
  destruct (exc_str e), (exc_traceback e); try done. by eexists.
Qed.
End dispatch.

(** * The application's own wiring *)

(** app/presentation/api.py adds the middleware with [service=] only, so what it
    captures is not what [get_error_tracking_service] of dependencies.py returns. *)
Definition _error_tracking_service : ErrorTrackingService.t := ErrorTrackingService.mk 200 [].
Definition app_middleware : RequestLoggingMiddleware.t := RequestLoggingMiddleware.__init__ None.

(** The two trackers: the shared one, and the one requests are recorded in. *)
Definition serve {W Response} (status_of : Response → Z) (requests : list (bool * datetime * float * float * string * string * @RequestLoggingMiddleware.handler W Response))
    (w : W) (shared : ErrorTrackingService.t) (self : RequestLoggingMiddleware.t) : W * ErrorTrackingService.t * RequestLoggingMiddleware.t :=
  foldl (λ s rq, let '(lr, now, start, stop, method, path, h) := rq in
           let '(w, sh, mw) := s in
           let '(w', mw', _) := RequestLoggingMiddleware.dispatch status_of lr now start stop method path h w mw in (w', sh, mw'))
    (w, shared, self) requests.

(** However many requests fail, the shared tracker reports no error. *)
Lemma shared_tracker_stays_empty {W Response} (status_of : Response → Z) requests (w : W) self :
  ErrorTrackingService.recent_errors (serve status_of requests w _error_tracking_service self).1.2 = [].
Proof.
  unfold serve. assert (∀ s, s.1.2 = _error_tracking_service → ErrorTrackingService.recent_errors
    (foldl (λ s rq, let '(lr, now, start, stop, method, path, h) := rq in let '(w, sh, mw) := s in
       let '(w', mw', _) := RequestLoggingMiddleware.dispatch status_of lr now start stop method path h w mw in (w', sh, mw')) s requests).1.2 = []) as H.
  { induction requests as [|rq l IH]; intros s Hs; cbn; [by rewrite Hs|]. apply IH. destruct rq as [[[[[[lr now] start] stop] me] pa] h], s as [[w1 sh] mw].
    cbn in *. destruct (RequestLoggingMiddleware.dispatch _ _ _ _ _ _ _ _ _ _) as [[w' mw'] r]. done. }
  by apply H.
Qed.

(** The formatter prints the fields of a request, and nothing else of [extra]: what
    [capture_error] passes as [source] and [exception_type] is not printed. *)
Lemma format_fields r k v : (k, v) ∈ format r → k ∈ ["level"; "logger"; "message"; "exc_info"] ∨ (k ∈ REQUEST_FIELDS ∧ lookup_extra k r = Some v).
Proof.
  unfold format. rewrite !elem_of_app, list_elem_of_omap. intros [H|[(f & Hf & Hv)|H]].
  - left. rewrite !elem_of_cons, elem_of_nil in H. rewrite !elem_of_cons. naive_solver.
  - right. destruct (lookup_extra f r) eqn:E; [|done]. injection Hv as -> ->. done.
  - left. destruct (lr_exc_info r); [|by apply elem_of_nil in H]. apply list_elem_of_singleton in H. injection H as -> ->. rewrite !elem_of_cons. tauto.
Qed.
