(* ===== verification/Migrations.v ===== *)
(** Versioned SQL migrations (src/app/infrastructure/migrations): reading the
    migration files, planning against the recorded history, applying what is
    missing, and the check at startup.

    A file is its name and its bytes; names are ASCII, so that \d is 0-9.  The text
    of a migration leaves schema_migrations alone.  The schema is a parameter: a type, and what
    running the text of a migration does to it (and whether it succeeds).  The
    connection may fail at any statement.  SHA-256 is a parameter. *)
From S2P Require Import Prelude Values ApiKey.
From stdpp Require Import sorting.
Local Open Scope Z_scope.

Inductive migration_error :=
  | NoDirectory
  | BadFileName (name : string)
  | DuplicateVersion (version : Z)
  | NotUtf8 (name : string)
  | MissingMigration (expected : Z)
  | HoleInHistory (expected found : Z)
  | NoMigrationsShipped
  | RecordedWithoutFile (version : Z)
  | ChecksumMismatch (name : string)
  | MigrationFailed (name : string)
  | LockTimeout
  | TableMissing
  | DatabaseBehind (names : list string).

Record Migration := mkMigration {
  m_version : Z;
  m_name : string;
  m_sql : string;
  m_checksum : string;
  m_transactional : bool;
}.

Definition NO_TRANSACTION_MARKER : string := "-- migration: no-transaction".

(** * File names and contents *)

Definition code (c : chr) : N := Ascii.N_of_ascii c.
Definition is_digit (c : chr) : bool := ((48 <=? code c) && (code c <=? 57))%N.
Definition is_name_char (c : chr) : bool :=
  (is_digit c || (97 <=? code c)%N && (code c <=? 122)%N || (code c =? 95)%N)%bool.
Definition digit_value (c : chr) : Z := Z.of_N (code c) - 48.

(** [path.suffix == ".sql"] *)
Definition is_sql (name : list chr) : bool :=
  match rev name with
  | l :: q :: s :: dot :: _ :: _ =>
      ((code dot =? 46) && (code s =? 115) && (code q =? 113) && (code l =? 108))%N
  | _ => false
  end.

(** The regular expression ^(\d{4})_[a-z0-9_]+\.sql$ on a name that ends in .sql:
    the version. *)
Definition match_file_name (name : list chr) : option Z :=
  match name with
  | a :: b :: c :: d :: u :: rest =>
      let stem := take (length rest - 4) rest in
      if is_digit a && is_digit b && is_digit c && is_digit d && (code u =? 95)%N &&
         is_sql rest && forallb is_name_char stem
      then Some (1000 * digit_value a + 100 * digit_value b + 10 * digit_value c + digit_value d)
      else None
  | _ => None
  end.

(** [data.decode("utf-8")] succeeds: well-formed sequences, no surrogates, no
    overlong forms, nothing above U+10FFFF. *)
Definition continuation (c : chr) : bool := ((128 <=? code c) && (code c <=? 191))%N.
Definition between (lo hi : N) (c : chr) : bool := ((lo <=? code c) && (code c <=? hi))%N.

Fixpoint utf8_valid (fuel : nat) (l : list chr) : bool :=
  match fuel with
  | O => bool_decide (l = [])
  | S fuel =>
      match l with
      | [] => true
      | a :: l1 =>
          if between 0 127 a then utf8_valid fuel l1 else
          match l1 with
          | [] => false
          | b :: l2 =>
              if between 194 223 a then continuation b && utf8_valid fuel l2 else
              match l2 with
              | [] => false
              | c :: l3 =>
                  if between 224 239 a then
                    (if (code a =? 224)%N then between 160 191 b else if (code a =? 237)%N then between 128 159 b else continuation b)
                    && continuation c && utf8_valid fuel l3
                  else
                  match l3 with
                  | [] => false
                  | d :: l4 =>
                      between 240 244 a &&
                      (if (code a =? 240)%N then between 144 191 b else if (code a =? 244)%N then between 128 143 b else continuation b)
                      && continuation c && continuation d && utf8_valid fuel l4
                  end
              end
          end
      end
  end.

(** [sql.split("\n", 1)[0].rstrip("\r")] *)
Fixpoint first_line (s : string) : string :=
  match s with
  | EmptyString => EmptyString
  | String c s' => if (code c =? 10)%N then EmptyString else String c (first_line s')
  end.
Fixpoint rstrip_cr (s : string) : string :=
  match s with
  | EmptyString => EmptyString
  | String c s' =>
      match rstrip_cr s' with
      | EmptyString => if (code c =? 13)%N then EmptyString else String c EmptyString
      | t => String c t
      end
  end.

Section loading.
Context (sha256_hex : string → string).

(** * load_migrations *)

Definition load_file (name data : string) (found : gmap Z Migration) : migration_error + gmap Z Migration :=
  let chars := String.list_ascii_of_string name in
  if negb (is_sql chars) then inr found else
  match match_file_name chars with
  | None => inl (BadFileName name)
  | Some version =>
      match found !! version with
      | Some _ => inl (DuplicateVersion version)
      | None =>
          if negb (utf8_valid (S (String.length data)) (String.list_ascii_of_string data)) then inl (NotUtf8 name)
          else inr (<[version := mkMigration version name data (sha256_hex data)
                       (negb (bool_decide (rstrip_cr (first_line data) = NO_TRANSACTION_MARKER)))]> found)
      end
  end.

(** The files of the directory, in the order of [sorted(directory.iterdir())]. *)
Fixpoint load_files (files : list (string * string)) (found : gmap Z Migration) : migration_error + gmap Z Migration :=
  match files with
  | [] => inr found
  | (name, data) :: rest =>
      match load_file name data found with
      | inl e => inl e
      | inr found' => load_files rest found'
      end
  end.

(** [sorted(found)], and the check that it runs 1, 2, ... *)
Definition versions (found : gmap Z Migration) : list Z := merge_sort Z.le ((map_to_list found).*1).

Fixpoint check_gap (expected : Z) (vs : list Z) : option migration_error :=
  match vs with
  | [] => None
  | v :: rest => if v =? expected then check_gap (expected + 1) rest else Some (MissingMigration expected)
  end.

Definition load_migrations (directory : option (list (string * string))) : migration_error + list Migration :=
  match directory with
  | None => inl NoDirectory
  | Some files =>
      match load_files files ∅ with
      | inl e => inl e
      | inr found =>
          match check_gap 1 (versions found) with
          | Some e => inl e
          | None => inr (omap (λ v, found !! v) (versions found))
          end
      end
  end.

End loading.

(** * plan_migrations *)

(** A row of schema_migrations *)
Record row := mkRow { row_version : Z; row_name : string; row_checksum : string }.

Record MigrationPlan := mkPlan { pending : list Migration; ahead : list Z }.

Fixpoint check_holes (expected : Z) (recorded : list row) : option migration_error :=
  match recorded with
  | [] => None
  | r :: rest =>
      if row_version r =? expected then check_holes (expected + 1) rest
      else Some (HoleInHistory expected (row_version r))
  end.

Definition highest (migrations : list Migration) : Z := foldr (λ m, Z.max (m_version m)) 0 migrations.
Definition by_version (migrations : list Migration) (v : Z) : option Migration :=
  last (filter (λ m, m_version m = v) migrations).

Fixpoint compare_history (migrations : list Migration) (recorded : list row) : migration_error + list Z :=
  match recorded with
  | [] => inr []
  | r :: rest =>
      match by_version migrations (row_version r) with
      | None =>
          if highest migrations <? row_version r then
            match compare_history migrations rest with
            | inl e => inl e
            | inr ahead => inr (row_version r :: ahead)
            end
          else inl (RecordedWithoutFile (row_version r))
      | Some known =>
          if bool_decide (m_checksum known = row_checksum r) then compare_history migrations rest
          else inl (ChecksumMismatch (m_name known))
      end
  end.

Definition plan_migrations (recorded : list row) (migrations : list Migration) : migration_error + MigrationPlan :=
  match check_holes 1 recorded with
  | Some e => inl e
  | None =>
      match recorded, migrations with
      | _ :: _, [] => inl NoMigrationsShipped
      | _, _ =>
          match compare_history migrations recorded with
          | inl e => inl e
          | inr ahead => inr (mkPlan (filter (λ m, Z.of_nat (length recorded) < m_version m) migrations) ahead)
          end
      end
  end.

(** * Applying *)

(** The database: its schema, the rows of schema_migrations if the table exists,
    and the number of statements it was sent.  [run_sql] is what the text of a
    migration does to the schema, and whether it succeeds; [broken n] is whether the
    connection fails at statement [n], and [cut_off n] what is left of a migration
    it fails in; [commit n] what becomes of a COMMIT there. *)
Inductive commit_result := Committed | RolledBack | CommittedUnheard.

Class Database := {
  schema : Type;
  run_sql : string → schema → schema * bool;
  cut_off : nat → string → schema → schema;
  broken : nat → bool;
  commit : nat → commit_result;
  try_lock : nat → bool;
  lock_overdue : nat → bool;
}.

Record mdb `{Database} := mkMdb { db_schema : schema; db_history : option (list row); db_statement : nat }.

(** [ORDER BY version] *)
Definition row_le (r r' : row) : Prop := row_version r <= row_version r'.
#[global] Instance row_le_dec r r' : Decision (row_le r r').
Proof. unfold row_le. apply _. Defined.
Definition sort_rows (l : list row) : list row := merge_sort row_le l.

(** What a run raises: a MigrationError, or a psycopg.Error outside of a migration.
    [LockUnknown] marks a loop that was cut off. *)
Inductive run_exn := Raised (e : migration_error) | DatabaseError | LockUnknown.

Section runner.
Context `{Database}.

Abbreviation runM := (stM mdb run_exn).

Definition next (s : mdb) : mdb := mkMdb _ (db_schema s) (db_history s) (S (db_statement s)).

(** A statement other than the text of a migration. *)
Definition execute (f : mdb → mdb) : runM unit := λ s,
  if broken (db_statement s) then (next s, inl DatabaseError) else (f (next s), inr tt).

(** conn.execute(migration.sql) *)
Definition execute_sql (sql : string) : runM unit := λ s,
  if broken (db_statement s) then
    (mkMdb _ (cut_off (db_statement s) sql (db_schema s)) (db_history s) (S (db_statement s)), inl DatabaseError) else
  match run_sql sql (db_schema s) with
  | (d, true) => (mkMdb _ d (db_history s) (S (db_statement s)), inr tt)
  | (d, false) => (mkMdb _ d (db_history s) (S (db_statement s)), inl DatabaseError)
  end.

Definition create_table (s : mdb) : mdb := mkMdb _ (db_schema s) (Some (default [] (db_history s))) (db_statement s).

(** A new row; the version is the primary key. *)
Definition insert_row (r : row) : runM unit := λ s,
  match db_history s with
  | Some l =>
      if existsb (λ r', row_version r' =? row_version r) l then (s, inl DatabaseError)
      else (mkMdb _ (db_schema s) (Some (l ++ [r])) (db_statement s), inr tt)
  | None => (s, inl DatabaseError)
  end.

Definition _record (m : Migration) : runM unit :=
  execute id ;; insert_row (mkRow (m_version m) (m_name m) (m_checksum m)).

(** [with conn.transaction()]: an exception rolls back, and so may the COMMIT *)
Definition transaction (body : runM unit) : runM unit := λ s,
  match body s with
  | (s', inl e) => (mkMdb _ (db_schema s) (db_history s) (db_statement s'), inl e)
  | (s', inr _) =>
      match commit (db_statement s') with
      | Committed => (next s', inr tt)
      | CommittedUnheard => (next s', inl DatabaseError)
      | RolledBack => (mkMdb _ (db_schema s) (db_history s) (S (db_statement s')), inl DatabaseError)
      end
  end.

Definition _run_one (m : Migration) : runM unit :=
  if m_transactional m then transaction (execute_sql (m_sql m) ;; _record m)
  else execute_sql (m_sql m) ;; _record m.

(** The loop of _apply: the versions applied *)
Fixpoint run_all (pending : list Migration) : runM (list Z) :=
  match pending with
  | [] => mret []
  | m :: rest =>
      try_except (_run_one m)
        (λ e, match e with DatabaseError => Some (raise (Raised (MigrationFailed (m_name m)))) | _ => None end) ;;
      applied ← run_all rest;
      mret (m_version m :: applied)
  end.

Definition _apply (migrations : list Migration) : runM (list Z) :=
  execute create_table ;;
  execute id ;;
  recorded ← gets (λ s, sort_rows (default [] (db_history s)));
  match plan_migrations recorded migrations with
  | inl e => raise (Raised e)
  | inr plan => run_all (pending plan)
  end.

(** _take_lock, polled [fuel] times at most *)
Fixpoint _take_lock (fuel : nat) : runM unit :=
  match fuel with
  | O => raise LockUnknown
  | S fuel => λ s,
      if broken (db_statement s) then (next s, inl DatabaseError)
      else if try_lock (db_statement s) then (next s, inr tt)
      else if lock_overdue (db_statement s) then (next s, inl (Raised LockTimeout))
      else _take_lock fuel (next s)
  end.

(** _apply_locked and apply_migrations: the lock is released however the run ends,
    and a failure to release it is ignored. *)
Definition releasing_lock {A} (m : runM A) : runM A := λ s,
  match m s with (s', r) => (next s', r) end.

Definition apply_migrations (fuel : nat) (migrations : list Migration) : runM (list Z) :=
  _take_lock fuel ;; releasing_lock (_apply migrations).

(** * The check at startup: check_schema *)
Definition check_schema (migrations : list Migration) (s : mdb) : migration_error + list Z :=
  match db_history s with
  | None => inl TableMissing
  | Some recorded =>
      match plan_migrations (sort_rows recorded) migrations with
      | inl e => inl e
      | inr plan =>
          match pending plan with
          | [] => inr (ahead plan)
          | l => inl (DatabaseBehind (m_name <$> l))
          end
      end
  end.
End runner.

(** * What a migration set is *)

(** The versions run 1, 2, ... *)
Definition numbered (ms : list Migration) : Prop := ∀ i m, ms !! i = Some m → m_version m = Z.of_nat i + 1.

Lemma numbered_app_l ms ms' : numbered (ms ++ ms') → numbered ms.
Proof. intros Hn i m Hm. apply Hn. by apply lookup_app_l_Some. Qed.

Lemma load_file_ok sha name data found found' :
  load_file sha name data found = inr found' → map_Forall (λ v m, m_version m = v) found → map_Forall (λ v m, m_version m = v) found'.
Proof.
  unfold load_file. destruct (negb (is_sql _)); [by intros [= <-]|]. destruct (match_file_name _) as [v|]; [|done].
  destruct (found !! v); [done|]. destruct (negb _); [done|]. intros [= <-] Hf. by apply map_Forall_insert_2.
Qed.

Lemma load_files_ok sha files found found' :
  load_files sha files found = inr found' → map_Forall (λ v m, m_version m = v) found → map_Forall (λ v m, m_version m = v) found'.
Proof.
  revert found. induction files as [|[name data] files IH]; intros found; cbn; [by intros [= <-]|].
  destruct (load_file sha name data found) as [e|f] eqn:E; [done|]. intros Hf Hok. eapply IH; [done|]. by eapply load_file_ok.
Qed.

Lemma check_gap_None k vs : check_gap k vs = None → ∀ i v, vs !! i = Some v → v = k + Z.of_nat i.
Proof.
  revert k. induction vs as [|v vs IH]; intros k Hg i w Hi; [done|]. cbn in Hg. destruct (Z.eqb_spec v k) as [->|]; [|done].
  destruct i as [|i]; cbn in Hi; [injection Hi as <-; lia|]. apply (IH (k + 1) Hg) in Hi. lia.
Qed.

(** Files that load make such a set. *)
Lemma load_migrations_numbered sha dir ms : load_migrations sha dir = inr ms → numbered ms.
Proof.
  unfold load_migrations. destruct dir as [files|]; [|done]. destruct (load_files sha files ∅) as [e|found] eqn:El; [done|].
  destruct (check_gap 1 (versions found)) eqn:Eg; [done|]. intros [= <-].
  apply load_files_ok in El; [|apply map_Forall_empty].
  assert (∀ v, v ∈ versions found → is_Some (found !! v)) as Hin.
  { intros v Hv. unfold versions in Hv. rewrite merge_sort_Permutation in Hv.
    apply list_elem_of_fmap in Hv as ([v' m] & -> & Hm%elem_of_map_to_list). eauto. }
  pose proof (check_gap_None _ _ Eg) as Hgap. clear Eg. revert Hgap Hin. generalize (versions found) as vs. intros vs Hgap Hin.
  assert (∀ (k : Z) (vs : list Z), (∀ i v, vs !! i = Some v → v = k + Z.of_nat i) → (∀ v, v ∈ vs → is_Some (found !! v)) →
    ∀ (i : nat) m, (omap (λ v : Z, found !! v) vs : list Migration) !! i = Some m → m_version m = k + Z.of_nat i) as Hgen.
  { clear vs Hgap Hin. intros k vs. revert k. induction vs as [|v vs IH]; intros k Hk Hs i m Hm; [done|]. cbn in Hm.
    destruct (Hs v) as [x Hx]; [left|]. rewrite Hx in Hm. destruct i as [|i]; cbn in Hm.
    - injection Hm as <-. rewrite (El v x Hx). by apply (Hk 0%nat).
    - assert (m_version m = k + 1 + Z.of_nat i); [|lia]. apply (IH (k + 1)); [|intros w Hw; apply Hs; by right|done].
      intros j w Hw. specialize (Hk (S j) w Hw). lia. }
  intros i m Hm. rewrite (Hgen 1 vs) with (i := i); [lia|done..].
Qed.

(** * Plans *)

Lemma filter_none {A} (P : A → Prop) `{∀ x, Decision (P x)} l : Forall (λ x, ¬ P x) l → filter P l = [].
Proof. induction 1 as [|x l Hx _ IH]; [done|]. by rewrite filter_cons_False. Qed.

Section plans.
Context (ms : list Migration) (Hms : numbered ms).

Lemma by_version_numbered i m : ms !! i = Some m → by_version ms (Z.of_nat i + 1) = Some m.
Proof using Hms.
  intros Hm. unfold by_version.
  assert (∀ k l, (∀ j x, l !! j = Some x → m_version x = k + Z.of_nat j) →
    ∀ j x, l !! j = Some x → filter (λ y, m_version y = k + Z.of_nat j) l = [x]) as Hgen.
  { clear. intros k l. revert k. induction l as [|y l IH]; intros k Hl j x Hx; [done|].
    assert (∀ j x, l !! j = Some x → m_version x = k + 1 + Z.of_nat j) as Hl' by (intros j' x' Hx'; specialize (Hl (S j') x' Hx'); lia).
    rewrite filter_cons. destruct j as [|j]; cbn in Hx.
    - injection Hx as <-. rewrite decide_True by (by apply (Hl 0%nat)). f_equal.
      apply filter_none, Forall_lookup. intros j' x' Hx'. specialize (Hl' j' x' Hx'). lia.
    - rewrite decide_False by (rewrite (Hl 0%nat y eq_refl); lia).
      replace (k + Z.of_nat (S j)) with (k + 1 + Z.of_nat j) by lia. by apply IH. }
  rewrite Z.add_comm. rewrite (Hgen 1 ms) with (j := i) (x := m); [done| |done]. intros j x Hx. rewrite (Hms j x Hx). lia.
Qed.

Lemma by_version_above v : Z.of_nat (length ms) < v → by_version ms v = None.
Proof using Hms.
  intros Hv. unfold by_version. rewrite filter_none; [done|]. apply Forall_lookup. intros i m Hm.
  rewrite (Hms i m Hm). apply lookup_lt_Some in Hm. lia.
Qed.

Lemma highest_numbered : highest ms = Z.of_nat (length ms).
Proof using Hms.
  assert (∀ k l, 0 <= k → (∀ j x, l !! j = Some x → m_version x = k + Z.of_nat j + 1) → 0 ≤ highest l ∧
    (l ≠ [] → highest l = k + Z.of_nat (length l))) as Hgen.
  { clear. intros k l. revert k. induction l as [|y l IH]; intros k Hk Hl; [done|].
    assert (m_version y = k + 1) as Hy by (rewrite (Hl 0%nat y eq_refl); lia).
    destruct (IH (k + 1) ltac:(lia)) as [H0 H1]; [intros j x Hx; specialize (Hl (S j) x Hx); lia|].
    cbn [highest foldr length]. fold (highest l). destruct l as [|z l]; [cbn; lia|]. rewrite H1 by done. cbn [length]. lia. }
  destruct ms as [|m l] eqn:E; [done|]. rewrite <- E in *. destruct (Hgen 0 ms ltac:(lia)) as [_ H1].
  { intros j x Hx. rewrite (Hms j x Hx). lia. }
  rewrite H1; [lia|by rewrite E].
Qed.

(** Rows numbered from [k + 1] agree with the set where it has a file. *)
Definition agrees (k : nat) (rows : list row) : Prop :=
  ∀ i r m, rows !! i = Some r → ms !! (k + i)%nat = Some m → m_checksum m = row_checksum r.

Lemma compare_spec k rows a :
  (∀ i r, rows !! i = Some r → row_version r = Z.of_nat (k + i) + 1) →
  compare_history ms rows = inr a ↔ agrees k rows ∧ a = row_version <$> drop (length ms - k) rows.
Proof using Hms.
  revert k a. induction rows as [|r rows IH]; intros k a Hv.
  { cbn. rewrite drop_nil. split; [intros [= <-]; by split; [intros i r m [=]|]|by intros [_ ->]]. }
  assert (row_version r = Z.of_nat k + 1) as Er by (rewrite (Hv 0%nat r eq_refl); lia).
  assert (∀ i r, rows !! i = Some r → row_version r = Z.of_nat (S k + i) + 1) as Hv' by (intros i r' Hr'; rewrite (Hv (S i) r' Hr'); lia).
  assert (∀ P : Prop, (∀ m, ms !! k = Some m → m_checksum m = row_checksum r) → (agrees k (r :: rows) ∧ P ↔ agrees (S k) rows ∧ P)) as Hag.
  { intros P Hc. split; intros [Ha HP]; (split; [|done]).
    - intros i r' m Hr' Hm. apply (Ha (S i) r' m Hr'). by replace (k + S i)%nat with (S k + i)%nat by lia.
    - intros [|i] r' m Hr' Hm; cbn in Hr'; [injection Hr' as <-; apply Hc; by rewrite Nat.add_0_r in Hm|].
      apply (Ha i r' m Hr'). by replace (S k + i)%nat with (k + S i)%nat by lia. }
  cbn [compare_history]. rewrite Er. destruct (ms !! k) as [m|] eqn:Em.
  - rewrite (by_version_numbered k m Em). pose proof (lookup_lt_Some _ _ _ Em).
    replace (length ms - k)%nat with (S (length ms - S k)) by lia. cbn [drop].
    case_bool_decide as Hc.
    + rewrite (IH (S k) a Hv'), Hag; [done|]. congruence.
    + split; [done|]. intros [Ha _]. destruct Hc. apply (Ha 0%nat r m eq_refl). by rewrite Nat.add_0_r.
  - specialize (Hag (a = row_version r :: (row_version <$> rows)) ltac:(done)). apply lookup_ge_None in Em. rewrite by_version_above by lia. rewrite highest_numbered, (proj2 (Z.ltb_lt _ _)) by lia.
    replace (length ms - k)%nat with 0%nat by lia. rewrite drop_0. cbn [fmap list_fmap]. rewrite Hag, Er.
    specialize (IH (S k)). replace (length ms - S k)%nat with 0%nat in IH by lia. rewrite drop_0 in IH.
    destruct (compare_history ms rows) as [e|b].
    + split; [done|]. intros [Ha ->]. discriminate (proj2 (IH (row_version <$> rows) Hv') (conj Ha eq_refl)).
    + destruct (proj1 (IH b Hv') eq_refl) as [Ha ->]. split; [by intros [= <-]|by intros [_ ->]].
Qed.

Lemma check_holes_spec k rows :
  check_holes (Z.of_nat k + 1) rows = None ↔ ∀ i r, rows !! i = Some r → row_version r = Z.of_nat (k + i) + 1.
Proof using.
  revert k. induction rows as [|r rows IH]; intros k; [done|]. cbn.
  destruct (Z.eqb_spec (row_version r) (Z.of_nat k + 1)) as [E|Hne].
  - replace (Z.of_nat k + 1 + 1) with (Z.of_nat (S k) + 1) by lia. rewrite IH. split; intros Hv i r' Hr'.
    + destruct i as [|i]; cbn in Hr'; [injection Hr' as <-; by rewrite Nat.add_0_r|]. rewrite (Hv i r' Hr'). lia.
    + rewrite (Hv (S i) r' Hr'). lia.
  - split; [done|]. intros Hv. destruct Hne. rewrite (Hv 0%nat r eq_refl). lia.
Qed.

Lemma pending_drop k : filter (λ m, Z.of_nat k < m_version m) ms = drop k ms.
Proof using Hms.
  assert (∀ b l, (∀ j x, l !! j = Some x → m_version x = Z.of_nat (b + j) + 1) →
    filter (λ m, Z.of_nat k < m_version m) l = drop (k - b) l) as Hgen.
  { clear. intros b l. revert b. induction l as [|y l IH]; intros b Hl; [by rewrite drop_nil|].
    assert (∀ j x, l !! j = Some x → m_version x = Z.of_nat (S b + j) + 1) as Hl' by (intros j x Hx; rewrite (Hl (S j) x Hx); lia).
    rewrite filter_cons, (IH (S b) Hl'). pose proof (Hl 0%nat y eq_refl) as Hy.
    destruct (decide _) as [Hd|Hd].
    - replace (k - b)%nat with 0%nat by lia. replace (k - S b)%nat with 0%nat by lia. done.
    - by replace (k - b)%nat with (S (k - S b)) by lia. }
  rewrite (Hgen 0%nat ms); [by rewrite Nat.sub_0_r|]. intros j x Hx. rewrite (Hms j x Hx). lia.
Qed.

(** A plan exists exactly for a history 1..N that agrees with the files. *)
Lemma plan_spec rows p :
  plan_migrations rows ms = inr p ↔
  (∀ i r, rows !! i = Some r → row_version r = Z.of_nat i + 1) ∧ agrees 0 rows ∧ (ms = [] → rows = []) ∧
  p = mkPlan (drop (length rows) ms) (row_version <$> drop (length ms) rows).
Proof using Hms.
  unfold plan_migrations. pose proof (check_holes_spec 0 rows) as Hh. change (Z.of_nat 0 + 1) with 1 in Hh.
  destruct (check_holes 1 rows) as [e|] eqn:Eh.
  { split; [done|]. intros (Hv & _). discriminate (proj2 Hh Hv). }
  pose proof (proj1 Hh eq_refl) as Hv. pose proof (compare_spec 0 rows) as Hc. rewrite Nat.sub_0_r in Hc.
  assert (match compare_history ms rows with inl e => inl e | inr a => inr (mkPlan (filter (λ m, Z.of_nat (length rows) < m_version m) ms) a) end = inr p
    ↔ agrees 0 rows ∧ p = mkPlan (drop (length rows) ms) (row_version <$> drop (length ms) rows)) as Hbody.
  { rewrite pending_drop. destruct (compare_history ms rows) as [e|a].
    - split; [done|]. intros [Ha _]. discriminate (proj2 (Hc _ Hv) (conj Ha eq_refl)).
    - destruct (proj1 (Hc a Hv) eq_refl) as [Ha ->]. split; [by intros [= <-]|by intros [_ ->]]. }
  assert ((ms = [] → rows = []) →
    match compare_history ms rows with inl e => inl e | inr a => inr (mkPlan (filter (λ m, Z.of_nat (length rows) < m_version m) ms) a) end = inr p
    ↔ (∀ i r, rows !! i = Some r → row_version r = Z.of_nat i + 1) ∧ agrees 0 rows ∧ (ms = [] → rows = []) ∧
      p = mkPlan (drop (length rows) ms) (row_version <$> drop (length ms) rows)) as Hfull.
  { intros He. rewrite Hbody. split; [by intros [? ->]|by intros (? & ? & ? & ->)]. }
  clear Hbody. destruct rows as [|r rows]; [by apply Hfull|]. destruct ms as [|m l]; [|by apply Hfull].
  split; [done|]. intros (_ & _ & Hne & _). discriminate (Hne eq_refl).
Qed.
End plans.

(** * Sorting the history *)

(** Rows 1, 2, ... in order *)
Definition rows_numbered (rows : list row) : Prop := ∀ i r, rows !! i = Some r → row_version r = Z.of_nat i + 1.

#[global] Instance row_le_total : Total row_le.
Proof. intros r r'. unfold row_le. lia. Qed.
#[global] Instance row_le_trans : Transitive row_le.
Proof. intros r r' r''. unfold row_le. lia. Qed.

Lemma rows_numbered_sorted rows : rows_numbered rows → StronglySorted row_le rows.
Proof.
  assert (∀ k l, (∀ i r, l !! i = Some r → row_version r = k + Z.of_nat i) → StronglySorted row_le l) as Hgen.
  { clear. intros k l. revert k. induction l as [|r l IH]; intros k Hl; constructor.
    - apply (IH (k + 1)). intros i r' Hr'. rewrite (Hl (S i) r' Hr'). lia.
    - apply Forall_lookup. intros i r' Hr'. unfold row_le. rewrite (Hl 0%nat r eq_refl), (Hl (S i) r' Hr'). lia. }
  intros Hn. apply (Hgen 1). intros i r Hr. rewrite (Hn i r Hr). lia.
Qed.

Lemma sort_rows_numbered rows recorded : rows_numbered rows → rows ≡ₚ recorded → sort_rows recorded = rows.
Proof.
  intros Hn Hp. apply (StronglySorted_unique_strong row_le).
  - intros r r' Hr Hr' H1 H2. unfold sort_rows in Hr. rewrite merge_sort_Permutation, <- Hp in Hr.
    apply list_elem_of_lookup in Hr as [i Hi], Hr' as [j Hj]. unfold row_le in *.
    rewrite (Hn i r Hi), (Hn j r' Hj) in *. replace j with i in Hj by lia. congruence.
  - apply StronglySorted_merge_sort; apply _.
  - by apply rows_numbered_sorted.
  - unfold sort_rows. by rewrite merge_sort_Permutation.
Qed.

Section runs.
Context `{Database}.

(** C30: check_schema lets the application start exactly when schema_migrations
    exists and records, in whatever order, the versions 1..N for some N at least the
    number of files, with the checksum of the file for each version that has one (and
    nothing when there are no files); it then returns the versions that have none.
    It answers by the plan, without touching the database. *)
Theorem startup_check_exact sha dir ms s a :
  load_migrations sha dir = inr ms →
  check_schema ms s = inr a ↔
  ∃ recorded rows, db_history s = Some recorded ∧ rows ≡ₚ recorded ∧ rows_numbered rows ∧ agrees ms 0 rows ∧
    (length ms ≤ length rows)%nat ∧ (ms = [] → rows = []) ∧ a = row_version <$> drop (length ms) rows.
Proof.
  intros Hms%load_migrations_numbered. unfold check_schema. destruct (db_history s) as [recorded|]; [|naive_solver].
  split.
  - destruct (plan_migrations (sort_rows recorded) ms) as [e|p] eqn:Ep; [done|]. apply plan_spec in Ep as (Hn & Ha & He & ->); [|done].
    cbn. destruct (drop (length (sort_rows recorded)) ms) as [|m l] eqn:Ed; [|done]. intros [= <-].
    exists recorded, (sort_rows recorded). split_and!; try done; [apply merge_sort_Permutation|].
    apply (f_equal length) in Ed. rewrite length_drop in Ed. cbn in Ed. lia.
  - intros (? & rows & [= <-] & Hp & Hn & Ha & Hl & He & ->). rewrite (sort_rows_numbered rows recorded Hn Hp).
    rewrite (proj2 (plan_spec ms Hms rows _) (conj Hn (conj Ha (conj He eq_refl)))). cbn. by rewrite (drop_ge ms) by done.
Qed.

(** * Runs *)

Definition row_of (m : Migration) : row := mkRow (m_version m) (m_name m) (m_checksum m).

(** The schema after the texts of [l], each in full. *)
Fixpoint replay (l : list Migration) (d : schema) : schema :=
  match l with
  | [] => d
  | m :: rest => replay rest (run_sql (m_sql m) d).1
  end.

(** What a run left: the migrations [k..j) recorded, and the schema they make, except
    where migration [j], outside of a transaction, failed halfway. *)
Definition reached (ms : list Migration) (k j : nat) (d : schema) (r : option run_exn) (s : mdb) : Prop :=
  default [] (db_history s) = row_of <$> take j ms ∧
  (db_schema s = replay (take (j - k) (drop k ms)) d ∨
   ∃ m, ms !! j = Some m ∧ m_transactional m = false ∧ r = Some (Raised (MigrationFailed (m_name m)))).

(** A database on which nothing fails. *)
Definition calm : Prop :=
  (∀ n, broken n = false) ∧ (∀ n, commit n = Committed) ∧ (∀ n, try_lock n = true) ∧ (∀ sql d, (run_sql sql d).2 = true).

Definition recorded_at (s : mdb) (l : list row) : Prop := db_history s = Some l.

Lemma run_one_spec m s l :
  recorded_at s l → Forall (λ r, row_version r ≠ m_version m) l →
  wp (_run_one m)
    (λ _ s', db_schema s' = (run_sql (m_sql m) (db_schema s)).1 ∧ recorded_at s' (l ++ [row_of m]))
    (λ e s', e = DatabaseError ∧ ¬ calm ∧
       ((db_schema s' = db_schema s ∧ recorded_at s' l) ∨
        (db_schema s' = (run_sql (m_sql m) (db_schema s)).1 ∧ recorded_at s' (l ++ [row_of m])) ∨
        (m_transactional m = false ∧ recorded_at s' l))) s.
Proof.
  unfold recorded_at. intros Hl Hf.
  assert (existsb (λ r', row_version r' =? m_version m) l = false) as Hex.
  { apply not_true_iff_false. rewrite existsb_exists. intros (r & Hr%list_elem_of_In & Hv%Z.eqb_eq).
    rewrite Forall_forall in Hf. by apply (Hf r). }
  assert (wp (execute_sql (m_sql m) ;; _record m)
    (λ _ s', db_schema s' = (run_sql (m_sql m) (db_schema s)).1 ∧ db_history s' = Some (l ++ [row_of m]))
    (λ e s', e = DatabaseError ∧ ¬ calm ∧ db_history s' = Some l) s) as Hbody.
  { apply wp_bind. unfold wp at 1, execute_sql.
    destruct (broken _) eqn:Eb; [split_and!; [done|intros [Hb _]; congruence|done]|].
    destruct (run_sql _ _) as [d []] eqn:Es.
    2:{ split_and!; [done| |done]. intros (_ & _ & _ & Hq). specialize (Hq (m_sql m) (db_schema s)). by rewrite Es in Hq. }
    unfold _record. apply wp_bind. unfold wp at 1, execute. cbn.
    destruct (broken (S _)) eqn:Eb'; [split_and!; [done|intros [Hb _]; congruence|done]|].
    unfold wp, insert_row. cbn. rewrite Hl, Hex. done. }
  unfold _run_one. destruct (m_transactional m).
  - revert Hbody. unfold wp, transaction. generalize ((execute_sql (m_sql m) ;; _record m) s) as out. intros [s' [e|[]]] Hbody;
      [destruct Hbody as (-> & Hc & _); cbn; auto|].
    destruct Hbody as [Hd Hh]. destruct (commit _) eqn:Ec; cbn; [auto|split_and!; auto; intros (_ & Hco & _); congruence..].
  - eapply wp_mono; [exact Hbody|done|]. intros e s' (-> & Hc & Hs'). split_and!; auto.
Qed.

Lemma replay_snoc l m d : replay (l ++ [m]) d = (run_sql (m_sql m) (replay l d)).1.
Proof. revert d. induction l as [|x l IH]; intros d; [done|]. apply IH. Qed.

Lemma replay_step ms k j m d : (k ≤ j)%nat → ms !! j = Some m →
  replay (take (S j - k) (drop k ms)) d = (run_sql (m_sql m) (replay (take (j - k) (drop k ms)) d)).1.
Proof.
  intros Hk Hm. replace (S j - k)%nat with (S (j - k)) by lia.
  rewrite (take_S_r _ _ m) by (rewrite lookup_drop; by replace (k + (j - k))%nat with j by lia). apply replay_snoc.
Qed.

Lemma recorded_fresh ms j m : numbered ms → ms !! j = Some m →
  Forall (λ r, row_version r ≠ m_version m) (row_of <$> take j ms).
Proof.
  intros Hms Hm. apply Forall_fmap, Forall_lookup. intros i x Hx. apply lookup_take_Some in Hx as [Hx Hi]. cbn.
  rewrite (Hms _ _ Hm), (Hms _ _ Hx). lia.
Qed.

Lemma run_all_spec ms k j d s :
  numbered ms → (k ≤ j ≤ length ms)%nat → recorded_at s (row_of <$> take j ms) →
  db_schema s = replay (take (j - k) (drop k ms)) d →
  wp (run_all (drop j ms))
    (λ vs s', reached ms k (length ms) d None s' ∧ is_Some (db_history s') ∧ vs = m_version <$> drop j ms)
    (λ e s', ∃ j', (j ≤ j' ≤ length ms)%nat ∧ reached ms k j' d (Some e) s' ∧ ¬ calm) s.
Proof.
  intros Hms. remember (drop j ms) as l eqn:El. revert j s El. induction l as [|m l IH]; intros j s El Hj Hr Hd.
  { assert (j = length ms) as -> by (apply (f_equal length) in El; rewrite length_drop in El; cbn in El; lia).
    apply wp_ret. unfold reached, recorded_at in *. rewrite Hr. cbn. split_and!; eauto. }
  assert (ms !! j = Some m) as Hm.
  { rewrite <- (Nat.add_0_r j), <- lookup_drop, <- El. done. }
  assert (l = drop (S j) ms) as El' by (by rewrite <- drop_drop, Nat.add_1_r, <- El || (rewrite <- Nat.add_1_r, <- drop_drop, <- El; done)).
  pose proof (lookup_lt_Some _ _ _ Hm) as Hlt.
  assert (∀ s', db_schema s' = (run_sql (m_sql m) (db_schema s)).1 → db_schema s' = replay (take (S j - k) (drop k ms)) d) as Hnext.
  { intros s' ->. rewrite Hd. symmetry. apply replay_step; [lia|done]. }
  assert (∀ s', recorded_at s' ((row_of <$> take j ms) ++ [row_of m]) → recorded_at s' (row_of <$> take (S j) ms)) as Hrow.
  { intros s'. by rewrite (take_S_r _ _ _ Hm), fmap_app. }
  cbn [run_all]. apply wp_bind, wp_try. eapply wp_mono; [apply (run_one_spec m s _ Hr), recorded_fresh; done| |].
  - intros [] s' [Hd' Hr']. apply wp_bind. eapply wp_mono; [apply (IH (S j)); [done|lia|by apply Hrow|by apply Hnext]| |].
    + intros vs s'' (Hre & Hex & ->). apply wp_ret. done.
    + intros e s'' (j' & Hj' & Hre). exists j'. split; [lia|done].
  - intros e s' (-> & Hcalm & Hcases). cbn. unfold reached, recorded_at in *.
    destruct Hcases as [[Hd' Hr']|[[Hd' Hr']|[Ht Hr']]].
    + exists j. rewrite Hr'. cbn. split_and!; [lia..|done| |done]. left. congruence.
    + exists (S j). rewrite (Hrow s' Hr'). cbn. split_and!; [lia..|done| |done]. left. by apply Hnext.
    + exists j. rewrite Hr'. cbn. split_and!; [lia..|done| |done]. right. eauto.
Qed.

Lemma take_lock_spec fuel s :
  wp (_take_lock fuel)
    (λ _ s', db_schema s' = db_schema s ∧ db_history s' = db_history s)
    (λ e s', db_schema s' = db_schema s ∧ db_history s' = db_history s ∧ (fuel = 0%nat ∨ ¬ calm)) s.
Proof.
  revert s. induction fuel as [|fuel IH]; intros s; [unfold wp; cbn; auto|]. unfold wp at 1. cbn.
  destruct (broken _) eqn:Eb; [cbn; split_and!; try done; right; intros [Hb _]; congruence|].
  destruct (try_lock _) eqn:El; [done|].
  assert (¬ calm) as Hc by (intros (_ & _ & Ht & _); congruence).
  destruct (lock_overdue _); [cbn; auto|]. eapply wp_mono; [apply (IH (next s))|done|]. intros e s' (? & ? & _). auto.
Qed.

Lemma recorded_numbered ms k : numbered ms → rows_numbered (row_of <$> take k ms).
Proof.
  intros Hms i r Hr. apply list_lookup_fmap_Some in Hr as (m & -> & Hm). apply lookup_take_Some in Hm as [Hm _]. by apply Hms.
Qed.

Lemma recorded_agrees ms k : agrees ms 0 (row_of <$> take k ms).
Proof.
  intros i r m Hr Hm. apply list_lookup_fmap_Some in Hr as (m' & -> & Hm'). apply lookup_take_Some in Hm' as [Hm' _].
  cbn in *. by simplify_eq.
Qed.

Lemma plan_recorded ms k : numbered ms → (k ≤ length ms)%nat →
  plan_migrations (sort_rows (row_of <$> take k ms)) ms = inr (mkPlan (drop k ms) []).
Proof.
  intros Hms Hk. rewrite (sort_rows_numbered (row_of <$> take k ms)) by (by try apply recorded_numbered).
  apply plan_spec; [done|]. rewrite length_fmap, length_take, Nat.min_l by done. split_and!.
  - by apply recorded_numbered.
  - apply recorded_agrees.
  - intros ->. by rewrite take_nil.
  - f_equal. rewrite drop_ge; [done|]. rewrite length_fmap, length_take. lia.
Qed.

Lemma apply_spec ms k s :
  numbered ms → (k ≤ length ms)%nat → default [] (db_history s) = row_of <$> take k ms →
  wp (_apply ms)
    (λ vs s', reached ms k (length ms) (db_schema s) None s' ∧ is_Some (db_history s') ∧ vs = m_version <$> drop k ms)
    (λ e s', ∃ j, (k ≤ j ≤ length ms)%nat ∧ reached ms k j (db_schema s) (Some e) s' ∧ ¬ calm) s.
Proof.
  intros Hms Hk Hh.
  assert (∀ s' e n, broken n = true → db_schema s' = db_schema s → default [] (db_history s') = default [] (db_history s) →
    ∃ j, (k ≤ j ≤ length ms)%nat ∧ reached ms k j (db_schema s) (Some e) s' ∧ ¬ calm) as Hstay.
  { intros s' e n Hn Hd Hd'. exists k. unfold reached. rewrite Hd', Hd, Nat.sub_diag. split_and!; auto. intros [Hb _]. congruence. }
  unfold _apply. apply wp_bind. unfold wp at 1, execute. destruct (broken (db_statement s)) eqn:E1; [by eapply Hstay|].
  apply wp_bind. unfold wp at 1, execute. destruct (broken (db_statement (create_table _))) eqn:E2; [by eapply Hstay|].
  apply wp_bind. unfold wp at 1, gets. cbn [db_history create_table next default id].
  rewrite Hh, plan_recorded by done. apply run_all_spec; [done|lia|unfold recorded_at; cbn; by rewrite Hh|by rewrite Nat.sub_diag].
Qed.

Definition exn_of {A} (r : run_exn + A) : option run_exn := match r with inl e => Some e | inr _ => None end.

(** C29: A run of the migrator, from a database where the first [k] migrations are
    recorded, leaves exactly the first [j] recorded for some [j] between [k] and the
    number of files, whatever fails and wherever the connection breaks: a lost COMMIT
    included.  The schema is then that of the migrations it ran, each in full, except
    that a migration outside of a transaction may have been left halfway, which the
    error names.  A run that returns applied the missing ones, returns their versions,
    and the startup check then passes with nothing ahead; a run on a database where
    nothing fails returns. *)
Theorem migrations_all_or_nothing sha dir ms k fuel s s' r :
  load_migrations sha dir = inr ms → (k ≤ length ms)%nat →
  default [] (db_history s) = row_of <$> take k ms →
  apply_migrations fuel ms s = (s', r) →
  (∃ j, (k ≤ j ≤ length ms)%nat ∧ reached ms k j (db_schema s) (exn_of r) s') ∧
  (∀ vs, r = inr vs →
     db_schema s' = replay (drop k ms) (db_schema s) ∧ vs = m_version <$> drop k ms ∧ check_schema ms s' = inr []) ∧
  (calm → fuel ≠ 0%nat → ∃ vs, r = inr vs).
Proof.
  intros Hms%load_migrations_numbered Hk Hh Hrun.
  assert (wp (apply_migrations fuel ms)
    (λ vs s', reached ms k (length ms) (db_schema s) None s' ∧ is_Some (db_history s') ∧ vs = m_version <$> drop k ms)
    (λ e s', ∃ j, (k ≤ j ≤ length ms)%nat ∧ reached ms k j (db_schema s) (Some e) s' ∧ (fuel = 0%nat ∨ ¬ calm)) s) as Hwp.
  { unfold apply_migrations. apply wp_bind. eapply wp_mono; [apply take_lock_spec| |].
    - intros _ s1 [Hd Hh1]. rewrite <- Hd. pose proof (apply_spec ms k s1 Hms Hk ltac:(by rewrite Hh1)) as Ha.
      unfold wp, releasing_lock in *. destruct (_apply ms s1) as [s2 [e|vs]]; [|done].
      destruct Ha as (j & Hj & Hre & Hc). exists j. auto.
    - intros e s1 (Hd & Hh1 & Hc). exists k. unfold reached. rewrite Hd, Hh1, Nat.sub_diag. split_and!; auto. }
  unfold wp in Hwp. rewrite Hrun in Hwp. destruct r as [e|vs].
  - destruct Hwp as (j & Hj & Hre & Hc). split_and!; [by eauto|done|]. intros Hcalm Hf. by destruct Hc.
  - destruct Hwp as (Hre & [l Hl] & ->). split_and!; [by exists (length ms)| |by eauto].
    intros vs [= <-]. destruct Hre as [Hrows [Hd|(m & _ & _ & [=])]]. rewrite take_ge in Hd by (rewrite length_drop; lia).
    split_and!; [done|done|]. unfold check_schema. rewrite Hl in Hrows |- *. cbn in Hrows. rewrite Hrows, plan_recorded by done.
    cbn. by rewrite drop_all.
Qed.
End runs.

(** * A sample: two files, and a database whose schema is what was run on it. *)

Definition sample_dir : option (list (string * string)) :=
  Some [("0001_init.sql", "CREATE TABLE t ()"); ("0002_more.sql", "ALTER TABLE t"); ("README.md", "")].

Definition sample_migrations : list Migration :=
  [mkMigration 1 "0001_init.sql" "CREATE TABLE t ()" "CREATE TABLE t ()" true;
   mkMigration 2 "0002_more.sql" "ALTER TABLE t" "ALTER TABLE t" true].

Lemma sample_loads : load_migrations id sample_dir = inr sample_migrations.
Proof. vm_compute. reflexivity. Qed.

(** The connection breaks at statement [n]. *)
Definition sample_database (n : nat) : Database := {|
  schema := list string;
  run_sql sql d := (d ++ [sql], true);
  cut_off _ _ d := d;
  broken := Nat.eqb n;
  commit _ := Committed;
  try_lock _ := true;
  lock_overdue _ := false |}.

Definition sample_start (n : nat) : @mdb (sample_database n) := @mkMdb (sample_database n) [] None 0.

(** Breaking at the row of the second migration leaves the first. *)
Definition sample_run (n : nat) := @apply_migrations (sample_database n) 1 sample_migrations (sample_start n).

Lemma migrations_all_or_nothing_witness :
  (∃ j, (0 ≤ j ≤ 2)%nat ∧ @reached (sample_database 7) sample_migrations 0 j [] (exn_of (sample_run 7).2) (sample_run 7).1) ∧
  (∃ vs, (sample_run 100).2 = inr vs ∧ vs = [1; 2]).
Proof.
  split.
  - exact (proj1 (@migrations_all_or_nothing (sample_database 7) id sample_dir sample_migrations 0 1 (sample_start 7)
      (sample_run 7).1 (sample_run 7).2 sample_loads ltac:(cbn; lia) eq_refl (surjective_pairing _))).
  - destruct (@migrations_all_or_nothing (sample_database 100) id sample_dir sample_migrations 0 1 (sample_start 100)
      (sample_run 100).1 (sample_run 100).2 sample_loads ltac:(cbn; lia) eq_refl (surjective_pairing _)) as (_ & Hvs & _).
    exists [1; 2]. split; [|reflexivity]. vm_compute. reflexivity.
Defined.

Example sample_broken_run : exn_of (sample_run 7).2 = Some (Raised (MigrationFailed "0002_more.sql"))
  ∧ db_schema (sample_run 7).1 = ["CREATE TABLE t ()"].
Proof. vm_compute. split; reflexivity. Qed.

Lemma startup_check_exact_witness :
  @check_schema (sample_database 100) sample_migrations
    (@mkMdb (sample_database 100) [] (Some [mkRow 2 "b" "ALTER TABLE t"; mkRow 3 "c" "?"; mkRow 1 "a" "CREATE TABLE t ()"]) 0) = inr [3].
Proof.
  apply (@startup_check_exact (sample_database 100) id sample_dir sample_migrations _ [3] sample_loads).
  exists [mkRow 2 "b" "ALTER TABLE t"; mkRow 3 "c" "?"; mkRow 1 "a" "CREATE TABLE t ()"].
  exists [mkRow 1 "a" "CREATE TABLE t ()"; mkRow 2 "b" "ALTER TABLE t"; mkRow 3 "c" "?"].
  split_and!; [reflexivity| |..].
  - apply Permutation_sym. apply (Permutation_app_comm [_; _] [_]).
  - intros [|[|[|i]]] r Hr; cbn in Hr; simplify_eq; reflexivity.
  - intros [|[|i]] r m Hr Hm; cbn in *; simplify_eq; reflexivity.
  - cbn. lia.
  - discriminate.
  - reflexivity.
Defined.
