(* ===== verification/Url.v ===== *)
(** What the code uses of [urllib.parse.urlsplit]: the scheme, the authority and its
    password and port, for ASCII texts; and the two functions that decide by them,
    [resolve_database_password] (src/app/infrastructure/database_credentials.py) and
    [loopback_base] (src/scripts/upgrade_rehearsal.py). *)
From stdpp Require Import pretty.
From Stdlib Require Import Strings.Ascii.
From S2P Require Import Prelude Values ApiKey Text Migrations.
Local Open Scope Z_scope.

(** * Strings *)

(** [s.partition(c)] and [s.rpartition(c)]: before, whether found, after *)
Fixpoint partition (c : chr) (s : string) : string * bool * string :=
  match s with
  | EmptyString => (EmptyString, false, EmptyString)
  | String x r => if bool_decide (x = c) then (EmptyString, true, r) else let '(a, b, d) := partition c r in (String x a, b, d)
  end.
Fixpoint rpartition (c : chr) (s : string) : string * bool * string :=
  match s with
  | EmptyString => (EmptyString, false, EmptyString)
  | String x r =>
      match rpartition c r with
      | (a, true, d) => (String x a, true, d)
      | (_, false, _) => if bool_decide (x = c) then (EmptyString, true, r) else (EmptyString, false, s)
      end
  end.

Fixpoint contains (c : chr) (s : string) : bool :=
  match s with EmptyString => false | String x r => bool_decide (x = c) || contains c r end.

Fixpoint all_chars (p : chr → bool) (s : string) : bool :=
  match s with EmptyString => true | String x r => p x && all_chars p r end.

Fixpoint drop_while (p : chr → bool) (s : string) : string :=
  match s with EmptyString => EmptyString | String x r => if p x then drop_while p r else s end.
Fixpoint remove_chars (p : chr → bool) (s : string) : string :=
  match s with EmptyString => EmptyString | String x r => if p x then remove_chars p r else String x (remove_chars p r) end.
(** The longest prefix of characters that satisfy [p], and the rest. *)
Fixpoint span (p : chr → bool) (s : string) : string * string :=
  match s with EmptyString => (EmptyString, EmptyString) | String x r => if p x then let '(a, b) := span p r in (String x a, b) else (EmptyString, s) end.

Definition is_upper (c : chr) : bool := between 65 90 c.
Definition is_alpha (c : chr) : bool := between 65 90 c || between 97 122 c.
Definition lower_char (c : chr) : chr := if is_upper c then Ascii.ascii_of_N (code c + 32) else c.
Fixpoint lower (s : string) : string := match s with EmptyString => EmptyString | String x r => String (lower_char x) (lower r) end.

(** [p in s] *)
Fixpoint has_substring (p s : string) : bool :=
  match after_prefix p s with
  | Some _ => true
  | None => match s with EmptyString => false | String _ r => has_substring p r end
  end.

(** [int(s)] of ASCII digits *)
Fixpoint int_of (acc : Z) (s : string) : Z := match s with EmptyString => acc | String x r => int_of (10 * acc + digit_value x) r end.
Definition is_decimal (s : string) : bool := match s with EmptyString => false | _ => all_chars is_digit s end.

(** What reading a path gives: the bytes of the file, or an OSError. *)
Abbreviation files := (string → option string).

(** * urlsplit *)

Record SplitResult := mkSplit { u_scheme : string; u_netloc : string; u_path : string; u_query : string; u_fragment : string }.

(** [scheme_chars] *)
Definition scheme_char (c : chr) : bool := is_alpha c || is_digit c || bool_decide (c = "+"%char) || bool_decide (c = "-"%char) || bool_decide (c = "."%char).

Section urlsplit.
(** Whether this release of Python accepts an authority with a bracketed host. *)
Context (bracketed_ok : string → bool).

Definition urlsplit (url0 : string) : exn + SplitResult :=
  let url := remove_chars (λ c, bool_decide (code c = 9%N ∨ code c = 10%N ∨ code c = 13%N)) (drop_while (λ c, (code c <=? 32)%N) url0) in
  let '(before, found, after) := partition ":" url in
  let '(scheme, url) :=
    match before with
    | String x _ => if found && is_alpha x && all_chars scheme_char before then (lower before, after) else (EmptyString, url)
    | EmptyString => (EmptyString, url)
    end in
  let '(netloc, url) :=
    match url with
    | String a (String b rest) =>
        if bool_decide (a = "/"%char) && bool_decide (b = "/"%char)
        then span (λ c, negb (bool_decide (c = "/"%char ∨ c = "?"%char ∨ c = "#"%char))) rest
        else (EmptyString, url)
    | _ => (EmptyString, url)
    end in
  if (contains "[" netloc || contains "]" netloc) && negb (contains "[" netloc && contains "]" netloc && bracketed_ok netloc)
  then inl (ValueError "Invalid IPv6 URL") else
  let '(url, _, fragment) := partition "#" url in
  let '(path, _, query) := partition "?" url in
  inr (mkSplit scheme netloc path query fragment).

(** [SplitResult.password] *)
Definition password (u : SplitResult) : option string :=
  match rpartition "@" (u_netloc u) with
  | (userinfo, true, _) => match partition ":" userinfo with (_, true, p) => Some p | _ => None end
  | _ => None
  end.

(** [SplitResult.port] *)
Definition port (u : SplitResult) : exn + option Z :=
  let '(_, _, hostinfo) := rpartition "@" (u_netloc u) in
  let p :=
    match partition "[" hostinfo with
    | (_, true, bracketed) => let '(_, _, after) := partition "]" bracketed in (partition ":" after).2
    | _ => (partition ":" hostinfo).2
    end in
  match p with
  | EmptyString => inr None
  | _ =>
      if is_decimal p then (if int_of 0 p <=? 65535 then inr (Some (int_of 0 p)) else inl (ValueError "Port out of range 0-65535"))
      else inl (ValueError "Port could not be cast to integer value")
  end.

(** * loopback_base *)

Definition loopback_message : string := "the key is only sent to the loopback address".

Definition loopback_base (base_url : string) : exn + string :=
  match urlsplit base_url with
  | inl _ => inl (ValueError loopback_message)
  | inr parts =>
      match port parts with
      | inl _ => inl (ValueError loopback_message)
      | inr p =>
          let allowed :=
            bool_decide (u_scheme parts = "http"%string) &&
            match p with Some p => bool_decide (u_netloc parts = "127.0.0.1:" +:+ pretty p) | None => false end &&
            (bool_decide (u_path parts = EmptyString) || bool_decide (u_path parts = "/"%string)) &&
            bool_decide (u_query parts = EmptyString) && bool_decide (u_fragment parts = EmptyString) in
          if allowed then inr ("http://" +:+ u_netloc parts) else inl (ValueError loopback_message)
      end
  end.

(** * resolve_database_password *)

Definition PASSWORD_FILE_ENV : string := "NEUROMESH_DATABASE_PASSWORD_FILE".
Definition URL_ENV : string := "NEUROMESH_DATABASE_URL".

(** Text mode reads every line ending as a newline. *)
Fixpoint universal_newlines (s : string) : string :=
  match s with
  | EmptyString => EmptyString
  | String x r =>
      if (code x =? 13)%N then
        String (chr_of 10) (match r with String y r' => if (code y =? 10)%N then universal_newlines r' else universal_newlines r | EmptyString => EmptyString end)
      else String x (universal_newlines r)
  end.

(** [raw[:-1] if raw.endswith("\n") else raw] *)
Fixpoint without_newline (s : string) : string :=
  match s with
  | EmptyString => EmptyString
  | String x EmptyString => if (code x =? 10)%N then EmptyString else s
  | String x r => String x (without_newline r)
  end.

Definition resolve_database_password (database_url : string) (env : gmap string string) (fs : files) : exn + option string :=
  match env !! PASSWORD_FILE_ENV with
  | None => inr None
  | Some EmptyString => inr None
  | Some path =>
      match urlsplit database_url with
      | inl e => inl e
      | inr parts =>
          match password parts with
          | Some (String _ _) => inl (RuntimeError "the URL already contains a password and a password file is also set")
          | _ =>
              match fs path with
              | None => inl (RuntimeError "the password file could not be read")
              | Some bytes =>
                  if negb (utf8_valid (S (String.length bytes)) (String.list_ascii_of_string bytes)) then inl (ValueError "UnicodeDecodeError") else
                  match without_newline (universal_newlines bytes) with
                  | EmptyString => inl (RuntimeError "the password file is empty")
                  | p => inr (Some p)
                  end
              end
          end
      end
  end.
End urlsplit.

Example split_example : urlsplit (λ _, true) "postgresql://neuromesh:s3:cret@db:5432/neuromesh?x=1#f"
  = inr (mkSplit "postgresql" "neuromesh:s3:cret@db:5432" "/neuromesh" "x=1" "f").
Proof. vm_compute. reflexivity. Qed.
Example password_example : password (mkSplit "postgresql" "neuromesh:s3:cret@db:5432" "/neuromesh" "x=1" "f") = Some "s3:cret"%string.
Proof. vm_compute. reflexivity. Qed.
Example loopback_example : loopback_base (λ _, true) "http://127.0.0.1:49153" = inr "http://127.0.0.1:49153"%string.
Proof. vm_compute. reflexivity. Qed.
Example loopback_trick : loopback_base (λ _, true) "http://127.0.0.1:80@evil.example:80/" = inl (ValueError loopback_message).
Proof. vm_compute. reflexivity. Qed.

(** * Decimal numbers *)

Lemma pretty_char_digit x : (x < 10)%N → digit_value (pretty_N_char x) = Z.of_N x ∧ is_digit (pretty_N_char x) = true.
Proof. intros Hx. do 10 (destruct x as [|x] using N.peano_ind; [by vm_compute|clear IHx]). lia. Qed.

Lemma pretty_go_spec x s : (0 < x)%N →
  int_of 0 (pretty_N_go x s) = int_of (Z.of_N x) s ∧ (all_chars is_digit s = true → is_decimal (pretty_N_go x s) = true).
Proof.
  revert s. induction (N.lt_wf_0 x) as [x _ IH]. intros s Hx. rewrite pretty_N_go_step by done.
  destruct (pretty_char_digit (x mod 10)) as [Hd Hc]; [by apply N.mod_lt|].
  assert (Z.of_N x = 10 * Z.of_N (x / 10) + Z.of_N (x mod 10)) as Hdm by (pose proof (N.div_mod x 10 ltac:(done)); lia).
  destruct (decide (x / 10 = 0)%N) as [E|E].
  - rewrite E, pretty_N_go_0. cbn [int_of is_decimal all_chars]. rewrite Hd, Hc. split; [f_equal; lia|done].
  - destruct (IH (x / 10)%N) with (s := String (pretty_N_char (x mod 10)) s) as [I1 I2]; [by apply N.div_lt|by apply N.neq_0_lt_0|].
    rewrite I1. cbn [int_of]. rewrite Hd, <- Hdm. split; [done|]. intros Hs. apply I2. cbn. by rewrite Hc.
Qed.

Lemma pretty_decimal p : 0 <= p → int_of 0 (pretty p) = p ∧ is_decimal (pretty p) = true.
Proof.
  intros Hp. destruct p as [|p|p]; [by vm_compute| |lia]. change (pretty (Z.pos p)) with (pretty (N.pos p)).
  unfold pretty, pretty_N. rewrite decide_False by done. destruct (pretty_go_spec (N.pos p) EmptyString) as [H1 H2]; [lia|]. auto.
Qed.

Lemma int_of_nonneg s acc : 0 <= acc → all_chars is_digit s = true → 0 <= int_of acc s.
Proof.
  revert acc. induction s as [|c s IH]; intros acc Ha; cbn; [done|]. intros [Hc Hs]%andb_prop. apply IH; [|done].
  unfold is_digit, digit_value in *. apply andb_prop in Hc as [Hc%N.leb_le _]. lia.
Qed.

(** Texts without the characters a scan stops at. *)
Lemma partition_absent c s : contains c s = false → partition c s = (s, false, EmptyString).
Proof. induction s as [|x s IH]; cbn; [done|]. intros [Hx Hs]%orb_false_elim. by rewrite Hx, IH. Qed.
Lemma rpartition_absent c s : contains c s = false → rpartition c s = (EmptyString, false, s).
Proof. induction s as [|x s IH]; cbn; [done|]. intros [Hx Hs]%orb_false_elim. by rewrite IH, Hx. Qed.
Lemma span_all p s : all_chars p s = true → span p s = (s, EmptyString).
Proof. induction s as [|x s IH]; cbn; [done|]. intros [Hx Hs]%andb_prop. by rewrite Hx, IH. Qed.
Lemma remove_none p s : all_chars (λ c, negb (p c)) s = true → remove_chars p s = s.
Proof. induction s as [|x s IH]; cbn; [done|]. intros [Hx%negb_true_iff Hs]%andb_prop. by rewrite Hx, IH. Qed.
Lemma all_chars_impl (p q : chr → bool) s : (∀ c, p c = true → q c = true) → all_chars p s = true → all_chars q s = true.
Proof. intros Hpq. induction s as [|x s IH]; cbn; [done|]. intros [Hx Hs]%andb_prop. by rewrite Hpq, IH. Qed.
Lemma digits_lack c s : is_digit c = false → all_chars is_digit s = true → contains c s = false.
Proof.
  intros Hc. induction s as [|x s IH]; cbn; [done|]. intros [Hx Hs]%andb_prop. rewrite IH by done.
  rewrite bool_decide_eq_false_2; [done|]. intros ->. congruence.
Qed.
Lemma decimal_digits s : is_decimal s = true → all_chars is_digit s = true ∧ s ≠ EmptyString.
Proof. by destruct s. Qed.

Lemma all_chars_concat p s t : all_chars p (s +:+ t) = all_chars p s && all_chars p t.
Proof. induction s as [|x s IH]; [done|]. rewrite append_cons. cbn. by rewrite IH, andb_assoc. Qed.
Lemma contains_app c s t : contains c (s +:+ t) = contains c s || contains c t.
Proof. induction s as [|x s IH]; [done|]. rewrite append_cons. cbn. by rewrite IH, orb_assoc. Qed.
Lemma partition_app c s t : contains c s = false → partition c (s +:+ String c t) = (s, true, t).
Proof.
  induction s as [|x s IH]; [intros _; rewrite append_nil_l; cbn; by rewrite bool_decide_eq_true_2|]. rewrite append_cons. cbn. intros [Hx Hs]%orb_false_elim. by rewrite Hx, IH.
Qed.

Section loopback.
Context (bracketed_ok : string → bool).

Lemma urlsplit_loopback s : all_chars is_digit s = true →
  urlsplit bracketed_ok ("http://127.0.0.1:" +:+ s) = inr (mkSplit "http" ("127.0.0.1:" +:+ s) EmptyString EmptyString EmptyString).
Proof.
  intros Hs. assert (∀ (p : chr → bool), (∀ c, (48 <= code c <= 57)%N → p c = true) → all_chars p s = true) as Hdig.
  { intros p Hp. eapply all_chars_impl; [|exact Hs]. intros c [?%N.leb_le ?%N.leb_le]%andb_prop. auto. }
  unfold urlsplit. change (drop_while _ ("http://127.0.0.1:" +:+ s)) with ("http://127.0.0.1:" +:+ s).
  rewrite remove_none.
  2:{ rewrite all_chars_concat. apply andb_true_intro. split; [by vm_compute|]. apply Hdig. intros c Hc. cbv beta. rewrite bool_decide_eq_false_2; [done|lia]. }
  change ("http://127.0.0.1:" +:+ s) with ("http" +:+ String ":" (String "/" (String "/" ("127.0.0.1:" +:+ s)))).
  rewrite partition_app by (by vm_compute). cbn -[bool_decide partition span contains String.append is_alpha all_chars lower].
  change (is_alpha "h") with true. change (all_chars scheme_char "http") with true. cbn -[bool_decide partition span contains String.append].
  rewrite !(bool_decide_eq_true_2 ("/"%char = "/"%char)) by done. cbn -[bool_decide partition span contains String.append].
  rewrite span_all.
  2:{ rewrite all_chars_concat. apply andb_true_intro. split; [by vm_compute|]. apply Hdig. intros c Hc. cbv beta. rewrite bool_decide_eq_false_2; [done|].
      intros [->|[->| ->]]; revert Hc; vm_compute; intuition congruence. }
  rewrite !contains_app. rewrite !(digits_lack _ s) by (done || by vm_compute). change (contains "[" "127.0.0.1:") with false.
  change (contains "]" "127.0.0.1:") with false. done.
Qed.

Lemma port_loopback p : 0 <= p <= 65535 →
  port (mkSplit "http" ("127.0.0.1:" +:+ pretty p) EmptyString EmptyString EmptyString) = inr (Some p).
Proof.
  intros Hp. destruct (pretty_decimal p) as [Hi Hd]; [lia|]. destruct (decimal_digits _ Hd) as [Hdig Hne]. unfold port. cbn [u_netloc].
  rewrite rpartition_absent by (rewrite contains_app, (digits_lack _ (pretty p)) by (done || by vm_compute); by vm_compute).
  rewrite (partition_absent "[") by (rewrite contains_app, (digits_lack _ (pretty p)) by (done || by vm_compute); by vm_compute).
  change ("127.0.0.1:" +:+ pretty p) with ("127.0.0.1" +:+ String ":" (pretty p)). rewrite partition_app by (by vm_compute). cbn [snd].
  rewrite Hi, Hd. destruct (pretty p); [done|]. by rewrite (proj2 (Z.leb_le p 65535)) by lia.
Qed.

(** The key goes to the loopback address and nowhere else.  [loopback_base] accepts a
    URL only if the address it returns is http://127.0.0.1 with a port, written in
    decimal, and it does accept that address for every port; all else is refused with
    one message. *)
Theorem loopback_only url :
  match loopback_base bracketed_ok url with
  | inr base => ∃ p, 0 <= p <= 65535 ∧ base = "http://127.0.0.1:" +:+ pretty p
  | inl e => e = ValueError loopback_message
  end ∧
  ∀ p, 0 <= p <= 65535 → loopback_base bracketed_ok ("http://127.0.0.1:" +:+ pretty p) = inr ("http://127.0.0.1:" +:+ pretty p).
Proof.
  split.
  - unfold loopback_base. destruct (urlsplit bracketed_ok url) as [e|parts]; [done|]. destruct (port parts) as [e|o] eqn:Hp; [done|].
    destruct (_ && _) eqn:Hall; [|done]. apply andb_prop in Hall as [Hall _]. apply andb_prop in Hall as [Hall _]. apply andb_prop in Hall as [Hall _].
    apply andb_prop in Hall as [_ Hn]. destruct o as [p|]; [|done]. apply bool_decide_eq_true in Hn. exists p. rewrite Hn. split; [|done].
    unfold port in Hp. destruct (rpartition "@" (u_netloc parts)) as [[? ?] hostinfo].
    set (q := match partition "[" hostinfo with (_, true, b) => _ | _ => _ end) in Hp. clearbody q. destruct q as [|c q]; [done|].
    destruct (is_decimal (String c q)) eqn:Hd; [|done]. destruct (_ <=? _) eqn:Hle; [|done]. injection Hp as <-. apply Z.leb_le in Hle.
    split; [|done]. change (0 <= int_of 0 (String c q)). by apply int_of_nonneg.
  - intros p Hp. destruct (pretty_decimal p) as [_ Hd]; [lia|]. destruct (decimal_digits _ Hd) as [Hdig _]. unfold loopback_base.
    rewrite urlsplit_loopback, port_loopback by done. cbn [u_scheme u_netloc u_path u_query u_fragment].
    rewrite (bool_decide_eq_true_2 (_ +:+ _ = _)) by done. eval_closed_decisions. done.
Qed.
End loopback.
