(* ===== verification/Startup.v ===== *)
(** How the application starts: the choice of the storage backend
    (src/app/presentation/dependencies.py), the lifespan, the cluster loop and the
    probes (src/app/presentation/api.py), the command that applies the migrations
    (src/app/infrastructure/migrations/cli.py) and the script that issues the first
    key (src/scripts/issue_api_key.py). *)
From Stdlib Require Import Strings.Ascii.
From S2P Require Import Prelude Values Job Node Float64 Execution ApiKey Worker Db Prog Repos Keys Text Migrations Url.
Local Open Scope Z_scope.

(** What starting raises: [KeyError] is [os.environ[...]] of a name that is not set. *)
Inductive startup_error := Refused (e : exn) | KeyError (name : string).

Abbreviation environ := (gmap string string).

(** * _build_repositories *)

Definition STORAGE_BACKEND : string := "NEUROMESH_STORAGE_BACKEND".
Definition DB_PATH : string := "NEUROMESH_DB_PATH".

Inductive repository := InPostgres | InSqlite | InMemory.
Inductive election := InMemorySchedulerLeadership | PostgresSchedulerLeadership (url : string) (password : option string).

(** The module-level objects: which implementation each repository has, the pool's
    URL and password if there is a pool, and how the scheduler is elected. *)
Record assembly := mkAssembly {
  a_jobs : repository; a_nodes : repository; a_workers : repository; a_events : repository;
  a_leases : repository; a_keys : repository; a_tenants : repository;
  a_pool : option (string * option string);
  a_sqlite_path : option string;
  a_leadership : election;
}.

Section startup.
Context (bracketed_ok : string → bool).

Definition _build_repositories (env : environ) (fs : files) : startup_error + assembly :=
  match env !! STORAGE_BACKEND with
  | None => inl (Refused (RuntimeError "NEUROMESH_STORAGE_BACKEND is not set"))
  | Some b =>
      let backend := lower b in
      if bool_decide (backend = "postgres"%string) then
        match env !! URL_ENV with
        | None => inl (KeyError URL_ENV)
        | Some url =>
            match resolve_database_password bracketed_ok url env fs with
            | inl e => inl (Refused e)
            | inr p => inr (mkAssembly InPostgres InPostgres InPostgres InPostgres InPostgres InPostgres InPostgres (Some (url, p)) None
                              (PostgresSchedulerLeadership url p))
            end
        end
      else if bool_decide (backend = "sqlite"%string) then
        inr (mkAssembly InSqlite InSqlite InMemory InSqlite InMemory InMemory InMemory None (Some (default "neuromesh.db"%string (env !! DB_PATH)))
               InMemorySchedulerLeadership)
      else if bool_decide (backend = "memory"%string) then
        inr (mkAssembly InMemory InMemory InMemory InMemory InMemory InMemory InMemory None None InMemorySchedulerLeadership)
      else inl (Refused (RuntimeError "Unrecognized NEUROMESH_STORAGE_BACKEND"))
  end.

(** * The lifespan *)

Definition TICK_INTERVAL_SECONDS : Z := 1.

(** What happens, in order. *)
Inductive action :=
  | PoolWait
  | SchemaCheck
  | WarnAhead (versions : list Z)
  | LoopStarted
  | Tick (leads : option bool)     (* what [try_acquire] returned, [None] if it raised *)
  | Sleep
  | Serving
  | Cancelled
  | Released.

(** check_database_schema: nothing to check without a pool. *)
Definition check_database_schema {M} (pool : option M) (check : M → migration_error + list Z) : migration_error + list Z :=
  match pool with None => inr [] | Some p => check p end.

(** _run_cluster_loop, until it is cancelled in the sleep after the last tick: the
    lock is released however it ends. *)
Definition _run_cluster_loop (ticks : list (option bool)) : list action :=
  foldr (λ leads rest, Tick leads :: Sleep :: rest) [] ticks ++ [Cancelled; Released].

Inductive start_failure := PoolTimeout | SchemaRefused (e : migration_error).

(** [wait] is whether the pool became ready in time; [ticks] what the elections gave
    while the application served. *)
Definition lifespan {M} (pool : option M) (wait : bool) (check : M → migration_error + list Z) (ticks : list (option bool))
    : list action * option start_failure :=
  let waited := match pool with Some _ => [PoolWait] | None => [] end in
  if match pool with Some _ => negb wait | None => false end then (waited, Some PoolTimeout) else
  match check_database_schema pool check with
  | inl e => (waited ++ [SchemaCheck], Some (SchemaRefused e))
  | inr ahead =>
      (waited ++ [SchemaCheck] ++ (match ahead with [] => [] | _ => [WarnAhead ahead] end) ++ [LoopStarted; Serving] ++ _run_cluster_loop ticks, None)
  end.

(** * Probes *)

(** check_database_reachable: [reach] is what connecting and [SELECT 1] raise. *)
Definition check_database_reachable {M X} (pool : option M) (reach : M → option X) : option X :=
  match pool with None => None | Some p => reach p end.

(** [health]: the status, and the content *)
Definition health {M X} (type_name : X → string) (pool : option M) (reach : M → option X) : Z * list (string * string) :=
  match check_database_reachable pool reach with
  | Some e => (503, [("status", "unhealthy"); ("error", type_name e)])
  | None => (200, [("status", "healthy")])
  end%string.

Definition liveness : list (string * string) := [("status", "alive")]%string.

Definition _docs_enabled (env : environ) : bool :=
  let v := lower (default EmptyString (env !! "NEUROMESH_ENABLE_API_DOCS"%string)) in
  bool_decide (v = "1"%string) || bool_decide (v = "true"%string) || bool_decide (v = "yes"%string).

(** * The migration command *)

Definition EXIT_OK : Z := 0.
Definition EXIT_FAILED : Z := 1.
Definition EXIT_NOT_STARTED : Z := 2.

Section cli.
Context `{Database} (sha256_hex : string → string).

(** The exit code, or the exception that leaves [main]. *)
Definition main (fuel : nat) (env : environ) (fs : files) (directory : option (list (string * string))) (s : mdb) : mdb * (exn + Z) :=
  match env !! URL_ENV with
  | None | Some EmptyString => (s, inr EXIT_NOT_STARTED)
  | Some url =>
      match resolve_database_password bracketed_ok url env fs with
      | inl (RuntimeError _) => (s, inr EXIT_NOT_STARTED)
      | inl e => (s, inl e)
      | inr _ =>
          match load_migrations sha256_hex directory with
          | inl _ => (s, inr EXIT_NOT_STARTED)
          | inr migrations =>
              match apply_migrations fuel migrations s with
              | (s', inl _) => (s', inr EXIT_FAILED)
              | (s', inr _) => (s', inr EXIT_OK)
              end
          end
      end
  end.
End cli.

(** * The first API key *)

(** [url.rsplit("/", 1)[-1]] *)
Definition database_name (url : string) : string := (rpartition "/" url).2.

Definition _confirm_not_test_database (database_url : string) : exn + unit :=
  if has_substring "test" (lower (database_name database_url)) then inl (RuntimeError "NEUROMESH_DATABASE_URL looks like a test database")
  else inr tt.

(** [main] after the command line is parsed: the key is for the default tenant. *)
Definition issue_api_key {E : Env} (env : environ) (label : string) (scopes : gset string) : prog (api_key * string) :=
  match env !! URL_ENV with
  | Some url => of_sum (_confirm_not_test_database url)
  | None => mret tt
  end ;;
  create_api_key label scopes None (Some (mkTenantId 1)).
End startup.

(** * The password *)

Lemma without_newline_inv s : s = without_newline s ∨ s = without_newline s +:+ String (chr_of 10) EmptyString.
Proof.
  induction s as [|x s IH]; [by left|]. destruct s as [|y s].
  - cbn. destruct (code x =? 10)%N eqn:Hx; [|by left]. right. apply N.eqb_eq in Hx. f_equal. rewrite append_nil_l. f_equal.
    rewrite <- (Ascii.ascii_N_embedding x). unfold code in Hx. by rewrite Hx.
  - change (without_newline (String x (String y s))) with (String x (without_newline (String y s))).
    destruct IH as [IH|IH]; [left|right; rewrite append_cons]; by f_equal.
Qed.

Section passwords.
Context (bracketed_ok : string → bool).

(** A password comes from the file alone, without one line ending, and is not empty;
    no file, no password; a password in the URL as well is refused. *)
Lemma resolved_password url env fs :
  match resolve_database_password bracketed_ok url env fs with
  | inr None => env !! PASSWORD_FILE_ENV = None ∨ env !! PASSWORD_FILE_ENV = Some EmptyString
  | inr (Some p) =>
      p ≠ EmptyString ∧ ∃ path bytes parts, env !! PASSWORD_FILE_ENV = Some path ∧ path ≠ EmptyString ∧ fs path = Some bytes ∧
      urlsplit bracketed_ok url = inr parts ∧ password parts ∈ [None; Some EmptyString] ∧
      (universal_newlines bytes = p ∨ universal_newlines bytes = p +:+ String (chr_of 10) EmptyString)
  | inl e => ∃ path, env !! PASSWORD_FILE_ENV = Some path ∧ path ≠ EmptyString
  end.
Proof.
  unfold resolve_database_password. destruct (env !! PASSWORD_FILE_ENV) as [[|c path]|] eqn:Hp; [by right| |by left].
  assert (∃ p, Some (String c path) = Some p ∧ p ≠ EmptyString) as Hpath by (by exists (String c path)).
  destruct (urlsplit bracketed_ok url) as [e|parts] eqn:Hu; [done|].
  assert (password parts ∈ [None; Some EmptyString] ∨ ∃ x y, password parts = Some (String x y)) as [Hno|(x & y & ->)]; [| |done].
  { destruct (password parts) as [[|x y]|]; [left; set_solver|by right; exists x, y|left; set_solver]. }
  destruct (fs (String c path)) as [bytes|] eqn:Hf.
  2:{ rewrite !elem_of_cons, elem_of_nil in Hno. by destruct Hno as [->|[->|[]]]. }
  assert (∀ X (a b : X), match password parts with Some (String _ _) => a | _ => b end = b) as Hm.
  { intros X a b. rewrite !elem_of_cons, elem_of_nil in Hno. by destruct Hno as [->|[->|[]]]. }
  rewrite Hm. destruct (negb _); [done|]. destruct (without_newline (universal_newlines bytes)) as [|d p] eqn:Hw; [done|].
  split; [done|]. exists (String c path), bytes, parts. split_and!; try done. rewrite <- Hw.
  destruct (without_newline_inv (universal_newlines bytes)) as [E|E]; [by left|by right].
Qed.

Lemma urlsplit_raises url e : urlsplit bracketed_ok url = inl e → ∃ m, e = ValueError m.
Proof.
  unfold urlsplit. destruct (partition ":" _) as [[before found] after].
  destruct (match before with String _ _ => _ | EmptyString => _ end) as [scheme url1].
  destruct (match url1 with String _ _ => _ | EmptyString => _ end) as [netloc url2].
  destruct (_ && _); [intros [= <-]; eauto|]. destruct (partition "#" url2) as [[url3 ?] ?]. by destruct (partition "?" url3) as [[? ?] ?].
Qed.

Lemma resolve_raises url env fs e : resolve_database_password bracketed_ok url env fs = inl e → (∃ m, e = RuntimeError m) ∨ ∃ m, e = ValueError m.
Proof.
  unfold resolve_database_password. destruct (env !! PASSWORD_FILE_ENV) as [[|c path]|]; try done.
  destruct (urlsplit bracketed_ok url) as [e'|parts] eqn:Hu; [intros [= <-]; right; by eapply urlsplit_raises|].
  assert (∀ X (a b : X), match password parts with Some (String _ _) => a | _ => b end = a ∨ match password parts with Some (String _ _) => a | _ => b end = b) as Hm.
  { intros X a b. destruct (password parts) as [[|]|]; auto. }
  destruct (Hm (exn + option string)%type (inl (RuntimeError "the URL already contains a password and a password file is also set"))
    match fs (String c path) with
    | None => inl (RuntimeError "the password file could not be read")
    | Some bytes =>
        if negb (utf8_valid (S (String.length bytes)) (String.list_ascii_of_string bytes)) then inl (ValueError "UnicodeDecodeError") else
        match without_newline (universal_newlines bytes) with
        | EmptyString => inl (RuntimeError "the password file is empty")
        | p => inr (Some p)
        end
    end) as [-> | ->]; [intros [= <-]; eauto|].
  destruct (fs (String c path)) as [bytes|]; [|intros [= <-]; eauto]. destruct (negb _); [intros [= <-]; eauto|].
  destruct (without_newline (universal_newlines bytes)); [intros [= <-]; eauto|done].
Qed.
End passwords.

(** * Exit codes of the migration command *)

Section cli.
Context (bracketed_ok : string → bool) `{Database} (sha256_hex : string → string).

(** Code 2 and an exception leave the database alone, code 0 is a run that returned,
    code 1 one that raised.  What leaves [main] as an exception is a ValueError: the
    URL that cannot be split, or the password file that is not UTF-8. *)
Lemma main_exit_codes fuel env fs directory s :
  match main bracketed_ok sha256_hex fuel env fs directory s with
  | (s', inr c) =>
      (c = EXIT_NOT_STARTED ∧ s' = s) ∨
      ∃ migrations, load_migrations sha256_hex directory = inr migrations ∧
        match apply_migrations fuel migrations s with
        | (s1, inr _) => c = EXIT_OK ∧ s' = s1
        | (s1, inl _) => c = EXIT_FAILED ∧ s' = s1
        end
  | (s', inl e) => s' = s ∧ ∃ url, env !! URL_ENV = Some url ∧ resolve_database_password bracketed_ok url env fs = inl e ∧ ∃ m, e = ValueError m
  end.
Proof.
  unfold main. destruct (env !! URL_ENV) as [[|c url]|] eqn:Hu; [by left| |by left].
  destruct (resolve_database_password bracketed_ok (String c url) env fs) as [e|p] eqn:Hp.
  - assert ((∃ m, e = RuntimeError m) ∨ ∃ m, e = ValueError m) as [[m ->]|[m ->]]; [|by left|cbn; split; [done|]; eauto].
    by eapply resolve_raises.
  - destruct (load_migrations sha256_hex directory) as [e|migrations]; [by left|].
    destruct (apply_migrations fuel migrations s) as [s1 [e|applied]] eqn:Ha; right; exists migrations; (split; [done|]); by rewrite Ha.
Qed.
End cli.

(** A password file in another encoding makes [main] raise instead of exiting with
    the code for a problem found before any database work. *)
Example latin1_password_file (bracketed_ok : string → bool) `{Database} sha256_hex fuel directory s :
  main bracketed_ok sha256_hex fuel {[URL_ENV := "postgresql://db/x"%string; PASSWORD_FILE_ENV := "/run/secret"%string]}
    (λ _, Some (String (chr_of 233) EmptyString)) directory s = (s, inl (ValueError "UnicodeDecodeError")).
Proof. reflexivity. Qed.

(** * Order of the lifespan *)

Definition is_tick (a : action) : Prop := match a with Tick _ => True | _ => False end.
#[global] Instance is_tick_dec a : Decision (is_tick a).
Proof. destruct a; apply _. Defined.

(** The loop starts after the pool is ready and the schema is accepted, or not at all;
    it asks for leadership once per tick, and the lock is given up last. *)
Lemma lifespan_order {M} (pool : option M) wait check ticks :
  let '(trace, failure) := lifespan pool wait check ticks in
  (failure = None ↔ LoopStarted ∈ trace) ∧
  (failure = None → (∀ p, pool = Some p → wait = true ∧ ∃ a, check p = inr a) ∧ last trace = Some Released ∧ length (filter is_tick trace) = length ticks) ∧
  (failure ≠ None → Forall (λ a, ¬ is_tick a) trace).
Proof.
  assert (Forall (λ a, ¬ is_tick a) [PoolWait; SchemaCheck]) as Hpre by (repeat constructor; intros []).
  assert (length (filter is_tick (_run_cluster_loop ticks)) = length ticks) as Hloop.
  { unfold _run_cluster_loop. rewrite filter_app, length_app. rewrite (filter_cons_False _ Cancelled), (filter_cons_False _ Released), filter_nil by (by intros []).
    rewrite Nat.add_0_r. clear. induction ticks as [|l ticks IH]; [done|]. cbn [foldr]. rewrite filter_cons_True, filter_cons_False by (done || by intros []). cbn. by rewrite IH. }
  assert (∀ l, last (l ++ LoopStarted :: Serving :: _run_cluster_loop ticks) = Some Released) as Hlast.
  { intros l. unfold _run_cluster_loop. change [Cancelled; Released] with ([Cancelled] ++ [Released]). rewrite !app_comm_cons, !app_assoc. by rewrite last_snoc. }
  unfold lifespan. destruct pool as [p|]; cbn.
  - destruct wait; cbn.
    + destruct (check p) as [e|ahead] eqn:Hc.
      * split_and!; [split; [done|]|done|intros _; repeat constructor; intros []]. intros H. set_solver.
      * split_and!; [split; [set_solver|done]| |done]. intros _. split_and!.
        -- intros q [= <-]. eauto.
        -- destruct ahead; [apply (Hlast [PoolWait; SchemaCheck])|apply (Hlast [PoolWait; SchemaCheck; WarnAhead _])].
        -- destruct ahead; rewrite !filter_cons_False by (by intros []); exact Hloop.
    + split_and!; [split; [done|set_solver]|done|]. intros _. repeat constructor. intros [].
  - split_and!; [split; [set_solver|done]| |done]. intros _. split_and!; [done|apply (Hlast [SchemaCheck])|].
    change (length (filter is_tick (SchemaCheck :: LoopStarted :: Serving :: _run_cluster_loop ticks)) = length ticks).
    rewrite !filter_cons_False by (by intros []). exact Hloop.
Qed.

(** * The first key *)

Section first_key.
Context {E : Env} `{!KeysRely E}.

(** The script prints a key of the default tenant that has no issuer and is in the
    table as printed, whatever other connections do; it issues nothing when the URL
    names a test database. *)
Lemma issue_api_key_spec env label scopes d n : keys_integrity d → keys_unseen n d → provenance d →
  wp (issue_api_key env label scopes)
    (λ r w, k_tenant_id r.1 = mkTenantId 1 ∧ k_issued_by r.1 = None ∧ k_scopes r.1 = scopes ∧ scopes ⊆ KNOWN_SCOPES ∧ k_revoked_at r.1 = None ∧
       k_key_hash r.1 = sha256_hex r.2 ∧ db_keys (w_db w) !! k_id r.1 = Some r.1 ∧
       ∀ url, env !! URL_ENV = Some url → has_substring "test" (lower (database_name url)) = false)
    (λ _ w, keys_evolve d (w_db w)) (mkWorld d n).
Proof.
  intros Hi Hu Hpr. pose proof (kstate_refl d n Hi Hu Hpr) as Hks.
  assert (∀ Q R, R (RuntimeError "NEUROMESH_DATABASE_URL looks like a test database") (mkWorld d n) →
    ((∀ url, env !! URL_ENV = Some url → has_substring "test" (lower (database_name url)) = false) →
      wp (create_api_key label scopes None (Some (mkTenantId 1))) Q R (mkWorld d n)) → wp (issue_api_key env label scopes) Q R (mkWorld d n)) as Hguard.
  { intros Q R HR HQ. unfold issue_api_key. wp_step. destruct (env !! URL_ENV) as [url|]; [|wp_steps; by apply HQ].
    unfold _confirm_not_test_database. destruct (has_substring _ _) eqn:Ht; wp_steps; [done|]. apply HQ. by intros ? [= <-]. }
  apply Hguard; [apply Hks|]. intros Hurl. unfold create_api_key, tenant_exists. wp_steps. eapply wp_keys_gets; [done|]. intros d' Hks' Hev.
  case_bool_decide as Ht; cbn [negb]; [|wp_steps; apply Hks'].
  apply wp_issue; [intros; apply Hks'|]. intros _ Hs. wp_steps. eapply wp_save_issued; [done..|]. intros d2 n2 _ Hk _ _ _. by wp_steps.
Qed.
End first_key.
