(* ===== verification/Pipeline.v ===== *)
(** The application a request goes through (src/app/presentation/api.py): the server's
    answer to unhandled errors, the logging middleware, then either a probe or a router
    with its dependencies [require_api_key] and [require_rate_limit] and its handler.

    The state is the tables, the rate limiter and what the middleware writes to.  How
    an exception prints is the parameter [describe]; what reaching the database raises,
    the clocks and whether the logger of errors fails come with each request.  The
    requests have no Origin header, so that the CORS middleware passes them on, and the
    documents of FastAPI are off, as they are by default. *)
From S2P Require Import Prelude Values Float64 RateLimiter ApiKey Worker Db Prog Repos Keys Services Http Frame Cluster Invariant Tenancy System Server Access Text Routes Observability Startup.
Local Open Scope Z_scope.

(** * The pieces *)

Record application := mkApplication {
  app_world : world;
  app_limiter : limiter;
  app_log : RequestLoggingMiddleware.t;
}.

(** A request on the wire. *)
Record incoming := mkIncoming {
  in_method : string;
  in_path : list string;
  in_payload : payload;
  in_authorization : option string;
}.

Definition method_of (verb : string) : method :=
  if bool_decide (verb = "GET"%string) then GET
  else if bool_decide (verb = "POST"%string) then POST
  else if bool_decide (verb = "DELETE"%string) then DELETE
  else OTHER.

Definition request_in (q : incoming) : request := mkRequest (method_of (in_method q)) (in_path q) (in_payload q).

(** [request.url.path] *)
Definition url_path (segments : list string) : string :=
  match segments with [] => "/" | _ => foldr (λ s rest, "/" +:+ s +:+ rest) EmptyString segments end.

(** The body of an answer is what a handler returns or a JSON object. *)
Inductive content := Handler (b : body) | Json (fields : list (string * string)).

Record answer := mkAnswer { a_code : Z; a_content : content; a_retry_after : option Z }.
Definition plain (res : response) : answer := mkAnswer (r_code res) (Handler (r_body res)) None.

(** [str(caller.id)], as [request.state.caller_id] *)
Definition caller_text (caller : api_key) : string := id_text api_key_uuid (k_id caller).

(** What the machine contributes to a request: its clocks, the type of the error that
    reaching the database raises, whether the logger of errors fails. *)
Record instant := mkInstant {
  i_limiter_clock : float;
  i_start : float;
  i_stop : float;
  i_now : datetime;
  i_unreachable : option string;
  i_logger_raises : bool;
}.

(** [root], [liveness] and [health], which the application itself serves *)
Definition root : list (string * string) := [("message", "Welcome to NeuroMesh API")]%string.

Definition probe (unreachable : option string) (path : list string) : option (Z * list (string * string)) :=
  match path with
  | [] => Some (200, root)
  | [x] =>
      if bool_decide (x = "livez"%string) then Some (200, liveness)
      else if bool_decide (x = "health"%string) then Some (health (λ t : string, t) (Some tt) (λ _, unreachable))
      else None
  | _ => None
  end.

Lemma probe_code unreachable path code fields : probe unreachable path = Some (code, fields) → code ∈ [200; 404; 405; 503].
Proof.
  unfold probe. destruct path as [|x [|]]; [..|done]; intros Hp; [simplify_eq; set_solver|].
  unfold health in Hp. cbn in Hp. destruct unreachable; repeat case_bool_decide; simplify_eq; set_solver.
Qed.

Section pipeline.
Context {E : Env} `{BodyUuid} (describe : exn → exc).

(** An HTTPException is answered inside the middleware; any other exception goes
    through it. *)
Definition handled (e : exn) : exc + answer :=
  match e with HTTPException code => inr (plain (mkResponse code NoBody)) | _ => inl (describe e) end.

(** The dependencies of a router in their order, then the handler. *)
Definition guarded (x : parsed) (auth : option string) (now : float) (w : world) (L : limiter) : world * limiter * option string * (exc + answer) :=
  match require_api_key auth w with
  | (w', inl e) => (w', L, None, handled e)
  | (w', inr caller) =>
      let who := Some (caller_text caller) in
      match require_rate_limit now (k_id caller) L with
      | (L', inl (TooManyRequests seconds)) => (w', L', who, inr (mkAnswer 429 (Handler NoBody) (Some seconds)))
      | (L', inl (Unmapped e)) => (w', L', who, handled e)
      | (L', inr _) =>
          match endpoint x caller w' with
          | (w'', inr res) => (w'', L', who, inr (plain res))
          | (w'', inl e) => (w'', L', who, handled e)
          end
      end
  end.

(** [call_next]: what is behind the middleware *)
Definition call_next (i : instant) (q : incoming) : @RequestLoggingMiddleware.handler (world * limiter) answer :=
  λ s, let '(w, L) := s in
  match parse_request (request_in q), probe (i_unreachable i) (in_path q) with
  | NoRoute, Some (code, fields) =>
      (w, L, None, inr match method_of (in_method q) with GET => mkAnswer code (Json fields) None | _ => plain (mkResponse 405 NoBody) end)
  | NoRoute, None => (w, L, None, inr (plain (mkResponse 404 NoBody)))
  | WrongMethod, _ => (w, L, None, inr (plain (mkResponse 405 NoBody)))
  | x, _ => guarded x (in_authorization q) (i_limiter_clock i) w L
  end.

(** A request, from the socket and back. *)
Definition serve_app (i : instant) (q : incoming) (a : application) : application * answer :=
  let '(s, log, r) :=
    RequestLoggingMiddleware.dispatch a_code (i_logger_raises i) (i_now i) (i_start i) (i_stop i)
      (in_method q) (url_path (in_path q)) (call_next i q) (app_world a, app_limiter a) (app_log a) in
  (mkApplication (s.1) (s.2) log, match r with inr x => x | inl _ => plain (mkResponse 500 NoBody) end).

(** * What the layers amount to *)

(** Between authentication and handler there is only the limiter: the guarded handler
    is the [gateway] of the routes, with the errors kept apart. *)
Lemma guarded_gateway x auth now w L :
  let '(w', L', _, r) := guarded x auth now w L in
  let '(res, retry) := (gateway now auth (endpoint x) L w).2 in
  (gateway now auth (endpoint x) L w).1 = (L', w') ∧
  match r with inr y => y = mkAnswer (r_code res) (Handler (r_body res)) retry | inl _ => res = mkResponse 500 NoBody ∧ retry = None end.
Proof using.
  unfold guarded, gateway.
  destruct (require_api_key auth w) as [w' [e1|caller]]; [by destruct e1|].
  destruct (require_rate_limit now (k_id caller) L) as [L' [[s|e2]|[]]]; [done|by destruct e2|].
  by destruct (endpoint x caller w') as [w'' [e3|res]]; [destruct e3|].
Qed.

(** The middleware leaves the answer alone and adds a line for it. *)
Lemma serve_app_line i q a :
  let '(a', ans) := serve_app i q a in
  let '(s, who, r) := call_next i q (app_world a, app_limiter a) in
  (app_world a', app_limiter a') = s ∧
  ans = match r with inr x => x | inl _ => plain (mkResponse 500 NoBody) end ∧
  request_lines (RequestLoggingMiddleware.log (app_log a')) = request_lines (RequestLoggingMiddleware.log (app_log a)) ++
    [log_completed_request (in_method q) (url_path (in_path q)) who (a_code ans) (fmul (fsub (i_stop i) (i_start i)) (exact_of_Z 1000))].
Proof using.
  unfold serve_app.
  pose proof (dispatch_line a_code (i_logger_raises i) (i_now i) (i_start i) (i_stop i) (in_method q) (url_path (in_path q))
    (call_next i q) (app_world a, app_limiter a) (app_log a)) as Hl.
  destruct (RequestLoggingMiddleware.dispatch _ _ _ _ _ _ _ _ _ _) as [[[w L] log] r].
  destruct (call_next i q _) as [[s who] r0]. destruct Hl as (<- & -> & Hl). cbn. split_and!; [done..|]. rewrite Hl. by destruct r0.
Qed.
End pipeline.

(** * A request and its line *)

Section served.
Context {E : Env} `{!Quiet E} `{BodyUuid} (describe : exn → exc).

(** Who was let in, by the tables. *)
Lemma let_in auth d n :
  keys_integrity d →
  match require_api_key auth (mkWorld d n) with
  | (w', inr caller) => speaks_for d auth caller ∧ (n ≤ w_step w')%nat ∧ ∃ now, w_db w' = used caller now d
  | (w', inl e) => (∀ caller, ¬ speaks_for d auth caller) ∧ w_db w' = d ∧ e = HTTPException 401
  end.
Proof using Quiet0.
  intros Hk.
  assert (wp (require_api_key auth) (λ caller w', speaks_for d auth caller ∧ (n ≤ w_step w')%nat ∧ ∃ now, w_db w' = used caller now d)
    (λ e w', (∀ caller, ¬ speaks_for d auth caller) ∧ w_db w' = d ∧ e = HTTPException 401) (mkWorld d n)) as Hw.
  { apply wp_caller; [done|intros; by split_and!|]. intros caller now k Hc Hn. split_and!; [done..|]. by exists now. }
  unfold wp in Hw. by destruct (require_api_key auth (mkWorld d n)) as [w' [e|caller]].
Qed.

(** What a caller's request does: its tables, and its mark alone if it is held back. *)
Definition for_caller (auth : option string) (d d' : db) (who : option string) (retry_after : option Z) (code : Z) : Prop :=
  ∃ caller, speaks_for d auth caller ∧ who = Some (caller_text caller) ∧ untouched (k_tenant_id caller) d d' ∧
    (is_Some retry_after → code = 429 ∧ ∃ now, d' = used caller now d).

(** A request nobody is let in with does nothing. *)
Definition for_nobody (auth : option string) (d d' : db) (L L' : limiter) (who : option string) (code : Z) : Prop :=
  (∀ caller, ¬ speaks_for d auth caller) ∧ d' = d ∧ L' = L ∧ who = None ∧ code = 401.

Definition code_of (r : exc + answer) : Z := match r with inr y => a_code y | inl _ => 500 end.
Definition retry_of (r : exc + answer) : option Z := match r with inr y => a_retry_after y | inl _ => None end.

Lemma retry_handled e : retry_of (handled describe e) = None.
Proof using. by destruct e. Qed.

Lemma guarded_served q auth now d n L :
  server_ok (mkWorld d n) →
  let '(w', L', who, r) := guarded describe (parse_request q) auth now (mkWorld d n) L in
  for_caller auth d (w_db w') who (retry_of r) (code_of r) ∨ for_nobody auth d (w_db w') L L' who (code_of r).
Proof using Quiet0.
  intros Hd. pose proof Hd as [[Hint [_ Hm]] Hk _ _]. cbn in Hint, Hm, Hk.
  pose proof (let_in auth d n Hk) as Hauth. unfold guarded.
  destruct (require_api_key auth (mkWorld d n)) as [w' [e1|caller]].
  { destruct Hauth as (Hno & Hd' & ->). right. by split_and!. }
  destruct Hauth as (Hc & Hn & t & Hu). pose proof Hc as (_ & _ & _ & Hkc & _). destruct w' as [d1 k]; cbn in Hu, Hn; subst d1.
  assert (untouched (k_tenant_id caller) d (used caller t d)) as Hun by (by apply used_untouched).
  destruct (require_rate_limit now (k_id caller) L) as [L' [[s|e2]|[]]]; cbn zeta iota.
  - left. exists caller. split_and!; [done..|]. intros _. split; [done|]. by exists t.
  - left. exists caller. rewrite retry_handled. split_and!; [done..|]. by intros [].
  - assert (confined (k_tenant_id caller) d n (mkWorld (used caller t d) k)) as Hw by (split; cbn; [by apply set_keys_integrity|done|done]).
    assert (preserves (confined (k_tenant_id caller) d n) (endpoint (parse_request q) caller)) as Hh.
    { apply endpoint_confined; [done|]. intros m Hm'. by eapply fresh_worker. }
    specialize (Hh _ Hw). unfold wp in Hh.
    destruct (endpoint (parse_request q) caller _) as [w'' [e3|res]]; cbn zeta iota; left; exists caller; (destruct Hh as [_ Hh _] || destruct Hh as [[_ Hh _] _]);
      rewrite ?retry_handled; split_and!; try done; by intros [].
Qed.

(** What is behind the middleware, for every request. *)
Lemma call_next_served i q d n L :
  server_ok (mkWorld d n) →
  let '(w', L', who, r) := call_next describe i q (mkWorld d n, L) in
  match parse_request (request_in q) with
  | NoRoute | WrongMethod => w_db w' = d ∧ L' = L ∧ who = None ∧ code_of r ∈ [200; 404; 405; 503]
  | _ =>
      for_caller (in_authorization q) d (w_db w') who (retry_of r) (code_of r) ∨
      for_nobody (in_authorization q) d (w_db w') L L' who (code_of r)
  end.
Proof using Quiet0.
  intros Hd. pose proof (guarded_served (request_in q) (in_authorization q) (i_limiter_clock i) d n L Hd) as Hg. unfold call_next.
  destruct (parse_request (request_in q)) as [| |e| |r]; [| |exact Hg..].
  - destruct (probe (i_unreachable i) (in_path q)) as [[code fields]|] eqn:Hp; cbn; split_and!; try done; [|set_solver].
    destruct (method_of (in_method q)); cbn; [|set_solver..]. by eapply probe_code.
  - cbn. split_and!; try done. set_solver.
Qed.
End served.

(** C37: A request from the socket and back.  It adds exactly one line to the request log,
    with its method and path, the code the client receives, and the identifier of the
    key it was let in with, or none: never the credential.  If it carries the secret of an
    active key and names a route, no row of another tenant changes, and if it is held
    back with a Retry-After it is answered 429 and only the mark of its key changes; if it
    names a route without such a secret, it is answered 401 and neither tables nor limiter
    change, and neither do they for a probe, an unknown path (404) or a wrong
    method (405). *)
Theorem request_served {E : Env} `{!Quiet E} `{BodyUuid} (describe : exn → exc) i q d n L log :
  server_ok (mkWorld d n) →
  let '(a', ans) := serve_app describe i q (mkApplication (mkWorld d n) L log) in
  let d' := w_db (app_world a') in
  ∃ who,
    request_lines (RequestLoggingMiddleware.log (app_log a')) = request_lines (RequestLoggingMiddleware.log log) ++
      [log_completed_request (in_method q) (url_path (in_path q)) who (a_code ans) (fmul (fsub (i_stop i) (i_start i)) (exact_of_Z 1000))] ∧
    match parse_request (request_in q) with
    | NoRoute | WrongMethod => d' = d ∧ app_limiter a' = L ∧ who = None ∧ a_code ans ∈ [200; 404; 405; 503]
    | _ =>
        for_caller (in_authorization q) d d' who (a_retry_after ans) (a_code ans) ∨
        for_nobody (in_authorization q) d d' L (app_limiter a') who (a_code ans)
    end.
Proof.
  intros Hd. pose proof (serve_app_line describe i q (mkApplication (mkWorld d n) L log)) as Hl.
  pose proof (call_next_served describe i q d n L Hd) as Hs.
  destruct (serve_app _ _ _ _) as [a' ans]. cbn [app_world app_limiter app_log] in Hl.
  destruct (call_next _ _ _ _) as [[[w' L'] who] r]. destruct Hl as (Ha & -> & Hline). injection Ha as Hw HL.
  exists who. split; [exact Hline|]. rewrite Hw, HL. by destruct r.
Qed.

(** * Examples *)

(** Tenant 8, in its first second, tries to drain the node of tenant 1. *)
Definition first_second : instant := mkInstant fone fone fone 0 None false.
Definition wire_drain : incoming := mkIncoming "POST" (q_path foreign_drain) NoPayload (bearer secret8).
Definition quiet_log : RequestLoggingMiddleware.t := RequestLoggingMiddleware.__init__ None.
Definition unnamed (e : exn) : exc := mkExc "Exception" (Some EmptyString) (Some EmptyString).

Lemma request_served_witness :
  let '(a', ans) := serve_app (E:=calm) (H:=plain_uuid) unnamed first_second wire_drain (mkApplication two_tenants deployed quiet_log) in
  a_code ans = 404 ∧
  ∃ who, length (request_lines (RequestLoggingMiddleware.log (app_log a'))) = 1%nat ∧
    (for_caller (E:=calm) (bearer secret8) (w_db two_tenants) (w_db (app_world a')) who (a_retry_after ans) (a_code ans) ∨
     for_nobody (E:=calm) (bearer secret8) (w_db two_tenants) (w_db (app_world a')) deployed (app_limiter a') who (a_code ans)).
Proof.
  pose proof (@request_served calm calm_quiet plain_uuid unnamed first_second wire_drain (w_db two_tenants) (w_step two_tenants) deployed quiet_log) as Hi.
  change (mkWorld (w_db two_tenants) (w_step two_tenants)) with two_tenants in Hi.
  assert (a_code (serve_app (E:=calm) (H:=plain_uuid) unnamed first_second wire_drain (mkApplication two_tenants deployed quiet_log)).2 = 404) as Hc
    by (vm_compute; reflexivity).
  assert (parse_request (H:=plain_uuid) (request_in wire_drain) = Routed (PostNodeDrain (mkNodeId 9))) as Hp by (vm_compute; reflexivity).
  rewrite Hp in Hi. destruct (serve_app _ _ _ _) as [a' ans]. cbn in Hc. split; [exact Hc|].
  destruct (Hi two_tenants_ok) as (who & Hline & Hor). exists who. split; [|exact Hor]. rewrite Hline. reflexivity.
Defined.

(** A second request of the same moment, with one token in the bucket, is held back; a
    probe is served without a key, and is not logged as anyone's. *)
Definition one_each : application := mkApplication two_tenants (mkLimiter 1 fone ∅) quiet_log.
Lemma held_back :
  let a' := (serve_app (E:=calm) (H:=plain_uuid) unnamed first_second wire_drain one_each).1 in
  (serve_app (E:=calm) (H:=plain_uuid) unnamed first_second wire_drain a').2 = mkAnswer 429 (Handler NoBody) (Some 2) ∧
  (serve_app (E:=calm) (H:=plain_uuid) unnamed first_second (mkIncoming "GET" ["livez"] NoPayload None) one_each).2 =
    mkAnswer 200 (Json liveness) None.
Proof. split; vm_compute; reflexivity. Qed.
