(* ===== verification/Csv.v ===== *)
(** The reader of Python's csv module with its default dialect, as far as
    [csv.DictReader(io.StringIO(text))] runs it: a state machine over the characters of
    each line and the end of the line.  A text written with the usual quoting reads
    back as the fields it was written from. *)
From S2P Require Import Prelude Values ApiKey Text Migrations Url.
Local Open Scope Z_scope.

Definition LF : chr := chr_of 10.
Definition CR : chr := chr_of 13.
Definition QUOTE : chr := chr_of 34.
Definition COMMA : chr := chr_of 44.

(** The states of the reader, [parse_process_char] of _csv.c. *)
Inductive reader_state := START_RECORD | START_FIELD | IN_FIELD | IN_QUOTED_FIELD | QUOTE_IN_QUOTED_FIELD | EAT_CRNL.

(** Its registers: the fields of the record so far and the current field, backwards. *)
Record reader := mkReader { rd_state : reader_state; rd_fields : list string; rd_field : list chr }.
Definition start : reader := mkReader START_RECORD [] [].

Definition of_chars (l : list chr) : string := String.string_of_list_ascii l.

(** [parse_save_field] and [parse_add_char] *)
Definition save_field (st : reader_state) (r : reader) : reader := mkReader st (rd_fields r ++ [of_chars (rev (rd_field r))]) [].
Definition add_char (st : reader_state) (c : chr) (r : reader) : reader := mkReader st (rd_fields r) (c :: rd_field r).
Definition goto (st : reader_state) (r : reader) : reader := mkReader st (rd_fields r) (rd_field r).

Definition is_newline (c : chr) : bool := bool_decide (c = LF) || bool_decide (c = CR).

(** At the start of a field. *)
Definition start_field (c : chr) (r : reader) : reader :=
  if is_newline c then save_field EAT_CRNL r
  else if bool_decide (c = QUOTE) then goto IN_QUOTED_FIELD r
  else if bool_decide (c = COMMA) then save_field START_FIELD r
  else add_char IN_FIELD c r.

(** One character; [None] is [csv.Error]. *)
Definition step (c : chr) (r : reader) : option reader :=
  match rd_state r with
  | START_RECORD => Some (if is_newline c then goto EAT_CRNL r else start_field c r)
  | START_FIELD => Some (start_field c r)
  | IN_FIELD => Some (if is_newline c then save_field EAT_CRNL r else if bool_decide (c = COMMA) then save_field START_FIELD r else add_char IN_FIELD c r)
  | IN_QUOTED_FIELD => Some (if bool_decide (c = QUOTE) then goto QUOTE_IN_QUOTED_FIELD r else add_char IN_QUOTED_FIELD c r)
  | QUOTE_IN_QUOTED_FIELD =>
      Some (if bool_decide (c = QUOTE) then add_char IN_QUOTED_FIELD c r
            else if bool_decide (c = COMMA) then save_field START_FIELD r
            else if is_newline c then save_field EAT_CRNL r
            else add_char IN_FIELD c r)
  | EAT_CRNL => if is_newline c then Some r else None
  end.

(** The end of a line. *)
Definition end_of_line (r : reader) : reader :=
  match rd_state r with
  | START_RECORD => r
  | START_FIELD | IN_FIELD | QUOTE_IN_QUOTED_FIELD => save_field START_RECORD r
  | IN_QUOTED_FIELD => r
  | EAT_CRNL => goto START_RECORD r
  end.

(** The records of a text.  A record ends where a line ends in [START_RECORD]; a text
    that ends inside a field ends the record. *)
Definition finish_line (r : reader) : list (list string) * reader :=
  let r' := end_of_line r in
  match rd_state r' with START_RECORD => ([rd_fields r'], start) | _ => ([], r') end.

Fixpoint read_chars (l : list chr) (r : reader) (fresh : bool) : option (list (list string)) :=
  match l with
  | [] =>
      if fresh then
        match rd_state r with
        | START_RECORD => Some []
        | IN_QUOTED_FIELD => Some [rd_fields (save_field START_RECORD r)]
        | _ => Some (if bool_decide (rd_field r = []) then [] else [rd_fields (save_field START_RECORD r)])
        end
      else
        let '(done, r') := finish_line r in
        match rd_state r' with
        | IN_QUOTED_FIELD => Some (done ++ [rd_fields (save_field START_RECORD r')])
        | _ => Some done
        end
  | c :: l' =>
      match step c r with
      | None => None
      | Some r1 =>
          if bool_decide (c = LF) then
            let '(done, r2) := finish_line r1 in
            match read_chars l' r2 true with None => None | Some rest => Some (done ++ rest) end
          else read_chars l' r1 false
      end
  end.

Definition csv_reader (text : string) : option (list (list string)) := read_chars (String.list_ascii_of_string text) start true.

(** * DictReader *)

(** [reader.fieldnames] and the rows that are not empty. *)
Definition dict_reader (text : string) : option (list string * list (list string)) :=
  match csv_reader text with
  | None => None
  | Some [] => Some ([], [])
  | Some (names :: rows) => Some (names, filter (λ r, r ≠ []) rows)
  end.

(** [dict(zip(names, row))]: the last of equal names counts. *)
Definition dict_of (names row : list string) : gmap string string := foldl (λ m kv, <[kv.1 := kv.2]> m) ∅ (zip names row).

(** * Reading what was written *)

(** A field is written as it is, or between quotes with its quotes doubled. *)
Fixpoint doubled (l : list chr) : list chr :=
  match l with [] => [] | c :: l' => if bool_decide (c = QUOTE) then QUOTE :: QUOTE :: doubled l' else c :: doubled l' end.
Definition field_chars (f : bool * list chr) : list chr := if f.1 then QUOTE :: doubled f.2 ++ [QUOTE] else f.2.

Fixpoint record_chars (fs : list (bool * list chr)) : list chr :=
  match fs with [] => [] | [f] => field_chars f ++ [LF] | f :: fs' => field_chars f ++ COMMA :: record_chars fs' end.
Definition csv_chars (rs : list (list (bool * list chr))) : list chr := concat (record_chars <$> rs).

(** Characters that need no quotes. *)
Definition plain (c : chr) : Prop := c ≠ LF ∧ c ≠ CR ∧ c ≠ QUOTE ∧ c ≠ COMMA.
Definition field_ok (f : bool * list chr) : Prop := f.1 = true ∨ Forall plain f.2.
(** A record has a field, and is not one empty field without quotes. *)
Definition record_ok (fs : list (bool * list chr)) : Prop := fs ≠ [] ∧ fs ≠ [(false, [])] ∧ Forall field_ok fs.

Lemma fresh_irrelevant c l r b b' : read_chars (c :: l) r b = read_chars (c :: l) r b'.
Proof. done. Qed.

Lemma special_chars : LF ≠ QUOTE ∧ LF ≠ COMMA ∧ CR ≠ LF ∧ QUOTE ≠ LF ∧ QUOTE ≠ CR ∧ QUOTE ≠ COMMA ∧ COMMA ≠ LF ∧ COMMA ≠ CR ∧ COMMA ≠ QUOTE.
Proof. by vm_compute. Qed.

Ltac csv_decide :=
  pose proof special_chars as (? & ? & ? & ? & ? & ? & ? & ? & ?);
  repeat match goal with
  | |- context [bool_decide (?x = ?y)] =>
      first [rewrite (bool_decide_eq_true_2 (x = y)) by done | rewrite (bool_decide_eq_false_2 (x = y)) by done]
  end; cbn [orb andb negb].

Lemma read_plain w c l fs acc b : Forall plain w →
  read_chars (w ++ c :: l) (mkReader IN_FIELD fs acc) b = read_chars (c :: l) (mkReader IN_FIELD fs (rev w ++ acc)) false.
Proof.
  intros Hw. revert acc b. induction Hw as [|x w (H1 & H2 & H3 & H4) _ IH]; intros acc b; [done|]. cbn [app read_chars step rd_state].
  unfold is_newline. csv_decide. unfold add_char. cbn [rd_fields rd_field]. rewrite IH. cbn [rev]. by rewrite <- app_assoc.
Qed.

Lemma read_doubled s T R fs : (∀ acc b, read_chars T (mkReader IN_QUOTED_FIELD fs acc) b = R acc) →
  ∀ acc b, read_chars (doubled s ++ T) (mkReader IN_QUOTED_FIELD fs acc) b = R (rev s ++ acc).
Proof.
  intros HT. induction s as [|x s IH]; intros acc b; [apply HT|]. cbn [doubled rev]. rewrite <- app_assoc. cbn [app].
  destruct (decide (x = QUOTE)) as [->|Hq].
  - rewrite (bool_decide_eq_true_2 (QUOTE = QUOTE)) by done. cbn [app read_chars step rd_state]. csv_decide. cbn [goto read_chars step rd_state].
    csv_decide. unfold add_char. cbn [goto rd_fields rd_field]. apply IH.
  - rewrite (bool_decide_eq_false_2 (x = QUOTE)) by done. cbn [app read_chars step rd_state]. rewrite (bool_decide_eq_false_2 (x = QUOTE)) by done.
    unfold add_char. cbn [rd_fields rd_field]. destruct (decide (x = LF)) as [->|Hl].
    + rewrite bool_decide_eq_true_2 by done. cbn [finish_line end_of_line rd_state]. rewrite IH. by destruct (R _).
    + rewrite bool_decide_eq_false_2 by done. apply IH.
Qed.

Lemma read_quoted s c l fs acc b :
  read_chars (doubled s ++ QUOTE :: c :: l) (mkReader IN_QUOTED_FIELD fs acc) b = read_chars (c :: l) (mkReader QUOTE_IN_QUOTED_FIELD fs (rev s ++ acc)) false.
Proof.
  apply (read_doubled s (QUOTE :: c :: l) (λ acc, read_chars (c :: l) (mkReader QUOTE_IN_QUOTED_FIELD fs acc) false)). clear. intros acc b.
  generalize (c :: l). intros T. cbn [read_chars step rd_state]. csv_decide. done.
Qed.

(** After the characters of a field, in a state [st] at the start of one: a comma ends
    it and a line feed ends the record. *)
Lemma read_field_comma f l st fs b : field_ok f → st = START_RECORD ∨ st = START_FIELD →
  read_chars (field_chars f ++ COMMA :: l) (mkReader st fs []) b = read_chars l (mkReader START_FIELD (fs ++ [of_chars f.2]) []) false.
Proof.
  intros Hf Hst. destruct f as [q s]. unfold field_chars. cbn [fst snd]. destruct q.
  - cbn [app]. rewrite <- app_assoc. cbn [app read_chars].
    assert (step QUOTE (mkReader st fs []) = Some (mkReader IN_QUOTED_FIELD fs [])) as ->.
    { destruct Hst as [-> | ->]; cbn [step rd_state]; unfold start_field, is_newline; csv_decide; done. }
    rewrite (bool_decide_eq_false_2 (QUOTE = LF)) by apply special_chars. rewrite read_quoted, app_nil_r. cbn [read_chars step rd_state]. csv_decide.
    unfold save_field. cbn [rd_fields rd_field]. by rewrite rev_involutive.
  - destruct Hf as [|Hf]; [done|]. cbn [snd] in Hf. destruct Hf as [|x w (H1 & H2 & H3 & H4) Hw].
    + cbn [app read_chars]. assert (step COMMA (mkReader st fs []) = Some (mkReader START_FIELD (fs ++ [of_chars []]) [])) as ->.
      { destruct Hst as [-> | ->]; cbn [step rd_state]; unfold start_field, is_newline; csv_decide; done. }
      by rewrite (bool_decide_eq_false_2 (COMMA = LF)) by apply special_chars.
    + cbn [app read_chars]. assert (step x (mkReader st fs []) = Some (mkReader IN_FIELD fs [x])) as ->.
      { destruct Hst as [-> | ->]; cbn [step rd_state]; unfold start_field, is_newline; csv_decide; done. }
      rewrite (bool_decide_eq_false_2 (x = LF)) by done. rewrite read_plain by done. cbn [read_chars step rd_state]. unfold is_newline. csv_decide.
      unfold save_field. cbn [rd_fields rd_field]. rewrite rev_app_distr, rev_involutive. done.
Qed.

Lemma read_field_end f l st fs b : field_ok f → st = START_FIELD ∨ (st = START_RECORD ∧ f ≠ (false, [])) →
  read_chars (field_chars f ++ LF :: l) (mkReader st fs []) b =
    match read_chars l start true with None => None | Some rest => Some ((fs ++ [of_chars f.2]) :: rest) end.
Proof.
  intros Hf Hst. destruct f as [q s]. unfold field_chars. cbn [fst snd]. destruct q.
  - cbn [app]. rewrite <- app_assoc. cbn [app read_chars].
    assert (step QUOTE (mkReader st fs []) = Some (mkReader IN_QUOTED_FIELD fs [])) as ->.
    { destruct Hst as [-> | [-> _]]; cbn [step rd_state]; unfold start_field, is_newline; csv_decide; done. }
    rewrite (bool_decide_eq_false_2 (QUOTE = LF)) by apply special_chars. rewrite read_quoted, app_nil_r. cbn [read_chars step rd_state]. unfold is_newline. csv_decide.
    unfold save_field. cbn. by rewrite rev_involutive.
  - destruct Hf as [|Hf]; [done|]. cbn [snd] in Hf. destruct Hf as [|x w (H1 & H2 & H3 & H4) Hw].
    + destruct Hst as [-> | [_ []]]; [|done]. cbn [app read_chars step rd_state]. unfold start_field, is_newline. csv_decide. done.
    + cbn [app read_chars]. assert (step x (mkReader st fs []) = Some (mkReader IN_FIELD fs [x])) as ->.
      { destruct Hst as [-> | [-> _]]; cbn [step rd_state]; unfold start_field, is_newline; csv_decide; done. }
      rewrite (bool_decide_eq_false_2 (x = LF)) by done. rewrite read_plain by done. cbn [read_chars step rd_state]. unfold is_newline. csv_decide.
      unfold save_field. cbn. rewrite rev_app_distr, rev_involutive. done.
Qed.

Lemma read_record fs l st acc b : fs ≠ [] → Forall field_ok fs → st = START_FIELD ∨ (st = START_RECORD ∧ fs ≠ [(false, [])]) →
  read_chars (record_chars fs ++ l) (mkReader st acc []) b =
    match read_chars l start true with None => None | Some rest => Some ((acc ++ (of_chars <$> fs.*2)) :: rest) end.
Proof.
  intros Hne Hok. revert st acc b Hne. induction Hok as [|f fs Hf Hfs IH]; intros st acc b Hne Hst; [done|]. destruct fs as [|g fs].
  - change (record_chars [f]) with (field_chars f ++ [LF]). rewrite <- app_assoc. apply read_field_end; [done|].
    destruct Hst as [?|[? Hn]]; [by left|right]. split; [done|]. intros ->. done.
  - change (record_chars (f :: g :: fs)) with (field_chars f ++ COMMA :: record_chars (g :: fs)). rewrite <- app_assoc.
    change ((COMMA :: record_chars (g :: fs)) ++ l) with (COMMA :: (record_chars (g :: fs) ++ l)).
    rewrite read_field_comma by (done || tauto). rewrite IH; [|done|by left]. by rewrite <- app_assoc.
Qed.

(** Whatever way of quoting was chosen, the reader gives back the fields. *)
Lemma csv_round_trip rs : Forall record_ok rs →
  csv_reader (of_chars (csv_chars rs)) = Some ((λ fs, of_chars <$> fs.*2) <$> rs).
Proof.
  intros Hrs. unfold csv_reader. rewrite String.list_ascii_of_string_of_list_ascii. unfold csv_chars.
  induction Hrs as [|fs rs (H1 & H2 & H3) _ IH]; [done|]. cbn [fmap list_fmap concat]. unfold start at 1.
  rewrite read_record by (done || by right). change (list_fmap _ _ record_chars rs) with (record_chars <$> rs). rewrite IH. done.
Qed.
