(* ===== verification/Diff.v ===== *)
(** [difflib.SequenceMatcher(None, a, b, autojunk=False)], as far as
    [compare_schemas] of src/scripts/upgrade_rehearsal.py uses its opcodes: the longest
    common block is matched first (the earliest in [a], then in [b]), then what lies
    before and after it.  What is left between the blocks is where the lists differ;
    nothing is left exactly when they are equal. *)
From S2P Require Import Prelude.

Section diff.
Context {A : Type} `{EqDecision A}.
Implicit Types (a b : list A) (x : A).

(** * find_longest_match *)

(** [newj2len]: for each position of [b] the length of the block of equal elements
    that ends there and at the element [x] of [a]; [prev] is the row of the element
    before. *)
Definition next_row x b (prev : list nat) : list nat := zip_with (λ y p, if bool_decide (y = x) then S p else 0) b (0 :: prev).

(** The best block so far: where it starts in [a] and [b], and its length. *)
Definition update (i : nat) (best : nat * nat * nat) (row : list nat) : nat * nat * nat :=
  foldl (λ best jk, if bool_decide (best.2 < jk.2) then (S i - jk.2, S jk.1 - jk.2, jk.2) else best) best (imap pair row).

Fixpoint scan (i : nat) a b (row : list nat) (best : nat * nat * nat) : nat * nat * nat :=
  match a with
  | [] => best
  | x :: a' => let row' := next_row x b row in scan (S i) a' b row' (update i best row')
  end.

Definition find_longest_match a b : nat * nat * nat := scan 0 a b (replicate (length b) 0) (0, 0, 0).

(** * The differences *)

(** The stretches between matching blocks, of [a] and of [b]. *)
Fixpoint gaps (fuel : nat) a b : list (list A * list A) :=
  match fuel with
  | O => [(a, b)]
  | S fuel =>
      let '(i, j, k) := find_longest_match a b in
      if bool_decide (k = 0) then (if bool_decide (a = [] ∧ b = []) then [] else [(a, b)])
      else gaps fuel (take i a) (take j b) ++ gaps fuel (drop (i + k) a) (drop (j + k) b)
  end.

(** A block is not empty, so this many rounds are enough. *)
Definition differences a b : list (list A * list A) := gaps (S (length a)) a b.

(** * Correctness *)

(** A common block. *)
Definition block a b (i j k : nat) : Prop := i + k ≤ length a ∧ j + k ≤ length b ∧ take k (drop i a) = take k (drop j b).

Lemma block_app a1 a2 b i j k : i + k ≤ length a1 → block (a1 ++ a2) b i j k ↔ block a1 b i j k.
Proof.
  intros Hi. unfold block. rewrite drop_app_le by lia. rewrite take_app_le by (rewrite length_drop; lia). rewrite length_app. intuition lia.
Qed.

Lemma take_S_snoc {X} (l : list X) n (x : X) : l !! n = Some x → take (S n) l = take n l ++ [x].
Proof. apply take_S_r. Qed.

(** A block that ends at a given element of each list is a block that ends just
    before, and two equal elements. *)
Lemma block_snoc a b x i j k y : i + k = length a → b !! (j + k) = Some y →
  block (a ++ [x]) b i j (S k) ↔ block a b i j k ∧ y = x.
Proof.
  intros Hi Hj. pose proof (lookup_lt_Some _ _ _ Hj) as Hlt. unfold block. rewrite length_app. cbn.
  assert (take (S k) (drop i (a ++ [x])) = take k (drop i a) ++ [x]) as ->.
  { rewrite (take_S_snoc _ k x); [|rewrite lookup_drop, lookup_app_r by lia; by replace (i + k - length a) with 0 by lia].
    rewrite drop_app_le by lia. by rewrite take_app_le by (rewrite length_drop; lia). }
  rewrite (take_S_snoc (drop j b) k y) by (by rewrite lookup_drop). split.
  - intros (_ & _ & H). apply app_inj_tail in H as [H ->]. split_and!; try lia; done.
  - intros ((_ & _ & ->) & ->). split_and!; try lia; done.
Qed.

(** The row after the elements [a]: the longest blocks that end with [a] and at each
    element of [b]. *)
Definition row_ok a b (row : list nat) : Prop := length row = length b ∧ ∀ j r, row !! j = Some r →
  (∃ i j', i + r = length a ∧ j' + r = S j ∧ block a b i j' r) ∧
  ∀ i j' k, i + k = length a → j' + k = S j → block a b i j' k → k ≤ r.

Lemma row_ok_start b : row_ok [] b (replicate (length b) 0).
Proof.
  split; [apply length_replicate|]. intros j r [-> Hj]%lookup_replicate. split.
  - exists 0, (S j). split_and!; [done|lia|]. split_and!; cbn; [lia|lia|done].
  - intros i j' k Hi _ _. cbn in Hi. lia.
Qed.

Lemma next_row_ok a b x row : row_ok a b row → row_ok (a ++ [x]) b (next_row x b row).
Proof.
  intros [Hlen Hrow]. unfold next_row. split; [rewrite length_zip_with; cbn; lia|]. intros j r Hj.
  apply lookup_zip_with_Some in Hj as (y & p & -> & Hy & Hp).
  assert ((∃ i j', i + p = length a ∧ j' + p = j ∧ block a b i j' p) ∧ ∀ i j' k, i + k = length a → j' + k = j → block a b i j' k → k ≤ p) as [(i & j' & Hi & Hj' & Hb) Hmax].
  { destruct j as [|j]; cbn in Hp.
    - injection Hp as <-. split; [exists (length a), 0; split_and!; try lia; split_and!; cbn; [lia|lia|done]|]. intros i j' k _ Hk _. lia.
    - apply (Hrow j p Hp). }
  case_bool_decide as Hyx.
  - split.
    + exists i, j'. rewrite length_app. cbn. split_and!; [lia|lia|]. apply (block_snoc a b x i j' p y); [done|by rewrite Hj'|by split].
    + intros i1 j1 [|k] Hi1 Hj1 Hb1; [lia|]. rewrite length_app in Hi1. cbn in Hi1. apply (block_snoc a b x i1 j1 k y) in Hb1 as [Hb1 _]; [|lia|by replace (j1 + k) with j by lia].
      assert (k ≤ p); [|lia]. eapply Hmax; [| |exact Hb1]; lia.
  - split.
    + exists (length (a ++ [x])), (S j). pose proof (lookup_lt_Some _ _ _ Hy). split_and!; try lia. split_and!; [lia|lia|done].
    + intros i1 j1 [|k] Hi1 Hj1 Hb1; [lia|]. rewrite length_app in Hi1. cbn in Hi1. apply (block_snoc a b x i1 j1 k y) in Hb1 as [_ ?]; [done|lia|by replace (j1 + k) with j by lia].
Qed.

(** The best block within the elements [a]. *)
Definition best_ok a b (best : nat * nat * nat) : Prop :=
  block a b best.1.1 best.1.2 best.2 ∧ ∀ i j k, block a b i j k → k ≤ best.2.

Lemma update_ok a b x row best : best_ok a b best → row_ok (a ++ [x]) b row → best_ok (a ++ [x]) b (update (length a) best row).
Proof.
  intros [Hb Hmax] [Hlen Hrow].
  (* after the first [n] entries of the row *)
  assert (∀ n, n ≤ length b →
    let best' := foldl (λ best jk, if bool_decide (best.2 < jk.2) then (S (length a) - jk.2, S jk.1 - jk.2, jk.2) else best) best (take n (imap pair row)) in
    block (a ++ [x]) b best'.1.1 best'.1.2 best'.2 ∧ best.2 ≤ best'.2 ∧
    ∀ j r, j < n → row !! j = Some r → r ≤ best'.2) as Hn.
  { induction n as [|n IH]; intros Hn; cbn zeta.
    - split_and!; [|done|intros; lia]. apply block_app; [|done]. apply Hb.
    - destruct IH as (IH1 & IH2 & IH3); [lia|]. destruct (lookup_lt_is_Some_2 row n) as [r Hr]; [lia|].
      rewrite (take_S_snoc _ n (n, r)) by (by rewrite list_lookup_imap, Hr). rewrite foldl_snoc. cbn [fst snd].
      set (b' := foldl _ best (take n (imap pair row))) in *. case_bool_decide as Hlt.
      + split_and!; cbn; [|lia|].
        * destruct (Hrow n r Hr) as [(i & j' & Hi & Hj & Hblk) _]. rewrite length_app in Hi. cbn in Hi.
          replace (S (length a) - r) with i by lia. by replace (S n - r) with j' by lia.
        * intros j r' Hj Hr'. destruct (decide (j = n)) as [->|]; [assert (r' = r) by congruence; lia|]. specialize (IH3 j r' ltac:(lia) Hr'). lia.
      + split_and!; [done|done|]. intros j r' Hj Hr'. destruct (decide (j = n)) as [->|]; [assert (r' = r) by congruence; lia|].
        apply (IH3 j r'); [lia|done]. }
  destruct (Hn (length b)) as (H1 & H2 & H3); [done|]. unfold update. rewrite take_ge in H1, H2, H3 by (rewrite length_imap; lia).
  split; [done|]. intros i j k Hblk. destruct (decide (i + k ≤ length a)) as [Hi|Hi].
  - etransitivity; [|exact H2]. eapply Hmax. by apply (block_app a [x]).
  - destruct k as [|k]; [lia|]. pose proof Hblk as (Hla & Hlb & _). rewrite length_app in Hla. cbn in Hla.
    destruct (lookup_lt_is_Some_2 row (j + k)) as [r Hr]; [lia|]. etransitivity; [|apply (H3 (j + k) r); [lia|done]].
    destruct (Hrow (j + k) r Hr) as [_ Hle]. apply (Hle i j (S k)); [rewrite length_app; cbn; lia|lia|done].
Qed.

Lemma scan_ok a1 a2 b row best : row_ok a1 b row → best_ok a1 b best → best_ok (a1 ++ a2) b (scan (length a1) a2 b row best).
Proof.
  revert a1 row best. induction a2 as [|x a2 IH]; intros a1 row best Hr Hb; cbn [scan]; [by rewrite app_nil_r|].
  replace (a1 ++ x :: a2) with ((a1 ++ [x]) ++ a2) by (by rewrite <- app_assoc). replace (S (length a1)) with (length (a1 ++ [x])) by (rewrite length_app; cbn; lia).
  apply IH; [by apply next_row_ok|]. apply update_ok; [done|by apply next_row_ok].
Qed.

(** The match is a common block, and there is no longer one. *)
Lemma find_longest_match_ok a b : best_ok a b (find_longest_match a b).
Proof.
  apply (scan_ok [] a b); [apply row_ok_start|]. split; [split_and!; cbn; [lia|lia|done]|]. intros i j k (Hi & _). cbn in *. lia.
Qed.

Lemma block_cut a b i j k : block a b i j k → a = take i a ++ take k (drop i a) ++ drop (i + k) a ∧ b = take j b ++ take k (drop i a) ++ drop (j + k) b.
Proof.
  intros (_ & _ & He). split; [|rewrite He]; rewrite <- drop_drop, take_drop, take_drop; done.
Qed.

(** Nothing is left exactly when the lists are equal. *)
Lemma differences_nil a b : differences a b = [] ↔ a = b.
Proof.
  split.
  - unfold differences. generalize (S (length a)). intros fuel. revert a b. induction fuel as [|fuel IH]; intros a b; cbn [gaps]; [done|].
    destruct (find_longest_match a b) as [[i j] k] eqn:E. pose proof (find_longest_match_ok a b) as [Hb _]. rewrite E in Hb. cbn in Hb.
    case_bool_decide as Hk; [case_bool_decide as Hn; [by destruct Hn as [-> ->]|done]|].
    intros [H1%IH H2%IH]%app_eq_nil. destruct (block_cut a b i j k Hb) as [Ha Hb']. rewrite Ha, Hb' at 1. by rewrite H1, H2.
  - intros ->. unfold differences. cbn [gaps]. destruct (find_longest_match b b) as [[i j] k] eqn:E.
    pose proof (find_longest_match_ok b b) as [(Hi & Hj & _) Hmax]. rewrite E in *. cbn in *.
    assert (length b ≤ k) as Hk by (apply (Hmax 0 0); split_and!; cbn; done || lia). assert (i = 0) as -> by lia. assert (j = 0) as -> by lia.
    assert (k = length b) as -> by lia. case_bool_decide as Hn.
    + destruct b; [|done]. by rewrite bool_decide_eq_true_2.
    + cbn. rewrite drop_all, take_0. assert (∀ n, gaps n ([] : list A) [] = [] ∨ n = 0) as Hg.
      { intros [|n]; [by right|left]. cbn. by rewrite bool_decide_eq_true_2. }
      destruct (Hg (length b)) as [-> | Hz]; [done|]. done.
Qed.

Lemma gaps_nonempty fuel a b g : (length a < fuel)%nat → g ∈ gaps fuel a b → g ≠ ([], []).
Proof.
  revert a b. induction fuel as [|fuel IH]; intros a b Hf; [lia|]. cbn [gaps]. destruct (find_longest_match a b) as [[i j] k] eqn:E.
  pose proof (find_longest_match_ok a b) as [(Hi & Hj & _) _]. rewrite E in Hi, Hj. cbn in Hi, Hj.
  case_bool_decide as Hk; [case_bool_decide as Hn; [by intros ?%elem_of_nil|]|].
  - intros ->%list_elem_of_singleton. intros [= -> ->]. by apply Hn.
  - rewrite elem_of_app. intros [Hg|Hg]; [apply (IH (take i a) (take j b))|apply (IH (drop (i + k) a) (drop (j + k) b))]; try done.
    + rewrite length_take. lia.
    + rewrite length_drop. lia.
Qed.

Lemma differences_nonempty a b g : g ∈ differences a b → g ≠ ([], []).
Proof. apply gaps_nonempty. lia. Qed.
End diff.
