(* ===== verification/Rehearsal.v ===== *)
(** The upgrade rehearsal (src/scripts/upgrade_rehearsal.py): a database seeded by one
    release is upgraded by the migrations of the next, and the script decides from
    exports whether anything changed that should not have.

    The commands it runs (docker, psql, git) are parameters.  The lines it reports are
    values: one constructor per message. *)
From Stdlib Require Import Strings.Ascii.
From stdpp Require Import pretty sorting.
From S2P Require Import Prelude Values Float64 ApiKey Text Migrations Url Csv Diff.
Local Open Scope Z_scope.

(** * Reading an export *)

Definition NULL_MARKER : string := "\N".
Definition quoted_marker : string := of_chars [QUOTE] +:+ NULL_MARKER +:+ of_chars [QUOTE].

Abbreviation export_rows := (gmap string (gmap string string)).

Definition read_row (table : string) (columns : list string) (row : list string) (rows : export_rows) : exn + export_rows :=
  if negb (length row =? length columns)%nat then inl (ValueError (table +:+ ": wrong number of fields")) else
  let d := dict_of columns row in
  let row_id := default EmptyString (c ← head columns; d !! c) in
  match rows !! row_id with
  | Some _ => inl (ValueError (table +:+ ": an id appears twice"))
  | None => inr (<[row_id := d]> rows)
  end.

Fixpoint read_rows (table : string) (columns : list string) (l : list (list string)) (rows : export_rows) : exn + export_rows :=
  match l with
  | [] => inr rows
  | row :: l' => match read_row table columns row rows with inl e => inl e | inr rows' => read_rows table columns l' rows' end
  end.

Definition _read (table text : string) : exn + (list string * export_rows) :=
  if has_substring quoted_marker text then inl (ValueError (table +:+ ": the export holds a quoted null marker")) else
  match dict_reader text with
  | None => inl (ValueError "_csv.Error")
  | Some ([], _) => inl (ValueError (table +:+ ": the export has no header"))
  | Some (columns, l) => match read_rows table columns l ∅ with inl e => inl e | inr rows => inr (columns, rows) end
  end.

(** * compare_snapshots *)

Abbreviation Snapshot := (gmap string string).

Inductive difference :=
  | MissingBefore (table : string)
  | MissingAfter (table : string)
  | ColumnsChanged (table : string) (before after : list string)
  | RowRemoved (table row_id : string)
  | RowAdded (table row_id : string)
  | ValueChanged (table row_id column old new : string).

Definition compare_values (table row_id : string) (old new : gmap string string) (columns : list string) : list difference :=
  omap (λ c, let o := default EmptyString (old !! c) in
             let n := default EmptyString (new !! c) in
             if bool_decide (o = n) then None else Some (ValueChanged table row_id c o n)) columns.

Definition compare_rows (table : string) (columns : list string) (before after : export_rows) : list difference :=
  (RowRemoved table <$> sorted (dom before ∖ dom after)) ++ (RowAdded table <$> sorted (dom after ∖ dom before)) ++
  concat ((λ i, compare_values table i (default ∅ (before !! i)) (default ∅ (after !! i)) columns) <$> sorted (dom before ∩ dom after)).

Definition compare_table (before after : Snapshot) (table : string) : exn + list difference :=
  match before !! table, after !! table with
  | None, _ => inr [MissingBefore table]
  | _, None => inr [MissingAfter table]
  | Some x, Some y =>
      match _read table x with
      | inl e => inl e
      | inr (before_columns, before_rows) =>
          match _read table y with
          | inl e => inl e
          | inr (after_columns, after_rows) =>
              if bool_decide (before_columns = after_columns) then inr (compare_rows table before_columns before_rows after_rows)
              else inr [ColumnsChanged table before_columns after_columns]
          end
      end
  end.

(** The results of a function on a list, or the first exception. *)
Fixpoint collect {A B} (f : A → exn + list B) (l : list A) : exn + list B :=
  match l with
  | [] => inr []
  | x :: l' => match f x with inl e => inl e | inr ys => match collect f l' with inl e => inl e | inr zs => inr (ys ++ zs) end end
  end.

Definition compare_snapshots (before after : Snapshot) : exn + list difference :=
  collect (compare_table before after) (sorted (dom before ∪ dom after)).

(** * empty_seed_tables *)

Definition REQUIRED_SEED_TABLES : list string := ["public.nodes"; "public.workers"; "public.jobs"; "public.leases"].

Inductive seed_problem := NotInSnapshot (table : string) | NoRows (table : string).

Definition empty_seed_tables (snapshot : Snapshot) : exn + list seed_problem :=
  collect (λ table,
    match snapshot !! table with
    | None => inr [NotInSnapshot table]
    | Some text => match _read table text with inl e => inl e | inr (_, rows) => inr (if bool_decide (rows = ∅) then [NoRows table] else []) end
    end) REQUIRED_SEED_TABLES.

(** * Migrations *)

Definition MIGRATION_COLUMNS : list string := ["version"; "name"; "checksum"].

Definition read_migrations (text : string) : exn + export_rows :=
  match _read "schema_migrations" text with
  | inl e => inl e
  | inr (columns, rows) => if bool_decide (columns = MIGRATION_COLUMNS) then inr rows else inl (ValueError "schema_migrations: unexpected columns")
  end.

(** [sorted(versions, key=int)]: the versions are numbers. *)
Definition version_le (a b : string) : Prop := int_of 0 a <= int_of 0 b.
#[global] Instance version_le_dec a b : Decision (version_le a b).
Proof. unfold version_le. apply _. Defined.
Definition sorted_versions (s : gset string) : list string := merge_sort version_le (elements s).

Definition added_migrations (before after : export_rows) : list (string * string) :=
  (λ v, (v, default EmptyString (r ← after !! v; r !! "name"%string))) <$> sorted_versions (dom after ∖ dom before).

Inductive migration_problem := MigrationLost (version : string) | MigrationChanged (version column old new : string) | NothingApplied.

Definition compare_migrations (before after : export_rows) : list migration_problem :=
  concat ((λ v,
    match after !! v with
    | None => [MigrationLost v]
    | Some new =>
        omap (λ c, let o := default EmptyString (r ← before !! v; r !! c) in
                   let n := default EmptyString (new !! c) in
                   if bool_decide (o = n) then None else Some (MigrationChanged v c o n)) ["name"; "checksum"]%string
    end) <$> sorted_versions (dom before)) ++
  (if bool_decide (added_migrations before after = []) then [NothingApplied] else []).

(** * Schemas *)

Definition is_linebreak (c : chr) : bool := between 10 13 c || between 28 30 c || (code c =? 133)%N.

(** [text.splitlines()] *)
Fixpoint splitlines_from (acc : list chr) (l : list chr) : list string :=
  match l with
  | [] => if bool_decide (acc = []) then [] else [of_chars (rev acc)]
  | c :: l' =>
      if is_linebreak c then
        of_chars (rev acc) ::
          (if bool_decide (c = CR) then match l' with d :: l'' => if bool_decide (d = LF) then splitlines_from [] l'' else splitlines_from [] l' | [] => [] end
           else splitlines_from [] l')
      else splitlines_from (c :: acc) l'
  end.
Definition splitlines (s : string) : list string := splitlines_from [] (String.list_ascii_of_string s).

Definition startswith (p s : string) : bool := match after_prefix p s with Some _ => true | None => false end.

Definition schema_lines (dump : string) : list string :=
  filter (λ l, startswith "\restrict " l = false ∧ startswith "\unrestrict " l = false) (splitlines dump).

Inductive schema_problem := NoCreateTable (name : string) | OnlyInUpgraded (line : string) | OnlyInFresh (line : string).

Definition has_table (lines : list string) : bool := existsb (startswith "CREATE TABLE ") lines.

Definition compare_schemas (upgraded fresh : string) : list schema_problem :=
  let upgraded_lines := schema_lines upgraded in
  let fresh_lines := schema_lines fresh in
  (if has_table upgraded_lines then [] else [NoCreateTable "upgraded"]) ++ (if has_table fresh_lines then [] else [NoCreateTable "fresh"]) ++
  concat ((λ g, (OnlyInUpgraded <$> g.1) ++ (OnlyInFresh <$> g.2)) <$> differences upgraded_lines fresh_lines).

(** * What the commands print *)

(** [s.split()] *)
Fixpoint words_from (acc : list chr) (l : list chr) : list string :=
  match l with
  | [] => if bool_decide (acc = []) then [] else [of_chars (rev acc)]
  | c :: l' =>
      if is_space c then (if bool_decide (acc = []) then words_from [] l' else of_chars (rev acc) :: words_from [] l')
      else words_from (c :: acc) l'
  end.
Definition words (s : string) : list string := words_from [] (String.list_ascii_of_string s).

(** [re.compile(r":(\d+)$").search(output.strip())]: what follows the last colon *)
Definition parse_published_port (output : string) : exn + Z :=
  match rpartition ":" (strip output) with
  | (_, true, digits) => if is_decimal digits then inr (int_of 0 digits) else inl (ValueError "no published port")
  | _ => inl (ValueError "no published port")
  end.

Definition KEY_MARKER : string := "REHEARSAL_API_KEY=".

Definition parse_issued_key (output : string) : exn + string :=
  match omap (after_prefix KEY_MARKER) (splitlines output) with
  | [] => inl (ValueError "no issued key in the output")
  | [key] =>
      if negb (bool_decide (key = strip key)) || negb (length (words key) =? 1)%nat
      then inl (ValueError "the issued key is empty or contains whitespace") else inr key
  | _ => inl (ValueError "more than one issued key in the output")
  end.

Definition parse_assignment_state (output : string) : exn + bool :=
  match partition "|" (strip output) with
  | (a, true, b) =>
      if is_decimal a && is_decimal b then inr ((0 <? int_of 0 a) && (0 <? int_of 0 b))
      else inl (ValueError "unexpected assignment state from the database")
  | _ => inl (ValueError "unexpected assignment state from the database")
  end.

Definition require_clean_exit (state : string) : exn + unit :=
  match words state with
  | [status; code] =>
      if negb (is_decimal code) then inl (ValueError "unexpected container state from docker")
      else if negb (bool_decide (status = "exited"%string)) then inl (RuntimeError "the API did not stop")
      else if int_of 0 code =? 137 then inl (RuntimeError "the API was killed (exit code 137), not stopped")
      else if negb (int_of 0 code =? 0) then inl (RuntimeError "the API exited with a code")
      else inr tt
  | _ => inl (ValueError "unexpected container state from docker")
  end.

(** * wait_until *)

(** [check i] is the [i]-th call, [clock i] the [i]-th reading; the reading before the
    loop is [clock 0].  [None]: the rounds were not enough. *)
Section wait.
Context (check : nat → exn + bool) (clock : nat → float) (timeout interval : float).

Inductive waited := Ready (checks : nat) (sleeps : list float) | TimedOut (checks : nat) (sleeps : list float) | Broke (e : exn).

Fixpoint wait_loop (fuel : nat) (deadline : float) (i : nat) (sleeps : list float) : option waited :=
  match fuel with
  | O => None
  | S fuel =>
      match check i with
      | inl e => Some (Broke e)
      | inr true => Some (Ready (S i) sleeps)
      | inr false =>
          let remaining := fsub deadline (clock (S i)) in
          if fle remaining fzero then Some (TimedOut (S i) sleeps)
          else wait_loop fuel deadline (S i) (sleeps ++ [fmin interval remaining])
      end
  end.

Definition wait_until (fuel : nat) : option waited := wait_loop fuel (fadd (clock 0) timeout) 0 [].

(** Once the clock has passed the deadline the loop has ended; it timed out only after
    a check that failed at or past the deadline, and answers as soon as a check does. *)
Lemma wait_loop_spec deadline n i fuel sleeps : (n < fuel)%nat → fle (fsub deadline (clock (S (i + n)))) fzero = true →
  ∃ k, (k ≤ n)%nat ∧ (∀ j, (j < k)%nat → check (i + j) = inr false ∧ fle (fsub deadline (clock (S (i + j)))) fzero = false) ∧
    ∃ s, wait_loop fuel deadline i sleeps =
      Some match check (i + k) with
           | inl e => Broke e
           | inr true => Ready (S (i + k)) s
           | inr false => TimedOut (S (i + k)) s
           end ∧ (check (i + k) = inr false → fle (fsub deadline (clock (S (i + k)))) fzero = true).
Proof.
  revert i fuel sleeps. induction n as [|n IH]; intros i [|fuel] sleeps Hf Hlate; try lia.
  - exists 0%nat. split_and!; [done|intros; lia|]. exists sleeps. rewrite Nat.add_0_r in *. cbn [wait_loop].
    destruct (check i) as [e|[]]; [done|done|]. by rewrite Hlate.
  - cbn [wait_loop]. destruct (check i) as [e|[]] eqn:Hc.
    + exists 0%nat. split_and!; [lia|intros; lia|]. exists sleeps. rewrite Nat.add_0_r, Hc. done.
    + exists 0%nat. split_and!; [lia|intros; lia|]. exists sleeps. rewrite Nat.add_0_r, Hc. done.
    + destruct (fle (fsub deadline (clock (S i))) fzero) eqn:Hl.
      * exists 0%nat. split_and!; [lia|intros; lia|]. exists sleeps. rewrite Nat.add_0_r, Hc. done.
      * destruct (IH (S i) fuel (sleeps ++ [fmin interval (fsub deadline (clock (S i)))])) as (k & Hk & Hbefore & s & Hs); [lia|by rewrite <- Nat.add_succ_comm in Hlate|].
        exists (S k). split; [lia|]. split.
        -- intros [|j] Hj; [by rewrite Nat.add_0_r|]. specialize (Hbefore j ltac:(lia)). by rewrite <- Nat.add_succ_comm.
        -- exists s. by rewrite <- Nat.add_succ_comm.
Qed.
End wait.

(** * Commands *)

Record CompletedProcess := mkCompleted { returncode : Z; stdout : string; stderr : string }.

(** What ends a run early: an exception of the script; a command that failed; an
    OSError or a timeout; [SystemExit] with a message.  [Unfinished] is no outcome: the
    rounds of a wait were not enough. *)
Inductive failure := Raises (e : exn) | CalledProcessError | StepFailure | SystemExit (message : list string) | Unfinished.

Inductive json := JObject (members : list (string * json)) | JString (s : string) | JInt (z : Z) | JOther.

(** The world of the script: what the [n]-th command prints, or that it cannot run;
    what the API answers to a request with a base, a key, a path and the payload of a
    POST: the status and the decoded body, [None] if it is not JSON, or the exception of
    the exchange; the clock; what is left on disk. *)
Class Machine := {
  execute : nat → list string → option CompletedProcess;
  http : nat → string → string → string → option json → failure + (Z * option json);
  monotonic_at : nat → nat → float;
  rounds : nat → nat;                                     (* enough for the wait at command [n] *)
  directory_left : nat → bool;
}.

Section run.
Context `{Machine} (bracketed_ok : string → bool).

(** The commands run so far. *)
Abbreviation runM := (stM (list (list string)) failure).

Definition of_exn {A} (r : exn + A) : runM A := match r with inl e => raise (Raises e) | inr a => mret a end.

Definition _run (check : bool) (command : list string) : runM CompletedProcess := λ log,
  match execute (length log) command with
  | None => (log ++ [command], inl StepFailure)
  | Some r => (log ++ [command], if check && negb (returncode r =? 0) then inl CalledProcessError else inr r)
  end.

Record Environment := mkEnvironment { e_root : string; e_project : string; e_override : string; e_tag_prefix : string }.

Definition directory (e : Environment) (side : string) : string := e_root e +:+ "/" +:+ side.

Definition compose (e : Environment) (check : bool) (side : string) (args : list string) : runM CompletedProcess :=
  _run check (["docker"; "compose"; "-p"; e_project e; "--project-directory"; directory e side; "-f"; directory e side +:+ "/docker-compose.yml";
               "-f"; e_override e]%string ++ args).

(** A command whose failure is reported as a RuntimeError. *)
Definition or_fail (what : string) (r : CompletedProcess) : runM CompletedProcess :=
  if returncode r =? 0 then mret r else raise (Raises (RuntimeError what)).

Section steps.
(** [compose] of one side, with [check=False] for the old one. *)
Context (compose_old compose_new compose_new_api : list string → runM CompletedProcess).

Definition _psql (sql what : string) : runM string :=
  r ← compose_old ["exec"; "-T"; "postgres"; "psql"; "-U"; "neuromesh"; "-d"; "neuromesh"; "-At"; "-c"; sql]%string;
  r ← or_fail what r;
  mret (stdout r).

Definition copy_sql (table : string) : string :=
  "COPY " +:+ table +:+ " TO STDOUT WITH (FORMAT csv, HEADER, NULL '" +:+ NULL_MARKER +:+ "')".
Definition TABLES_SQL : string :=
  "SELECT format('%I.%I', schemaname, tablename) FROM pg_tables WHERE schemaname NOT IN ('pg_catalog', 'information_schema') AND tablename <> 'schema_migrations' ORDER BY 1".
Definition MIGRATIONS_SQL : string :=
  "COPY (SELECT version, name, checksum FROM schema_migrations ORDER BY version) TO STDOUT WITH (FORMAT csv, HEADER, NULL '" +:+ NULL_MARKER +:+ "')".
Definition ASSIGNMENT_SQL : string :=
  "SELECT (SELECT count(*) FROM leases), (SELECT count(*) FROM workers WHERE running_job_id IS NOT NULL)".

(** [text.split(NEWLINE)] without the empty pieces *)
Fixpoint lines_of (acc : list chr) (l : list chr) : list string :=
  match l with
  | [] => if bool_decide (acc = []) then [] else [of_chars (rev acc)]
  | c :: l' => if bool_decide (c = LF) then (if bool_decide (acc = []) then lines_of [] l' else of_chars (rev acc) :: lines_of [] l') else lines_of (c :: acc) l'
  end.

Fixpoint export_all (tables : list string) (s : Snapshot) : runM Snapshot :=
  match tables with
  | [] => mret s
  | t :: rest => text ← _psql (copy_sql t) "exporting"; export_all rest (<[t := text]> s)
  end.
Definition snapshot : runM Snapshot :=
  tables ← _psql TABLES_SQL "listing the tables";
  export_all (lines_of [] (String.list_ascii_of_string tables)) ∅.

Definition applied_migrations : runM export_rows := text ← _psql MIGRATIONS_SQL "reading schema_migrations"; of_exn (read_migrations text).

Definition schema_dump (database : string) : runM string :=
  r ← compose_old ["exec"; "-T"; "postgres"; "pg_dump"; "-U"; "neuromesh"; "-d"; database; "--schema-only"; "--no-owner"]%string;
  r ← or_fail "dumping the schema" r;
  mret (stdout r).

Definition UPGRADED_DATABASE : string := "neuromesh".
Definition FRESH_DATABASE : string := "schema_fresh".
Definition FRESH_URL : string := "postgresql://neuromesh@postgres:5432/" +:+ FRESH_DATABASE.

Definition fresh_schema : runM string :=
  _psql ("CREATE DATABASE " +:+ FRESH_DATABASE) "creating the fresh database" ;;
  compose_new ["run"; "--rm"; "--no-deps"; "-e"; "NEUROMESH_DATABASE_URL=" +:+ FRESH_URL; "migrate"]%string ;;
  schema_dump FRESH_DATABASE.

(** [at_rest]: the check is a query, and its error ends the wait; a TimeoutError is an
    OSError. *)
Fixpoint settle (fuel : nat) (start : nat) (deadline : float) (i : nat) : runM unit :=
  match fuel with
  | O => raise Unfinished
  | S fuel =>
      text ← _psql ASSIGNMENT_SQL "the assignment query";
      ready ← of_exn (parse_assignment_state text);
      if ready : bool then mret tt
      else if fle (fsub deadline (monotonic_at start (S i))) fzero then raise StepFailure
      else settle fuel start deadline (S i)
  end.
Definition AT_REST_TIMEOUT : float := exact_of_Z 25.
Definition at_rest : runM unit := λ log,
  settle (rounds (length log)) (length log) (fadd (monotonic_at (length log) 0) AT_REST_TIMEOUT) 0 log.

Definition docker_inspect (container_id : string) : runM string :=
  r ← _run true ["docker"; "inspect"; "--format"; "{{.State.Status}} {{.State.ExitCode}}"; container_id]%string;
  mret (stdout r).

Definition stop_api (compose : list string → runM CompletedProcess) : runM unit :=
  stopped ← compose ["stop"; "neuromesh"]%string;
  or_fail "stopping the API failed" stopped ;;
  listed ← compose ["ps"; "-aq"; "neuromesh"]%string;
  match returncode listed =? 0, words (stdout listed) with
  | true, [id] => state ← docker_inspect id; of_exn (require_clean_exit state)
  | _, _ => raise (Raises (RuntimeError "expected exactly one API container to inspect"))
  end.

Definition start_new_api : runM Z :=
  removed ← compose_new_api ["rm"; "-f"; "neuromesh"]%string;
  or_fail "removing the stopped API container failed" removed ;;
  started ← compose_new_api ["up"; "-d"; "--no-deps"; "--no-build"; "--wait"; "--wait-timeout"; "90"; "neuromesh"]%string;
  or_fail "starting the new API failed" started ;;
  located ← compose_new_api ["port"; "neuromesh"; "8000"]%string;
  or_fail "finding the port of the new API failed" located ;;
  of_exn (parse_published_port (stdout located)).

(** The member [id] of an object. *)
Definition id_of (body : option json) : option string :=
  match body with
  | Some (JObject l) => match head ((filter (λ m, m.1 = "id"%string) (reverse l)).*2) with Some (JString s) => Some s | _ => None end
  | _ => None
  end.

(** A request with the key, to where [loopback_base] allows; a payload makes it a POST. *)
Definition http_to (base_url key path : string) (payload : option json) : runM (Z * option json) := λ log,
  match loopback_base bracketed_ok base_url with
  | inl e => (log, inl (Raises e))
  | inr base => (log ++ [["http"%string; base +:+ path]], http (length log) base key path payload)
  end.

Definition http_post (base_url key path : string) (payload : json) : runM (Z * option json) := http_to base_url key path (Some payload).
Definition http_get (base_url key path : string) : runM (Z * option json) := http_to base_url key path None.

Definition local_url (p : Z) : string := "http://127.0.0.1:" +:+ pretty p.

Definition _created_id (response : Z * option json) : runM string :=
  if negb (response.1 =? 201) then raise (Raises (ValueError "POST did not return 201")) else
  match id_of response.2 with
  | Some (String c s) => mret (String c s)
  | _ => raise (Raises (ValueError "POST returned no id"))
  end.

Record SeedIds := mkSeedIds { seed_node : string; seed_worker : string; seed_job : string }.

Definition NODE_PAYLOAD : json :=
  JObject [("cpu_cores", JInt 4); ("memory_mib", JInt 8192); ("vram_mib", JInt 0); ("name", JString "upgrade-rehearsal-node")]%string.
Definition JOB_PAYLOAD : json := JObject [("cpu_cores", JInt 1); ("memory_mib", JInt 512); ("vram_mib", JInt 0)]%string.
Definition WORKER_MANAGED_BY : string := "AGENT".

Definition seed_cluster (p : Z) (key : string) : runM SeedIds :=
  r ← http_post (local_url p) key "/nodes" NODE_PAYLOAD; node ← _created_id r;
  r ← http_post (local_url p) key "/workers" (JObject [("node_id", JString node); ("managed_by", JString WORKER_MANAGED_BY)]%string);
  worker ← _created_id r;
  r ← http_post (local_url p) key "/jobs" JOB_PAYLOAD; job ← _created_id r;
  mret (mkSeedIds node worker job).

Definition served (r : Z * option json) (expected : string) : bool := (r.1 =? 200) && bool_decide (id_of r.2 = Some expected).

Definition read_back (p : Z) (key : string) (ids : SeedIds) : runM unit :=
  n ← http_get (local_url p) key ("/nodes/" +:+ seed_node ids);
  w ← http_get (local_url p) key ("/workers/" +:+ seed_worker ids);
  j ← http_get (local_url p) key ("/jobs/" +:+ seed_job ids);
  if served n (seed_node ids) && served w (seed_worker ids) && served j (seed_job ids) then mret tt
  else raise (Raises (RuntimeError "the new API did not serve the seeded rows")).

Definition issue_key : runM string :=
  r ← compose_old ["run"; "--rm"; "--no-deps"; "-T"; "neuromesh"; "python"; "-c"; "ISSUE_KEY_SNIPPET"]%string;
  r ← or_fail "issuing the key failed" r;
  of_exn (parse_issued_key (stdout r)).

(** [if problems: raise RuntimeError(...)] *)
Definition none_of {A} (problems : list A) (message : string) : runM unit :=
  match problems with [] => mret tt | _ => raise (Raises (RuntimeError message)) end.

(** What a run that passes has seen. *)
Record evidence := mkEvidence {
  ev_before : Snapshot; ev_after : Snapshot;
  ev_migrations_before : export_rows; ev_migrations_after : export_rows;
  ev_upgraded : string; ev_fresh : string;
}.

(** The body of [main], after the old release is up: [checked] is [compose] with
    [check=True]. *)
Definition rehearse (checked : string → list string → runM CompletedProcess) : runM evidence :=
  checked "old" ["up"; "-d"; "--build"; "--wait"; "--wait-timeout"; "180"]%string ;;
  r ← checked "old" ["port"; "neuromesh"; "8000"]%string;
  api_port ← of_exn (parse_published_port (stdout r));
  key ← issue_key;
  ids ← seed_cluster api_port key;
  at_rest ;;
  stop_api compose_old ;;
  before ← snapshot;
  problems ← of_exn (empty_seed_tables before);
  none_of problems "the seed is not usable" ;;
  migrations_before ← applied_migrations;
  checked "new" ["build"; "neuromesh"]%string ;;
  checked "new" ["run"; "--rm"; "--no-deps"; "migrate"]%string ;;
  after ← snapshot;
  migrations_after ← applied_migrations;
  none_of (compare_migrations migrations_before migrations_after) "the migrations are not as expected" ;;
  differences ← of_exn (compare_snapshots before after);
  none_of differences "the upgrade changed the database" ;;
  fresh ← fresh_schema;
  upgraded ← schema_dump UPGRADED_DATABASE;
  none_of (compare_schemas upgraded fresh) "the upgraded schema differs from a fresh one" ;;
  new_api_port ← start_new_api;
  read_back new_api_port key ids ;;
  stop_api compose_new_api ;;
  mret (mkEvidence before after migrations_before migrations_after upgraded fresh).
End steps.

(** * The environment of a run *)

Definition _resolve (ref : string) : runM string :=
  r ← _run false ["git"; "rev-parse"; "--verify"; "--quiet"; ref +:+ "^{commit}"]%string;
  if negb (returncode r =? 0) || bool_decide (strip (stdout r) = EmptyString) then raise (SystemExit ["cannot resolve to a commit"%string])
  else mret (strip (stdout r)).

Definition _export (sha : string) : runM unit :=
  r ← _run false ["git"; "archive"; "--format=tar"; sha]%string;
  if negb (returncode r =? 0) then raise (SystemExit ["git archive failed"%string]) else mret tt.

(** [with contextlib.suppress(_STEP_FAILURES)] *)
Definition suppress {A} (m : runM A) : runM unit := λ log,
  match m log with
  | (log', inl StepFailure) | (log', inl CalledProcessError) => (log', inr tt)
  | (log', inl e) => (log', inl e)
  | (log', inr _) => (log', inr tt)
  end.

Definition image (e : Environment) (side : string) : string := "neuromesh-app:" +:+ e_tag_prefix e +:+ "-" +:+ side.

Definition _teardown (e : Environment) : runM unit :=
  suppress (compose e false "old" ["down"; "-v"; "--remove-orphans"]%string) ;;
  suppress (_run false ["docker"; "image"; "rm"; "-f"; image e "old"]%string) ;;
  suppress (_run false ["docker"; "image"; "rm"; "-f"; image e "new"]%string).

(** One lookup of [_leftovers]: what it finds, or that it could not look. *)
Definition left_by (name : string) (command : list string) : runM (list string) := λ log,
  match _run false command log with
  | (log', inl _) => (log', inr [name +:+ " (could not be listed)"])
  | (log', inr r) =>
      (log', inr (if negb (returncode r =? 0) then [name +:+ " (could not be listed)"]
                  else match words (stdout r) with [] => [] | l => [pretty (length l) +:+ " " +:+ name] end))
  end.

Definition left_on_disk (e : Environment) : runM (list string) :=
  gets (λ log, if directory_left (length log) then ["the directory " +:+ e_root e] else []).

Definition _leftovers (e : Environment) : runM (list string) :=
  let label := "label=com.docker.compose.project=" +:+ e_project e in
  a ← left_by "containers" ["docker"; "ps"; "-aq"; "--filter"; label]%string;
  b ← left_by "volumes" ["docker"; "volume"; "ls"; "-q"; "--filter"; label]%string;
  c ← left_by "images" ["docker"; "image"; "ls"; "-q"; "--filter"; "reference=neuromesh-app:" +:+ e_tag_prefix e +:+ "-*"]%string;
  d ← left_on_disk e;
  mret (a ++ b ++ c ++ d).

(** [_environment]: the body, then in any case the teardown and the search for what it
    left; what is left ends a run that was otherwise fine. *)
Definition torn_down {A} (e : Environment) (body : runM A) : runM A := λ log,
  let '(log2, r) := body log in
  let '(log3, _) := _teardown e log2 in
  match _leftovers e log3 with
  | (log4, inl f) => (log4, inl f)
  | (log4, inr remaining) =>
      match r, remaining with
      | inr a, [] => (log4, inr a)
      | inr _, _ => (log4, inl (SystemExit remaining))
      | inl f, _ => (log4, inl f)
      end
  end.
Definition _environment {A} (e : Environment) (old_ref new_ref : string) (body : runM A) : runM A :=
  old_sha ← _resolve old_ref;
  new_sha ← _resolve new_ref;
  _export old_sha ;; _export new_sha ;; torn_down e body.

Definition main (e : Environment) (old_ref new_ref : string) : runM (Z * evidence) :=
  ev ← _environment e old_ref new_ref
    (rehearse (compose e false "old") (compose e true "new") (compose e false "new") (compose e true));
  mret (0, ev).
End run.

(** * The comparison is exact *)

Lemma elem_of_sorted x s : x ∈ sorted s ↔ x ∈ s.
Proof. unfold sorted. by rewrite merge_sort_Permutation, elem_of_elements. Qed.
Lemma sorted_nil s : sorted s = [] ↔ s = ∅.
Proof.
  split.
  - intros H. apply set_eq. intros x. rewrite <- elem_of_sorted, H. set_solver.
  - intros ->. destruct (sorted ∅) as [|x l] eqn:E; [done|]. assert (x ∈ (∅ : gset string)) by (rewrite <- elem_of_sorted, E; left). set_solver.
Qed.
Lemma elem_of_sorted_versions x s : x ∈ sorted_versions s ↔ x ∈ s.
Proof. unfold sorted_versions. by rewrite merge_sort_Permutation, elem_of_elements. Qed.

Lemma foldl_insert_dom (l : list (string * string)) (m : gmap string string) :
  dom (foldl (λ m kv, <[kv.1 := kv.2]> m) m l) = list_to_set l.*1 ∪ dom m.
Proof. revert m. induction l as [|kv l IH]; intros m; cbn; [set_solver|]. rewrite IH, dom_insert_L. set_solver. Qed.

Lemma dict_of_dom names row : length row = length names → dom (dict_of names row) = list_to_set names.
Proof. intros Hl. unfold dict_of. rewrite foldl_insert_dom, fst_zip by lia. set_solver. Qed.

(** Every row has the columns of the header. *)
Definition rows_have (columns : list string) (rows : export_rows) : Prop := map_Forall (λ _ r, dom r = list_to_set columns) rows.

Lemma read_rows_have table columns l rows rows' : rows_have columns rows → read_rows table columns l rows = inr rows' → rows_have columns rows'.
Proof.
  revert rows. induction l as [|row l IH]; cbn; intros rows Hr; [by intros [= <-]|]. unfold read_row. destruct (negb _) eqn:Hl; [done|].
  destruct (rows !! _); [done|]. apply IH, map_Forall_insert_2; [|done]. apply dict_of_dom. by apply negb_false_iff, Nat.eqb_eq in Hl.
Qed.

Lemma read_have table text columns rows : _read table text = inr (columns, rows) → rows_have columns rows.
Proof.
  unfold _read. destruct (has_substring _ _); [done|]. destruct (dict_reader text) as [[[|c cs] l]|]; try done.
  destruct (read_rows table (c :: cs) l ∅) as [e|rows'] eqn:Hr; [done|]. intros [= <- <-]. eapply read_rows_have; [|exact Hr]. apply map_Forall_empty.
Qed.

Lemma omap_nil {A B} (f : A → option B) l : omap f l = [] ↔ Forall (λ x, f x = None) l.
Proof.
  induction l as [|x l IH]; cbn; [split; [constructor|done]|]. rewrite Forall_cons.
  destruct (f x); [split; [done|by intros [? _]]|]. rewrite IH. split; [done|by intros [_ ?]].
Qed.
Lemma concat_nil {A} (l : list (list A)) : concat l = [] ↔ Forall (λ x, x = []) l.
Proof. induction l as [|x l IH]; cbn; [split; [constructor|done]|]. rewrite Forall_cons, <- IH. destruct x; [split; [done|by intros [_ ?]]|split; [done|by intros [? _]]]. Qed.

Lemma compare_values_nil table i old new columns : dom old = list_to_set columns → dom new = list_to_set columns →
  compare_values table i old new columns = [] ↔ old = new.
Proof.
  intros Ho Hn. unfold compare_values. rewrite omap_nil. split.
  - intros H. apply map_eq. intros c. destruct (decide (c ∈ columns)) as [Hc|Hc].
    + rewrite Forall_forall in H. specialize (H c Hc). cbn in H. destruct (bool_decide _) eqn:E; [|done]. apply bool_decide_eq_true in E.
      assert (is_Some (old !! c)) as [o Eo] by (apply elem_of_dom; set_solver). assert (is_Some (new !! c)) as [n En] by (apply elem_of_dom; set_solver).
      rewrite Eo, En in *. cbn in E. by rewrite E.
    + rewrite !(proj1 (not_elem_of_dom _ _)); [done|set_solver|set_solver].
  - intros ->. apply Forall_forall. intros c _. cbn. by rewrite bool_decide_eq_true_2.
Qed.

Lemma compare_rows_nil table columns before after : rows_have columns before → rows_have columns after →
  compare_rows table columns before after = [] ↔ before = after.
Proof.
  intros Hb Ha. unfold compare_rows. split.
  - intros [H1 [H2 H3]%app_eq_nil]%app_eq_nil. apply fmap_nil_inv, sorted_nil in H1, H2. rewrite concat_nil, Forall_fmap in H3.
    assert (dom before = dom after) as Hdom by (apply (anti_symm (⊆)); by apply empty_difference_subseteq_L). apply map_eq. intros i.
    destruct (decide (i ∈ dom before)) as [Hi|Hi].
    + assert (i ∈ dom after) as Hi' by (by rewrite <- Hdom). rewrite Forall_forall in H3. specialize (H3 i). cbn in H3.
      rewrite elem_of_sorted in H3. specialize (H3 ltac:(set_solver)). apply elem_of_dom in Hi as [x Hx], Hi' as [y Hy]. rewrite Hx, Hy in *. cbn in H3.
      apply compare_values_nil in H3; [by subst|by apply (Hb i)|by apply (Ha i)].
    + rewrite !(proj1 (not_elem_of_dom _ _)); [done|by rewrite <- Hdom|done].
  - intros ->. rewrite difference_diag_L, intersection_idemp_L. rewrite (proj2 (sorted_nil ∅)) by done. cbn. apply concat_nil, Forall_fmap, Forall_forall.
    intros i Hi. rewrite elem_of_sorted in Hi. apply elem_of_dom in Hi as [x Hx]. cbn. rewrite Hx. cbn.
    apply compare_values_nil; [by apply (Ha i)|by apply (Ha i)|done].
Qed.

Lemma collect_nil {A B} (f : A → exn + list B) l : collect f l = inr [] ↔ Forall (λ x, f x = inr []) l.
Proof.
  induction l as [|x l IH]; cbn; [split; [constructor|done]|]. rewrite Forall_cons, <- IH. destruct (f x) as [e|ys]; [split; [done|by intros [? _]]|].
  destruct (collect f l) as [e|zs]; [split; [done|by intros [_ ?]]|]. split.
  - intros [= [-> ->]%app_eq_nil]. done.
  - by intros [[= ->] [= ->]].
Qed.

(** The comparison reports no difference exactly when there is none: both exports
    have the same tables, every export can be read, and each table has the same
    columns and the same rows, value by value, before and after. *)
Lemma compare_snapshots_exact before after :
  compare_snapshots before after = inr [] ↔
  dom before = dom after ∧
  ∀ table x y, before !! table = Some x → after !! table = Some y → ∃ content, _read table x = inr content ∧ _read table y = inr content.
Proof.
  unfold compare_snapshots. rewrite collect_nil, Forall_forall. split.
  - intros H. assert (dom before = dom after) as Hdom.
    { apply set_eq. intros t. split; intros Ht; specialize (H t); rewrite elem_of_sorted in H; specialize (H ltac:(set_solver));
        unfold compare_table in H; apply elem_of_dom in Ht as [x Hx]; rewrite Hx in H; apply elem_of_dom.
      - destruct (after !! t) as [y|]; [by exists y|done].
      - destruct (before !! t) as [y|]; [by exists y|done]. }
    split; [done|]. intros t x y Hx Hy. specialize (H t). rewrite elem_of_sorted in H. assert (t ∈ dom before ∪ dom after) as Ht.
    { apply elem_of_union_l, elem_of_dom. by exists x. }
    specialize (H Ht). unfold compare_table in H. rewrite Hx, Hy in H. destruct (_read t x) as [e|[cb rb]] eqn:Eb; [done|].
    destruct (_read t y) as [e|[ca ra]] eqn:Ea; [done|]. case_bool_decide as Hc; [|done]. subst ca. injection H as H.
    apply compare_rows_nil in H; [subst; by exists (cb, ra)|by eapply read_have|by eapply read_have].
  - intros [Hdom Hall] t Ht. rewrite elem_of_sorted in Ht. assert (t ∈ dom before) as Htb by (rewrite <- Hdom in Ht; set_solver).
    assert (t ∈ dom after) as Hta by (by rewrite <- Hdom). apply elem_of_dom in Htb as [x Hx], Hta as [y Hy].
    destruct (Hall t x y Hx Hy) as ([cols rows] & Ex & Ey). unfold compare_table. rewrite Hx, Hy, Ex, Ey. rewrite bool_decide_eq_true_2 by done. f_equal.
    apply compare_rows_nil; [by eapply read_have|by eapply read_have|done].
Qed.

(** The seed is usable exactly when each required table is there and has a row. *)
Lemma empty_seed_tables_exact s : empty_seed_tables s = inr [] ↔
  ∀ t, t ∈ REQUIRED_SEED_TABLES → ∃ text columns rows, s !! t = Some text ∧ _read t text = inr (columns, rows) ∧ rows ≠ ∅.
Proof.
  unfold empty_seed_tables. rewrite collect_nil, Forall_forall. split; intros H t Ht; specialize (H t Ht).
  - destruct (s !! t) as [text|]; [|done]. destruct (_read t text) as [e|[columns rows]] eqn:E; [done|]. case_bool_decide; [done|]. by exists text, columns, rows.
  - destruct H as (text & columns & rows & -> & -> & Hr). by rewrite bool_decide_eq_false_2.
Qed.

(** The migrations are as expected exactly when those recorded before are recorded
    after, with the same names and checksums, and at least one was added. *)
Lemma compare_migrations_exact before after : compare_migrations before after = [] ↔
  (∀ v, v ∈ dom before → ∃ r, after !! v = Some r ∧ ∀ c, c ∈ ["name"; "checksum"]%string →
     default EmptyString (x ← before !! v; x !! c) = default EmptyString (r !! c)) ∧
  ∃ v, v ∈ dom after ∖ dom before.
Proof.
  unfold compare_migrations. assert (∀ (l1 l2 : list migration_problem), l1 ++ l2 = [] ↔ l1 = [] ∧ l2 = []) as Happ.
  { intros l1 l2. split; [apply app_eq_nil|by intros [-> ->]]. }
  rewrite Happ, concat_nil, Forall_fmap, Forall_forall. f_equiv.
  - split; intros H v Hv.
    + specialize (H v (proj2 (elem_of_sorted_versions v _) Hv)). unfold Basics.compose in H. destruct (after !! v) as [r|]; [|done]. exists r. split; [done|]. rewrite omap_nil, Forall_forall in H. intros c Hc. specialize (H c Hc). cbn in H.
      by case_bool_decide.
    + apply elem_of_sorted_versions in Hv. destruct (H v Hv) as (r & Er & Hr). unfold Basics.compose. rewrite Er. apply omap_nil, Forall_forall. intros c Hc. cbn. by rewrite (bool_decide_eq_true_2 _ (Hr c Hc)).
  - unfold added_migrations. case_bool_decide as Hn; split; try done.
    + intros (v & Hv). apply elem_of_sorted_versions in Hv. apply fmap_nil_inv in Hn. rewrite Hn in Hv. by apply elem_of_nil in Hv.
    + intros _. destruct (sorted_versions (dom after ∖ dom before)) as [|v l] eqn:E; [done|]. exists v. apply elem_of_sorted_versions. rewrite E. left.
Qed.

(** The schemas match exactly when their lines do, and each creates a table. *)
Lemma compare_schemas_exact upgraded fresh : compare_schemas upgraded fresh = [] ↔
  schema_lines upgraded = schema_lines fresh ∧ has_table (schema_lines upgraded) = true.
Proof.
  unfold compare_schemas. rewrite <- (differences_nil (schema_lines upgraded) (schema_lines fresh)). split.
  - intros [H1 [H2 H3]%app_eq_nil]%app_eq_nil. destruct (has_table (schema_lines upgraded)); [|done]. split; [|done].
    rewrite concat_nil, Forall_fmap in H3. assert (∀ g, g ∈ differences (schema_lines upgraded) (schema_lines fresh) → g ≠ ([], [])) as Hg by apply differences_nonempty.
    destruct (differences _ _) as [|g l]; [done|]. apply Forall_cons in H3 as [Hd _]. cbn in Hd. apply app_eq_nil in Hd as [Ha Hb].
    apply fmap_nil_inv in Ha, Hb. destruct (Hg g); [left|]. destruct g. cbn in *. by subst.
  - intros [Hd Ht]. pose proof (proj1 (differences_nil _ _) Hd) as E. cbn zeta. rewrite Hd, <- E, Ht. done.
Qed.

(** * A run that passes *)

Section verdict.
Context `{Machine} (bracketed_ok : string → bool).
Abbreviation runM := (stM (list (list string)) failure).
Implicit Types log : list (list string).

Definition passes (ev : evidence) : Prop :=
  compare_snapshots (ev_before ev) (ev_after ev) = inr [] ∧ empty_seed_tables (ev_before ev) = inr [] ∧
  compare_migrations (ev_migrations_before ev) (ev_migrations_after ev) = [] ∧ compare_schemas (ev_upgraded ev) (ev_fresh ev) = [].

Lemma wp_any {A} (m : runM A) (Q : A → list (list string) → Prop) log : (∀ a log', Q a log') → wp m Q (λ _ _, True) log.
Proof. intros HQ. unfold wp. destruct (m log) as [log' [f|a]]; auto. Qed.

Lemma wp_of_exn {A} (r : exn + A) (Q : A → list (list string) → Prop) log : (∀ a, r = inr a → Q a log) → wp (of_exn r) Q (λ _ _, True) log.
Proof. destruct r; cbn; [done|]. intros HQ. by apply HQ. Qed.

Lemma wp_none_of {A} (l : list A) message (Q : unit → list (list string) → Prop) log : (l = [] → Q tt log) → wp (none_of l message) Q (λ _ _, True) log.
Proof. destruct l; cbn; auto. Qed.

Lemma rehearse_passes compose_old compose_new compose_new_api checked log :
  wp (rehearse bracketed_ok compose_old compose_new compose_new_api checked) (λ ev _, passes ev) (λ _ _, True) log.
Proof.
  unfold rehearse. do 7 (apply wp_bind; apply wp_any; intros ? ?). apply wp_bind, wp_any. intros before ?.
  apply wp_bind, wp_of_exn. intros problems Hseed. apply wp_bind, wp_none_of. intros ->.
  apply wp_bind, wp_any. intros mb ?. do 2 (apply wp_bind; apply wp_any; intros ? ?). apply wp_bind, wp_any. intros after ?. apply wp_bind, wp_any. intros ma ?.
  apply wp_bind, wp_none_of. intros Hm. apply wp_bind, wp_of_exn. intros ds Hd. apply wp_bind, wp_none_of. intros ->.
  do 2 (apply wp_bind; apply wp_any; intros ? ?). apply wp_bind, wp_none_of. intros Hs.
  do 3 (apply wp_bind; apply wp_any; intros ? ?). apply wp_ret. done.
Qed.

(** The commands of the teardown, and of the search for what is left. *)
Definition cleanup_commands (e : Environment) : list (list string) :=
  (["docker"; "compose"; "-p"; e_project e; "--project-directory"; directory e "old"; "-f"; directory e "old" +:+ "/docker-compose.yml";
    "-f"; e_override e; "down"; "-v"; "--remove-orphans"]
   :: ["docker"; "image"; "rm"; "-f"; image e "old"] :: ["docker"; "image"; "rm"; "-f"; image e "new"]
   :: ["docker"; "ps"; "-aq"; "--filter"; "label=com.docker.compose.project=" +:+ e_project e]
   :: ["docker"; "volume"; "ls"; "-q"; "--filter"; "label=com.docker.compose.project=" +:+ e_project e]
   :: ["docker"; "image"; "ls"; "-q"; "--filter"; "reference=neuromesh-app:" +:+ e_tag_prefix e +:+ "-*"] :: [])%string.

Lemma suppressed_run command log : suppress (_run false command) log = (log ++ [command], inr tt).
Proof. unfold suppress, _run. by destruct (execute (length log) command). Qed.

Lemma left_by_run name command log : ∃ l, left_by name command log = (log ++ [command], inr l).
Proof. unfold left_by, _run. destruct (execute (length log) command); eauto. Qed.

Lemma leftovers_log e log : ∃ l, _leftovers e log = (log ++ drop 3 (cleanup_commands e), inr l).
Proof.
  unfold _leftovers, mbind, stM_bind.
  match goal with |- context [left_by "containers" ?c ?l] => destruct (left_by_run "containers" c l) as [a ->] end.
  match goal with |- context [left_by "volumes" ?c ?l] => destruct (left_by_run "volumes" c l) as [b ->] end.
  match goal with |- context [left_by "images" ?c ?l] => destruct (left_by_run "images" c l) as [d ->] end.
  unfold left_on_disk, gets, mret, stM_ret. rewrite <- !app_assoc. eexists. reflexivity.
Qed.

Lemma teardown_log e log : _teardown e log = (log ++ take 3 (cleanup_commands e), inr tt).
Proof.
  unfold _teardown, compose. unfold mbind, stM_bind at 1. rewrite suppressed_run. unfold stM_bind at 1. rewrite !suppressed_run. by rewrite <- !app_assoc.
Qed.

(** Whatever the body did, the cleanup runs to its end. *)
Lemma torn_down_log {A} e (body : runM A) log : ∃ remaining,
  torn_down e body log =
    ((body log).1 ++ cleanup_commands e,
     match (body log).2, remaining with inr a, [] => inr a | inr _, _ => inl (SystemExit remaining) | inl f, _ => inl f end).
Proof.
  unfold torn_down. destruct (body log) as [log2 r]. cbn [fst snd]. rewrite teardown_log.
  destruct (leftovers_log e (log2 ++ take 3 (cleanup_commands e))) as [l ->]. exists l. rewrite <- app_assoc, take_drop. destruct r as [f|x]; [done|]. by destruct l.
Qed.

Lemma resolve_log ref log : ∃ c r, _resolve ref log = (log ++ [c], r).
Proof.
  unfold _resolve, _run, mbind, stM_bind. destruct (execute _ _) as [p|]; [|eauto]. cbn [andb]. destruct (_ || _); unfold raise, mret, stM_ret; eauto.
Qed.
Lemma export_log sha log : ∃ c r, _export sha log = (log ++ [c], r).
Proof. unfold _export, _run, mbind, stM_bind. destruct (execute _ _) as [p|]; [|eauto]. cbn [andb]. destruct (negb _); unfold raise, mret, stM_ret; eauto. Qed.

(** The environment: at most four commands, then the body and the cleanup. *)
Lemma environment_log {A} e old_ref new_ref (body : runM A) log :
  let '(log', r) := _environment e old_ref new_ref body log in
  (∃ made, log' = (body made).1 ++ cleanup_commands e ∧ ∀ a, r = inr a → (body made).2 = inr a) ∨ (∃ f, r = inl f ∧ length log' ≤ length log + 4)%nat.
Proof.
  unfold _environment, mbind, stM_bind. destruct (resolve_log old_ref log) as (c1 & r1 & ->).
  destruct r1 as [f|s1]; [right; exists f; rewrite length_app; cbn; split; [done|lia]|].
  destruct (resolve_log new_ref (log ++ [c1])) as (c2 & r2 & ->). destruct r2 as [f|s2]; [right; exists f; rewrite !length_app; cbn; split; [done|lia]|].
  destruct (export_log s1 ((log ++ [c1]) ++ [c2])) as (c3 & r3 & ->). destruct r3 as [f|[]]; [right; exists f; rewrite !length_app; cbn; split; [done|lia]|].
  destruct (export_log s2 (((log ++ [c1]) ++ [c2]) ++ [c3])) as (c4 & r4 & ->). destruct r4 as [f|[]]; [right; exists f; rewrite !length_app; cbn; split; [done|lia]|].
  set (made := _ ++ [c4]). destruct (torn_down_log e body made) as [l ->]. left. exists made. split; [done|]. intros a.
  destruct ((body made).2) as [f|x]; [done|]. destruct l; [|done]. by intros [= ->].
Qed.

End verdict.

(** A machine on which a rehearsal passes: version 2 is recorded once the migrate
    service of the new release has run. *)
Definition nl : string := of_chars [LF].
Definition sample_output (n : nat) (command : list string) : string :=
  let l := default EmptyString (last command) in
  if bool_decide (l = "8000"%string) then "127.0.0.1:49153"
  else if bool_decide (l = "ISSUE_KEY_SNIPPET"%string) then KEY_MARKER +:+ "k3y" +:+ nl
  else if bool_decide (l = TABLES_SQL) then "public.jobs" +:+ nl +:+ "public.leases" +:+ nl +:+ "public.nodes" +:+ nl +:+ "public.workers" +:+ nl
  else if bool_decide (l = MIGRATIONS_SQL) then
    "version,name,checksum" +:+ nl +:+ "1,0001_init.sql,aa" +:+ nl +:+ (if bool_decide (n < 22)%nat then EmptyString else "2,0002_next.sql,bb" +:+ nl)
  else if bool_decide (l = ASSIGNMENT_SQL) then "1|1"
  else if startswith "COPY public" l then "id,state" +:+ nl +:+ "7,busy" +:+ nl
  else if bool_decide (l = "--no-owner"%string) then "CREATE TABLE jobs (" +:+ nl +:+ ");" +:+ nl
  else if bool_decide (head command = Some "git"%string) then "c0ffee"
  else if bool_decide (l = "neuromesh"%string ∧ command !! 10%nat = Some "ps"%string) then "c1"
  else if bool_decide (command !! 1%nat = Some "inspect"%string) then "exited 0"
  else EmptyString.

Definition sample_machine : Machine := {|
  execute n command := Some (mkCompleted 0 (sample_output n command) EmptyString);
  http _ _ _ path _ :=
    inr (if existsb (λ p, bool_decide (path = p)) ["/nodes"; "/workers"; "/jobs"]%string then 201 else 200, Some (JObject [("id"%string, JString "7")]));
  monotonic_at _ _ := fzero;
  rounds _ := 1%nat;
  directory_left _ := false;
|}.
Definition sample_environment : Environment := mkEnvironment "/tmp/r" "upgrade-rehearsal-1" "/tmp/r/override.yml" "rehearsal-1".

Definition sample_code : option Z :=
  match (@main sample_machine (λ _, true) sample_environment "v1" "HEAD" []).2 with inr (c, _) => Some c | inl _ => None end.
Example sample_rehearsal_passes : sample_code = Some 0.
Proof. vm_compute. reflexivity. Qed.
