(* ===== verification/Signals.v ===== *)
(** The upgrade rehearsal under SIGTERM and SIGHUP (src/scripts/upgrade_rehearsal.py,
    [_terminate_as_exit], [rehearsal_environment] and the [finally] of [_environment]).

    A run is its steps: commands, the removal of its directory, the report of what is
    left.  Signals may arrive before any step; the interpreter calls the handler
    then. *)
From S2P Require Import Prelude Rehearsal.
Local Open Scope Z_scope.

Inductive signum := SIGTERM | SIGHUP.
Definition number (s : signum) : Z := match s with SIGTERM => 15 | SIGHUP => 1 end.

Inductive step := Run (command : list string) | Rmtree | Report.

(** What was done, whether the handler has fired, how many steps were begun. *)
Record process := mkProcess { p_done : list step; p_fired : bool; p_clock : nat }.

(** Exceptions are exit codes: 128 plus the signal from the handler. *)
Abbreviation runM := (stM process Z).

Section signals.
Context (arrives : nat → list signum).

(** [handler]: the first signal raises, later ones are ignored. *)
Definition handler : list signum → runM unit := λ signals p,
  match signals, p_fired p with
  | s :: _, false => (mkProcess (p_done p) true (p_clock p), inl (128 + number s))
  | _, _ => (p, inr tt)
  end.

Definition do_step (x : step) : runM unit :=
  n ← gets p_clock;
  modify (λ p, mkProcess (p_done p) (p_fired p) (S (p_clock p))) ;;
  handler (arrives n) ;;
  modify (λ p, mkProcess (p_done p ++ [x]) (p_fired p) (p_clock p)).

Fixpoint steps (l : list step) : runM unit := match l with [] => mret tt | x :: l' => do_step x ;; steps l' end.

(** [try: ... finally: m] after the body ended with [r] *)
Definition finally (r : Z + unit) (m : runM unit) : runM unit := λ p,
  match m p with (p', inl c) => (p', inl c) | (p', inr _) => (p', r) end.

(** The cleanup: [_teardown], [shutil.rmtree], [_leftovers] and the message. *)
Definition cleanup (e : Environment) : list step :=
  (Run <$> take 3 (cleanup_commands e)) ++ [Rmtree] ++ (Run <$> drop 3 (cleanup_commands e)) ++ [Report].

(** [_environment]: the commits are resolved before there is anything to remove; a run
    that ends while its environment is made removes its directory; one that ends later,
    by itself with [own] or by a signal, cleans up. *)
Definition guarded (prepare body : list step) (own : Z + unit) (e : Environment) : runM unit := λ p,
  match steps prepare p with
  | (p1, inl c) => finally (inl c) (steps [Rmtree; Report]) p1
  | (p1, inr _) =>
      let '(p2, r) := steps body p1 in
      finally (match r with inl c => inl c | inr _ => own end) (steps (cleanup e)) p2
  end.
Definition _environment (resolve prepare body : list step) (own : Z + unit) (e : Environment) : runM unit :=
  steps resolve ;; guarded prepare body own e.

(** ** Signals and steps *)

Lemma do_step_eq x d f n : do_step x (mkProcess d f n) =
  match arrives n, f with
  | s :: _, false => (mkProcess d true (S n), inl (128 + number s))
  | _, _ => (mkProcess (d ++ [x]) f (S n), inr tt)
  end.
Proof. unfold do_step, handler. stM_unfold. cbn. by destruct (arrives n), f. Qed.

Lemma steps_cons x l p : steps (x :: l) p = match do_step x p with (p', inl c) => (p', inl c) | (p', inr _) => steps l p' end.
Proof. done. Qed.

(** Once the handler has fired, nothing stops a run. *)
Lemma steps_fired l d n : steps l (mkProcess d true n) = (mkProcess (d ++ l) true (n + length l), inr tt).
Proof.
  revert d n. induction l as [|x l IH]; intros d n; [by rewrite app_nil_r, Nat.add_0_r|].
  rewrite steps_cons, do_step_eq. destruct (arrives n); rewrite IH, <- app_assoc; cbn; do 2 f_equal; lia.
Qed.

(** Until a signal arrives, every step is done. *)
Lemma steps_quiet l d n : (∀ k, n ≤ k < n + length l → arrives k = [])%nat → steps l (mkProcess d false n) = (mkProcess (d ++ l) false (n + length l), inr tt).
Proof.
  revert d n. induction l as [|x l IH]; intros d n Hq; [by rewrite app_nil_r, Nat.add_0_r|].
  rewrite steps_cons, do_step_eq, Hq by (cbn; lia). rewrite IH, <- app_assoc by (intros k Hk; apply Hq; cbn; lia). cbn. do 2 f_equal. lia.
Qed.

(** The first signal ends the steps where it arrives. *)
Lemma steps_signal l d n i s rest : (n ≤ i < n + length l)%nat → (∀ k, n ≤ k < i → arrives k = [])%nat → arrives i = s :: rest →
  steps l (mkProcess d false n) = (mkProcess (d ++ take (i - n) l) true (S i), inl (128 + number s)).
Proof.
  revert d n. induction l as [|x l IH]; intros d n Hi Hq Hs; [cbn in Hi; lia|]. rewrite steps_cons, do_step_eq. destruct (decide (i = n)) as [->|Hne].
  - rewrite Hs, Nat.sub_diag. cbn. by rewrite app_nil_r.
  - rewrite Hq by (cbn in *; lia). rewrite IH; [|cbn in *; lia|intros k Hk; apply Hq; lia|done].
    replace (i - n)%nat with (S (i - S n)) by lia. cbn. by rewrite <- app_assoc.
Qed.

Lemma finally_fired r l d n : finally r (steps l) (mkProcess d true n) = (mkProcess (d ++ l) true (n + length l), r).
Proof. unfold finally. by rewrite steps_fired. Qed.

(** ** How a run ends *)

Section run.
Context (resolve prepare body : list step) (own : Z + unit) (e : Environment).
Abbreviation start := (mkProcess [] false 0).
Abbreviation before := (length resolve + length prepare)%nat.

Lemma after_prepare i : (∀ k, k < i → arrives k = [])%nat → (before ≤ i)%nat →
  _environment resolve prepare body own e start =
    let '(p2, r) := steps body (mkProcess (resolve ++ prepare) false before) in
    finally (match r with inl c => inl c | inr _ => own end) (steps (cleanup e)) p2.
Proof.
  intros Hq Hi. unfold _environment, mbind, stM_bind. rewrite steps_quiet by (intros k Hk; apply Hq; lia). cbn [app Nat.add].
  unfold guarded. rewrite steps_quiet by (intros k Hk; apply Hq; lia). done.
Qed.

(** A signal while the rehearsal runs ends it with 128 plus its number, after the whole
    cleanup, however many more arrive. *)
Lemma signal_in_body i s rest : (before ≤ i < before + length body)%nat → (∀ k, k < i → arrives k = [])%nat → arrives i = s :: rest →
  ∃ n, _environment resolve prepare body own e start =
    (mkProcess (resolve ++ prepare ++ take (i - before) body ++ cleanup e) true n, inl (128 + number s)).
Proof.
  intros Hi Hq Hs. rewrite (after_prepare i) by (done || lia).
  rewrite (steps_signal body _ before i s rest); [|done|intros k Hk; apply Hq; lia|done]. rewrite finally_fired, <- !app_assoc. eauto.
Qed.

(** No signal: the run ends as its body did, after the whole cleanup. *)
Lemma no_signal : (∀ k, arrives k = []) →
  ∃ n, _environment resolve prepare body own e start = (mkProcess (resolve ++ prepare ++ body ++ cleanup e) false n, own).
Proof.
  intros Hq. rewrite (after_prepare before) by done. rewrite steps_quiet by done. unfold finally.
  rewrite steps_quiet by done. rewrite <- !app_assoc. eauto.
Qed.

(** The first signal while a run that was over cleans up: what is left of the cleanup is
    not done, and nothing is reported. *)
Lemma signal_in_cleanup j s rest :
  let i := (before + length body + j)%nat in (j < length (cleanup e))%nat → (∀ k, k < i → arrives k = [])%nat → arrives i = s :: rest →
  ∃ n, _environment resolve prepare body own e start =
    (mkProcess (resolve ++ prepare ++ body ++ take j (cleanup e)) true n, inl (128 + number s)).
Proof.
  intros i Hj Hq Hs. rewrite (after_prepare i) by (done || lia). rewrite steps_quiet by (intros k Hk; apply Hq; lia). unfold finally.
  rewrite (steps_signal (cleanup e) _ _ i s rest); [|lia|intros k Hk; apply Hq; lia|done].
  replace (i - (before + length body))%nat with j by lia. rewrite <- !app_assoc. eauto.
Qed.

(** So a signal right after the last step of the body leaves everything behind. *)
Lemma cleanup_interrupted s rest :
  (∀ k, k < before + length body → arrives k = [])%nat → arrives (before + length body)%nat = s :: rest →
  let '(p, r) := _environment resolve prepare body own e start in p_done p = resolve ++ prepare ++ body ∧ r = inl (128 + number s).
Proof.
  intros Hq Hs. destruct (signal_in_cleanup 0 s rest) as [n Hrun]; [cbn; lia|by rewrite Nat.add_0_r|by rewrite Nat.add_0_r|].
  rewrite Hrun. cbn. by rewrite app_nil_r.
Qed.
End run.
End signals.
