(* ===== verification/Readme.v ===== *)
(** The extractor of the runnable blocks of the README (src/scripts/readme_blocks.py).

    A text is a string of code points; a message is a value, one constructor per
    message of the source. *)
From Stdlib Require Import Strings.Ascii.
From stdpp Require Import pretty sorting.
From S2P Require Import Prelude Values ApiKey Text Migrations Url Csv Diff Rehearsal.
Local Open Scope Z_scope.

Definition MIN_RUN_BLOCKS : Z := 3.
Definition _TICKS : string := "```".

(** * Lines *)

(** [_MARKER.match(line)], and its group [body] *)
Fixpoint before_suffix (suffix s : string) : option string :=
  if bool_decide (s = suffix) then Some EmptyString else
  match s with EmptyString => None | String c r => String c <$> before_suffix suffix r end.

Definition _MARKER (line : string) : option string :=
  rest ← after_prefix "<!-- ci:readme " line;
  body ← before_suffix " -->" rest;
  if bool_decide (body = EmptyString) then None else Some body.

(** [_BASH_FENCE.match(line)] *)
Definition _BASH_FENCE (line : string) : bool :=
  match after_prefix (_TICKS +:+ "bash") line with Some rest => all_chars is_space rest | None => false end.

(** [str.isdigit]: the superscripts count, [int] does not read them. *)
Definition isdigit (s : string) : bool :=
  match s with
  | EmptyString => false
  | _ => all_chars (λ c, is_digit c || between 178 179 c || (code c =? 185)%N) s
  end.

(** * Markers *)

Record Marker := mkMarker { mk_name : string; mk_step : option Z; mk_reason : option string }.

Inductive ReadmeBlockError :=
  | BadToken (lineno : Z) (token : string)
  | NoName (lineno : Z)
  | BadSkip (lineno : Z)
  | BadRun (lineno : Z)
  | BadStep (lineno : Z)
  | NamesNotUnique
  | TooFewBlocks (found : Z)
  | StepsNotConsecutive (steps : list Z)
  | NoMarker (lineno : Z)
  | MarkerNotAbove (lineno : Z)
  | FenceNotClosed.

(** [Plain]: a ValueError that is no ReadmeBlockError *)
Inductive readme_exn := Contract (e : ReadmeBlockError) | Plain (e : exn).

(** [int(s)] of a string for which [isdigit] holds; more than 4300 digits are refused. *)
Definition parse_int (s : string) : readme_exn + Z :=
  if all_chars is_digit s && (String.length s <=? 4300)%nat then inr (int_of 0 s)
  else inl (Plain (ValueError "invalid literal for int()")).

Fixpoint parse_tokens (lineno : Z) (tokens : list string) (fields : gmap string string) (skip : bool) :
    readme_exn + (gmap string string * bool) :=
  match tokens with
  | [] => inr (fields, skip)
  | token :: tokens' =>
      if bool_decide (token = "skip"%string) then parse_tokens lineno tokens' fields true else
      let '(key, separator, value) := partition "=" token in
      if negb separator || negb (bool_decide (key ∈ ["step"; "name"; "reason"]%string)) || bool_decide (value = EmptyString) ||
         bool_decide (is_Some (fields !! key))
      then inl (Contract (BadToken lineno token))
      else parse_tokens lineno tokens' (<[key := value]> fields) skip
  end.

Definition _parse_marker (body : string) (lineno : Z) : readme_exn + Marker :=
  match parse_tokens lineno (words body) ∅ false with
  | inl e => inl e
  | inr (fields, skip) =>
      match fields !! "name"%string with
      | None => inl (Contract (NoName lineno))
      | Some name =>
          if (skip : bool) then
            match fields !! "step"%string, fields !! "reason"%string with
            | None, Some reason => inr (mkMarker name None (Some reason))
            | _, _ => inl (Contract (BadSkip lineno))
            end
          else
            match fields !! "step"%string, fields !! "reason"%string with
            | Some step, None =>
                if negb (isdigit step) then inl (Contract (BadStep lineno)) else
                match parse_int step with
                | inl e => inl e
                | inr n => if n <? 1 then inl (Contract (BadStep lineno)) else inr (mkMarker name (Some n) None)
                end
            | _, _ => inl (Contract (BadRun lineno))
            end
      end
  end.

(** * Blocks *)

Record Block := mkBlock { b_name : string; b_step : option Z; b_reason : option string; b_body : string }.

(** [sorted(steps)], and [sorted(blocks, key=...)], which keeps blocks of equal key in
    their order *)
Section sorted.
Context {A : Type} (key : A → Z).
Fixpoint insert_sorted (x : A) (l : list A) : list A :=
  match l with [] => [x] | y :: l' => if key x <=? key y then x :: l else y :: insert_sorted x l' end.
Definition sort_by (l : list A) : list A := foldr insert_sorted [] l.
End sorted.

Definition _validate (blocks : list Block) : ReadmeBlockError + unit :=
  let names := b_name <$> blocks in
  let steps := sort_by id (omap b_step blocks) in
  if negb (bool_decide (NoDup names)) then inl NamesNotUnique
  else if Z.of_nat (length steps) <? MIN_RUN_BLOCKS then inl (TooFewBlocks (Z.of_nat (length steps)))
  else if negb (bool_decide (steps = seqZ 1 (Z.of_nat (length steps)))) then inl (StepsNotConsecutive steps)
  else inr tt.

(** The variables of the loop of parse_blocks. *)
Record scan := mkScan {
  blocks : list Block;
  pending : option Marker;
  pending_line : Z;
  current : option Marker;
  in_fence : bool;
  body_lines : list string;
}.

Definition nl1 : string := of_chars [LF].
Definition block_of (m : Marker) (body : list string) : Block :=
  mkBlock (mk_name m) (mk_step m) (mk_reason m) (String.concat nl1 body +:+ nl1).

Definition closes (line : string) : bool := bool_decide (strip line = _TICKS).

Definition parse_line (lineno : Z) (line : string) (s : scan) : readme_exn + scan :=
  if in_fence s then
    if closes line then
      inr (match current s with
           | Some m => mkScan (blocks s ++ [block_of m (body_lines s)]) (pending s) (pending_line s) None false (body_lines s)
           | None => mkScan (blocks s) (pending s) (pending_line s) None false (body_lines s)
           end)
    else
      inr (match current s with
           | Some _ => mkScan (blocks s) (pending s) (pending_line s) (current s) true (body_lines s ++ [line])
           | None => s
           end)
  else if startswith _TICKS line then
    if _BASH_FENCE line then
      match pending s with
      | None => inl (Contract (NoMarker lineno))
      | Some m => inr (mkScan (blocks s) None (pending_line s) (Some m) true [])
      end
    else
      match pending s with
      | Some _ => inl (Contract (MarkerNotAbove (pending_line s)))
      | None => inr (mkScan (blocks s) None (pending_line s) (current s) true [])
      end
  else
    match pending s with
    | Some _ => inl (Contract (MarkerNotAbove (pending_line s)))
    | None =>
        match _MARKER (strip line) with
        | None => inr s
        | Some body =>
            match _parse_marker body lineno with
            | inl e => inl e
            | inr m => inr (mkScan (blocks s) (Some m) lineno (current s) false (body_lines s))
            end
        end
    end.

Fixpoint parse_lines (lineno : Z) (lines : list string) (s : scan) : readme_exn + scan :=
  match lines with
  | [] => inr s
  | line :: lines' =>
      match parse_line lineno line s with
      | inl e => inl e
      | inr s' => parse_lines (lineno + 1) lines' s'
      end
  end.

Definition parse_blocks (text : string) : readme_exn + list Block :=
  match parse_lines 1 (splitlines text) (mkScan [] None 0 None false []) with
  | inl e => inl e
  | inr s =>
      if in_fence s then inl (Contract FenceNotClosed) else
      match pending s with
      | Some _ => inl (Contract (MarkerNotAbove (pending_line s)))
      | None => match _validate (blocks s) with inl e => inl (Contract e) | inr _ => inr (blocks s) end
      end
  end.

Definition run_order (bs : list Block) : list Block :=
  sort_by (λ b, default 0 (b_step b)) (filter (λ b, is_Some (b_step b)) bs).

(** What main writes, and its exit code. *)
Record result := mkResult { stdout : string; violated : option ReadmeBlockError; no_step : bool; exit_code : Z }.

Definition step_line (b : Block) : string :=
  "step " +:+ match b_step b with Some n => pretty n | None => "None" end +:+ ": " +:+ b_name b +:+ nl1.

(** main, given the text of the file *)
Definition main (readme : string) (step : option Z) : exn + result :=
  match parse_blocks readme with
  | inl (Plain e) => inl e
  | inl (Contract e) => inr (mkResult EmptyString (Some e) false 1)
  | inr bs =>
      let ordered := run_order bs in
      match step with
      | None => inr (mkResult (String.concat EmptyString (step_line <$> ordered)) None false 0)
      | Some n =>
          match head (filter (λ b, b_step b = Some n) ordered) with
          | Some b => inr (mkResult (b_body b) None false 0)
          | None => inr (mkResult EmptyString None true 1)
          end
      end
  end.

(** * The contract

    The documents the markers describe: prose, fences that are not bash, and bash
    fences with a marker on the line above. *)

Definition prose (line : string) : Prop := startswith _TICKS line = false ∧ _MARKER (strip line) = None.
Definition marks (line : string) (m : Marker) : Prop :=
  startswith _TICKS line = false ∧ ∃ body, _MARKER (strip line) = Some body ∧ _parse_marker body 0 = inr m.
Definition fenced (body : list string) (close : string) : Prop :=
  Forall (λ l, closes l = false) body ∧ closes close = true.

Inductive document : list string → list Block → Prop :=
  | doc_end : document [] []
  | doc_prose line ls bs : prose line → document ls bs → document (line :: ls) bs
  | doc_other start body close ls bs :
      startswith _TICKS start = true → _BASH_FENCE start = false → fenced body close → document ls bs →
      document (start :: body ++ close :: ls) bs
  | doc_block above m start body close ls bs :
      marks above m → _BASH_FENCE start = true → fenced body close → document ls bs →
      document (above :: start :: body ++ close :: ls) (block_of m body :: bs).

(** Names are unique, and the steps are 1 to N in some order. *)
Definition valid (bs : list Block) : Prop :=
  NoDup (b_name <$> bs) ∧ MIN_RUN_BLOCKS <= Z.of_nat (length (omap b_step bs)) ∧
  omap b_step bs ≡ₚ seqZ 1 (Z.of_nat (length (omap b_step bs))).

(** The line number of a marker is only for its messages. *)
Lemma parse_tokens_lineno n n' tokens fields skip r :
  parse_tokens n tokens fields skip = inr r → parse_tokens n' tokens fields skip = inr r.
Proof.
  revert fields skip. induction tokens as [|t tokens IH]; intros fields skip; cbn; [done|].
  destruct (bool_decide _); [apply IH|]. destruct (partition _ t) as [[k s] v]. destruct (_ || _); [done|apply IH].
Qed.

Lemma parse_marker_lineno n n' body m : _parse_marker body n = inr m → _parse_marker body n' = inr m.
Proof.
  unfold _parse_marker. destruct (parse_tokens n _ _ _) as [e|[fields skip]] eqn:E; [done|].
  rewrite (parse_tokens_lineno _ n' _ _ _ _ E). destruct (fields !! "name"%string); [|done].
  destruct skip, (fields !! "step"%string), (fields !! "reason"%string); try done.
  destruct (negb _); [done|]. destruct (parse_int _); [done|]. by destruct (_ <? _).
Qed.

Lemma bash_fence_ticks line : _BASH_FENCE line = true → startswith _TICKS line = true.
Proof.
  unfold _BASH_FENCE, startswith. change (_TICKS +:+ "bash")%string with "```bash"%string. unfold _TICKS. intros Hb.
  do 3 (destruct line as [|? line]; [done|]; cbn in *; destruct (bool_decide _); [|done]). by destruct line.
Qed.

(** ** Completeness *)

Definition clean (s : scan) : Prop := pending s = None ∧ current s = None ∧ in_fence s = false.

Lemma parse_lines_app n l l' s s' :
  parse_lines n l s = inr s' → parse_lines n (l ++ l') s = parse_lines (n + Z.of_nat (length l)) l' s'.
Proof.
  revert n s. induction l as [|x l IH]; intros n s; cbn; [intros [= ->]; f_equal; lia|].
  destruct (parse_line n x s); [done|]. intros E. rewrite (IH _ _ E). f_equal. lia.
Qed.

(** A fence, from its first line to its last. *)
Lemma parse_fence n body close bs line cur acc :
  fenced body close →
  parse_lines n (body ++ [close]) (mkScan bs None line cur true acc) =
    inr (mkScan (bs ++ match cur with Some m => [block_of m (acc ++ body)] | None => [] end) None line None false
           match cur with Some _ => acc ++ body | None => acc end).
Proof.
  intros [Hb Hc]. revert n acc. induction Hb as [|x body Hx Hb IH]; intros n acc; cbn.
  - unfold parse_line. cbn. rewrite Hc. rewrite app_nil_r. destruct cur; cbn; by rewrite ?app_nil_r.
  - unfold parse_line. cbn. rewrite Hx. destruct cur as [m|]; rewrite IH; [by rewrite <- app_assoc|done].
Qed.

Lemma document_parsed ls bs n s :
  document ls bs → clean s → ∃ s', parse_lines n ls s = inr s' ∧ clean s' ∧ blocks s' = blocks s ++ bs.
Proof.
  intros Hd. revert n s. induction Hd as [|line ls bs [Hf Hm] _ IH|start body close ls bs Hf Hb Hbody _ IH
    |above m start body close ls bs (Hf & b & Hm & Hp) Hb Hbody _ IH]; intros n s Hs.
  - exists s. by rewrite app_nil_r.
  - destruct Hs as (Hpe & Hcu & Hin). cbn. unfold parse_line. rewrite Hin, Hf, Hpe, Hm. by apply IH.
  - destruct Hs as (Hpe & Hcu & Hin). cbn [parse_lines]. unfold parse_line. rewrite Hin, Hf, Hb, Hpe, Hcu.
    rewrite cons_middle, app_assoc. erewrite parse_lines_app by by apply parse_fence.
    destruct (IH (n + 1 + Z.of_nat (length (body ++ [close]))) (mkScan (blocks s ++ []) None (pending_line s) None false []))
      as (s' & E & Hs' & Hbs); [done|]. exists s'. rewrite E, Hbs. cbn. by rewrite app_nil_r.
  - destruct Hs as (Hpe & Hcu & Hin). cbn [parse_lines]. unfold parse_line at 1.
    rewrite Hin, Hf, Hpe, Hm, (parse_marker_lineno _ n _ _ Hp). unfold parse_line at 1. cbn [in_fence pending].
    rewrite (bash_fence_ticks _ Hb), Hb. cbn [blocks pending_line]. rewrite cons_middle, app_assoc.
    erewrite parse_lines_app by by apply parse_fence.
    destruct (IH (n + 1 + 1 + Z.of_nat (length (body ++ [close])))
      (mkScan (blocks s ++ [block_of m body]) None n None false body)) as (s' & E & Hs' & Hbs); [done|].
    exists s'. split; [exact E|]. split; [done|]. rewrite Hbs. cbn. by rewrite <- app_assoc.
Qed.

(** ** Soundness *)

(** What the lines left must hold, by the state of the scan. *)
Definition rest_of (s : scan) (ls : list string) (added : list Block) : Prop :=
  if in_fence s then
    ∃ body close ls' bs, ls = body ++ close :: ls' ∧ fenced body close ∧ document ls' bs ∧
      added = match current s with Some m => [block_of m (body_lines s ++ body)] | None => [] end ++ bs
  else match pending s with
  | Some m =>
      ∃ start body close ls' bs, ls = start :: body ++ close :: ls' ∧ _BASH_FENCE start = true ∧ fenced body close ∧
        document ls' bs ∧ added = block_of m body :: bs
  | None => document ls added
  end.

Definition scan_ok (s : scan) : Prop :=
  (in_fence s = true → pending s = None) ∧ (in_fence s = false → current s = None).

Lemma parse_lines_sound n ls s s' :
  scan_ok s → parse_lines n ls s = inr s' → in_fence s' = false → pending s' = None →
  ∃ added, blocks s' = blocks s ++ added ∧ rest_of s ls added.
Proof.
  revert n s. induction ls as [|line ls IH]; intros n s [Hok1 Hok2]; cbn.
  { intros [= ->] Hin Hpe. exists []. rewrite app_nil_r. split; [done|]. unfold rest_of. rewrite Hin, Hpe. constructor. }
  destruct (parse_line n line s) as [e|s1] eqn:E1; [done|]. intros E Hin' Hpe'.
  assert (scan_ok s1 → ∃ added, blocks s' = blocks s1 ++ added ∧ rest_of s1 ls added) as Hrest by eauto. clear IH E.
  unfold parse_line in E1. unfold rest_of. destruct (in_fence s) eqn:Hin.
  - specialize (Hok1 eq_refl). destruct (closes line) eqn:Ecl.
    + destruct (current s) as [m|]; injection E1 as <-; destruct Hrest as (added & Eb & Hr); try done;
        unfold rest_of in Hr; cbn in Hr; rewrite Hok1 in Hr.
      * exists (block_of m (body_lines s) :: added). split; [cbn in Eb; by rewrite Eb, <- app_assoc|].
        exists [], line, ls, added. rewrite app_nil_r. by split_and!.
      * exists added. split; [done|]. exists [], line, ls, added. by split_and!.
    + destruct (current s) as [m|] eqn:Ecu; injection E1 as <-; destruct Hrest as (added & Eb & Hr); try done;
        unfold rest_of in Hr; cbn in Hr; rewrite ?Hin in Hr; destruct Hr as (body & close & ls' & bs & -> & [Hb Hc] & Hd & ->);
        (eexists; split; [exact Eb|]); exists (line :: body), close, ls', bs; (split_and!; [done|by split; [constructor|]|done|]).
      * by rewrite <- app_assoc.
      * by rewrite Ecu.
  - specialize (Hok2 eq_refl). destruct (startswith _TICKS line) eqn:Ef.
    + destruct (_BASH_FENCE line) eqn:Eb; destruct (pending s) as [m|]; try done; injection E1 as <-;
        destruct Hrest as (added & Ebl & Hr); try done; unfold rest_of in Hr; cbn in Hr;
        destruct Hr as (body & close & ls' & bs & -> & Hf & Hd & ->); (eexists; split; [exact Ebl|]).
      * exists line, body, close, ls', bs. by split_and!.
      * rewrite Hok2. by apply doc_other.
    + destruct (pending s) as [m|] eqn:Epe; [done|]. destruct (_MARKER (strip line)) as [b|] eqn:Em.
      * destruct (_parse_marker b n) as [e|m] eqn:Ep; [done|]. injection E1 as <-.
        destruct Hrest as (added & Ebl & Hr); [by split|]. unfold rest_of in Hr. cbn in Hr.
        destruct Hr as (start & body & close & ls' & bs & -> & Hb & Hf & Hd & ->). eexists. split; [exact Ebl|].
        apply doc_block; [|done..]. split; [done|]. exists b. split; [done|]. by eapply parse_marker_lineno.
      * injection E1 as <-. destruct Hrest as (added & Ebl & Hr); [by split; rewrite ?Hin|].
        unfold rest_of in Hr. rewrite Hin, Epe in Hr. exists added. split; [done|]. by apply doc_prose.
Qed.

(** ** Validation and order *)

Section sorting.
Context {A : Type} (key : A → Z).

Lemma insert_sorted_perm x l : insert_sorted key x l ≡ₚ x :: l.
Proof using.
  induction l as [|y l IH]; cbn; [done|]. destruct (_ <=? _); [done|]. rewrite IH. apply Permutation_swap.
Qed.

Lemma sort_by_perm l : sort_by key l ≡ₚ l.
Proof using. induction l as [|x l IH]; cbn; [done|]. rewrite insert_sorted_perm. by f_equiv. Qed.

Lemma insert_sorted_sorted x l : Sorted Z.le (key <$> l) → Sorted Z.le (key <$> insert_sorted key x l).
Proof using.
  induction l as [|y l IH]; intros Hs; cbn; [by repeat constructor|].
  destruct (Z.leb_spec (key x) (key y)) as [Hle|Hlt]; cbn; [constructor; [exact Hs|by constructor]|].
  apply Sorted_inv in Hs as [Hs Hh]. constructor; [by apply IH|].
  destruct l as [|z l]; cbn in *; [constructor; lia|]. destruct (_ <=? _); constructor; [lia|]. by inversion Hh.
Qed.

Lemma sort_by_sorted l : Sorted Z.le (key <$> sort_by key l).
Proof using. induction l as [|x l IH]; cbn; [constructor|]. by apply insert_sorted_sorted. Qed.
End sorting.

Lemma seqZ_sorted n len : StronglySorted Z.le (seqZ n len).
Proof.
  unfold seqZ. generalize 0%nat. induction (Z.to_nat len) as [|k IH]; intros m; cbn; constructor; [apply IH|].
  apply Forall_forall. intros z (i & -> & Hi%elem_of_seq)%list_elem_of_fmap. lia.
Qed.

(** A sorted list with the elements of 1..N is 1..N. *)
Lemma sorted_seqZ l n len : Sorted Z.le l → l ≡ₚ seqZ n len → l = seqZ n len.
Proof.
  intros Hs Hp. apply (StronglySorted_unique Z.le); [|apply seqZ_sorted|done].
  apply Sorted_StronglySorted; [|done]. intros x y z. lia.
Qed.

Lemma validate_valid bs : _validate bs = inr tt ↔ valid bs.
Proof.
  unfold _validate, valid. pose proof (sort_by_perm id (omap b_step bs)) as Hp.
  pose proof (sort_by_sorted id (omap b_step bs)) as Hs. rewrite list_fmap_id in Hs.
  rewrite (Permutation_length Hp). set (N := Z.of_nat _) in *.
  destruct (bool_decide_reflect (NoDup (b_name <$> bs))); cbn; [|by split; [|intros []]].
  destruct (Z.ltb_spec N MIN_RUN_BLOCKS); [by split; [|intros (_ & ? & _); lia]|].
  destruct (bool_decide_reflect (sort_by id (omap b_step bs) = seqZ 1 N)) as [E|E]; cbn.
  - split; [|done]. intros _. split_and!; [done..|]. by rewrite <- E, Hp.
  - split; [done|]. intros (_ & _ & Hq). destruct E. apply sorted_seqZ; [done|]. by rewrite Hp.
Qed.

Lemma run_steps (bs : list Block) : (λ b, default 0 (b_step b)) <$> filter (λ b, is_Some (b_step b)) bs = omap b_step bs.
Proof.
  induction bs as [|b bs IH]; [done|]. rewrite filter_cons. cbn. destruct (b_step b) as [n|] eqn:E.
  - rewrite decide_True by done. cbn. by rewrite E, IH.
  - rewrite decide_False by (by intros []). done.
Qed.

(** A valid README is run in the order 1, ..., N. *)
Lemma run_order_steps bs :
  valid bs → (λ b, default 0 (b_step b)) <$> run_order bs = seqZ 1 (Z.of_nat (length (omap b_step bs))).
Proof.
  intros (_ & _ & Hp). apply sorted_seqZ; [apply sort_by_sorted|]. unfold run_order. rewrite sort_by_perm, run_steps. done.
Qed.

(** C40: The README contract, exactly.  [parse_blocks] returns a list of blocks just when
    the text is a sequence of prose, of fences that are not bash and of bash fences
    each with a well-formed marker on the line above, the blocks are the marked ones in
    order with the lines between their fences, their names are unique and their steps
    are 1 to N for some N of at least [MIN_RUN_BLOCKS]: no bash fence goes unchecked.
    Then [run_order] lists steps 1, ..., N.  Every other text raises. *)
Theorem readme_contract text :
  match parse_blocks text with
  | inr bs =>
      document (splitlines text) bs ∧ valid bs ∧ (∀ bs', document (splitlines text) bs' → bs' = bs) ∧
      (λ b, default 0 (b_step b)) <$> run_order bs = seqZ 1 (Z.of_nat (length (omap b_step bs)))
  | inl _ => ¬ ∃ bs, document (splitlines text) bs ∧ valid bs
  end.
Proof.
  unfold parse_blocks. set (s0 := mkScan [] None 0 None false []).
  assert (∀ bs, document (splitlines text) bs → ∃ s, parse_lines 1 (splitlines text) s0 = inr s ∧ clean s ∧ blocks s = bs) as Hcompl.
  { intros bs Hd. by apply (document_parsed _ _ 1 s0) in Hd. }
  destruct (parse_lines 1 (splitlines text) s0) as [e|s] eqn:E; [by intros (bs & (s & [=] & _)%Hcompl & _)|].
  destruct (in_fence s) eqn:Hin. { intros (bs & (s' & [= <-] & (_ & _ & ?) & _)%Hcompl & _). congruence. }
  destruct (pending s) as [m|] eqn:Hpe. { intros (bs & (s' & [= <-] & (? & _ & _) & _)%Hcompl & _). congruence. }
  apply parse_lines_sound in E as (added & Eb & Hr); [|done..]. cbn in Eb, Hr. subst added.
  destruct (_validate (blocks s)) as [e|[]] eqn:Ev.
  - intros (bs & (s' & [= <-] & _ & <-)%Hcompl & Hv%validate_valid). congruence.
  - apply validate_valid in Ev as Hv. split_and!; [done..| |by apply run_order_steps].
    intros bs' (s' & [= <-] & _ & <-)%Hcompl. done.
Qed.

(** * Examples *)

Definition sample_lines : list string :=
  ["# Setup"; "<!-- ci:readme step=2 name=install -->"; "```bash"; "pip install ."; "```";
   "<!-- ci:readme name=clone step=1 -->"; "```bash"; "git clone"; "cd repo"; "```"; "```text"; "not run"; "```";
   "<!-- ci:readme skip name=deploy reason=production -->"; "```bash"; "make deploy"; "```";
   "<!-- ci:readme step=3 name=check -->"; "```bash"; "make check"; "```"]%string.

Example sample_listing :
  main (String.concat nl1 sample_lines) None =
    inr (mkResult (String.concat nl1 ["step 1: clone"; "step 2: install"; "step 3: check"; EmptyString]%string) None false 0).
Proof. vm_compute. reflexivity. Qed.

Example sample_step :
  main (String.concat nl1 sample_lines) (Some 1) = inr (mkResult (String.concat nl1 ["git clone"; "cd repo"; EmptyString]%string) None false 0).
Proof. vm_compute. reflexivity. Qed.

(** A superscript digit passes [isdigit] and fails in [int]: the ValueError is no
    ReadmeBlockError and leaves main. *)
Lemma superscript_step_escapes :
  main ("<!-- ci:readme step=" +:+ of_chars [chr_of 178] +:+ " name=a -->") None = inl (ValueError "invalid literal for int()").
Proof. vm_compute. reflexivity. Qed.
