(* ===== verification/Backends.v ===== *)
(** The repositories of jobs and nodes in PostgreSQL, SQLite and memory are
    interchangeable: a client that saves, changes, reads and lists gets the same answers
    (src/app/presentation/dependencies.py, [_build_repositories], chooses among them). *)
From S2P Require Import Prelude Values Job Node Float64 Execution ApiKey Worker Db Prog Repos Text Calendar Stores Sqlite Memory System.
Local Open Scope Z_scope.

(** * A PostgreSQL table is a store *)

Section table.
Context {E : Env} `{!Quiet E} {K A : Type} `{Countable K} (key : A → K) (tenant_of : A → TenantId) (conflict : exn).
Context (table : db → gmap K A) (ready : db → Prop) (ok : A → Prop).
Context (save : A → prog unit) (get : K → TenantId → prog (option A)) (get_any : K → prog (option A)) (list_all : prog (list A)).
Context (Hsave : ∀ d n x, ready d → ok x → ∃ d', save x (mkWorld d n) = (mkWorld d' (S n), (table_put key tenant_of conflict x (table d)).2)
  ∧ table d' = (table_put key tenant_of conflict x (table d)).1 ∧ ready d').
Context (Hget : ∀ d n k t, ready d → get k t (mkWorld d n) = (mkWorld d (S n), inr (in_tenant tenant_of t (table d !! k)))).
Context (Hget_any : ∀ d n k, ready d → (get_any k (mkWorld d n)).2 = inr (table d !! k)).
Context (Hlist : ∀ d n, ready d → wp list_all (λ l _, l ≡ₚ rows (table d)) (λ _ _, False) (mkWorld d n)).

(** Read, change, save. *)
Definition pg_update (k : K) (t : TenantId) (f : A → A) : prog bool :=
  o ← get k t;
  match o with None => mret false | Some x => save (f x) ;; mret true end.

Definition pg_rep (w : world) (m : gmap K A) : Prop :=
  ready (w_db w) ∧ table (w_db w) = m ∧ map_Forall (λ k x, key x = k ∧ ok x) m.

Lemma pg_put_law w m x : pg_rep w m → ok x →
  ∃ w', save x w = (w', (table_put key tenant_of conflict x m).2) ∧ pg_rep w' (table_put key tenant_of conflict x m).1.
Proof.
  intros (Hr & <- & Hm) Hx. destruct w as [d n]. destruct (Hsave d n x Hr Hx) as (d' & Hs & Ht & Hr'). eexists. split; [exact Hs|].
  split; [done|]. split; [done|]. unfold table_put. cbn. assert (map_Forall (λ k x, key x = k ∧ ok x) (<[key x := x]> (table d))).
  { apply map_Forall_insert_2; [done|]. apply Hm. }
  destruct (table d !! key x); [case_bool_decide|]; done.
Qed.

Lemma pg_update_law w m k t f : pg_rep w m → True → True →
  (∀ x, ok x → ok (f x) ∧ key (f x) = key x ∧ tenant_of (f x) = tenant_of x) →
  ∃ w', pg_update k t f w = (w', (table_update key tenant_of conflict k t f m).2) ∧ pg_rep w' (table_update key tenant_of conflict k t f m).1.
Proof.
  intros (Hr & <- & Hm) _ _ Hf. destruct w as [d n]. cbn in *. unfold pg_update, table_update, mbind, stM_bind. rewrite Hget by done.
  assert (pg_rep (mkWorld d (S n)) (table d)) as Hw by done.
  destruct (in_tenant tenant_of t (table d !! k)) as [x|] eqn:Hx; [|by exists (mkWorld d (S n))].
  assert (table d !! k = Some x) as Hk by (destruct (table d !! k); [|done]; cbn in Hx; by case_bool_decide).
  destruct (pg_put_law _ _ (f x) Hw) as (w' & Hs & Hr'); [by apply Hf, (Hm k)|]. rewrite Hs. exists w'.
  by destruct (table_put key tenant_of conflict (f x) (table d)) as [m' [?|?]].
Qed.

Lemma pg_get_law w m k t : pg_rep w m → True → True → (get k t w).2 = inr (in_tenant tenant_of t (m !! k)).
Proof. intros (Hr & <- & _) _ _. destruct w as [d n]. by rewrite Hget. Qed.

Lemma pg_get_any_law w m k : pg_rep w m → True → (get_any k w).2 = inr (m !! k).
Proof. intros (Hr & <- & _) _. destruct w as [d n]. by rewrite Hget_any. Qed.

Lemma pg_contents_law w m : pg_rep w m → ∃ l, (list_all w).2 = inr l ∧ l ≡ₚ rows m.
Proof.
  intros (Hr & <- & _). destruct w as [d n]. specialize (Hlist d n Hr). unfold wp in Hlist.
  destruct (list_all (mkWorld d n)) as [w' [e|l]]; [done|]. by exists l.
Qed.

Definition pg_store : Store key tenant_of conflict :=
  mkStore key tenant_of conflict world pg_rep ok (λ _, True) (λ _, True) save pg_update
    (λ k t w, (get k t w).2) (λ k w, (get_any k w).2) (λ w, (list_all w).2)
    pg_put_law pg_update_law pg_get_law pg_get_any_law pg_contents_law.
End table.

(** * PostgresJobRepository and PostgresNodeRepository *)

Section postgres.
Context {E : Env} `{!Quiet E} (tenants : gset TenantId) (homes : list (NodeId * TenantId)).

(** Entities that violate no constraint of the schema, given tenants and nodes it
    has. *)
Definition pg_job_storable (j : job) : Prop :=
  job_int4 j = true ∧ j_tenant_id j ∈ tenants ∧ job_row_ok j ∧
  match j_assigned_node_id j with Some n => (n, j_tenant_id j) ∈ homes | None => True end.
Definition pg_node_storable (n : node) : Prop := node_int4 n = true ∧ n_tenant_id n ∈ tenants ∧ node_row_ok n.

Record pg_ready (d : db) : Prop := mkPgReady {
  pr_loadable : loadable d;
  pr_tenants : tenants ⊆ db_tenants d;
  pr_homes : Forall (λ h, fk_node d h.1 h.2 = true) homes;
}.

Lemma pg_tenant d t : pg_ready d → t ∈ tenants → fk_tenant d t = true.
Proof. intros [_ Ht _] ?. apply bool_decide_eq_true_2. set_solver. Qed.

Lemma pg_job_save d n x : pg_ready d → pg_job_storable x →
  ∃ d', JobRepository.save x (mkWorld d n) = (mkWorld d' (S n), (table_put j_id j_tenant_id JobTenantConflictError x (db_jobs d)).2)
    ∧ db_jobs d' = (table_put j_id j_tenant_id JobTenantConflictError x (db_jobs d)).1 ∧ pg_ready d'.
Proof.
  intros Hd (Hi & Hx & Hok & Hn). unfold JobRepository.save, statement. cbn. rewrite quiet. unfold upsert_job. rewrite Hi, (pg_tenant d) by done.
  assert (fk_opt (λ n, fk_node d n (j_tenant_id x)) (j_assigned_node_id x) = true) as ->.
  { destruct (j_assigned_node_id x) as [h|]; [|done]. destruct Hd as [_ _ Hh]. rewrite Forall_forall in Hh. by apply (Hh (h, j_tenant_id x)). }
  assert (pg_ready (set_jobs (<[j_id x := x]> (db_jobs d)) d)) as Hd'.
  { destruct Hd as [[Hj Hns] ? ?]. split; [|done|done]. split; cbn; [|done]. intros k y [[<- <-]|[_ ?%Hj]]%lookup_insert_Some; done. }
  unfold table_put. destruct (db_jobs d !! j_id x); [case_bool_decide|]; eexists; (split; [reflexivity|]); done.
Qed.

Lemma pg_job_get d n k t : pg_ready d → JobRepository.get_by_id k t (mkWorld d n) = (mkWorld d (S n), inr (in_tenant j_tenant_id t (db_jobs d !! k))).
Proof.
  intros [Hd _ _]. unfold JobRepository.get_by_id, statement. stM_unfold. cbn. rewrite quiet. unfold JobRepository.load, select_job, in_tenant.
  destruct (db_jobs d !! k) as [x|] eqn:Hx; [|done]. case_bool_decide; [|done]. unfold of_sum. stM_unfold.
  rewrite job_to_entity_ok; [done|]. by eapply ld_jobs.
Qed.

Lemma pg_job_get_any d n k : pg_ready d → (JobRepository.get_by_id_across_tenants k (mkWorld d n)).2 = inr (db_jobs d !! k).
Proof.
  intros [Hd _ _]. unfold JobRepository.get_by_id_across_tenants, statement. stM_unfold. cbn. rewrite quiet.
  destruct (db_jobs d !! k) as [x|] eqn:Hx; [|done]. cbn. unfold of_sum. stM_unfold. rewrite job_to_entity_ok; [done|]. by eapply ld_jobs.
Qed.

Lemma pg_job_list d n : pg_ready d → wp JobRepository.list_across_tenants (λ l _, l ≡ₚ rows (db_jobs d)) (λ _ _, False) (mkWorld d n).
Proof. intros [Hd _ _]. by apply wp_job_list. Qed.

Definition postgres_jobs : Store j_id j_tenant_id JobTenantConflictError :=
  pg_store j_id j_tenant_id JobTenantConflictError db_jobs pg_ready pg_job_storable JobRepository.save JobRepository.get_by_id
    JobRepository.get_by_id_across_tenants JobRepository.list_across_tenants pg_job_save pg_job_get pg_job_get_any pg_job_list.

Lemma pg_node_save d n x : pg_ready d → pg_node_storable x →
  ∃ d', NodeRepository.save x (mkWorld d n) = (mkWorld d' (S n), (table_put n_id n_tenant_id NodeTenantConflictError x (db_nodes d)).2)
    ∧ db_nodes d' = (table_put n_id n_tenant_id NodeTenantConflictError x (db_nodes d)).1 ∧ pg_ready d'.
Proof.
  intros Hd (Hi & Hx & Hok). unfold NodeRepository.save, statement. cbn. rewrite quiet. unfold upsert_node. rewrite Hi, (pg_tenant d) by done.
  assert ((∀ old, db_nodes d !! n_id x = Some old → n_tenant_id old = n_tenant_id x) → pg_ready (set_nodes (<[n_id x := x]> (db_nodes d)) d)) as Hd'.
  { intros Hold. destruct Hd as [[Hj Hns] ? Hh]. split; [|done|].
    - split; cbn; [done|]. intros k y [[<- <-]|[_ ?%Hns]]%lookup_insert_Some; done.
    - eapply Forall_impl; [exact Hh|]. intros [h t]. unfold fk_node. cbn. rewrite !bool_decide_eq_true. destruct (decide (n_id x = h)) as [<-|Hne].
      + rewrite lookup_insert_eq. intros (old & Hold' & ->)%fmap_Some. cbn. f_equal. symmetry. by apply Hold.
      + by rewrite lookup_insert_ne. }
  unfold table_put. destruct (db_nodes d !! n_id x) as [old|]; [case_bool_decide|]; eexists; (split; [reflexivity|]); cbn; try done; split; try done;
    apply Hd'; congruence.
Qed.

Lemma pg_node_get d n k t : pg_ready d → NodeRepository.get_by_id k t (mkWorld d n) = (mkWorld d (S n), inr (in_tenant n_tenant_id t (db_nodes d !! k))).
Proof.
  intros [Hd _ _]. unfold NodeRepository.get_by_id, statement. stM_unfold. cbn. rewrite quiet. unfold NodeRepository.load, select_node_row, in_tenant.
  destruct (db_nodes d !! k) as [x|] eqn:Hx; [|done]. case_bool_decide; [|done]. unfold of_sum. stM_unfold.
  rewrite node_to_entity_ok; [done|]. by eapply ld_nodes.
Qed.

Lemma pg_node_get_any d n k : pg_ready d → (NodeRepository.get_by_id_across_tenants k (mkWorld d n)).2 = inr (db_nodes d !! k).
Proof.
  intros [Hd _ _]. unfold NodeRepository.get_by_id_across_tenants, statement. stM_unfold. cbn. rewrite quiet.
  destruct (db_nodes d !! k) as [x|] eqn:Hx; [|done]. cbn. unfold of_sum. stM_unfold. rewrite node_to_entity_ok; [done|]. by eapply ld_nodes.
Qed.

Lemma pg_node_list d n : pg_ready d → wp NodeRepository.list_across_tenants (λ l _, l ≡ₚ rows (db_nodes d)) (λ _ _, False) (mkWorld d n).
Proof. intros [Hd _ _]. by apply wp_node_list. Qed.

Definition postgres_nodes : Store n_id n_tenant_id NodeTenantConflictError :=
  pg_store n_id n_tenant_id NodeTenantConflictError db_nodes pg_ready pg_node_storable NodeRepository.save NodeRepository.get_by_id
    NodeRepository.get_by_id_across_tenants NodeRepository.list_across_tenants pg_node_save pg_node_get pg_node_get_any pg_node_list.
End postgres.

(** * Any backend will do *)

(** Requests within what all three can store. *)
Definition portable {K A} `{Countable K} {key : A → K} {tenant_of conflict} (S1 S2 S3 : Store key tenant_of conflict) (q : request (K:=K) (A:=A)) : Prop :=
  request_ok S1 q ∧ request_ok S2 q ∧ request_ok S3 q.

Lemma three_stores_agree {K A} `{Countable K} {key : A → K} {tenant_of conflict} (S1 S2 S3 : Store key tenant_of conflict) l s1 s2 s3 m :
  rep S1 s1 m → rep S2 s2 m → rep S3 s3 m → Forall (portable S1 S2 S3) l →
  Forall2 same_answer (serve_all S1 l s1).2 (serve_all S2 l s2).2 ∧ Forall2 same_answer (serve_all S2 l s2).2 (serve_all S3 l s3).2.
Proof.
  intros H1 H2 H3 Hl. assert (Forall (request_ok S1) l ∧ Forall (request_ok S2) l ∧ Forall (request_ok S3) l) as (Hl1 & Hl2 & Hl3).
  { split_and!; (eapply Forall_impl; [exact Hl|]); by intros q (? & ? & ?). }
  pose proof (stores_agree key tenant_of conflict S1 S2 l s1 s2 m H1 H2 Hl1 Hl2) as Ha.
  pose proof (stores_agree key tenant_of conflict S2 S3 l s2 s3 m H2 H3 Hl2 Hl3) as Hb.
  destruct (serve_all S1 l s1), (serve_all S2 l s2), (serve_all S3 l s3). by split; [apply Ha|apply Hb].
Qed.


(** A script: save a job, pick it for a node to be, read and list. *)
Definition script : list (request (K:=JobId) (A:=job)) :=
  [Save stored_job; Change (mkJobId 77) DEFAULT_TENANT_ID (set_status SCHEDULED); Get (mkJobId 77) DEFAULT_TENANT_ID; GetAny (mkJobId 78); List].

Lemma set_status_storable s j : job_storable j → job_storable (set_status s j).
Proof. intros []. by split. Qed.

Lemma script_portable : Forall (portable (postgres_jobs (E:=calm) {[DEFAULT_TENANT_ID]} []) sqlite_jobs memory_jobs) script.
Proof.
  repeat (apply Forall_cons; split); try apply Forall_nil_2; (split; [|split]); cbn [request_ok arg_ok tenant_ok storable postgres_jobs pg_store sqlite_jobs sqlite_store memory_jobs memory_store];
    try exact I; try (split; exact I); try exact stored_job_storable.
  - split; [reflexivity|]. split; [set_solver|]. split; [by cbn|exact I].
  - split; [by split|]. intros x Hx. split; [exact Hx|done].
  - split; [by split|]. intros x Hx. split; [by apply set_status_storable|done].
  - split; [by split|]. done.
  - by split.
Qed.


(** * The most recent jobs *)

Lemma take_sorted_rest {A} (key : A → Z) limit (l : list A) x y : Sorted (λ a b, key b <= key a) l → x ∈ l → x ∉ take limit l → y ∈ take limit l → key x <= key y.
Proof.
  intros Hs Hx Hn Hy. assert (StronglySorted (λ a b, key b <= key a) l) as Hss by (apply Sorted_StronglySorted; [|done]; intros ? ? ? ? ?; lia).
  rewrite <- (take_drop limit l) in Hx, Hss. apply elem_of_app in Hx as [?|Hx]; [done|].
  induction (take limit l) as [|z k IH]; [by apply elem_of_nil in Hy|]. cbn in Hss. apply StronglySorted_inv in Hss as [Hss Hz].
  apply elem_of_cons in Hy as [->|Hy].
  - rewrite Forall_forall in Hz. apply Hz, elem_of_app. by right.
  - apply IH; [intros ?; apply Hn; by right|done|done].
Qed.

(** SQLite, which sorts the texts of the times, and memory, which sorts the times,
    return the same jobs in the same order: those of the tenant, newest first, no more
    than the limit, and none is left out that is newer than one returned. *)
Theorem recent_jobs_agree c m xs limit t :
  job_rows_hold (SqliteJobRepository.job_rows c) xs → dict_wf j_id m → entities m = xs → enc_ok t →
  ∃ l, SqliteJobRepository.list_recent limit t c = inr l ∧ objects m (InMemoryJobRepository.list_recent limit t m) = l ∧
    Sorted (λ a b, j_submitted_at b <= j_submitted_at a) l ∧
    length l = (limit `min` length (filter (λ j, j_tenant_id j = t) xs))%nat ∧
    (∀ x, x ∈ l → x ∈ xs ∧ j_tenant_id x = t) ∧
    (∀ x y, x ∈ xs → j_tenant_id x = t → x ∉ l → y ∈ l → j_submitted_at x <= j_submitted_at y).
Proof.
  intros Hxs Hm Hent Ht. set (s := sort_desc j_submitted_at (filter (λ j, j_tenant_id j = t) xs)).
  assert (∀ x, x ∈ s ↔ j_tenant_id x = t ∧ x ∈ xs) as Hin by (intros x; unfold s; by rewrite sort_desc_perm, list_elem_of_filter).
  exists (take limit s). split_and!.
  - by apply sqlite_list_recent.
  - rewrite memory_list_recent. by rewrite Hent.
  - apply StronglySorted_Sorted. assert (StronglySorted (λ a b, j_submitted_at b <= j_submitted_at a) s) as Hs.
    { apply Sorted_StronglySorted; [intros ? ? ? ? ?; lia|]. apply sort_desc_sorted. }
    revert Hs. generalize s. clear. intros s Hs. revert limit. induction Hs as [|x s Hs IH Hx]; intros [|n]; cbn; constructor; [done|].
    by apply Forall_take.
  - rewrite length_take. f_equal. unfold s. apply Permutation_length. by rewrite sort_desc_perm.
  - intros x Hx. apply and_comm, Hin. eapply elem_of_sublist; [exact Hx|apply sublist_take].
  - intros x y Hx Htx Hn Hy. eapply take_sorted_rest; [apply sort_desc_sorted| |exact Hn|exact Hy]. by apply Hin.
Qed.

Lemma recent_jobs_agree_witness :
  SqliteJobRepository.list_recent 1 DEFAULT_TENANT_ID after_save = inr [stored_job] ∧
  ∃ l, SqliteJobRepository.list_recent 1 DEFAULT_TENANT_ID after_save = inr l ∧
    objects (mkMemory [stored_job] [(mkJobId 77, 0%nat)]) (InMemoryJobRepository.list_recent 1 DEFAULT_TENANT_ID (mkMemory [stored_job] [(mkJobId 77, 0%nat)])) = l.
Proof.
  split; [vm_compute; reflexivity|].
  assert (job_rows_hold (SqliteJobRepository.job_rows after_save) [stored_job]) as Hrows.
  { split; [vm_compute; reflexivity|]. split; [apply NoDup_singleton|apply Forall_singleton, stored_job_storable]. }
  assert (dict_wf j_id (mkMemory [stored_job] [(mkJobId 77, 0%nat)])) as Hm.
  { split; [apply NoDup_singleton|]. apply Forall_singleton. by exists stored_job. }
  destruct (recent_jobs_agree after_save (mkMemory [stored_job] [(mkJobId 77, 0%nat)]) [stored_job] 1 DEFAULT_TENANT_ID Hrows Hm eq_refl eq_refl) as (l & H1 & H2 & _).
  by exists l.
Defined.
