(* ===== verification/Contracts.v ===== *)
(** The contracts of the repositories (src/app/domain/repositories): the abstract classes
    the services are written against, with what their documentation promises as
    laws, the implementations as instances, and what a client can rely on whichever
    implementation it is given. *)
From S2P Require Import Prelude Sqlite Values Job Node Float64 Execution ApiKey Worker Db Prog Repos Keys Text Stores Memory System.
Local Open Scope Z_scope.

(** Elements that a key tells apart. *)
Lemma nodup_key {A B} (f : A → B) (l : list A) x y : NoDup (f <$> l) → x ∈ l → y ∈ l → f x = f y → x = y.
Proof.
  intros Hn [i Hx]%list_elem_of_lookup [k Hy]%list_elem_of_lookup Hf. enough (i = k) by congruence.
  eapply NoDup_lookup; [exact Hn|by rewrite list_lookup_fmap, Hx|rewrite list_lookup_fmap, Hy; cbn; by rewrite Hf].
Qed.

Lemma filter_agree {A} (P Q : A → Prop) `{!∀ x, Decision (P x), !∀ x, Decision (Q x)} (l : list A) :
  (∀ x, x ∈ l → P x ↔ Q x) → filter P l = filter Q l.
Proof.
  induction l as [|x l IH]; intros Hl; [done|]. rewrite !filter_cons, IH by (intros y Hy; apply Hl; by right).
  pose proof (Hl x (list_elem_of_here x l)). repeat case_decide; tauto.
Qed.

Lemma table_of_filter {K A} `{Countable K} (key : A → K) (P : A → Prop) `{!∀ x, Decision (P x)} (xs : list A) i :
  NoDup (key <$> xs) → table_of key (filter P xs) !! i = (table_of key xs !! i) ≫= λ x, if decide (P x) then Some x else None.
Proof.
  intros Hn. rewrite !table_of_head, list_filter_filter. induction xs as [|x xs IH]; [done|]. apply NoDup_cons in Hn as [Hx Hn]. rewrite !filter_cons.
  destruct (decide (key x = i)) as [Hk|Hk]; cbn.
  - destruct (decide (P x)) as [Hp|Hp]; [by rewrite decide_True|]. rewrite decide_False by tauto.
    destruct (filter _ xs) as [|y r] eqn:Hf; [done|]. assert (y ∈ y :: r) as Hy by left. rewrite <- Hf in Hy.
    apply list_elem_of_filter in Hy as [[Hky _] Hy]. destruct Hx. rewrite Hk, <- Hky. by apply list_elem_of_fmap_2.
  - rewrite decide_False by tauto. by apply IH.
Qed.

(** Without the elements of a key the table lacks its entry. *)
Lemma table_of_without {K A} `{Countable K} (key : A → K) (xs : list A) k :
  NoDup (key <$> xs) → table_of key (filter (λ x, key x ≠ k) xs) = delete k (table_of key xs).
Proof.
  intros Hn. apply map_eq. intros i. rewrite table_of_filter by done. rewrite lookup_delete, table_of_head.
  destruct (head _) as [x|] eqn:Hx; cbn; [|by case_decide]. apply head_Some_elem_of, list_elem_of_filter in Hx as [Hx _].
  rewrite Hx. repeat case_decide; congruence.
Qed.

(** * LeaseRepository *)

(** The lease of a job, or with an identifier, in a tenant. *)
Definition of_job (j : JobId) (t : TenantId) (l : lease) : Prop := l_job_id l = j ∧ l_tenant_id l = t.
Definition of_worker (w : WorkerId) (t : TenantId) (l : lease) : Prop := l_worker_id l = w ∧ l_tenant_id l = t.
Definition named_lease (id : LeaseId) (t : TenantId) (l : lease) : Prop := l_id l = id ∧ l_tenant_id l = t.
#[global] Instance of_job_dec j t l : Decision (of_job j t l) := _.
#[global] Instance of_worker_dec w t l : Decision (of_worker w t l) := _.
#[global] Instance named_lease_dec id t l : Decision (named_lease id t l) := _.

(** What renewing and deleting do to the leases there are. *)
Definition renewed (id : LeaseId) (t : TenantId) (expires_at : datetime) (ls : list lease) : list lease :=
  (λ l, if decide (named_lease id t l) then set_expires_at expires_at l else l) <$> ls.
Definition without_job (j : JobId) (t : TenantId) (ls : list lease) : list lease := filter (λ l, ¬ of_job j t l) ls.

(** A lease that nothing there stands in the way of: no lease has its identifier, its
    job or its worker. *)
Definition fresh_lease (x : lease) (ls : list lease) : Prop :=
  Forall (λ l, l_id l ≠ l_id x ∧ l_job_id l ≠ l_job_id x ∧ l_worker_id l ≠ l_worker_id x) ls.

(** [held s ls]: [ls] are the leases in [s]; [reads s]: what the clock reads if a method is
    called now; [admits s x]: the rows [x] refers to are there. *)
Class LeaseRepository (S : Type) := {
  save : lease → S → S * (exn + unit);
  renew : LeaseId → timedelta → TenantId → S → S * (exn + unit);
  get_by_job_id : JobId → TenantId → S → S * (exn + option lease);
  get_by_worker_id : WorkerId → TenantId → S → S * (exn + option lease);
  list_across_tenants : S → S * (exn + list lease);
  delete : JobId → TenantId → S → S * (exn + unit);
  delete_if_expired : JobId → TenantId → S → S * (exn + bool);

  held : S → list lease → Prop;
  reads : S → datetime;
  admits : S → lease → Prop;

  held_unique s ls : held s ls → NoDup (l_id <$> ls) ∧ NoDup (l_job_id <$> ls);
  save_law s ls x : held s ls → admits s x → fresh_lease x ls →
    ∃ s', save x s = (s', inr tt) ∧ held s' (x :: ls);
  renew_law s ls id duration t : held s ls →
    let '(s', r) := renew id duration t s in
    held s' (renewed id t (reads s + duration) ls) ∧
    r = if decide (Exists (named_lease id t) ls) then inr tt else inl (LeaseNotFoundError id);
  get_by_job_id_law s ls j t : held s ls →
    ∃ s' o, get_by_job_id j t s = (s', inr o) ∧ held s' ls ∧
      match o with Some l => l ∈ ls ∧ of_job j t l | None => Forall (λ l, ¬ of_job j t l) ls end;
  get_by_worker_id_law s ls w t : held s ls →
    ∃ s' o, get_by_worker_id w t s = (s', inr o) ∧ held s' ls ∧
      match o with Some l => l ∈ ls ∧ of_worker w t l | None => Forall (λ l, ¬ of_worker w t l) ls end;
  list_law s ls : held s ls → ∃ s' l, list_across_tenants s = (s', inr l) ∧ held s' ls ∧ l ≡ₚ ls;
  delete_law s ls j t : held s ls → ∃ s', delete j t s = (s', inr tt) ∧ held s' (without_job j t ls);
  delete_if_expired_law s ls j t : held s ls →
    ∃ s' b, delete_if_expired j t s = (s', inr b) ∧ held s' (if b then without_job j t ls else ls) ∧
      if b then Exists (λ l, of_job j t l ∧ l_expires_at l <= reads s) ls
      else Forall (λ l, of_job j t l → reads s <= l_expires_at l) ls;
}.

(** ** What a client sees *)

Inductive lease_call :=
  | Save (x : lease)
  | Renew (id : LeaseId) (duration : timedelta) (t : TenantId)
  | GetByJob (j : JobId) (t : TenantId)
  | GetByWorker (w : WorkerId) (t : TenantId)
  | ListAll
  | Delete (j : JobId) (t : TenantId)
  | DeleteIfExpired (j : JobId) (t : TenantId).

Inductive lease_answer := Done | Found (o : option lease) | Listed (l : list lease) | Went (b : bool) | Raised (e : exn).

(** The contract as a relation: at time [now] the call leads from these leases to
    those, with that answer.  Whether a lease that runs out at this very moment goes is
    left to the implementation. *)
Inductive lease_step (now : datetime) (ls : list lease) : lease_call → list lease → lease_answer → Prop :=
  | step_save x : fresh_lease x ls → lease_step now ls (Save x) (x :: ls) Done
  | step_renew id duration t : Exists (named_lease id t) ls → lease_step now ls (Renew id duration t) (renewed id t (now + duration) ls) Done
  | step_renew_missing id duration t : Forall (λ l, ¬ named_lease id t l) ls →
      lease_step now ls (Renew id duration t) ls (Raised (LeaseNotFoundError id))
  | step_by_job j t l : l ∈ ls → of_job j t l → lease_step now ls (GetByJob j t) ls (Found (Some l))
  | step_no_job j t : Forall (λ l, ¬ of_job j t l) ls → lease_step now ls (GetByJob j t) ls (Found None)
  | step_by_worker w t l : l ∈ ls → of_worker w t l → lease_step now ls (GetByWorker w t) ls (Found (Some l))
  | step_no_worker w t : Forall (λ l, ¬ of_worker w t l) ls → lease_step now ls (GetByWorker w t) ls (Found None)
  | step_list l : l ≡ₚ ls → lease_step now ls ListAll ls (Listed l)
  | step_delete j t : lease_step now ls (Delete j t) (without_job j t ls) Done
  | step_expired j t : Exists (λ l, of_job j t l ∧ l_expires_at l <= now) ls →
      lease_step now ls (DeleteIfExpired j t) (without_job j t ls) (Went true)
  | step_not_expired j t : Forall (λ l, of_job j t l → now <= l_expires_at l) ls → lease_step now ls (DeleteIfExpired j t) ls (Went false).

Section client.
Context {S : Type} `{!LeaseRepository S}.
Implicit Types (s : S) (ls : list lease).

Definition answered {A} (f : A → lease_answer) (p : S * (exn + A)) : S * lease_answer :=
  (p.1, match p.2 with inl e => Raised e | inr a => f a end).

Definition call_lease (c : lease_call) s : S * lease_answer :=
  match c with
  | Save x => answered (λ _, Done) (save x s)
  | Renew id duration t => answered (λ _, Done) (renew id duration t s)
  | GetByJob j t => answered Found (get_by_job_id j t s)
  | GetByWorker w t => answered Found (get_by_worker_id w t s)
  | ListAll => answered Listed (list_across_tenants s)
  | Delete j t => answered (λ _, Done) (delete j t s)
  | DeleteIfExpired j t => answered Went (delete_if_expired j t s)
  end.

(** A call the contract speaks about: a lease is saved when it is acquired. *)
Definition call_ok s ls (c : lease_call) : Prop := match c with Save x => admits s x ∧ fresh_lease x ls | _ => True end.

Lemma renewed_nobody id t at_ ls : ¬ Exists (named_lease id t) ls → renewed id t at_ ls = ls.
Proof.
  intros Hn. unfold renewed. rewrite <- (list_fmap_id ls) at 2. apply list_fmap_ext. intros i l Hl. cbn.
  rewrite decide_False; [done|]. intros ?. apply Hn, Exists_exists. exists l. split; [by eapply list_elem_of_lookup_2|done].
Qed.

(** Every implementation does what the relation allows. *)
Lemma call_refines c s ls : held s ls → call_ok s ls c →
  let '(s', a) := call_lease c s in ∃ ls', lease_step (reads s) ls c ls' a ∧ held s' ls'.
Proof.
  intros Hs Hc. destruct c as [x|id duration t|j t|w t| |j t|j t]; cbn in *.
  - destruct Hc as [Ha Hf]. destruct (save_law s ls x Hs Ha Hf) as (s' & -> & Hs'). exists (x :: ls). split; [by constructor|done].
  - pose proof (renew_law s ls id duration t Hs) as Hr. destruct (renew id duration t s) as [s' r]. destruct Hr as [Hs' ->]. cbn.
    destruct (decide _) as [He|Hn]; cbn; eexists; (split; [|exact Hs']); [by constructor|].
    rewrite renewed_nobody by done. constructor. apply Forall_forall. intros l Hl ?. apply Hn, Exists_exists. eauto.
  - destruct (get_by_job_id_law s ls j t Hs) as (s' & o & -> & Hs' & Ho). exists ls. split; [|done]. cbn. destruct o; [destruct Ho|]; by constructor.
  - destruct (get_by_worker_id_law s ls w t Hs) as (s' & o & -> & Hs' & Ho). exists ls. split; [|done]. cbn. destruct o; [destruct Ho|]; by constructor.
  - destruct (list_law s ls Hs) as (s' & l & -> & Hs' & Hl). exists ls. split; [by constructor|done].
  - destruct (delete_law s ls j t Hs) as (s' & -> & Hs'). eexists. split; [constructor|done].
  - destruct (delete_if_expired_law s ls j t Hs) as (s' & b & -> & Hs' & Hb). cbn. destruct b; eexists; (split; [by constructor|done]).
Qed.

(** Calls one after the other. *)
Definition call_leases (cs : list lease_call) s : S := foldl (λ s c, (call_lease c s).1) s cs.

(** [P] holds of every call of a sequence, at the state it is made in. *)
Fixpoint all_calls (P : lease_call → S → Prop) (cs : list lease_call) s : Prop :=
  match cs with [] => True | c :: cs => P c s ∧ all_calls P cs (call_lease c s).1 end.

Definition call_allowed (c : lease_call) s : Prop := ∀ ls, held s ls → call_ok s ls c.

(** What the steps keep, the sequences keep. *)
Lemma calls_keep (P : lease_call → S → Prop) (I : list lease → Prop) cs s ls :
  (∀ s ls c ls' a, held s ls → P c s → lease_step (reads s) ls c ls' a → I ls → I ls') →
  held s ls → I ls → all_calls (λ c s, call_allowed c s ∧ P c s) cs s → ∃ ls', held (call_leases cs s) ls' ∧ I ls'.
Proof.
  intros Hstep. revert s ls. induction cs as [|c cs IH]; intros s ls Hs Hi Hcs; [by exists ls|]. destruct Hcs as [[Hc Hp] Hcs].
  pose proof (call_refines c s ls Hs (Hc ls Hs)) as Hr. cbn. destruct (call_lease c s) as [s1 a] eqn:Hcall.
  destruct Hr as (ls1 & Hl & Hs1). cbn in *. eapply IH; [exact Hs1|exact (Hstep s ls c ls1 a Hs Hp Hl Hi)|exact Hcs].
Qed.

(** ** A lease that is gone stays gone *)

Definition not_saved (i : LeaseId) (c : lease_call) s : Prop := match c with Save x => l_id x ≠ i | _ => True end.

Lemma renewed_ids id t at_ ls : l_id <$> renewed id t at_ ls = l_id <$> ls.
Proof. unfold renewed. rewrite <- list_fmap_compose. apply list_fmap_ext. intros ? l _. cbn. by case_decide. Qed.

Lemma without_job_ids i j t ls : i ∉ l_id <$> ls → i ∉ l_id <$> without_job j t ls.
Proof. intros Hi (l & -> & [_ Hl]%list_elem_of_filter)%list_elem_of_fmap. apply Hi. by apply list_elem_of_fmap_2. Qed.

Lemma step_keeps_gone i s ls c ls' a : held s ls → not_saved i c s → lease_step (reads s) ls c ls' a → i ∉ l_id <$> ls → i ∉ l_id <$> ls'.
Proof.
  intros _ Hn Hstep Hi. destruct Hstep; cbn in *; try done; try (by rewrite renewed_ids); try (by apply without_job_ids).
  intros [?|?]%elem_of_cons; [congruence|done].
Qed.

Lemma without_own_job l ls : NoDup (l_id <$> ls) → l ∈ ls → l_id l ∉ l_id <$> without_job (l_job_id l) (l_tenant_id l) ls.
Proof.
  intros Hn Hl (l' & He & [Hnot Hl']%list_elem_of_filter)%list_elem_of_fmap. apply Hnot.
  by rewrite (nodup_key l_id ls l' l) by done.
Qed.

Lemma renew_missing s ls i duration t : held s ls → i ∉ l_id <$> ls → (renew i duration t s).2 = inl (LeaseNotFoundError i).
Proof.
  intros Hs Hi. pose proof (renew_law s ls i duration t Hs) as Hr. destruct (renew i duration t s) as [s' r]. destruct Hr as [_ ->]. cbn.
  rewrite decide_False; [done|]. intros (l & Hl & <- & _)%Exists_exists. apply Hi. by apply list_elem_of_fmap_2.
Qed.

(** ** A lease that was renewed is left alone *)

(** A call that is neither the end of the lease nor a new expiry for it. *)
Definition spares (j : JobId) (id : LeaseId) (t : TenantId) (deadline : datetime) (c : lease_call) s : Prop :=
  match c with
  | Renew id' _ t' => (id', t') ≠ (id, t)
  | Delete j' t' => (j', t') ≠ (j, t)
  | DeleteIfExpired _ _ => reads s < deadline
  | _ => True
  end.

(** The lease is there, with that expiry. *)
Definition stands (j : JobId) (id : LeaseId) (t : TenantId) (deadline : datetime) ls : Prop :=
  ∃ l, l ∈ ls ∧ l_id l = id ∧ l_tenant_id l = t ∧ l_job_id l = j ∧ l_expires_at l = deadline.

Lemma lease_of_job_unique s ls l l' : held s ls → l ∈ ls → l' ∈ ls → l_job_id l = l_job_id l' → l = l'.
Proof.
  intros Hs. apply nodup_key, (held_unique s ls Hs).
Qed.

Lemma stays_without j id t deadline j' t' ls : (j', t') ≠ (j, t) → stands j id t deadline ls → stands j id t deadline (without_job j' t' ls).
Proof.
  intros Hne (l & Hl & Hi & Ht & Hj & He). exists l. split_and!; try done. apply list_elem_of_filter. split; [|done].
  intros [? ?]. apply Hne. congruence.
Qed.

Lemma step_keeps_standing j id t deadline s ls c ls' a : held s ls →
  spares j id t deadline c s → lease_step (reads s) ls c ls' a → stands j id t deadline ls → stands j id t deadline ls'.
Proof.
  intros Hs Hc Hstep (l & Hl & Hi & Ht & Hj & He).
  assert (stands j id t deadline ls) as Hst by (by exists l).
  destruct Hstep as [x _|id' duration t' _| | | | | | |j' t'|j' t' Hx|]; cbn in Hc; try done.
  - exists l. split_and!; try done. by right.
  - exists l. split_and!; try done. apply list_elem_of_fmap. exists l. split; [|done]. rewrite decide_False; [done|].
    intros [? ?]. apply Hc. congruence.
  - by apply stays_without.
  - apply stays_without; [|done]. intros [= -> ->]. apply Exists_exists in Hx as (l' & Hl' & [Hj' _] & He').
    assert (l' = l) as -> by (eapply lease_of_job_unique; [exact Hs|done|done|congruence]). lia.
Qed.

Lemma standing_not_reclaimed s ls j id t deadline : held s ls → stands j id t deadline ls → reads s < deadline →
  (delete_if_expired j t s).2 = inr false.
Proof.
  intros Hs (l & Hl & Hi & Ht & Hj & He) Hnow. destruct (delete_if_expired_law s ls j t Hs) as (s' & b & -> & _ & Hb). cbn.
  destruct b; [|done]. apply Exists_exists in Hb as (l' & Hl' & [Hj' _] & He').
  assert (l' = l) as -> by (eapply lease_of_job_unique; [exact Hs|done|done|congruence]). lia.
Qed.

Lemma renewed_stands s ls l duration : held s ls → l ∈ ls →
  held (renew (l_id l) duration (l_tenant_id l) s).1 (renewed (l_id l) (l_tenant_id l) (reads s + duration) ls) ∧
  stands (l_job_id l) (l_id l) (l_tenant_id l) (reads s + duration) (renewed (l_id l) (l_tenant_id l) (reads s + duration) ls).
Proof.
  intros Hs Hl. pose proof (renew_law s ls (l_id l) duration (l_tenant_id l) Hs) as Hr. destruct (renew _ _ _ s) as [s1 r].
  split; [apply Hr|]. exists (set_expires_at (reads s + duration) l). split_and!; try done.
  apply list_elem_of_fmap. exists l. split; [|done]. by rewrite decide_True.
Qed.
End client.

(** C38: The lease race, for any implementation of the contract.  When [delete_if_expired]
    answers True, the lease of that job had run out, and from then on, whatever calls
    follow that do not save a lease under its identifier, renewing it raises
    LeaseNotFoundError in every tenant: nothing resurrects it.  When [renew] succeeds,
    then, whatever calls follow that neither delete the lease of that job outright nor renew
    it again, [delete_if_expired] answers False until the new expiry. *)
Theorem lease_race_closed {S : Type} `{!LeaseRepository S} s ls l :
  held s ls → l ∈ ls →
  (∀ s1, delete_if_expired (l_job_id l) (l_tenant_id l) s = (s1, inr true) →
    l_expires_at l <= reads s ∧
    ∀ cs, all_calls (λ c s, call_allowed c s ∧ not_saved (l_id l) c s) cs s1 →
      ∀ duration t, (renew (l_id l) duration t (call_leases cs s1)).2 = inl (LeaseNotFoundError (l_id l))) ∧
  (∀ duration, let deadline := reads s + duration in
    let '(s1, r) := renew (l_id l) duration (l_tenant_id l) s in
    r = inr tt ∧
    ∀ cs, all_calls (λ c s, call_allowed c s ∧ spares (l_job_id l) (l_id l) (l_tenant_id l) deadline c s) cs s1 →
      reads (call_leases cs s1) < deadline → (delete_if_expired (l_job_id l) (l_tenant_id l) (call_leases cs s1)).2 = inr false).
Proof.
  intros Hs Hl. split.
  - intros s1 Hd. destruct (delete_if_expired_law s ls (l_job_id l) (l_tenant_id l) Hs) as (s' & b & Hd' & Hs1 & Hb).
    rewrite Hd' in Hd. injection Hd as -> ->. split.
    + apply Exists_exists in Hb as (l' & Hl' & [Hj _] & He). by rewrite <- (lease_of_job_unique s ls l' l Hs Hl' Hl Hj).
    + intros cs Hcs duration t. destruct (held_unique s ls Hs) as [Hn _].
      destruct (calls_keep _ _ cs s1 _ (step_keeps_gone (l_id l)) Hs1 (without_own_job l ls Hn Hl) Hcs) as (ls' & Hs' & Hi).
      by eapply renew_missing.
  - intros duration deadline. destruct (renewed_stands s ls l duration Hs Hl) as [Hs1 Hst]. fold deadline in Hst.
    pose proof (renew_law s ls (l_id l) duration (l_tenant_id l) Hs) as Hr. destruct (renew _ _ _ s) as [s1 r]. cbn in Hs1. destruct Hr as [_ ->].
    split; [rewrite decide_True; [done|]; apply Exists_exists; exists l; by split_and!|].
    intros cs Hcs Hnow. destruct (calls_keep _ _ cs s1 _ (step_keeps_standing _ _ _ deadline) Hs1 Hst Hcs) as (ls' & Hs' & Hst').
    by eapply standing_not_reclaimed.
Qed.

(** ** PostgreSQL *)

Lemma rows_filter {K V} `{Countable K} (P : V → Prop) `{!∀ v, Decision (P v)} (m : gmap K V) :
  rows (filter (λ kv, P kv.2) m) ≡ₚ filter P (rows m).
Proof.
  unfold rows. induction m as [|k v m Hk IH] using map_ind; [done|]. rewrite (map_to_list_insert m k v) by done. cbn [fmap list_fmap].
  rewrite filter_cons. case_decide as Hv.
  - rewrite map_filter_insert_True by done. rewrite map_to_list_insert by (by apply map_lookup_filter_None; left). cbn. by rewrite IH.
  - rewrite map_filter_insert_not' by (try done; intros ? [=]; congruence). by rewrite IH.
Qed.

Lemma rows_fmap {K V W} `{Countable K} (f : V → W) (m : gmap K V) : rows (f <$> m) = f <$> rows m.
Proof. unfold rows. rewrite map_to_list_fmap, <- !list_fmap_compose. done. Qed.

Section postgres.
Context {E : Env} `{!Quiet E}.

Definition pg_held (w : world) (ls : list lease) : Prop := integrity (w_db w) ∧ rows (db_leases (w_db w)) ≡ₚ ls.
Definition pg_reads (w : world) : datetime := clock (w_step w).
Definition pg_admits (w : world) (x : lease) : Prop :=
  fk_worker (w_db w) (l_worker_id x) (l_tenant_id x) = true ∧ fk_job (w_db w) (l_job_id x) (l_tenant_id x) = true ∧
  fk_tenant (w_db w) (l_tenant_id x) = true.

Lemma rows_nodup {B} (f : lease → B) (m : gmap LeaseId lease) : (∀ k l k' l', m !! k = Some l → m !! k' = Some l' → f l = f l' → k = k') → NoDup (f <$> rows m).
Proof.
  intros Hf. unfold rows. rewrite <- list_fmap_compose. apply NoDup_fmap_2_strong; [|apply NoDup_map_to_list].
  intros [k l] [k' l'] Hl%elem_of_map_to_list Hl'%elem_of_map_to_list He. cbn in *. assert (k = k') as -> by (by eapply Hf). congruence.
Qed.

Lemma pg_held_unique w ls : pg_held w ls → NoDup (l_id <$> ls) ∧ NoDup (l_job_id <$> ls).
Proof.
  intros [Hi Hls]. split; rewrite <- Hls; apply rows_nodup.
  - intros k l k' l' Hl Hl' He. destruct (int_leases _ Hi _ _ Hl) as [<- _], (int_leases _ Hi _ _ Hl') as [<- _]. done.
  - apply (int_lease_job _ Hi).
Qed.

Lemma wp_returns {A} (m : prog A) Q w : wp m Q (λ _ _, False) w → ∃ w' a, m w = (w', inr a) ∧ Q a w'.
Proof. unfold wp. destruct (m w) as [w' [e|a]]; [done|]. eauto. Qed.

Lemma matches_job j t l : lease_matches_job j t l = true ↔ of_job j t l.
Proof. unfold lease_matches_job, of_job. rewrite andb_true_iff, !bool_decide_eq_true. done. Qed.
Lemma matches_worker w t l : lease_matches_worker w t l = true ↔ of_worker w t l.
Proof. unfold lease_matches_worker, of_worker. rewrite andb_true_iff, !bool_decide_eq_true. done. Qed.

(** A lookup by a condition on the leases. *)
Lemma pg_find (f : lease → bool) (P : lease → Prop) w ls : (∀ l, f l = true ↔ P l) → pg_held w ls →
  ∃ w' o, fetchone (λ d, filter (λ l, f l = true) (rows (db_leases d))) w = (w', inr o) ∧ pg_held w' ls ∧
    match o with Some l => l ∈ ls ∧ P l | None => Forall (λ l, ¬ P l) ls end.
Proof.
  intros Hf Hw. destruct w as [d n]. apply wp_returns, wp_fetchone. intros o k Ho _. split; [done|]. destruct Hw as [_ Hls]. cbn in *. destruct o as [l|].
  - apply list_elem_of_filter in Ho as [?%Hf Hl]. split; [by rewrite <- Hls|done].
  - apply Forall_forall. intros l Hl HP. rewrite <- Hls in Hl. eapply elem_of_nil. rewrite <- Ho. apply list_elem_of_filter. split; [by apply Hf|done].
Qed.

Lemma pg_list_law w ls : pg_held w ls → ∃ w' l, Repos.LeaseRepository.list_across_tenants w = (w', inr l) ∧ pg_held w' ls ∧ l ≡ₚ ls.
Proof.
  intros Hw. destruct w as [d n]. apply wp_returns, wp_select_rows. intros l k Hl _. split; [done|]. destruct Hw as [_ Hls]. by rewrite Hl.
Qed.

Lemma pg_lease_save_law w ls x : pg_held w ls → pg_admits w x → fresh_lease x ls →
  ∃ w', Repos.LeaseRepository.save x w = (w', inr tt) ∧ pg_held w' (x :: ls).
Proof.
  intros [Hi Hls] (Hw & Hj & Ht) Hf. destruct w as [d n]. cbn in *. unfold fresh_lease in Hf. rewrite <- Hls, Forall_forall in Hf.
  pose proof (upsert_lease_integrity x d Hi) as Hi'.
  assert (upsert_lease x d = (set_leases (<[l_id x := x]> (db_leases d)) d, inr tt)) as Hu.
  { unfold upsert_lease. assert (worker_taken d x = false) as ->. { apply existsb_rows_false. intros k l Hl. apply andb_false_iff. left.
      apply bool_decide_eq_false. apply (Hf l). apply elem_of_rows. eauto. }
    assert (job_taken d x = false) as ->. { apply existsb_rows_false. intros k l Hl. apply andb_false_iff. left.
      apply bool_decide_eq_false. apply (Hf l). apply elem_of_rows. eauto. }
    by rewrite Hw, Hj, Ht. }
  unfold Repos.LeaseRepository.save, statement. cbn. rewrite quiet. rewrite Hu in *. eexists. split; [reflexivity|]. split; [exact Hi'|]. cbn.
  unfold rows. rewrite map_to_list_insert.
  - cbn. by constructor.
  - destruct (db_leases d !! l_id x) as [l|] eqn:Hl; [|done]. destruct (int_leases _ Hi _ _ Hl) as [He _].
    destruct (Hf l) as [Hne _]; [apply elem_of_rows; eauto|done].
Qed.

(** Renewing a row is renewing in the list. *)
Lemma renewed_rows d id t at_ l : integrity d → db_leases d !! id = Some l → l_tenant_id l = t →
  rows (<[id := set_expires_at at_ l]> (db_leases d)) = renewed id t at_ (rows (db_leases d)).
Proof.
  intros Hi Hl Ht. unfold renewed. rewrite <- rows_fmap. f_equal. apply map_eq. intros k. rewrite lookup_fmap.
  destruct (decide (id = k)) as [<-|Hne].
  - rewrite lookup_insert_eq, Hl. cbn. rewrite decide_True; [done|]. split; [|done]. apply (int_leases _ Hi _ _ Hl).
  - rewrite lookup_insert_ne by done. destruct (db_leases d !! k) as [l'|] eqn:Hl'; [|done]. cbn. rewrite decide_False; [done|].
    intros [Hid _]. apply Hne. rewrite <- Hid. by destruct (int_leases _ Hi _ _ Hl').
Qed.

Lemma renewed_perm id t at_ ls ls' : ls ≡ₚ ls' → renewed id t at_ ls ≡ₚ renewed id t at_ ls'.
Proof. intros H. unfold renewed. by rewrite H. Qed.
Lemma without_perm j t ls ls' : ls ≡ₚ ls' → without_job j t ls ≡ₚ without_job j t ls'.
Proof. intros H. unfold without_job. by rewrite H. Qed.

Lemma pg_renew_law w ls id duration t : pg_held w ls →
  let '(w', r) := Repos.LeaseRepository.renew id duration t w in
  pg_held w' (renewed id t (pg_reads w + duration) ls) ∧
  r = if decide (Exists (named_lease id t) ls) then inr tt else inl (LeaseNotFoundError id).
Proof.
  intros [Hi Hls]. destruct w as [d n]. cbn in *. unfold Repos.LeaseRepository.renew, statement, utc_now. stM_unfold. cbn. rewrite quiet.
  pose proof (update_lease_expiry_integrity id t (clock n + duration) d Hi) as Hi'. unfold update_lease_expiry in *.
  assert (∀ l, db_leases d !! id = Some l → l_tenant_id l = t → Exists (named_lease id t) ls) as Hyes.
  { intros l Hl Ht. apply Exists_exists. exists l. split; [rewrite <- Hls; apply elem_of_rows; eauto|]. split; [|done]. apply (int_leases _ Hi _ _ Hl). }
  assert (Exists (named_lease id t) ls → ∃ l, db_leases d !! id = Some l ∧ l_tenant_id l = t) as Hno.
  { intros (l & Hl & <- & <-)%Exists_exists. rewrite <- Hls in Hl. apply elem_of_rows in Hl as [k Hk]. exists l. split; [|done].
    destruct (int_leases _ Hi _ _ Hk) as [-> _]. done. }
  destruct (db_leases d !! id) as [l|] eqn:Hl; [case_bool_decide as Ht|]; cbn in *; (split; [split; cbn|]).
  - exact Hi'.
  - rewrite (renewed_rows d id t _ l) by done. by apply renewed_perm.
  - rewrite decide_True; [done|eauto].
  - done.
  - rewrite renewed_nobody; [done|]. intros (l' & [= <-] & ?)%Hno. done.
  - rewrite decide_False; [done|]. intros (l' & [= <-] & ?)%Hno. done.
  - done.
  - rewrite renewed_nobody; [done|]. by intros (l' & ? & _)%Hno.
  - rewrite decide_False; [done|]. by intros (l' & ? & _)%Hno.
Qed.

(** Deleting the rows [f] selects; at most one lease is of a job, so if one is selected,
    all of the job's are. *)
Lemma pg_delete_rows (f : lease → bool) d j t ls : integrity d → rows (db_leases d) ≡ₚ ls → (∀ l, l ∈ ls → f l = true ↔ of_job j t l) →
  rows (filter (λ kv, f kv.2 = false) (db_leases d)) ≡ₚ without_job j t ls.
Proof.
  intros Hi Hls Hf. etransitivity; [exact (rows_filter (λ l, f l = false) _)|]. rewrite Hls. unfold without_job. clear Hls.
  apply reflexive_eq, filter_agree. intros l Hl. rewrite <- (Hf l Hl). by destruct (f l).
Qed.

Lemma pg_lease_delete_law w ls j t : pg_held w ls → ∃ w', Repos.LeaseRepository.delete j t w = (w', inr tt) ∧ pg_held w' (without_job j t ls).
Proof.
  intros [Hi Hls]. destruct w as [d n]. cbn in *. unfold Repos.LeaseRepository.delete, statement. cbn. rewrite quiet. eexists. split; [reflexivity|].
  split; [apply (delete_lease_integrity j t d Hi)|]. cbn. apply (pg_delete_rows (lease_matches_job j t) d); [done..|]. intros l _. apply matches_job.
Qed.

Lemma pg_delete_if_expired_law w ls j t : pg_held w ls →
  ∃ w' b, Repos.LeaseRepository.delete_if_expired j t w = (w', inr b) ∧ pg_held w' (if b then without_job j t ls else ls) ∧
    if b then Exists (λ l, of_job j t l ∧ l_expires_at l <= pg_reads w) ls else Forall (λ l, of_job j t l → pg_reads w <= l_expires_at l) ls.
Proof.
  intros Hw. pose proof (pg_held_unique w ls Hw) as [_ Hn]. destruct Hw as [Hi Hls]. destruct w as [d n]. cbn in *.
  unfold Repos.LeaseRepository.delete_if_expired, statement, utc_now. stM_unfold. cbn. rewrite quiet. do 2 eexists. split; [reflexivity|].
  pose proof (delete_lease_if_expired_integrity j t (clock n) d Hi) as Hi'. cbn in Hi'. unfold pg_reads. cbn.
  set (hit l := lease_matches_job j t l && (l_expires_at l <? clock n)) in *.
  assert (∀ l, hit l = true ↔ of_job j t l ∧ l_expires_at l < clock n) as Hhit by (intros l; unfold hit; rewrite andb_true_iff, matches_job, Z.ltb_lt; done).
  destruct (existsb hit (rows (db_leases d))) eqn:Hb.
  - apply existsb_exists in Hb as (l & Hl%list_elem_of_In & [Hj He]%Hhit). rewrite Hls in Hl. split; [split; [exact Hi'|]|].
    + apply (pg_delete_rows hit d); [done..|]. intros l' Hl'. rewrite Hhit. split; [by intros [? _]|]. intros Hj'. split; [done|].
      rewrite (nodup_key l_job_id ls l' l); [done..|]. destruct Hj, Hj'. congruence.
    + apply Exists_exists. exists l. split; [done|]. split; [done|lia].
  - rewrite existsb_rows_false in Hb. split; [split; [exact Hi'|]|].
    + cbn. rewrite map_filter_id; [done|]. intros k l Hl. cbn. by apply (Hb k).
    + apply Forall_forall. intros l Hl Hj. rewrite <- Hls in Hl. apply elem_of_rows in Hl as [k Hk].
      destruct (Z.le_gt_cases (clock n) (l_expires_at l)); [done|]. assert (hit l = true) by (by apply Hhit). rewrite (Hb k l Hk) in *. done.
Qed.

#[global] Instance postgres_leases : LeaseRepository world := {|
  save := Repos.LeaseRepository.save; renew := Repos.LeaseRepository.renew; get_by_job_id := Repos.LeaseRepository.get_by_job_id;
  get_by_worker_id := Repos.LeaseRepository.get_by_worker_id; list_across_tenants := Repos.LeaseRepository.list_across_tenants;
  delete := Repos.LeaseRepository.delete; delete_if_expired := Repos.LeaseRepository.delete_if_expired;
  held := pg_held; reads := pg_reads; admits := pg_admits;
  held_unique := pg_held_unique; save_law := pg_lease_save_law; renew_law := pg_renew_law;
  get_by_job_id_law w ls j t := pg_find _ _ w ls (matches_job j t);
  get_by_worker_id_law w ls x t := pg_find _ _ w ls (matches_worker x t);
  list_law := pg_list_law; delete_law := pg_lease_delete_law; delete_if_expired_law := pg_delete_if_expired_law |}.
End postgres.

(** ** Memory *)

Section dicts.
Context {K V : Type} `{Countable K} (key : V → K).
Implicit Types m : memory K V.

Lemma dict_del_subset k (d : list (K * ref)) e : e ∈ dict_del k d → e ∈ d.
Proof. induction d as [|[k' q] d IH]; cbn; [done|]. case_bool_decide; [by right|]. intros [->|?]%elem_of_cons; [left|right; auto]. Qed.

Lemma dict_del_wf m k : dict_wf key m → dict_wf key (set_dict (dict_del k (dict m)) m).
Proof.
  intros [Hn Ho]. split; cbn.
  - clear Ho. induction (dict m) as [|[k' q] d IH]; cbn in *; [done|]. apply NoDup_cons in Hn as [Hk Hn]. case_bool_decide; [done|]. cbn. constructor; [|by apply IH].
    intros (e & -> & He%dict_del_subset)%list_elem_of_fmap. apply Hk. by apply list_elem_of_fmap_2.
  - rewrite Forall_forall in *. intros e He%dict_del_subset. by apply Ho.
Qed.

Lemma del_entities m k : dict_wf key m → entities (set_dict (dict_del k (dict m)) m) = filter (λ v, key v ≠ k) (entities m).
Proof.
  intros [Hn Ho]. rewrite !entities_omap. cbn. induction Ho as [|[k' p] d (v & Hv & Hk) Ho IH]; [done|]. cbn in *. apply NoDup_cons in Hn as [Hnk Hn].
  rewrite Hv. rewrite filter_cons, Hk. case_bool_decide as Hkk.
  - subst k'. rewrite decide_False by (intros ?; done). clear IH Hn Hv. induction Ho as [|[k2 p2] d (v2 & Hv2 & Hk2) Ho IH]; [done|]. cbn in *. rewrite Hv2.
    rewrite filter_cons_True, <- IH; [done|..].
    + intros Hin. apply Hnk. by right.
    + rewrite Hk2. intros ->. apply Hnk. rewrite Hkk. left.
  - rewrite decide_True by done. cbn. rewrite Hv. by rewrite IH.
Qed.

Lemma values_get m p v : dict_wf key m → (p, v) ∈ values m → dict_get (key v) (dict m) = Some p ∧ heap m !! p = Some v.
Proof.
  intros [Hn Ho] Hv. split; [|by apply (values_lookup m)]. unfold values in Hv. apply list_elem_of_omap in Hv as ([k q] & He & Hq). cbn in Hq.
  destruct (heap m !! q) as [v'|] eqn:Hv'; [|done]. cbn in Hq. injection Hq as -> ->.
  rewrite Forall_forall in Ho. destruct (Ho _ He) as (x & Hx & Hk). cbn in *. assert (key v = k) as -> by congruence. clear Ho Hx Hk Hv'.
  induction (dict m) as [|[k' q'] d IH]; [by apply elem_of_nil in He|]. cbn in *. apply NoDup_cons in Hn as [Hnk Hn].
  apply elem_of_cons in He as [[= <- <-]|He]; [by rewrite bool_decide_eq_true_2|]. rewrite bool_decide_eq_false_2; [by apply IH|].
  intros ->. apply Hnk. apply (list_elem_of_fmap_2 fst) in He. done.
Qed.

(** [save] without a test of the tenant is the other one where all have one tenant. *)
Lemma save_plain_owned e m p : save_plain key p m = (save_owned key (λ _, mkTenantId 1) e p m).1.
Proof.
  unfold save_plain, save_owned. destruct (heap m !! p) as [v|]; [|done]. destruct (dict_get _ _ ≫= _); [|done]. by rewrite bool_decide_eq_true_2.
Qed.

Lemma save_plain_new m x : dict_wf key m →
  let '(m1, p) := alloc x m in
  dict_wf key (save_plain key p m1) ∧ entities (save_plain key p m1) = (put_in key (λ _, mkTenantId 1) x (entities m)).1.
Proof.
  intros Hm. cbn. pose proof (alloc_wf key x m Hm) as Hm1. cbn in Hm1. rewrite (save_plain_owned InvalidApiKeyError).
  pose proof (save_entities key (λ _, mkTenantId 1) InvalidApiKeyError _ (length (heap m)) x Hm1) as Hs.
  destruct (save_owned _ _ _ _ _) as [m' r]. destruct Hs as (_ & Hw & He & _); [cbn; by apply list_lookup_middle|].
  split; [done|]. cbn. rewrite He. unfold entities at 1. by rewrite (values_app key).
Qed.
End dicts.

Section memory.
(** The readings of [datetime.now(UTC)], one per call. *)
Context (clock : nat → datetime).

Record memory_leases := mkLeases { ml_objects : memory JobId lease; ml_calls : nat }.
Implicit Types (s : memory_leases) (ls : list lease).

Definition ml_held s ls : Prop :=
  dict_wf l_job_id (ml_objects s) ∧ NoDup (l_id <$> ls) ∧ entities (ml_objects s) ≡ₚ ls.
Definition ml_reads s : datetime := clock (ml_calls s).

(** A call: the next reading, the object the caller sees. *)
Definition ml_write {A} (m : memory JobId lease) (r : exn + A) s : memory_leases * (exn + A) := (mkLeases m (S (ml_calls s)), r).
Definition ml_read {A} (f : memory JobId lease → A) s : memory_leases * (exn + A) := ml_write (ml_objects s) (inr (f (ml_objects s))) s.

Definition ml_save (x : lease) s : memory_leases * (exn + unit) :=
  let '(m, p) := alloc x (ml_objects s) in ml_write (InMemoryLeaseRepository.save p m) (inr tt) s.
Definition ml_renew (id : LeaseId) (duration : timedelta) (t : TenantId) s : memory_leases * (exn + unit) :=
  let '(m, r) := InMemoryLeaseRepository.renew id duration t (ml_reads s) (ml_objects s) in ml_write m r s.
Definition ml_get_by_job_id (j : JobId) (t : TenantId) : memory_leases → memory_leases * (exn + option lease) :=
  ml_read (λ m, InMemoryLeaseRepository.get_by_job_id j t m ≫= λ p, heap m !! p).
Definition ml_get_by_worker_id (w : WorkerId) (t : TenantId) : memory_leases → memory_leases * (exn + option lease) :=
  ml_read (λ m, InMemoryLeaseRepository.get_by_worker_id w t m ≫= λ p, heap m !! p).
Definition ml_list_across_tenants : memory_leases → memory_leases * (exn + list lease) :=
  ml_read (λ m, objects m (InMemoryLeaseRepository.list_across_tenants m)).
Definition ml_delete (j : JobId) (t : TenantId) s : memory_leases * (exn + unit) :=
  ml_write (InMemoryLeaseRepository.delete j t (ml_objects s)) (inr tt) s.
Definition ml_delete_if_expired (j : JobId) (t : TenantId) s : memory_leases * (exn + bool) :=
  let '(m, b) := InMemoryLeaseRepository.delete_if_expired j t (ml_reads s) (ml_objects s) in ml_write m (inr b) s.

Lemma ml_held_unique s ls : ml_held s ls → NoDup (l_id <$> ls) ∧ NoDup (l_job_id <$> ls).
Proof. intros (Hm & Hn & Hls). split; [done|]. rewrite <- Hls. by apply entities_nodup. Qed.

Lemma put_in_fresh x ls : Forall (λ l, l_job_id l ≠ l_job_id x) ls → (put_in l_job_id (λ _, mkTenantId 1) x ls).1 = ls ++ [x].
Proof. induction 1 as [|l ls Hl _ IH]; cbn; [done|]. rewrite bool_decide_eq_false_2 by done. cbn. by rewrite IH. Qed.

Lemma ml_save_law s ls x : ml_held s ls → True → fresh_lease x ls → ∃ s', ml_save x s = (s', inr tt) ∧ ml_held s' (x :: ls).
Proof.
  intros (Hm & Hn & Hls) _ Hf. destruct s as [m n]. cbn in *. pose proof (save_plain_new l_job_id m x Hm) as Hs. unfold alloc in Hs. destruct Hs as [Hw He].
  eexists. split; [reflexivity|]. unfold fresh_lease in Hf. split_and!; [exact Hw| |].
  - apply NoDup_cons. split; [|done]. intros (l & Hid & Hl)%list_elem_of_fmap. rewrite Forall_forall in Hf. by destruct (Hf l Hl).
  - etransitivity; [apply reflexive_eq, He|]. rewrite put_in_fresh.
    + rewrite Hls. by rewrite <- Permutation_cons_append.
    + rewrite Hls. eapply Forall_impl; [exact Hf|]. by intros l (_ & ? & _).
Qed.

Lemma ml_renew_law s ls id duration t : ml_held s ls →
  let '(s', r) := ml_renew id duration t s in
  ml_held s' (renewed id t (ml_reads s + duration) ls) ∧
  r = if decide (Exists (named_lease id t) ls) then inr tt else inl (LeaseNotFoundError id).
Proof.
  intros Hs. pose proof (ml_held_unique s ls Hs) as [_ Hnj]. destruct Hs as (Hm & Hn & Hls). destruct s as [m n]. unfold ml_renew, ml_reads, ml_write. cbn in *.
  pose proof (memory_renew_lease m id duration t (clock n) Hm) as Hr. destruct (InMemoryLeaseRepository.renew id duration t (clock n) m) as [m' [e|[]]].
  - destruct Hr as (-> & -> & Hno). rewrite Hls in Hno. assert (¬ Exists (named_lease id t) ls) as Hne.
    { intros (l & Hl & Hnl)%Exists_exists. rewrite Forall_forall in Hno. by apply (Hno l). }
    rewrite renewed_nobody, decide_False by done. done.
  - destruct Hr as (p & l & Hv & Hid & Ht & -> & _). destruct (values_get l_job_id m p l Hm Hv) as [Hg Hp].
    assert (l ∈ ls) as Hl by (rewrite <- Hls; unfold entities; by apply (list_elem_of_fmap_2 snd) in Hv).
    destruct (mutate_entities l_job_id l_tenant_id m (l_job_id l) p l (Lease.renew duration (clock n)) Hm Hg Hp) as [Hw He]; [done|].
    rewrite decide_True by (apply Exists_exists; by exists l). split; [|done]. split; [exact Hw|]. split; [by rewrite renewed_ids|]. cbn.
    etransitivity; [apply reflexive_eq, He|]. rewrite Hls. apply reflexive_eq. apply list_fmap_ext. intros i x Hx%list_elem_of_lookup_2. cbn. case_bool_decide as Hj.
    + rewrite (nodup_key l_job_id ls x l) by done. by rewrite decide_True.
    + rewrite decide_False; [done|]. intros [Hxi _]. apply Hj. by rewrite (nodup_key l_id ls x l) by (try done; congruence).
Qed.

Lemma entity_found m ls j t : dict_wf l_job_id m → entities m ≡ₚ ls →
  match in_tenant l_tenant_id t (table_of l_job_id (entities m) !! j) with Some l => l ∈ ls ∧ of_job j t l | None => Forall (λ l, ¬ of_job j t l) ls end.
Proof.
  intros Hm Hls. pose proof (entities_nodup l_job_id m Hm) as Hn. rewrite table_of_head, <- head_in_tenant by done.
  destruct (filter _ _) as [|l r] eqn:Hf; cbn.
  - apply Forall_forall. intros l Hl Hj. rewrite <- Hls in Hl. eapply elem_of_nil. rewrite <- Hf. apply list_elem_of_filter. by split.
  - assert (l ∈ l :: r) as Hl by left. rewrite <- Hf in Hl. apply list_elem_of_filter in Hl as [Hj Hl].
    by rewrite Hls in Hl.
Qed.

Lemma ml_get_by_job_id_law s ls j t : ml_held s ls →
  ∃ s' o, ml_get_by_job_id j t s = (s', inr o) ∧ ml_held s' ls ∧ match o with Some l => l ∈ ls ∧ of_job j t l | None => Forall (λ l, ¬ of_job j t l) ls end.
Proof.
  intros Hs. destruct Hs as (Hm & Hn & Hls). destruct s as [m n]. do 2 eexists. split; [reflexivity|]. split; [done|].
  unfold InMemoryLeaseRepository.get_by_job_id. cbn in *. rewrite (find_in_entity l_job_id) by done. by apply entity_found.
Qed.

Lemma ml_get_by_worker_id_law s ls w t : ml_held s ls →
  ∃ s' o, ml_get_by_worker_id w t s = (s', inr o) ∧ ml_held s' ls ∧
    match o with Some l => l ∈ ls ∧ of_worker w t l | None => Forall (λ l, ¬ of_worker w t l) ls end.
Proof.
  intros Hs. destruct Hs as (Hm & Hn & Hls). destruct s as [m n]. do 2 eexists. split; [reflexivity|]. split; [done|].
  unfold InMemoryLeaseRepository.get_by_worker_id. cbn in *. pose proof (objects_where m (λ l, l_worker_id l = w ∧ l_tenant_id l = t)) as Ho.
  destruct (where_ _ m) as [|p r] eqn:Hw; cbn in *.
  - apply Forall_forall. intros l Hl Hj. rewrite <- Hls in Hl. eapply elem_of_nil. rewrite Ho. apply list_elem_of_filter. by split.
  - assert (∃ l, heap m !! p = Some l ∧ l ∈ entities m ∧ of_worker w t l) as (l & -> & Hl & Hj); [|by rewrite Hls in Hl].
    assert (p ∈ p :: r) as Hp by left. rewrite <- Hw in Hp. apply list_elem_of_fmap in Hp as ([q l] & -> & [Hj Hv]%list_elem_of_filter).
    exists l. split_and!; [by apply (values_lookup m)| |done]. by apply (list_elem_of_fmap_2 snd) in Hv.
Qed.

Lemma ml_list_law s ls : ml_held s ls → ∃ s' l, ml_list_across_tenants s = (s', inr l) ∧ ml_held s' ls ∧ l ≡ₚ ls.
Proof.
  intros Hs. destruct Hs as (Hm & Hn & Hls). destruct s as [m n]. do 2 eexists. split; [reflexivity|]. split; [done|]. cbn.
  unfold InMemoryLeaseRepository.list_across_tenants. by rewrite objects_values.
Qed.

(** Deleting the entry of a job is deleting its lease, if the lease is in the tenant. *)
Lemma del_held m n ls j t l : dict_wf l_job_id m → NoDup (l_id <$> ls) → entities m ≡ₚ ls → l ∈ ls → of_job j t l →
  ml_held (mkLeases (set_dict (dict_del j (dict m)) m) n) (without_job j t ls).
Proof.
  intros Hm Hn Hls Hl [Hj Ht]. pose proof (entities_nodup l_job_id m Hm) as Hnj. rewrite Hls in Hnj.
  split; [by apply dict_del_wf|]. split; [by apply NoDup_fmap_filter|].
  etransitivity; [apply reflexive_eq, (del_entities l_job_id m j Hm)|]. rewrite Hls. apply reflexive_eq, filter_agree.
  intros x Hx. split; [intros Hne [? _]; done|]. intros Hno Hxj. apply Hno. rewrite (nodup_key l_job_id ls x l) by (try done; congruence). done.
Qed.

Lemma without_nobody j t ls : Forall (λ l, ¬ of_job j t l) ls → without_job j t ls = ls.
Proof. induction 1 as [|l ls Hl _ IH]; [done|]. unfold without_job. rewrite filter_cons_True by done. f_equal. exact IH. Qed.

Lemma ml_delete_law s ls j t : ml_held s ls → ∃ s', ml_delete j t s = (s', inr tt) ∧ ml_held s' (without_job j t ls).
Proof.
  intros (Hm & Hn & Hls). destruct s as [m n]. eexists. split; [reflexivity|]. cbn in *. unfold InMemoryLeaseRepository.delete, delete_in.
  pose proof (find_in_entity l_job_id l_tenant_id m j t Hm) as Hf. pose proof (entity_found m ls j t Hm Hls) as He.
  rewrite <- Hf in He. unfold find_in in *. destruct (find_any j m) as [p|] eqn:Hp; [|by rewrite without_nobody].
  destruct (heap m !! p) as [l|] eqn:Hv; [|by rewrite without_nobody]. case_bool_decide; [|by rewrite without_nobody].
  cbn in He. rewrite Hv in He. destruct He as [Hl Hj]. by eapply del_held.
Qed.

Lemma ml_delete_if_expired_law s ls j t : ml_held s ls →
  ∃ s' b, ml_delete_if_expired j t s = (s', inr b) ∧ ml_held s' (if b then without_job j t ls else ls) ∧
    if b then Exists (λ l, of_job j t l ∧ l_expires_at l <= ml_reads s) ls else Forall (λ l, of_job j t l → ml_reads s <= l_expires_at l) ls.
Proof.
  intros Hs. pose proof (ml_held_unique s ls Hs) as [_ Hnj]. destruct Hs as (Hm & Hn & Hls). destruct s as [m n].
  unfold ml_delete_if_expired, ml_reads, ml_write, InMemoryLeaseRepository.delete_if_expired. cbn in *.
  rewrite (find_in_entity l_job_id) by done. pose proof (entity_found m ls j t Hm Hls) as He.
  destruct (in_tenant _ _ _) as [l|].
  - destruct He as [Hl Hj]. unfold Lease.is_expired. destruct (Z.leb_spec (l_expires_at l) (clock n)) as [Hx|Hx]; do 2 eexists; (split; [reflexivity|]).
    + split; [by eapply del_held|]. apply Exists_exists. by exists l.
    + split; [done|]. apply Forall_forall. intros x Hxl [Hxj _]. rewrite (nodup_key l_job_id ls x l) by (try done; destruct Hj; congruence). lia.
  - do 2 eexists. split; [reflexivity|]. split; [done|]. eapply Forall_impl; [exact He|]. intros x Hx ?. done.
Qed.

#[global] Instance in_memory_leases : LeaseRepository memory_leases := {|
  save := ml_save; renew := ml_renew; get_by_job_id := ml_get_by_job_id; get_by_worker_id := ml_get_by_worker_id;
  list_across_tenants := ml_list_across_tenants; delete := ml_delete; delete_if_expired := ml_delete_if_expired;
  held := ml_held; reads := ml_reads; admits _ _ := True;
  held_unique := ml_held_unique; save_law := ml_save_law; renew_law := ml_renew_law; get_by_job_id_law := ml_get_by_job_id_law;
  get_by_worker_id_law := ml_get_by_worker_id_law; list_law := ml_list_law; delete_law := ml_delete_law;
  delete_if_expired_law := ml_delete_if_expired_law |}.
End memory.

(** A lease of job 3 that ran out at 10; the clock reads 15, 16 and so on. *)
Definition stale_lease : lease := mkLease (mkLeaseId 1) (mkWorkerId 2) (mkJobId 3) (mkTenantId 1) 0 10.
Definition from_15 (n : nat) : datetime := 15 + Z.of_nat n.
Definition one_lease : memory_leases := (ml_save stale_lease (mkLeases (mkMemory [] []) 0)).1.

Lemma one_lease_held : ml_held one_lease [stale_lease].
Proof.
  destruct (ml_save_law (mkLeases (mkMemory [] []) 0) [] stale_lease) as (s' & Hs & Hh); [|done|constructor|].
  { split; [split; constructor|]. split; [apply NoDup_nil_2|done]. }
  unfold one_lease. by rewrite Hs.
Qed.

Lemma lease_race_closed_witness :
  let R := in_memory_leases from_15 in
  delete_if_expired (mkJobId 3) (mkTenantId 1) one_lease = (mkLeases (mkMemory [stale_lease] []) 2, inr true) ∧
  (renew (mkLeaseId 1) 60 (mkTenantId 1) (call_leases [ListAll; GetByJob (mkJobId 3) (mkTenantId 1)] (mkLeases (mkMemory [stale_lease] []) 2))).2 =
    inl (LeaseNotFoundError (mkLeaseId 1)) ∧
  (delete_if_expired (mkJobId 3) (mkTenantId 1) (renew (mkLeaseId 1) 60 (mkTenantId 1) one_lease).1).2 = inr false.
Proof.
  intros R. pose proof (@lease_race_closed memory_leases R one_lease [stale_lease] stale_lease one_lease_held (list_elem_of_here _ _)) as [Hgone Hkept].
  assert (delete_if_expired (mkJobId 3) (mkTenantId 1) one_lease = (mkLeases (mkMemory [stale_lease] []) 2, inr true)) as Hd by reflexivity.
  split; [exact Hd|]. split.
  - apply (Hgone _ Hd). cbn. split_and!; done.
  - specialize (Hkept 60). cbn zeta in Hkept.
    change (renew (l_id stale_lease) 60 (l_tenant_id stale_lease) one_lease) with (renew (mkLeaseId 1) 60 (mkTenantId 1) one_lease) in Hkept.
    destruct (renew (mkLeaseId 1) 60 (mkTenantId 1) one_lease) as [s1 r] eqn:Hr. apply (proj2 Hkept []); [exact I|].
    vm_compute in Hr. injection Hr as <- <-. reflexivity.
Defined.
