(* ===== verification/KeyContracts.v ===== *)
(** The contract of API keys (src/app/domain/repositories/api_key_repository.py), its
    PostgreSQL and in-memory implementations, and the services of authentication and
    revocation written against it, as src/app/application/services/ has them: what
    they promise holds on every backend. *)
From S2P Require Import Prelude Values ApiKey Db Prog Repos Keys Stores Memory Contracts.
Local Open Scope Z_scope.

(** * ApiKeyRepository *)

(** A table of keys: under their identifiers, no two with one hash. *)
Record keys_wf (m : gmap ApiKeyId api_key) : Prop := mkKeysWf {
  kw_id i k : m !! i = Some k → k_id k = i;
  kw_hash i k i' k' : m !! i = Some k → m !! i' = Some k' → k_key_hash k = k_key_hash k' → i = i';
}.

(** [stored s m]: [m] are the keys in [s]; [used_at s]: what the clock reads if a method is
    called now; [admits s k]: the rows [k] refers to are there. *)
Class ApiKeyRepository (S : Type) := {
  save : api_key → S → S * (exn + unit);
  mark_used : ApiKeyId → TenantId → S → S * (exn + unit);
  get_by_id : ApiKeyId → TenantId → S → S * (exn + option api_key);
  get_by_hash_across_tenants : string → S → S * (exn + option api_key);
  list_issued_by : ApiKeyId → TenantId → S → S * (exn + list api_key);

  stored : S → gmap ApiKeyId api_key → Prop;
  used_at : S → datetime;
  admits : S → api_key → Prop;

  stored_wf s m : stored s m → keys_wf m;
  save_new_law s m k : stored s m → m !! k_id k = None → (∀ i k0, m !! i = Some k0 → k_key_hash k0 ≠ k_key_hash k) → admits s k →
    ∃ s', save k s = (s', inr tt) ∧ stored s' (<[k_id k := k]> m);
  save_law s m k old : stored s m → m !! k_id k = Some old → same_key old k →
    ∃ s', save k s = (s', inr tt) ∧ stored s' (<[k_id k := k]> m);
  save_conflict_law s m k old : stored s m → m !! k_id k = Some old → k_tenant_id old ≠ k_tenant_id k →
    ∃ s', save k s = (s', inl ApiKeyTenantConflictError) ∧ stored s' m;
  mark_used_law s m i t : stored s m →
    let '(s', r) := mark_used i t s in
    match in_tenant k_tenant_id t (m !! i) with
    | Some k => r = inr tt ∧ stored s' (<[i := set_last_used_at (Some (used_at s)) k]> m)
    | None => r = inl (ApiKeyNotFoundError i) ∧ stored s' m
    end;
  get_by_id_law s m i t : stored s m → ∃ s', get_by_id i t s = (s', inr (in_tenant k_tenant_id t (m !! i))) ∧ stored s' m;
  get_by_hash_law s m h : stored s m →
    ∃ s' o, get_by_hash_across_tenants h s = (s', inr o) ∧ stored s' m ∧
      match o with Some k => m !! k_id k = Some k ∧ k_key_hash k = h | None => ∀ i k, m !! i = Some k → k_key_hash k ≠ h end;
  list_issued_by_law s m issuer t : stored s m →
    ∃ s' l, list_issued_by issuer t s = (s', inr l) ∧ stored s' m ∧ l ≡ₚ filter (λ k, k_issued_by k = Some issuer ∧ k_tenant_id k = t) (rows m);
}.

(** * The services *)

Section services.
Context {S : Type} `{!ApiKeyRepository S} (hash_secret : string → string).
(** [datetime.now(UTC)], as the entity reads it. *)
Context (now : stM S exn datetime) (now_law : ∀ s m, stored s m → ∃ s' t, now s = (s', inr t) ∧ stored s' m).
Implicit Types (s : S) (m : gmap ApiKeyId api_key).

(** AuthenticateApiKeyService.execute *)
Definition authenticate_with (raw_key : string) : stM S exn api_key :=
  if bool_decide (raw_key = EmptyString) then raise InvalidApiKeyError else
  o ← (get_by_hash_across_tenants (hash_secret raw_key) : stM S exn (option api_key));
  match o with
  | None => raise InvalidApiKeyError
  | Some k =>
      if negb (is_active k) then raise InvalidApiKeyError else
      (mark_used (k_id k) (k_tenant_id k) : stM S exn unit) ;;
      mret k
  end.

(** RevokeApiKeyService.execute *)
Definition revoke_with (id : ApiKeyId) (caller : api_key) : stM S exn unit :=
  o ← (get_by_id id (k_tenant_id caller) : stM S exn (option api_key));
  match o with
  | None => raise (ApiKeyNotFoundError id)
  | Some k =>
      match authorize_key_revocation (k_scopes caller) (k_id caller) (k_issued_by k) with
      | inl e => raise e
      | inr _ =>
          t ← now;
          match revoke t k with
          | (_, inl (ApiKeyAlreadyRevokedError _)) => mret tt
          | (_, inl e) => raise e
          | (k', inr _) => (save k' : stM S exn unit)
          end
      end
  end.

(** A credential is accepted if it is the secret of an active key, which is marked as used,
    and refused if not, with one error and no change. *)
Lemma authenticate_with_spec raw s m : stored s m →
  let '(s', r) := authenticate_with raw s in
  (∃ k t, raw ≠ EmptyString ∧ m !! k_id k = Some k ∧ k_key_hash k = hash_secret raw ∧ ¬ revoked k ∧
     r = inr k ∧ stored s' (<[k_id k := set_last_used_at (Some t) k]> m)) ∨
  ((raw = EmptyString ∨ ∀ i k, m !! i = Some k → k_key_hash k = hash_secret raw → revoked k) ∧ r = inl InvalidApiKeyError ∧ stored s' m).
Proof using.
  intros Hs. unfold authenticate_with. case_bool_decide as Hr; [right; by split_and!; [left|..]|].
  destruct (get_by_hash_law s m (hash_secret raw) Hs) as (s1 & o & He & Hs1 & Ho). stM_unfold. rewrite He. destruct o as [k|].
  - destruct Ho as [Hk Hh]. unfold is_active. case_bool_decide as Ha; cbn.
    + pose proof (mark_used_law s1 m (k_id k) (k_tenant_id k) Hs1) as Hm. destruct (mark_used _ _ s1) as [s2 r].
      rewrite Hk in Hm. cbn in Hm. rewrite bool_decide_eq_true_2 in Hm by done. destruct Hm as [-> Hs2]. left. exists k, (used_at s1).
      split_and!; try done. unfold revoked. rewrite Ha. by intros [].
    + right. split_and!; [|done|done]. right. intros i k0 Hi Hh0. destruct (stored_wf s m Hs) as [_ Hw].
      assert (i = k_id k) as -> by (eapply Hw; [exact Hi|exact Hk|congruence]). assert (k0 = k) as -> by congruence.
      unfold revoked. by destruct (k_revoked_at k).
  - right. split_and!; [|done|done]. right. intros i k Hi Hh. by destruct (Ho i k Hi).
Qed.

(** What revoking leaves, if it returns: the same keys, the one it names revoked. *)
Lemma revoke_with_spec id caller s m : stored s m →
  let '(s', r) := revoke_with id caller s in
  match r with
  | inr _ => ∃ k k', m !! id = Some k ∧ k_tenant_id k = k_tenant_id caller ∧ same_key k k' ∧ revoked k' ∧ stored s' (<[id := k']> m)
  | inl e => stored s' m ∧
      (e = ApiKeyNotFoundError id ∧ in_tenant k_tenant_id (k_tenant_id caller) (m !! id) = None ∨ e = ScopeDeniedError KEYS_MANAGE)
  end.
Proof using now_law.
  intros Hs. unfold revoke_with. destruct (get_by_id_law s m id (k_tenant_id caller) Hs) as (s1 & He & Hs1). stM_unfold. rewrite He.
  destruct (in_tenant _ _ _) as [k|] eqn:Hk; [|split; [done|by left]].
  assert (m !! id = Some k ∧ k_tenant_id k = k_tenant_id caller) as [Hm Ht] by (destruct (m !! id); [|done]; cbn in Hk; case_bool_decide; [|done]; naive_solver).
  pose proof (authorize_key_revocation_spec caller k) as Ha. destruct (authorize_key_revocation _ _ _) as [e|[]]; [split; [done|right; apply Ha]|].
  destruct (now_law s1 m Hs1) as (s2 & t & Hn & Hs2). rewrite Hn. unfold revoke. stM_unfold. pose proof (kw_id m (stored_wf s m Hs) id k Hm) as Hid.
  destruct (k_revoked_at k) as [r0|] eqn:Hr.
  - exists k, k. split_and!; try done; [by exists r0|]. by rewrite insert_id.
  - cbn. destruct (save_law s2 m (set_revoked_at (Some t) k) k) as (s3 & Hsave & Hs3); [done|by cbn; rewrite Hid|by split|].
    rewrite Hsave. exists k, (set_revoked_at (Some t) k). split_and!; try done; [by exists t|]. cbn in Hs3. by rewrite <- Hid at 1.
Qed.

(** ** Revocation is final *)

Inductive key_op := Authenticate (raw : string) | Revoke (id : ApiKeyId) (caller : api_key) | MarkUsed (id : ApiKeyId) (t : TenantId).

Definition run_op (c : key_op) s : S :=
  match c with
  | Authenticate raw => (authenticate_with raw s).1
  | Revoke id caller => (revoke_with id caller s).1
  | MarkUsed id t => (mark_used id t s).1
  end.
Definition run_ops (cs : list key_op) s : S := foldl (λ s c, run_op c s) s cs.

(** The key is there, with that hash, and revoked. *)
Definition dead (i : ApiKeyId) (h : string) m : Prop := ∃ k, m !! i = Some k ∧ k_key_hash k = h ∧ revoked k.

Lemma dead_insert i h m j k k' : dead i h m → m !! j = Some k → k_key_hash k' = k_key_hash k → (revoked k → revoked k') → dead i h (<[j := k']> m).
Proof using.
  intros (k0 & Hk0 & Hh & Hr) Hk He Hrv. unfold dead. destruct (decide (j = i)) as [->|Hne].
  - rewrite lookup_insert_eq. exists k'. assert (k = k0) as -> by congruence. split_and!; [done|congruence|by apply Hrv].
  - rewrite lookup_insert_ne by done. by exists k0.
Qed.

Lemma run_op_dead c i h s m : stored s m → dead i h m → ∃ m', stored (run_op c s) m' ∧ dead i h m'.
Proof using now_law.
  intros Hs Hd. destruct c as [raw|id caller|id t]; cbn.
  - pose proof (authenticate_with_spec raw s m Hs) as Ha. destruct (authenticate_with raw s) as [s' r].
    destruct Ha as [(k & t & _ & Hk & _ & _ & _ & Hs')|(_ & _ & Hs')]; eexists; (split; [exact Hs'|]); [|done]. by eapply dead_insert.
  - pose proof (revoke_with_spec id caller s m Hs) as Hr. destruct (revoke_with id caller s) as [s' [e|[]]]; [exists m; by destruct Hr|].
    destruct Hr as (k & k' & Hk & _ & Hsame & Hrv & Hs'). eexists. split; [exact Hs'|]. eapply dead_insert; [done..|by apply sk_hash|done].
  - pose proof (mark_used_law s m id t Hs) as Hm. destruct (mark_used id t s) as [s' r]. destruct (in_tenant k_tenant_id t (m !! id)) as [k|] eqn:Hk.
    + eexists. split; [apply Hm|]. assert (m !! id = Some k) by (destruct (m !! id); [|done]; cbn in Hk; by case_bool_decide). by eapply dead_insert.
    + exists m. by destruct Hm.
Qed.

Lemma run_ops_dead cs i h s m : stored s m → dead i h m → ∃ m', stored (run_ops cs s) m' ∧ dead i h m'.
Proof using now_law.
  revert s m. induction cs as [|c cs IH]; intros s m Hs Hd; [by exists m|]. destruct (run_op_dead c i h s m Hs Hd) as (m1 & Hs1 & Hd1). by apply (IH _ m1).
Qed.
End services.

(** On every backend: once a call of revoke returned, the secret of that key is refused,
    whatever authentications, revocations and uses follow. *)
Lemma revoked_refused_anywhere {S : Type} `{!ApiKeyRepository S} hash_secret (now : stM S exn datetime)
    (now_law : ∀ s m, stored s m → ∃ s' t, now s = (s', inr t) ∧ stored s' m) s m id caller s1 k raw cs :
  stored s m → revoke_with now id caller s = (s1, inr tt) → m !! id = Some k → k_key_hash k = hash_secret raw →
  (authenticate_with hash_secret raw (run_ops hash_secret now cs s1)).2 = inl InvalidApiKeyError.
Proof.
  intros Hs Hr Hk Hh. pose proof (revoke_with_spec now now_law id caller s m Hs) as Hspec. rewrite Hr in Hspec.
  destruct Hspec as (k0 & k' & Hk0 & _ & Hsame & Hrv & Hs1). assert (dead id (hash_secret raw) (<[id := k']> m)) as Hd.
  { exists k'. rewrite lookup_insert_eq. split_and!; [done| |done]. rewrite (sk_hash _ _ Hsame). congruence. }
  destruct (run_ops_dead hash_secret now now_law cs _ _ s1 _ Hs1 Hd) as (m' & Hs' & k2 & Hk2 & Hh2 & Hr2).
  pose proof (authenticate_with_spec hash_secret raw _ m' Hs') as Ha. destruct (authenticate_with hash_secret raw _) as [s2 r].
  destruct Ha as [(k3 & t & _ & Hk3 & Hh3 & Hnr & _)|(_ & -> & _)]; [|done]. destruct Hnr.
  assert (id = k_id k3) as -> by (eapply (kw_hash m' (stored_wf _ _ Hs')); [done..|congruence]). by replace k3 with k2 by congruence.
Qed.

(** * PostgreSQL *)

Section postgres.
Context {E : Env} `{!Quiet E}.

Definition pg_stored (w : world) (m : gmap ApiKeyId api_key) : Prop := keys_integrity (w_db w) ∧ db_keys (w_db w) = m.
Definition pg_key_admits (w : world) (k : api_key) : Prop :=
  k_tenant_id k ∈ db_tenants (w_db w) ∧
  ∀ p, k_issued_by k = Some p → ∃ kp, db_keys (w_db w) !! p = Some kp ∧ k_tenant_id kp = k_tenant_id k.

Lemma pg_stored_wf w m : pg_stored w m → keys_wf m.
Proof using. intros [[Hid Hh _ _] <-]. by split. Qed.

(** Replacing a key by one that differs in its marks. *)
Lemma keys_integrity_update d k old : keys_integrity d → db_keys d !! k_id k = Some old → same_key old k →
  keys_integrity (set_keys (<[k_id k := k]> (db_keys d)) d).
Proof using.
  intros [Hid Hh Ht Hp] Hold [Hi1 Hh1 _ _ Ht1 _ Hp1].
  assert (∀ i k0, <[k_id k:=k]> (db_keys d) !! i = Some k0 → ∃ k1, db_keys d !! i = Some k1 ∧
    k_id k0 = k_id k1 ∧ k_key_hash k0 = k_key_hash k1 ∧ k_tenant_id k0 = k_tenant_id k1 ∧ k_issued_by k0 = k_issued_by k1) as Hback.
  { intros i k0 [[<- <-]|[_ ?]]%lookup_insert_Some; [by exists old|by exists k0]. }
  split; cbn.
  - intros i k0 (k1 & Hk1 & -> & _)%Hback. by apply Hid.
  - intros i k0 i' k0' (k1 & Hk1 & _ & -> & _)%Hback (k2 & Hk2 & _ & -> & _)%Hback. by apply (Hh i k1).
  - intros i k0 (k1 & Hk1 & _ & _ & -> & _)%Hback. by apply (Ht i).
  - intros i k0 p (k1 & Hk1 & _ & _ & -> & ->)%Hback Hq. destruct (Hp i k1 p Hk1 Hq) as (kp & Hkp & Htp).
    destruct (decide (p = k_id k)) as [->|Hne]; [|exists kp; by rewrite lookup_insert_ne].
    exists k. rewrite lookup_insert_eq. split; [done|]. rewrite Ht1. congruence.
Qed.

Lemma pg_save_new_law w m k : pg_stored w m → m !! k_id k = None → (∀ i k0, m !! i = Some k0 → k_key_hash k0 ≠ k_key_hash k) → pg_key_admits w k →
  ∃ w', Keys.ApiKeyRepository.save k w = (w', inr tt) ∧ pg_stored w' (<[k_id k := k]> m).
Proof using Quiet0.
  intros [Hi <-] Hnone Hfresh [Ht Hp]. destruct w as [d n]. cbn in *. unfold Keys.ApiKeyRepository.save, statement. cbn. rewrite quiet.
  assert (∀ p kp, db_keys d !! p = Some kp → (<[k_id k:=k]> (db_keys d)) !! p = Some kp) as Hmono by (intros p kp Hp'; rewrite lookup_insert_ne; congruence).
  assert (upsert_key k d = (set_keys (<[k_id k := k]> (db_keys d)) d, inr tt)) as ->.
  { unfold upsert_key. rewrite Hnone. assert (hash_taken d (k_key_hash k) = false) as ->.
    { apply existsb_rows_false. intros i k0 Hk0. apply bool_decide_eq_false. by apply (Hfresh i). }
    unfold fk_tenant. rewrite (bool_decide_eq_true_2 (k_tenant_id k ∈ _)) by done. destruct (k_issued_by k) as [p|]; [|done]. cbn.
    destruct (Hp p eq_refl) as (kp & Hkp & Htp). rewrite (Hmono p kp Hkp). cbn. rewrite !bool_decide_eq_true_2 by (done || by rewrite Htp). done. }
  eexists. split; [reflexivity|]. split; [|done]. destruct Hi as [Hid Hh Htn Hiss]. split; cbn.
  - intros i k0 [[<- <-]|[_ ?]]%lookup_insert_Some; [done|by apply Hid].
  - intros i k0 i' k1 [[<- <-]|[_ H0]]%lookup_insert_Some [[<- <-]|[_ H1]]%lookup_insert_Some He; [done| | |by eapply Hh].
    + by destruct (Hfresh i' k1).
    + by destruct (Hfresh i k0).
  - intros i k0 [[<- <-]|[_ ?]]%lookup_insert_Some; [done|by eapply Htn].
  - intros i k0 p [[<- <-]|[_ H0]]%lookup_insert_Some Hq.
    + destruct (Hp p Hq) as (kp & Hkp & ?). exists kp. by rewrite (Hmono p kp).
    + destruct (Hiss i k0 p H0 Hq) as (kp & Hkp & ?). exists kp. by rewrite (Hmono p kp).
Qed.

Lemma pg_key_save_law w m k old : pg_stored w m → m !! k_id k = Some old → same_key old k →
  ∃ w', Keys.ApiKeyRepository.save k w = (w', inr tt) ∧ pg_stored w' (<[k_id k := k]> m).
Proof using Quiet0.
  intros [Hi <-] Hold Hs. destruct w as [d n]. cbn in *. pose proof (keys_integrity_update d k old Hi Hold Hs) as Hi'.
  unfold Keys.ApiKeyRepository.save, statement. cbn. rewrite quiet. unfold upsert_key. rewrite Hold. destruct Hs as [Hs1 Hs2 Hs3 Hs4 Hs5 Hs6 Hs7].
  rewrite bool_decide_eq_true_2 by done. rewrite <- Hs1, <- Hs2, <- Hs3, <- Hs4, <- Hs5, <- Hs7. destruct k. cbn in *. eexists. split; [reflexivity|]. by split.
Qed.

Lemma pg_save_conflict_law w m k old : pg_stored w m → m !! k_id k = Some old → k_tenant_id old ≠ k_tenant_id k →
  ∃ w', Keys.ApiKeyRepository.save k w = (w', inl ApiKeyTenantConflictError) ∧ pg_stored w' m.
Proof using Quiet0.
  intros [Hi <-] Hold Ht. destruct w as [d n]. cbn in *. unfold Keys.ApiKeyRepository.save, statement. cbn. rewrite quiet. unfold upsert_key.
  rewrite Hold, bool_decide_eq_false_2 by done. eexists. split; [reflexivity|]. by split.
Qed.

Lemma pg_mark_used_law w m i t : pg_stored w m →
  let '(w', r) := Keys.ApiKeyRepository.mark_used i t w in
  match in_tenant k_tenant_id t (m !! i) with
  | Some k => r = inr tt ∧ pg_stored w' (<[i := set_last_used_at (Some (clock (w_step w))) k]> m)
  | None => r = inl (ApiKeyNotFoundError i) ∧ pg_stored w' m
  end.
Proof using Quiet0.
  intros [Hi <-]. destruct w as [d n]. cbn in *. unfold Keys.ApiKeyRepository.mark_used, statement, utc_now. stM_unfold. cbn. rewrite quiet. unfold mark_key_used, in_tenant.
  destruct (db_keys d !! i) as [k|] eqn:Hk; [case_bool_decide|]; try done. cbn. pose proof (ki_id _ Hi i k Hk) as <-.
  split; [done|]. split; [|done]. by apply (keys_integrity_update d (set_last_used_at (Some (clock n)) k) k).
Qed.

Lemma pg_get_key_law w m i t : pg_stored w m → ∃ w', Keys.ApiKeyRepository.get_by_id i t w = (w', inr (in_tenant k_tenant_id t (m !! i))) ∧ pg_stored w' m.
Proof using Quiet0.
  intros [Hi <-]. destruct w as [d n]. unfold Keys.ApiKeyRepository.get_by_id, statement. stM_unfold. cbn. rewrite quiet. eexists. split; [reflexivity|]. by split.
Qed.

Lemma pg_get_by_hash_law w m h : pg_stored w m →
  ∃ w' o, Keys.ApiKeyRepository.get_by_hash_across_tenants h w = (w', inr o) ∧ pg_stored w' m ∧
    match o with Some k => m !! k_id k = Some k ∧ k_key_hash k = h | None => ∀ i k, m !! i = Some k → k_key_hash k ≠ h end.
Proof using Quiet0.
  intros Hw. destruct w as [d n]. apply wp_returns, wp_fetchone. intros o k Ho _. split; [done|]. destruct Hw as [Hi <-]. cbn in *. destruct o as [x|].
  - apply list_elem_of_filter in Ho as [Hh [i Hx]%elem_of_rows]. split; [|done]. by rewrite (ki_id _ Hi i x Hx).
  - intros i x Hx Hh. eapply elem_of_nil. rewrite <- Ho. apply list_elem_of_filter. split; [done|]. apply elem_of_rows. eauto.
Qed.

Lemma pg_list_issued_law w m issuer t : pg_stored w m →
  ∃ w' l, Keys.ApiKeyRepository.list_issued_by issuer t w = (w', inr l) ∧ pg_stored w' m ∧
    l ≡ₚ filter (λ k, k_issued_by k = Some issuer ∧ k_tenant_id k = t) (rows m).
Proof using Quiet0.
  intros Hw. destruct w as [d n]. apply wp_returns, wp_select_rows. intros l k Hl _. split; [done|]. destruct Hw as [_ <-]. exact Hl.
Qed.

#[global] Instance postgres_keys : ApiKeyRepository world := {|
  save := Keys.ApiKeyRepository.save; mark_used := Keys.ApiKeyRepository.mark_used; get_by_id := Keys.ApiKeyRepository.get_by_id;
  get_by_hash_across_tenants := Keys.ApiKeyRepository.get_by_hash_across_tenants; list_issued_by := Keys.ApiKeyRepository.list_issued_by;
  stored := pg_stored; used_at w := clock (w_step w); admits := pg_key_admits;
  stored_wf := pg_stored_wf; save_new_law := pg_save_new_law; save_law := pg_key_save_law; save_conflict_law := pg_save_conflict_law;
  mark_used_law := pg_mark_used_law; get_by_id_law := pg_get_key_law; get_by_hash_law := pg_get_by_hash_law;
  list_issued_by_law := pg_list_issued_law |}.

(** With PostgreSQL the services are those of [Keys]. *)
Lemma authenticate_postgres raw w : authenticate_with sha256_hex raw w = authenticate raw w.
Proof using. reflexivity. Qed.

Lemma revoke_postgres id caller w : revoke_with utc_now id caller w = revoke_api_key id caller w.
Proof using.
  unfold revoke_with, revoke_api_key, of_sum. stM_unfold. cbn. destruct (in_tenant _ _ _) as [k|]; [|done].
  by destruct (authorize_key_revocation _ _ _) as [e|[]].
Qed.
End postgres.

(** * Memory *)

Section memory.
(** The readings of [datetime.now(UTC)], one per call. *)
Context (clock : nat → datetime).

Record memory_keys := mkKeys { mk_objects : memory ApiKeyId api_key; mk_calls : nat }.
Implicit Types (s : memory_keys) (m : gmap ApiKeyId api_key).

Definition mk_stored s m : Prop := memory_rep k_id (mk_objects s) m ∧ keys_wf m.
Definition mk_used_at s : datetime := clock (mk_calls s).

Definition mk_write {A} (o : memory ApiKeyId api_key) (r : exn + A) s : memory_keys * (exn + A) := (mkKeys o (S (mk_calls s)), r).
Definition mk_read {A} (f : memory ApiKeyId api_key → A) s : memory_keys * (exn + A) := mk_write (mk_objects s) (inr (f (mk_objects s))) s.

Definition mk_save (k : api_key) s : memory_keys * (exn + unit) :=
  let '(o, p) := alloc k (mk_objects s) in let '(o', r) := InMemoryApiKeyRepository.save p o in mk_write o' r s.
Definition mk_mark_used (i : ApiKeyId) (t : TenantId) s : memory_keys * (exn + unit) :=
  let '(o, r) := InMemoryApiKeyRepository.mark_used i t (mk_used_at s) (mk_objects s) in mk_write o r s.
Definition mk_get_by_id (i : ApiKeyId) (t : TenantId) : memory_keys → memory_keys * (exn + option api_key) :=
  mk_read (λ o, InMemoryApiKeyRepository.get_by_id i t o ≫= λ p, heap o !! p).
Definition mk_get_by_hash (h : string) : memory_keys → memory_keys * (exn + option api_key) :=
  mk_read (λ o, InMemoryApiKeyRepository.get_by_hash_across_tenants h o ≫= λ p, heap o !! p).
Definition mk_list_issued_by (issuer : ApiKeyId) (t : TenantId) : memory_keys → memory_keys * (exn + list api_key) :=
  mk_read (λ o, objects o (InMemoryApiKeyRepository.list_issued_by issuer t o)).

Lemma mk_put s m k : mk_stored s m → ∃ o, mk_save k s = mk_write o (table_put k_id k_tenant_id ApiKeyTenantConflictError k m).2 s ∧
  memory_rep k_id o (table_put k_id k_tenant_id ApiKeyTenantConflictError k m).1.
Proof.
  intros [Hr _]. destruct (memory_put_law k_id k_tenant_id ApiKeyTenantConflictError (mk_objects s) m k Hr I) as (o & Hp & Ho).
  exists o. split; [|done]. unfold mk_save, InMemoryApiKeyRepository.save. unfold memory_put in Hp. destruct (alloc k (mk_objects s)) as [o1 p]. by rewrite Hp.
Qed.

Lemma keys_wf_update m k old : keys_wf m → m !! k_id k = Some old → k_key_hash k = k_key_hash old → keys_wf (<[k_id k := k]> m).
Proof.
  intros [Hid Hh] Hold He. split.
  - intros i k0 [[<- <-]|[_ ?]]%lookup_insert_Some; [done|by apply Hid].
  - intros i k0 i' k1 [[<- <-]|[_ H0]]%lookup_insert_Some [[<- <-]|[_ H1]]%lookup_insert_Some Hk; [done|..|by eapply Hh].
    + eapply Hh; [exact Hold|exact H1|congruence].
    + eapply Hh; [exact H0|exact Hold|congruence].
Qed.

Lemma keys_wf_insert m k : keys_wf m → m !! k_id k = None → (∀ i k0, m !! i = Some k0 → k_key_hash k0 ≠ k_key_hash k) → keys_wf (<[k_id k := k]> m).
Proof.
  intros [Hid Hh] Hn Hf. split.
  - intros i k0 [[<- <-]|[_ ?]]%lookup_insert_Some; [done|by apply Hid].
  - intros i k0 i' k1 [[<- <-]|[_ H0]]%lookup_insert_Some [[<- <-]|[_ H1]]%lookup_insert_Some Hk; [done| | |by eapply Hh].
    + by destruct (Hf i' k1).
    + by destruct (Hf i k0).
Qed.

Lemma mk_save_new_law s m k : mk_stored s m → m !! k_id k = None → (∀ i k0, m !! i = Some k0 → k_key_hash k0 ≠ k_key_hash k) → True →
  ∃ s', mk_save k s = (s', inr tt) ∧ mk_stored s' (<[k_id k := k]> m).
Proof.
  intros Hs Hn Hf _. destruct (mk_put s m k Hs) as (o & -> & Ho). unfold table_put in *. rewrite Hn in *. eexists. split; [reflexivity|].
  split; [exact Ho|]. by apply keys_wf_insert; [apply Hs|..].
Qed.

Lemma mk_save_law s m k old : mk_stored s m → m !! k_id k = Some old → same_key old k →
  ∃ s', mk_save k s = (s', inr tt) ∧ mk_stored s' (<[k_id k := k]> m).
Proof.
  intros Hs Hold Hsame. destruct (mk_put s m k Hs) as (o & -> & Ho). unfold table_put in *. rewrite Hold in *.
  rewrite bool_decide_eq_true_2 in * by (symmetry; apply Hsame). eexists. split; [reflexivity|]. split; [exact Ho|].
  eapply keys_wf_update; [apply Hs|done|apply Hsame].
Qed.

Lemma mk_save_conflict_law s m k old : mk_stored s m → m !! k_id k = Some old → k_tenant_id old ≠ k_tenant_id k →
  ∃ s', mk_save k s = (s', inl ApiKeyTenantConflictError) ∧ mk_stored s' m.
Proof.
  intros Hs Hold Ht. destruct (mk_put s m k Hs) as (o & -> & Ho). unfold table_put in *. rewrite Hold in *.
  rewrite bool_decide_eq_false_2 in * by done. eexists. split; [reflexivity|]. split; [exact Ho|apply Hs].
Qed.

Lemma mk_get_by_id_law s m i t : mk_stored s m → ∃ s', mk_get_by_id i t s = (s', inr (in_tenant k_tenant_id t (m !! i))) ∧ mk_stored s' m.
Proof.
  intros Hs. pose proof Hs as [[Hw Hm] _]. exists (mkKeys (mk_objects s) (S (mk_calls s))). split; [|exact Hs].
  unfold mk_get_by_id, mk_read, mk_write, InMemoryApiKeyRepository.get_by_id. rewrite (find_in_entity k_id) by done. by rewrite <- Hm.
Qed.

Lemma mk_get_by_hash_law s m h : mk_stored s m →
  ∃ s' o, mk_get_by_hash h s = (s', inr o) ∧ mk_stored s' m ∧
    match o with Some k => m !! k_id k = Some k ∧ k_key_hash k = h | None => ∀ i k, m !! i = Some k → k_key_hash k ≠ h end.
Proof.
  intros Hs. pose proof Hs as [[Hw Hm] [Hid _]]. do 2 eexists. split; [reflexivity|]. split; [exact Hs|].
  assert (∀ k, k ∈ entities (mk_objects s) ↔ ∃ i, m !! i = Some k) as Hin.
  { intros k. rewrite (rows_table_of k_id (entities (mk_objects s))) by (by apply entities_nodup). rewrite <- Hm. apply elem_of_rows. }
  unfold InMemoryApiKeyRepository.get_by_hash_across_tenants. pose proof (objects_where (mk_objects s) (λ k, k_key_hash k = h)) as Ho.
  destruct (where_ _ (mk_objects s)) as [|p r] eqn:Hwh; cbn in *.
  - intros i k Hk Hh. eapply elem_of_nil. rewrite Ho. apply list_elem_of_filter. split; [done|]. apply Hin. eauto.
  - assert (p ∈ p :: r) as Hp by left. rewrite <- Hwh in Hp. apply list_elem_of_fmap in Hp as ([q k] & -> & [Hh Hv]%list_elem_of_filter).
    cbn. rewrite (values_lookup (mk_objects s) q k Hv). split; [|done]. apply (list_elem_of_fmap_2 snd) in Hv. apply Hin in Hv as [i Hi].
    cbn in Hi. by rewrite (Hid i k Hi).
Qed.

Lemma mk_list_issued_law s m issuer t : mk_stored s m →
  ∃ s' l, mk_list_issued_by issuer t s = (s', inr l) ∧ mk_stored s' m ∧ l ≡ₚ filter (λ k, k_issued_by k = Some issuer ∧ k_tenant_id k = t) (rows m).
Proof.
  intros Hs. pose proof Hs as [[Hw Hm] _]. do 2 eexists. split; [reflexivity|]. split; [exact Hs|].
  unfold InMemoryApiKeyRepository.list_issued_by. rewrite objects_where, (rows_table_of k_id (entities _)) by (by apply entities_nodup). by rewrite <- Hm.
Qed.

(** The object is changed in place. *)
Lemma mk_mark_used_law s m i t : mk_stored s m →
  let '(s', r) := mk_mark_used i t s in
  match in_tenant k_tenant_id t (m !! i) with
  | Some k => r = inr tt ∧ mk_stored s' (<[i := set_last_used_at (Some (mk_used_at s)) k]> m)
  | None => r = inl (ApiKeyNotFoundError i) ∧ mk_stored s' m
  end.
Proof.
  intros Hs. pose proof Hs as [[Hw Hm] Hk]. unfold mk_mark_used, mk_write, InMemoryApiKeyRepository.mark_used, InMemoryApiKeyRepository.get_by_id.
  pose proof (find_in_entity k_id k_tenant_id (mk_objects s) i t Hw) as Hf. rewrite <- Hm in Hf.
  destruct (find_in k_tenant_id i t (mk_objects s)) as [p|] eqn:Hp; cbn in Hf; rewrite <- Hf; [|done].
  unfold find_in, find_any in Hp. destruct (dict_get i (dict (mk_objects s))) as [q|] eqn:Hg; [|done].
  destruct (heap (mk_objects s) !! q) as [k|] eqn:Hv; [|done]. case_bool_decide as Ht; [|done]. injection Hp as ->. rewrite Hv.
  assert (m !! i = Some k) as Hi by (rewrite Hv in Hf; destruct (m !! i); [|done]; cbn in Hf; by case_bool_decide).
  set (f := set_last_used_at (Some (mk_used_at s))).
  destruct (mutate_entities k_id k_tenant_id (mk_objects s) i p k f Hw Hg Hv) as [Hw' He]; [done|].
  pose proof (kw_id _ Hk i k Hi) as Hid. split; [done|]. split; [split; [exact Hw'|]|].
  - etransitivity; [|symmetry; apply (f_equal (table_of k_id)), He].
    pose proof (table_put_in k_id k_tenant_id ApiKeyTenantConflictError (f k) (entities (mk_objects s))) as Hput.
    rewrite (put_in_change k_id k_tenant_id i k (f k)) in Hput.
    + unfold table_put in Hput. change (k_id (f k)) with (k_id k) in Hput. rewrite Hid, <- Hm, Hi in Hput. rewrite bool_decide_eq_true_2 in Hput by done.
      injection Hput as Hput. exact Hput.
    + by apply entities_nodup.
    + by rewrite <- table_of_head, <- Hm.
    + done.
    + done.
  - rewrite <- Hid. apply (keys_wf_update m (f k) k); [done|by cbn; rewrite Hid|done].
Qed.

#[global] Instance in_memory_keys : ApiKeyRepository memory_keys := {|
  save := mk_save; mark_used := mk_mark_used; get_by_id := mk_get_by_id; get_by_hash_across_tenants := mk_get_by_hash;
  list_issued_by := mk_list_issued_by;
  stored := mk_stored; used_at := mk_used_at; admits _ _ := True;
  stored_wf s m H := proj2 H; save_new_law := mk_save_new_law; save_law := mk_save_law; save_conflict_law := mk_save_conflict_law;
  mark_used_law := mk_mark_used_law; get_by_id_law := mk_get_by_id_law; get_by_hash_law := mk_get_by_hash_law;
  list_issued_by_law := mk_list_issued_law |}.
End memory.
