(* ===== verification/EventContracts.v ===== *)
(** The contracts of events and tenants (src/app/domain/repositories/event_repository.py
    and tenant_repository.py), their implementations, and what a client gets from any
    of them: the history of a job is what was recorded for it, and the bootstrap of
    a tenant can be run again. *)
From S2P Require Import Prelude Sqlite Values Job Node ApiKey Worker Db Prog Repos Text Stores Memory Tenants Contracts.
Local Open Scope Z_scope.

(** * EventRepository *)

Module Events.

(** [log s es]: the events of the tenants in [s], in the order they were saved; [admits s e]:
    nothing in the way of [e] but, perhaps, its identifier. *)
Class EventRepository (S : Type) := {
  save : event → S → S * (exn + unit);
  list_ : TenantId → S → S * (exn + list event);
  list_by_aggregate : JobId → TenantId → S → S * (exn + list event);

  log : S → list event → Prop;
  admits : S → event → Prop;
  tenant_ok : TenantId → Prop;
  job_ok : JobId → Prop;

  save_law s es e : log s es → admits s e → Forall (λ x, e_id x ≠ e_id e) es → ∃ s', save e s = (s', inr tt) ∧ log s' (es ++ [e]);
  list_law s es t : log s es → tenant_ok t → ∃ s' l, list_ t s = (s', inr l) ∧ log s' es ∧ l ≡ₚ filter (λ e, e_tenant_id e = t) es;
  list_by_aggregate_law s es j t : log s es → job_ok j → tenant_ok t →
    ∃ s' l, list_by_aggregate j t s = (s', inr l) ∧ log s' es ∧ l ≡ₚ filter (λ e, e_aggregate_id e = j ∧ e_tenant_id e = t) es;
}.

Section client.
Context {S : Type} `{!EventRepository S}.

(** Saves one after the other, as the services make them in the life of a job. *)
Definition record : list event → stM S exn unit := λ es, for_each es (λ e, (save e : stM S exn unit)).

(** Every event is admitted when its turn comes. *)
Fixpoint all_admitted (es : list event) (s : S) : Prop :=
  match es with [] => True | e :: es' => admits s e ∧ all_admitted es' (save e s).1 end.

Lemma record_log es s es0 : log s es0 → all_admitted es s → NoDup (e_id <$> es0 ++ es) → ∃ s', record es s = (s', inr tt) ∧ log s' (es0 ++ es).
Proof.
  revert s es0. induction es as [|e es IH]; intros s es0 Hs Ha Hn; [exists s; by rewrite app_nil_r|]. destruct Ha as [He Ha].
  destruct (save_law s es0 e Hs He) as (s1 & Hsave & Hs1).
  { apply Forall_forall. intros x Hx Hid. rewrite fmap_app in Hn. apply NoDup_app in Hn as (_ & Hdis & _). apply (Hdis (e_id x)).
    - by apply list_elem_of_fmap_2.
    - rewrite Hid. left. }
  rewrite Hsave in Ha. cbn in Ha. rewrite (assoc_L (++) es0 [e] es : es0 ++ e :: es = (es0 ++ [e]) ++ es) in *.
  destruct (IH s1 (es0 ++ [e]) Hs1 Ha Hn) as (s' & Hr & Hs'). exists s'. split; [|done]. unfold record in *. cbn. stM_unfold. by rewrite Hsave.
Qed.

(** The history of a job, read back after its events were recorded. *)
Lemma recorded_history es s es0 j t : log s es0 → all_admitted es s → NoDup (e_id <$> es0 ++ es) → job_ok j → tenant_ok t →
  Forall (λ e, e_aggregate_id e = j ∧ e_tenant_id e = t) es →
  ∃ l, (list_by_aggregate j t (record es s).1).2 = inr l ∧ l ≡ₚ filter (λ e, e_aggregate_id e = j ∧ e_tenant_id e = t) es0 ++ es.
Proof.
  intros Hs Ha Hn Hj Ht Hes. destruct (record_log es s es0 Hs Ha Hn) as (s1 & Hr & Hs1). rewrite Hr. cbn.
  destruct (list_by_aggregate_law s1 _ j t Hs1 Hj Ht) as (s2 & l & -> & _ & Hl). exists l. split; [done|]. rewrite Hl, filter_app. f_equiv.
  clear -Hes. induction Hes as [|e es He _ IH]; [done|]. rewrite filter_cons_True by done. by f_equiv.
Qed.
End client.

(** ** PostgreSQL *)

Section postgres.
Context {E : Env} `{!Quiet E}.

Definition pg_admits (w : world) (e : event) : Prop :=
  fk_tenant (w_db w) (e_tenant_id e) = true ∧ fk_job (w_db w) (e_aggregate_id e) (e_tenant_id e) = true.

Lemma pg_event_save_law w es e : db_events (w_db w) = es → pg_admits w e → Forall (λ x, e_id x ≠ e_id e) es →
  ∃ w', EventRepository.save e w = (w', inr tt) ∧ db_events (w_db w') = es ++ [e].
Proof using Quiet0.
  intros <- [Ht Hj] Hf. destruct w as [d n]. cbn in *. unfold EventRepository.save, statement. cbn. rewrite quiet. unfold insert_event.
  assert (existsb (λ x, bool_decide (e_id x = e_id e)) (db_events d) = false) as ->.
  { induction Hf as [|x l Hx _ IH]; [done|]. cbn. by rewrite bool_decide_eq_false_2, IH. }
  rewrite Ht, Hj. by eexists.
Qed.

Lemma pg_sorted (P : event → Prop) `{!∀ e, Decision (P e)} w es : db_events (w_db w) = es →
  ∃ w' l, (l ← select_rows (λ d, filter P (db_events d)); mret (sort_desc (λ e, - e_occurred_at e) l)) w = (w', inr l) ∧
    db_events (w_db w') = es ∧ l ≡ₚ filter P es.
Proof using Quiet0.
  intros <-. destruct w as [d n]. apply wp_returns. apply wp_bind, wp_select_rows. intros l k Hl _. apply wp_ret. split; [done|].
  by rewrite sort_desc_perm, Hl.
Qed.

#[global] Instance postgres_events : EventRepository world := {|
  save := EventRepository.save; list_ := EventRepository.list; list_by_aggregate := EventRepository.list_by_aggregate;
  log w es := db_events (w_db w) = es; admits := pg_admits; tenant_ok _ := True; job_ok _ := True;
  save_law := pg_event_save_law;
  list_law w es t H _ := pg_sorted (λ e, e_tenant_id e = t) w es H;
  list_by_aggregate_law w es j t H _ _ := pg_sorted (λ e, e_aggregate_id e = j ∧ e_tenant_id e = t) w es H |}.
End postgres.

(** ** SQLite and memory *)

Definition sqlite_log (c : connection) (es : list event) : Prop :=
  events_hold (SqliteEventRepository.event_rows c) es ∧ is_Some (f_events (c_file c)).
Definition sqlite_admits (c : connection) (e : event) : Prop :=
  event_storable e ∧ Forall (λ r, er_id r ≠ enc (e_id e)) (SqliteEventRepository.event_rows c).

Lemma sqlite_save_law c es e : sqlite_log c es → sqlite_admits c e → Forall (λ x, e_id x ≠ e_id e) es →
  ∃ c', SqliteEventRepository.save e c = (c', inr tt) ∧ sqlite_log c' (es ++ [e]).
Proof.
  intros [Hl Hf] [He Hn] _. destruct (sqlite_save_event c es e Hl He Hf Hn) as (c' & Hs & _ & _ & Hl'). exists c'. split; [done|]. split; [done|].
  destruct (f_events (c_file c')) as [tb|] eqn:Htb; [done|]. exfalso. unfold SqliteEventRepository.event_rows in Hl'. rewrite Htb in Hl'.
  destruct Hl' as (old & Ho & _). rewrite fmap_app in Ho. by destruct old, es.
Qed.

#[global] Instance sqlite_events : EventRepository connection := {|
  save := SqliteEventRepository.save;
  list_ t c := (c, SqliteEventRepository.list t c); list_by_aggregate j t c := (c, SqliteEventRepository.list_by_aggregate j t c);
  log := sqlite_log; admits := sqlite_admits; tenant_ok := enc_ok; job_ok := enc_ok;
  save_law := sqlite_save_law;
  list_law c es t H Ht := ex_intro _ c (ex_intro _ _ (conj (f_equal (pair c) (sqlite_list_events c es t (proj1 H) Ht)) (conj H (Permutation_refl _))));
  list_by_aggregate_law c es j t H Hj Ht :=
    ex_intro _ c (ex_intro _ _ (conj (f_equal (pair c) (sqlite_list_by_aggregate c es j t (proj1 H) Hj Ht)) (conj H (Permutation_refl _)))) |}.

Lemma memory_event_save_law (l es : list event) e : l = es → True → Forall (λ x, e_id x ≠ e_id e) es →
  ∃ l', (InMemoryEventRepository.save e l, inr tt : exn + unit) = (l', inr tt) ∧ l' = es ++ [e].
Proof. intros -> _ _. by eexists. Qed.

#[global] Instance memory_events : EventRepository (list event) := {|
  save e l := (InMemoryEventRepository.save e l, inr tt);
  list_ t l := (l, inr (InMemoryEventRepository.list t l)); list_by_aggregate j t l := (l, inr (InMemoryEventRepository.list_by_aggregate j t l));
  log l es := l = es; admits _ _ := True; tenant_ok _ := True; job_ok _ := True;
  save_law := memory_event_save_law;
  list_law l es t H _ := ex_intro _ l (ex_intro _ _ (conj eq_refl (conj H (eq_ind l (λ x, _ ≡ₚ filter _ x) (Permutation_refl _) es H))));
  list_by_aggregate_law l es j t H _ _ := ex_intro _ l (ex_intro _ _ (conj eq_refl (conj H (eq_ind l (λ x, _ ≡ₚ filter _ x) (Permutation_refl _) es H)))) |}.
End Events.

(** * TenantRepository *)

Module TenantContract.

(** [tenants s d]: [d] are the tenants in [s]; [initial]: the repository as it starts. *)
Class TenantRepository (S : Type) := {
  save : tenant → S → S * (exn + unit);
  get_by_id : TenantId → S → exn + option tenant;
  get_by_name : string → S → exn + option tenant;

  tenants : S → gmap TenantId tenant → Prop;
  initial : S → Prop;

  initial_law s : initial s → ∃ d t, tenants s d ∧ d !! mkTenantId 1 = Some t ∧ tn_name t = DEFAULT_TENANT_NAME;
  tenants_law s d : tenants s d → tenants_wf d;
  save_law s d t : tenants s d → is_blank (tn_name t) = false →
    ∃ s', save t s = (s', (tenant_saved t d).2) ∧ tenants s' (tenant_saved t d).1;
  get_by_id_law s d k : tenants s d → get_by_id k s = inr (d !! k);
  get_by_name_law s d name : tenants s d →
    ∃ o, get_by_name name s = inr o ∧ match o with Some t => d !! tn_id t = Some t ∧ tn_name t = name | None => ∀ k t, d !! k = Some t → tn_name t ≠ name end;
}.

(** A bootstrap that ran can be run again: it succeeds and changes nothing. *)
Lemma save_again {S : Type} `{!TenantRepository S} s d t s1 : tenants s d → is_blank (tn_name t) = false → save t s = (s1, inr tt) →
  ∃ s2 d1, tenants s1 d1 ∧ save t s1 = (s2, inr tt) ∧ tenants s2 d1 ∧ ∃ x, get_by_id (tn_id t) s2 = inr (Some x) ∧ tn_name x = tn_name t.
Proof.
  intros Hs Hb Hsave. destruct (save_law s d t Hs Hb) as (s' & Hs' & Hd). rewrite Hs' in Hsave. injection Hsave as -> Hr.
  destruct (tenant_saved_ok t d Hr) as (x & Hx & Hn). set (d1 := (tenant_saved t d).1) in *.
  assert (tenant_saved t d1 = (d1, inr tt)) as Hagain. { unfold tenant_saved. rewrite Hx. by rewrite bool_decide_eq_true_2. }
  destruct (save_law s1 d1 t Hd Hb) as (s2 & Hs2 & Hd2). rewrite Hagain in Hs2, Hd2. cbn in Hs2, Hd2.
  exists s2, d1. split_and!; [done..|]. exists x. split; [|done]. by rewrite (get_by_id_law s2 d1), Hx.
Qed.

(** The table after [schema.sql], which inserts the default tenant. *)
Definition schema_tenants (now : datetime) : gmap TenantId tenant := {[ mkTenantId 1 := default_tenant now ]}.

Lemma schema_tenants_wf now : tenants_wf (schema_tenants now).
Proof.
  split; unfold schema_tenants.
  - intros k t [<- <-]%lookup_singleton_Some. done.
  - intros k1 k2 t1 t2 [<- _]%lookup_singleton_Some [<- _]%lookup_singleton_Some _. done.
  - intros k t [_ <-]%lookup_singleton_Some. reflexivity.
Qed.

Lemma valid_row d k t : tenants_wf d → d !! k = Some t → tenant_post_init t = inr t.
Proof. intros Hd Hk. unfold tenant_post_init. by rewrite (tw_valid d Hd k t Hk). Qed.

Lemma postgres_save_law (d d0 : gmap TenantId tenant) t : d = d0 ∧ tenants_wf d0 → is_blank (tn_name t) = false →
  ∃ d', PostgresTenantRepository.save id t d = (d', (tenant_saved t d0).2) ∧ d' = (tenant_saved t d0).1 ∧ tenants_wf (tenant_saved t d0).1.
Proof.
  intros [-> Hd] Hb. pose proof (postgres_save_spec id t d0 Hd (λ d H, conj (reflexivity (R:=(⊆)) d) H)) as Hs.
  destruct (PostgresTenantRepository.save id t d0) as [d' r]. destruct Hs as [-> Hd']. exists d'. split; [done|]. split; [|by apply tenant_saved_wf].
  destruct Hd' as [->|[-> [x Hx]]]; [done|]. unfold tenant_saved. by rewrite Hx.
Qed.

Lemma postgres_get_by_id_law (d d0 : gmap TenantId tenant) k : d = d0 ∧ tenants_wf d0 → PostgresTenantRepository.get_by_id k d = inr (d0 !! k).
Proof.
  intros [-> Hd]. unfold PostgresTenantRepository.get_by_id. destruct (d0 !! k) as [t|] eqn:Hk; [|done]. by rewrite (valid_row d0 k).
Qed.

Lemma postgres_get_by_name_law (d d0 : gmap TenantId tenant) name : d = d0 ∧ tenants_wf d0 →
  ∃ o, PostgresTenantRepository.get_by_name name d = inr o ∧
    match o with Some t => d0 !! tn_id t = Some t ∧ tn_name t = name | None => ∀ k t, d0 !! k = Some t → tn_name t ≠ name end.
Proof.
  intros [-> Hd]. unfold PostgresTenantRepository.get_by_name. destruct (filter _ _) as [|x r] eqn:Hf; cbn.
  - exists None. split; [done|]. intros k t Hk Hn. eapply elem_of_nil. rewrite <- Hf. apply list_elem_of_filter. split; [done|]. apply elem_of_rows. eauto.
  - assert (x ∈ x :: r) as Hx by left. rewrite <- Hf in Hx. apply list_elem_of_filter in Hx as [Hn [k Hk]%elem_of_rows].
    exists (Some x). rewrite (valid_row d0 k) by done. split; [done|]. by rewrite (tw_ids d0 Hd k x Hk).
Qed.

#[global] Instance postgres_tenants : TenantRepository (gmap TenantId tenant) := {|
  save := PostgresTenantRepository.save id; get_by_id := PostgresTenantRepository.get_by_id; get_by_name := PostgresTenantRepository.get_by_name;
  tenants d d0 := d = d0 ∧ tenants_wf d0; initial d := ∃ now, d = schema_tenants now;
  initial_law d H := match H with ex_intro _ now e =>
    ex_intro _ d (ex_intro _ (default_tenant now) (conj (conj eq_refl (eq_ind_r tenants_wf (schema_tenants_wf now) e))
      (conj (eq_ind_r (λ d, d !! mkTenantId 1 = Some _) (lookup_singleton_eq _ _) e) eq_refl))) end;
  tenants_law d d0 H := proj2 H; save_law := postgres_save_law; get_by_id_law := postgres_get_by_id_law; get_by_name_law := postgres_get_by_name_law |}.

Lemma memory_tenant_save_law (l : list tenant) d t : list_holds l d ∧ tenants_wf d → is_blank (tn_name t) = false →
  ∃ l', InMemoryTenantRepository.save t l = (l', (tenant_saved t d).2) ∧ list_holds l' (tenant_saved t d).1 ∧ tenants_wf (tenant_saved t d).1.
Proof.
  intros [Hl Hd] Hb. pose proof (memory_save_spec t l d Hl Hd) as Hs. destruct (InMemoryTenantRepository.save t l) as [l' r]. destruct Hs as [-> Hl'].
  exists l'. split; [done|]. split; [done|]. by apply tenant_saved_wf.
Qed.

Lemma memory_get_by_id_law (l : list tenant) d k : list_holds l d ∧ tenants_wf d →
  (inr (InMemoryTenantRepository.get_by_id k l) : exn + option tenant) = inr (d !! k).
Proof. intros [[_ ->] _]. by rewrite table_of_head. Qed.

Lemma memory_get_by_name_law (l : list tenant) d name : list_holds l d ∧ tenants_wf d →
  ∃ o, (inr (InMemoryTenantRepository.get_by_name name l) : exn + option tenant) = inr o ∧
    match o with Some t => d !! tn_id t = Some t ∧ tn_name t = name | None => ∀ k t, d !! k = Some t → tn_name t ≠ name end.
Proof.
  intros [Hl Hd]. eexists. split; [reflexivity|]. unfold InMemoryTenantRepository.get_by_name. destruct (filter _ l) as [|x r] eqn:Hf; cbn.
  - intros k t Hk Hn. eapply elem_of_nil. rewrite <- Hf. apply list_elem_of_filter. split; [done|]. apply (list_holds_in l d); [done|].
    by rewrite (tw_ids d Hd k t Hk).
  - assert (x ∈ x :: r) as Hx by left. rewrite <- Hf in Hx. apply list_elem_of_filter in Hx as [Hn Hx]. split; [|done]. by apply (list_holds_in l d).
Qed.

Lemma memory_initial_law (l : list tenant) : (∃ now, l = InMemoryTenantRepository.__init__ now) →
  ∃ d t, (list_holds l d ∧ tenants_wf d) ∧ d !! mkTenantId 1 = Some t ∧ tn_name t = DEFAULT_TENANT_NAME.
Proof.
  intros [now ->]. exists (schema_tenants now), (default_tenant now). split; [split; [|apply schema_tenants_wf]|].
  - split; [apply NoDup_singleton|reflexivity].
  - split; [apply lookup_singleton_eq|reflexivity].
Qed.

#[global] Instance memory_tenants : TenantRepository (list tenant) := {|
  save := InMemoryTenantRepository.save; get_by_id k l := inr (InMemoryTenantRepository.get_by_id k l);
  get_by_name name l := inr (InMemoryTenantRepository.get_by_name name l);
  tenants l d := list_holds l d ∧ tenants_wf d; initial l := ∃ now, l = InMemoryTenantRepository.__init__ now;
  initial_law := memory_initial_law; tenants_law l d H := proj2 H; save_law := memory_tenant_save_law; get_by_id_law := memory_get_by_id_law;
  get_by_name_law := memory_get_by_name_law |}.
End TenantContract.
