(* ===== verification/FleetContracts.v ===== *)
(** The contracts of jobs and nodes (src/app/domain/repositories/job_repository.py and
    node_repository.py): a [Stores.Store], which holds the reads and writes by
    identifier, with the queries of each; the PostgreSQL, SQLite and in-memory
    implementations; what a client gets from any of them. *)
From S2P Require Import Prelude Values Job Node Float64 Execution ApiKey Worker Db Prog Repos Text Calendar Stores Sqlite Memory System Contracts Backends.
Local Open Scope Z_scope.

Lemma filter_of_fmap {A B} (f : A → B) (P : B → Prop) `{!∀ y, Decision (P y)} (l : list A) : filter P (f <$> l) = f <$> filter (λ x, P (f x)) l.
Proof. induction l as [|x l IH]; [done|]. rewrite fmap_cons, !filter_cons. case_decide; by rewrite ?fmap_cons, IH. Qed.

(** * JobRepository *)

(** The jobs of a tenant, newest first, no more than the limit. *)
Definition most_recent (limit : nat) (t : TenantId) (js l : list job) : Prop :=
  ∃ s, s ≡ₚ filter (λ j, j_tenant_id j = t) js ∧ Sorted (λ a b, j_submitted_at b <= j_submitted_at a) s ∧ l = take limit s.

Record JobRepository := mkJobRepository {
  jobs : Store j_id j_tenant_id JobTenantConflictError;
  list_queued : TenantId → store jobs → exn + list job;
  list_recent : nat → TenantId → store jobs → exn + list job;
  list_queued_law s m t : rep jobs s m → tenant_ok jobs t →
    ∃ l, list_queued t s = inr l ∧ l ≡ₚ filter (λ j, j_status j = QUEUED ∧ j_tenant_id j = t) (rows m);
  list_recent_law s m limit t : rep jobs s m → tenant_ok jobs t → ∃ l, list_recent limit t s = inr l ∧ most_recent limit t (rows m) l;
}.

(** A job that was accepted waits in the queue of its tenant, and in no other. *)
Lemma submitted_job_listed (R : JobRepository) s m x s' t :
  rep (jobs R) s m → storable (jobs R) x → j_status x = QUEUED → put (jobs R) x s = (s', inr tt) → tenant_ok (jobs R) t →
  ∃ l, list_queued R t s' = inr l ∧ (x ∈ l ↔ t = j_tenant_id x).
Proof.
  intros Hs Hx Hq Hput Ht. destruct (put_law _ _ _ (jobs R) s m x Hs Hx) as (s1 & Hp & Hr). rewrite Hp in Hput. injection Hput as -> Hok.
  destruct (list_queued_law R s' _ t Hr Ht) as (l & Hl & Hperm). exists l. split; [done|]. rewrite Hperm, list_elem_of_filter.
  assert (x ∈ rows (table_put j_id j_tenant_id JobTenantConflictError x m).1) as Hin.
  { apply elem_of_rows. exists (j_id x). unfold table_put in *. destruct (m !! j_id x) as [old|]; [case_bool_decide|]; cbn in *; try done; apply lookup_insert_eq. }
  naive_solver.
Qed.

(** What list_recent leaves out is no newer than what it returns. *)
Lemma most_recent_first limit t js l x y : most_recent limit t js l → x ∈ js → j_tenant_id x = t → x ∉ l → y ∈ l → j_submitted_at x <= j_submitted_at y.
Proof.
  intros (s & Hs & Hsort & ->) Hx Ht Hn Hy. eapply take_sorted_rest; [exact Hsort| |exact Hn|exact Hy]. rewrite Hs. by apply list_elem_of_filter.
Qed.

Lemma sorted_recent limit t js js' : js ≡ₚ filter (λ j, j_tenant_id j = t) js' → most_recent limit t js' (take limit (sort_desc j_submitted_at js)).
Proof. intros Hjs. eexists. split_and!; [|apply sort_desc_sorted|reflexivity]. by rewrite sort_desc_perm. Qed.

(** ** PostgreSQL *)

Section postgres_jobs.
Context {E : Env} `{!Quiet E} (tenants : gset TenantId) (homes : list (NodeId * TenantId)).
Abbreviation pg := (postgres_jobs tenants homes).

(** A query of rows that load. *)
Lemma pg_query (P : job → Prop) `{!∀ j, Decision (P j)} (order : list job → list job) w m :
  (∀ l x, x ∈ order l → x ∈ l) → rep pg w m →
  ∃ l l0, ((l ← select_rows (λ d, filter P (rows (db_jobs d))); load_each (λ row, of_sum (JobRepository._to_entity row)) (order l)) w).2 = inr l ∧
    l = order l0 ∧ l0 ≡ₚ filter P (rows m).
Proof using Quiet0.
  intros Hord (Hr & <- & _). destruct w as [d n]. cbn in *.
  assert (wp (l ← select_rows (λ d, filter P (rows (db_jobs d))); load_each (λ row, of_sum (JobRepository._to_entity row)) (order l))
    (λ l _, ∃ l0, l = order l0 ∧ l0 ≡ₚ filter P (rows (db_jobs d))) (λ _ _, False) (mkWorld d n)) as Hw.
  { apply wp_bind, wp_select_rows. intros l k Hl _. apply wp_load_each with (g := id); [|rewrite list_fmap_id; by exists l].
    intros x Hx%Hord. apply job_to_entity_ok. rewrite Hl in Hx. apply list_elem_of_filter in Hx as [_ [i Hi]%elem_of_rows].
    by eapply ld_jobs; [apply pr_loadable in Hr|]. }
  apply wp_returns in Hw as (w' & l & -> & l0 & Hl & Hl0). by exists l, l0.
Qed.

Lemma pg_list_queued_law w m t : rep pg w m → tenant_ok pg t →
  ∃ l, (Repos.JobRepository.list_queued t w).2 = inr l ∧ l ≡ₚ filter (λ j, j_status j = QUEUED ∧ j_tenant_id j = t) (rows m).
Proof using Quiet0. intros Hw _. destruct (pg_query (λ j, j_status j = QUEUED ∧ j_tenant_id j = t) id w m (λ _ _ H, H) Hw) as (l & l0 & Hl & -> & Hl0). by exists l0. Qed.

Lemma pg_list_recent_law w m limit t : rep pg w m → tenant_ok pg t → ∃ l, (Repos.JobRepository.list_recent limit t w).2 = inr l ∧ most_recent limit t (rows m) l.
Proof using Quiet0.
  intros Hw _. destruct (pg_query (λ j, j_tenant_id j = t) (λ l, take limit (sort_desc j_submitted_at l)) w m) as (l & l0 & Hl & -> & Hl0); [|done|].
  - intros l x Hx. eapply elem_of_sublist in Hx; [|apply sublist_take]. by rewrite sort_desc_perm in Hx.
  - eexists. split; [exact Hl|]. by apply sorted_recent.
Qed.

Definition PostgresJobRepository : JobRepository :=
  mkJobRepository pg (λ t w, (Repos.JobRepository.list_queued t w).2) (λ limit t w, (Repos.JobRepository.list_recent limit t w).2)
    pg_list_queued_law pg_list_recent_law.
End postgres_jobs.

(** ** SQLite and memory *)

Lemma sqlite_list_queued_law c m t : rep sqlite_jobs c m → tenant_ok sqlite_jobs t →
  ∃ l, SqliteJobRepository.list_queued t c = inr l ∧ l ≡ₚ filter (λ j, j_status j = QUEUED ∧ j_tenant_id j = t) (rows m).
Proof.
  intros (_ & xs & Hxs & ->) Ht. eexists. split; [exact (sqlite_list_queued c xs Hxs t Ht)|]. by rewrite <- (rows_table_of j_id xs) by apply Hxs.
Qed.

Lemma sqlite_list_recent_law c m limit t : rep sqlite_jobs c m → tenant_ok sqlite_jobs t →
  ∃ l, SqliteJobRepository.list_recent limit t c = inr l ∧ most_recent limit t (rows m) l.
Proof.
  intros (_ & xs & Hxs & ->) Ht. eexists. split; [exact (sqlite_list_recent c xs Hxs limit t Ht)|]. apply sorted_recent.
  by rewrite <- (rows_table_of j_id xs) by apply Hxs.
Qed.

Definition SqliteJobs : JobRepository :=
  mkJobRepository sqlite_jobs SqliteJobRepository.list_queued SqliteJobRepository.list_recent sqlite_list_queued_law sqlite_list_recent_law.

Lemma memory_list_queued_law o m t : rep memory_jobs o m → tenant_ok memory_jobs t →
  ∃ l, (inr (objects o (InMemoryJobRepository.list_queued t o)) : exn + list job) = inr l ∧ l ≡ₚ filter (λ j, j_status j = QUEUED ∧ j_tenant_id j = t) (rows m).
Proof.
  intros [Ho ->] _. eexists. split; [reflexivity|]. rewrite memory_list_queued, <- (rows_table_of j_id (entities o)) by (by apply entities_nodup).
  apply reflexive_eq, filter_agree. tauto.
Qed.

Lemma memory_list_recent_law o m limit t : rep memory_jobs o m → tenant_ok memory_jobs t →
  ∃ l, (inr (objects o (InMemoryJobRepository.list_recent limit t o)) : exn + list job) = inr l ∧ most_recent limit t (rows m) l.
Proof.
  intros [Ho ->] _. eexists. split; [reflexivity|]. rewrite memory_list_recent. apply sorted_recent.
  by rewrite <- (rows_table_of j_id (entities o)) by (by apply entities_nodup).
Qed.

Definition MemoryJobs : JobRepository :=
  mkJobRepository memory_jobs (λ t o, inr (objects o (InMemoryJobRepository.list_queued t o))) (λ limit t o, inr (objects o (InMemoryJobRepository.list_recent limit t o)))
    memory_list_queued_law memory_list_recent_law.

(** * NodeRepository *)

(** [at_ s] are the times a call may read: one per node it looks at. *)
Record NodeRepository := mkNodeRepository {
  nodes : Store n_id n_tenant_id NodeTenantConflictError;
  list_ : TenantId → store nodes → exn + list node;
  delete : NodeId → TenantId → store nodes → store nodes * (exn + unit);
  list_available_across_tenants : store nodes → exn + list node;
  at_ : store nodes → datetime → Prop;
  list_law s m t : rep nodes s m → tenant_ok nodes t → ∃ l, list_ t s = inr l ∧ l ≡ₚ filter (λ n, n_tenant_id n = t) (rows m);
  delete_law s m k t : rep nodes s m → arg_ok nodes k → tenant_ok nodes t →
    ∃ s', delete k t s = (s', inr tt) ∧ rep nodes s' (if in_tenant n_tenant_id t (m !! k) then base.delete k m else m);
  list_available_law s m : rep nodes s m → ∃ l, list_available_across_tenants s = inr l ∧
    (∀ x, x ∈ l → x ∈ rows m ∧ n_draining x = false ∧ ∃ now, at_ s now ∧ is_alive now x = true) ∧
    (∀ x, x ∈ rows m → n_draining x = false → (∀ now, at_ s now → is_alive now x = true) → x ∈ l);
}.

(** A node that was removed is offered to nobody, and its removal leaves the nodes of
    other tenants where they are. *)
Lemma removed_node_not_offered (R : NodeRepository) s m k t x s' :
  rep (nodes R) s m → arg_ok (nodes R) k → tenant_ok (nodes R) t → m !! k = Some x → n_tenant_id x = t → delete R k t s = (s', inr tt) →
  map_Forall (λ k x, n_id x = k) m →
  ∃ l, list_available_across_tenants R s' = inr l ∧ ∀ y, y ∈ l → n_id y ≠ k.
Proof.
  intros Hs Hk Ht Hx Htx Hd Hids. destruct (delete_law R s m k t Hs Hk Ht) as (s1 & Hd1 & Hr). rewrite Hd1 in Hd. injection Hd as ->.
  rewrite Hx in Hr. cbn in Hr. rewrite bool_decide_eq_true_2 in Hr by done. destruct (list_available_law R s' _ Hr) as (l & Hl & Hin & _).
  exists l. split; [done|]. intros y (Hy & _)%Hin. apply elem_of_rows in Hy as [i [Hne Hi]%lookup_delete_Some]. by rewrite (Hids i y Hi).
Qed.

(** ** PostgreSQL *)

Section postgres_nodes.
Context {E : Env} `{!Quiet E} (tenants : gset TenantId).
Abbreviation pg := (postgres_nodes tenants []).

Lemma pg_list_nodes_law w m t : rep pg w m → tenant_ok pg t →
  ∃ l, (Repos.NodeRepository.list t w).2 = inr l ∧ l ≡ₚ filter (λ n, n_tenant_id n = t) (rows m).
Proof using Quiet0.
  intros (Hr & <- & _) _. destruct w as [d n]. cbn in *.
  assert (wp (Repos.NodeRepository.list t) (λ l _, l ≡ₚ filter (λ n, n_tenant_id n = t) (rows (db_nodes d))) (λ _ _, False) (mkWorld d n)) as Hw.
  { apply wp_bind, wp_select_rows. intros l k Hl _. apply wp_load_each with (g := id); [|by rewrite list_fmap_id].
    intros x Hx. apply node_to_entity_ok. rewrite Hl in Hx. apply list_elem_of_filter in Hx as [_ [i Hi]%elem_of_rows].
    by eapply ld_nodes; [apply pr_loadable in Hr|]. }
  apply wp_returns in Hw as (w' & l & -> & Hl). by exists l.
Qed.

Lemma unassign_row_ok n j : job_row_ok j → job_row_ok (unassign_from n j).
Proof using. unfold unassign_from. by case_bool_decide. Qed.

Lemma pg_delete_node_law w m k t : rep pg w m → arg_ok pg k → tenant_ok pg t →
  ∃ w', Repos.NodeRepository.delete k t w = (w', inr tt) ∧ rep pg w' (if in_tenant n_tenant_id t (m !! k) then base.delete k m else m).
Proof using Quiet0.
  intros (Hr & <- & Hm) _ _. destruct w as [d n]. cbn in *. unfold Repos.NodeRepository.delete, statement. cbn. rewrite quiet. unfold delete_node.
  destruct (db_nodes d !! k) as [x|] eqn:Hx; cbn; [case_bool_decide|]; (eexists; split; [reflexivity|]); (split; [|split; [reflexivity|]]); try done.
  - destruct Hr as [[Hj Hns] Ht Hh]. split; [|done|constructor]. split; cbn.
    + intros i j. rewrite lookup_fmap. intros (j0 & Hj0 & ->)%fmap_Some. apply unassign_row_ok. by eapply Hj.
    + intros i y [_ Hy]%lookup_delete_Some. by eapply Hns.
  - by apply map_Forall_delete.
Qed.

(** The loop that reads the clock for each node that is not draining. *)
Lemma wp_alive_nodes d l n : (∀ x, x ∈ l → node_row_ok x) →
  wp (load_some (λ row, x ← of_sum (NodeRepository._to_entity row); now ← utc_now; mret (if is_alive now x then Some x else None)) l)
    (λ l' _, (∀ x, x ∈ l' → x ∈ l ∧ ∃ k, (n ≤ k)%nat ∧ is_alive (clock k) x = true) ∧
             (∀ x, x ∈ l → (∀ k, (n ≤ k)%nat → is_alive (clock k) x = true) → x ∈ l')) (λ _ _, False) (mkWorld d n).
Proof using Quiet0.
  revert n. induction l as [|x l IH]; intros n Hl; [apply wp_ret; split; [by intros x Hx%elem_of_nil|done]|].
  cbn. wp_steps. rewrite node_to_entity_ok by (apply Hl; left). wp_steps.
  eapply wp_mono; [apply (IH (S n)); intros y Hy; apply Hl; by right| |done]. intros l' w' [Hin Hall]. apply wp_ret.
  assert (∀ y, y ∈ l' → y ∈ x :: l ∧ ∃ k, (n ≤ k)%nat ∧ is_alive (clock k) y = true) as Hrest.
  { intros y (Hy & k & Hk & Ha)%Hin. split; [by right|]. exists k. split; [lia|done]. }
  destruct (is_alive (clock n) x) eqn:Ha; (split; [|intros y [->|Hy]%elem_of_cons Hal]).
  - intros y [->|Hy]%elem_of_cons; [|by apply Hrest]. split; [left|]. by exists n.
  - left.
  - right. apply Hall; [done|]. intros k Hk. apply Hal. lia.
  - exact Hrest.
  - specialize (Hal n (Nat.le_refl n)). congruence.
  - apply Hall; [done|]. intros k Hk. apply Hal. lia.
Qed.

Definition pg_at (w : world) (now : datetime) : Prop := ∃ k, (w_step w ≤ k)%nat ∧ now = clock k.

Lemma pg_list_available_law w m : rep pg w m → ∃ l, (Repos.NodeRepository.list_available_across_tenants w).2 = inr l ∧
  (∀ x, x ∈ l → x ∈ rows m ∧ n_draining x = false ∧ ∃ now, pg_at w now ∧ is_alive now x = true) ∧
  (∀ x, x ∈ rows m → n_draining x = false → (∀ now, pg_at w now → is_alive now x = true) → x ∈ l).
Proof using Quiet0.
  intros (Hr & <- & _). destruct w as [d n]. cbn in *.
  assert (wp Repos.NodeRepository.list_available_across_tenants
    (λ l _, (∀ x, x ∈ l → x ∈ rows (db_nodes d) ∧ n_draining x = false ∧ ∃ now, pg_at (mkWorld d n) now ∧ is_alive now x = true) ∧
            (∀ x, x ∈ rows (db_nodes d) → n_draining x = false → (∀ now, pg_at (mkWorld d n) now → is_alive now x = true) → x ∈ l)) (λ _ _, False) (mkWorld d n)) as Hw.
  { apply wp_bind, wp_select_rows. intros l k Hl Hk. eapply wp_mono; [apply wp_alive_nodes| |done].
    - intros x Hx. rewrite Hl in Hx. apply list_elem_of_filter in Hx as [_ [i Hi]%elem_of_rows]. by eapply ld_nodes; [apply pr_loadable in Hr|].
    - intros l' _ [Hin Hall]. split.
      + intros x (Hx & k' & Hk' & Ha)%Hin. rewrite Hl in Hx. apply list_elem_of_filter in Hx as [Hd Hx]. split_and!; [done..|].
        exists (clock k'). split; [|done]. exists k'. split; [cbn; lia|done].
      + intros x Hx Hd Ha. apply Hall; [rewrite Hl; by apply list_elem_of_filter|]. intros k' Hk'. apply Ha. exists k'. split; [cbn; lia|done]. }
  apply wp_returns in Hw as (w' & l & -> & Hl). by exists l.
Qed.

Definition PostgresNodeRepository : NodeRepository :=
  mkNodeRepository pg (λ t w, (Repos.NodeRepository.list t w).2) Repos.NodeRepository.delete (λ w, (Repos.NodeRepository.list_available_across_tenants w).2) pg_at
    pg_list_nodes_law pg_delete_node_law pg_list_available_law.
End postgres_nodes.

(** ** SQLite and memory *)

Section local_nodes.
(** [clock i] is what [utc_now()] reads for the node at place [i]. *)
Context (clock : nat → datetime).

Definition local_at {A} (_ : A) (now : datetime) : Prop := ∃ i : nat, now = clock i.

Lemma available_nodes {A} (s : A) (xs : list node) :
  let l := (filter (λ p, is_alive (clock p.1) p.2 = true ∧ is_draining p.2 = false) (imap pair xs)).*2 in
  (∀ x, x ∈ l → x ∈ xs ∧ n_draining x = false ∧ ∃ now, local_at s now ∧ is_alive now x = true) ∧
  (∀ x, x ∈ xs → n_draining x = false → (∀ now, local_at s now → is_alive now x = true) → x ∈ l).
Proof.
  intros l. assert (∀ i x, (i, x) ∈ imap pair xs ↔ xs !! i = Some x) as Himap.
  { intros i x. rewrite elem_of_lookup_imap. split; [intros (j & y & [= -> ->] & Hy); done|]. intros Hx. by exists i, x. }
  split.
  - intros x ([i y] & -> & [[Ha Hd] Hin%Himap]%list_elem_of_filter)%list_elem_of_fmap. cbn in *. split_and!; [by eapply list_elem_of_lookup_2|done|].
    exists (clock i). split; [by exists i|done].
  - intros x [i Hi]%list_elem_of_lookup Hd Ha. apply list_elem_of_fmap. exists (i, x). split; [done|]. apply list_elem_of_filter.
    split; [split; [apply Ha; by exists i|done]|]. by apply Himap.
Qed.

Lemma sqlite_list_nodes_law c m t : rep sqlite_nodes c m → tenant_ok sqlite_nodes t →
  ∃ l, SqliteNodeRepository.list t c = inr l ∧ l ≡ₚ filter (λ n, n_tenant_id n = t) (rows m).
Proof.
  intros (_ & xs & Hxs & ->) Ht. eexists. split; [exact (sqlite_list_nodes c xs Hxs t Ht)|]. by rewrite <- (rows_table_of n_id xs) by apply Hxs.
Qed.

Lemma sqlite_delete_law c m k t : rep sqlite_nodes c m → arg_ok sqlite_nodes k → tenant_ok sqlite_nodes t →
  ∃ c', SqliteNodeRepository.delete k t c = (c', inr tt) ∧ rep sqlite_nodes c' (if in_tenant n_tenant_id t (m !! k) then base.delete k m else m).
Proof.
  intros (Hc & xs & Hxs & ->) Hk Ht. destruct (sqlite_delete_node c xs Hxs k t Hk Ht Hc) as (c' & Hd & _ & _ & Hc' & Hxs').
  exists c'. split; [done|]. split; [done|]. eexists. split; [exact Hxs'|]. destruct Hxs as (_ & Hn & _). symmetry. apply map_eq. intros i.
  rewrite table_of_filter by done.
  assert (∀ x, table_of n_id xs !! i = Some x → n_id x = i) as Hid.
  { intros x Hx. rewrite table_of_head in Hx. apply head_Some_elem_of, list_elem_of_filter in Hx. tauto. }
  destruct (decide (i = k)) as [->|Hne].
  - destruct (table_of n_id xs !! k) as [x|] eqn:Hx; cbn; [|by rewrite Hx]. rewrite (Hid x eq_refl). case_bool_decide; cbn.
    + rewrite lookup_delete_eq. by rewrite decide_False by tauto.
    + rewrite Hx. by rewrite decide_True by tauto.
  - assert ((if in_tenant n_tenant_id t (table_of n_id xs !! k) then base.delete k (table_of n_id xs) else table_of n_id xs) !! i = table_of n_id xs !! i) as ->.
    { destruct (in_tenant _ _ _); [|done]. by apply lookup_delete_ne. }
    destruct (table_of n_id xs !! i) as [x|] eqn:Hx; [|done]. cbn. rewrite decide_True; [done|]. rewrite (Hid x eq_refl). tauto.
Qed.

Lemma sqlite_list_available_law c m : rep sqlite_nodes c m → ∃ l, SqliteNodeRepository.list_available_across_tenants clock c = inr l ∧
  (∀ x, x ∈ l → x ∈ rows m ∧ n_draining x = false ∧ ∃ now, local_at c now ∧ is_alive now x = true) ∧
  (∀ x, x ∈ rows m → n_draining x = false → (∀ now, local_at c now → is_alive now x = true) → x ∈ l).
Proof.
  intros (_ & xs & Hxs & ->). eexists. split; [exact (sqlite_list_available c xs Hxs clock)|]. destruct (available_nodes c xs) as [Hin Hall].
  assert (∀ x, x ∈ rows (table_of n_id xs) ↔ x ∈ xs) as Hrows by (intros x; by rewrite <- (rows_table_of n_id xs) by apply Hxs).
  split; [intros x Hx; rewrite Hrows; by apply Hin|intros x Hx%Hrows; by apply Hall].
Qed.

Definition SqliteNodes : NodeRepository :=
  mkNodeRepository sqlite_nodes SqliteNodeRepository.list SqliteNodeRepository.delete (SqliteNodeRepository.list_available_across_tenants clock) local_at
    sqlite_list_nodes_law sqlite_delete_law sqlite_list_available_law.

Lemma memory_list_nodes_law o m t : rep memory_nodes o m → tenant_ok memory_nodes t →
  ∃ l, (inr (objects o (InMemoryNodeRepository.list t o)) : exn + list node) = inr l ∧ l ≡ₚ filter (λ n, n_tenant_id n = t) (rows m).
Proof.
  intros [Ho ->] _. eexists. split; [reflexivity|]. unfold InMemoryNodeRepository.list. rewrite objects_where.
  by rewrite <- (rows_table_of n_id (entities o)) by (by apply entities_nodup).
Qed.

Lemma memory_delete_law o m k t : rep memory_nodes o m → arg_ok memory_nodes k → tenant_ok memory_nodes t →
  ∃ o', (InMemoryNodeRepository.delete k t o, inr tt : exn + unit) = (o', inr tt) ∧ rep memory_nodes o' (if in_tenant n_tenant_id t (m !! k) then base.delete k m else m).
Proof.
  intros [Ho ->] _ _. eexists. split; [reflexivity|]. unfold InMemoryNodeRepository.delete, delete_in.
  pose proof (find_in_entity n_id n_tenant_id o k t Ho) as Hf. destruct (find_in n_tenant_id k t o) as [p|] eqn:Hp; cbn in Hf; rewrite <- Hf.
  - assert (is_Some (heap o !! p)) as [x ->].
    { unfold find_in in Hp. destruct (find_any k o) as [q|]; [|done]. destruct (heap o !! q) eqn:Hq; [|done]. case_bool_decide; [|done]. injection Hp as ->. by rewrite Hq. }
    split; [by apply dict_del_wf|]. rewrite (del_entities n_id) by done. by rewrite table_of_without by (by apply entities_nodup).
  - by split.
Qed.

Lemma memory_available o : objects o (InMemoryNodeRepository.list_available_across_tenants clock o) =
  (filter (λ p, is_alive (clock p.1) p.2 = true ∧ is_draining p.2 = false) (imap pair (entities o))).*2.
Proof.
  unfold InMemoryNodeRepository.list_available_across_tenants. rewrite objects_values.
  - unfold entities. generalize (values o). clear. intros l.
    assert (imap pair l.*2 = prod_map id snd <$> imap pair l) as ->.
    { rewrite imap_fmap, fmap_imap. done. }
    rewrite filter_of_fmap, <- !list_fmap_compose. done.
  - intros [q x] Hx. apply list_elem_of_fmap in Hx as ([i y] & -> & [_ Hin]%list_elem_of_filter). apply elem_of_lookup_imap in Hin as (j & y' & [= -> ->] & Hy).
    by eapply list_elem_of_lookup_2.
Qed.

Lemma memory_list_available_law o m : rep memory_nodes o m →
  ∃ l, (inr (objects o (InMemoryNodeRepository.list_available_across_tenants clock o)) : exn + list node) = inr l ∧
  (∀ x, x ∈ l → x ∈ rows m ∧ n_draining x = false ∧ ∃ now, local_at o now ∧ is_alive now x = true) ∧
  (∀ x, x ∈ rows m → n_draining x = false → (∀ now, local_at o now → is_alive now x = true) → x ∈ l).
Proof.
  intros [Ho ->]. eexists. split; [reflexivity|]. rewrite memory_available. destruct (available_nodes o (entities o)) as [Hin Hall].
  assert (∀ x, x ∈ rows (table_of n_id (entities o)) ↔ x ∈ entities o) as Hrows by (intros x; by rewrite <- (rows_table_of n_id (entities o)) by (by apply entities_nodup)).
  split; [intros x Hx; rewrite Hrows; by apply Hin|intros x Hx%Hrows; by apply Hall].
Qed.

Definition MemoryNodes : NodeRepository :=
  mkNodeRepository memory_nodes (λ t o, inr (objects o (InMemoryNodeRepository.list t o))) (λ k t o, (InMemoryNodeRepository.delete k t o, inr tt))
    (λ o, inr (objects o (InMemoryNodeRepository.list_available_across_tenants clock o))) local_at
    memory_list_nodes_law memory_delete_law memory_list_available_law.
End local_nodes.
