(* ===== verification/WorkerContracts.v ===== *)
(** The contract of workers (src/app/domain/repositories/worker_repository.py), with its
    PostgreSQL and in-memory implementations.

    What a repository hands out is compared by what it shows of a worker: its
    identifier, node, tenant, status, management, running job and last sign of life.
    PostgreSQL builds a new object each time; memory hands out the object it holds, which
    refers to a node and a job that others change. *)
From S2P Require Import Prelude Sqlite Values Job Node ApiKey Worker Db Prog Repos Text Stores Memory System Contracts.
Local Open Scope Z_scope.

(** * WorkerRepository *)

(** [seen s w r]: in [s], the entity [w] shows [r]; [registered s m]: [m] are the workers in
    [s]; [admits s r]: nothing in [s] stands in the way of [r]. *)
Class WorkerRepository (S W : Type) := {
  save : W → S → S * (exn + unit);
  get_by_id : WorkerId → TenantId → S → S * (exn + option W);
  get_by_id_across_tenants : WorkerId → S → S * (exn + option W);
  get_by_node_id : NodeId → TenantId → S → S * (exn + option W);
  list_ : TenantId → S → S * (exn + list W);
  list_across_tenants : S → S * (exn + list W);
  delete : WorkerId → TenantId → S → S * (exn + unit);

  seen : S → W → worker_row → Prop;
  registered : S → gmap WorkerId worker_row → Prop;
  admits : S → worker_row → Prop;

  save_law s m w r : registered s m → seen s w r → admits s r → ∃ s', save w s = (s', inr tt) ∧ registered s' (<[r_id r := r]> m);
  get_by_id_law s m k t : registered s m →
    ∃ s' o, get_by_id k t s = (s', inr o) ∧ registered s' m ∧ option_Forall2 (seen s') o (in_tenant r_tenant_id t (m !! k));
  get_by_id_across_tenants_law s m k : registered s m →
    ∃ s' o, get_by_id_across_tenants k s = (s', inr o) ∧ registered s' m ∧ option_Forall2 (seen s') o (m !! k);
  get_by_node_id_law s m n t : registered s m →
    ∃ s' o r, get_by_node_id n t s = (s', inr o) ∧ registered s' m ∧ option_Forall2 (seen s') o r ∧
      match r with
      | Some x => x ∈ rows m ∧ r_node_id x = n ∧ r_tenant_id x = t
      | None => Forall (λ x, ¬ (r_node_id x = n ∧ r_tenant_id x = t)) (rows m)
      end;
  list_law s m t : registered s m →
    ∃ s' l rs, list_ t s = (s', inr l) ∧ registered s' m ∧ Forall2 (seen s') l rs ∧ rs ≡ₚ filter (λ r, r_tenant_id r = t) (rows m);
  list_across_tenants_law s m : registered s m →
    ∃ s' l rs, list_across_tenants s = (s', inr l) ∧ registered s' m ∧ Forall2 (seen s') l rs ∧ rs ≡ₚ rows m;
  delete_law s m k t : registered s m →
    ∃ s', delete k t s = (s', inr tt) ∧ registered s' (if in_tenant r_tenant_id t (m !! k) then base.delete k m else m);
}.

(** What was registered is found, in its tenant and in no other. *)
Lemma saved_worker_found {S W : Type} `{!WorkerRepository S W} s m w r s1 t :
  registered s m → seen s w r → admits s r → save w s = (s1, inr tt) →
  ∃ s2 o, get_by_id (r_id r) t s1 = (s2, inr o) ∧ option_Forall2 (seen s2) o (if decide (r_tenant_id r = t) then Some r else None).
Proof.
  intros Hs Hw Ha Hsave. destruct (save_law s m w r Hs Hw Ha) as (s' & Hs' & Hm). rewrite Hs' in Hsave. injection Hsave as ->.
  destruct (get_by_id_law s1 _ (r_id r) t Hm) as (s2 & o & Hg & _ & Ho). exists s2, o. split; [done|]. rewrite lookup_insert_eq in Ho. cbn in Ho.
  case_decide; [rewrite bool_decide_eq_true_2 in Ho by done|rewrite bool_decide_eq_false_2 in Ho by done]; done.
Qed.

(** ** PostgreSQL *)

Section postgres.
Context {E : Env} `{!Quiet E}.

Definition pg_registered (w : world) (m : gmap WorkerId worker_row) : Prop :=
  integrity (w_db w) ∧ loadable (w_db w) ∧ db_workers (w_db w) = m.
Definition pg_admits (w : world) (r : worker_row) : Prop :=
  fk_tenant (w_db w) (r_tenant_id r) = true ∧ fk_node (w_db w) (r_node_id r) (r_tenant_id r) = true ∧
  fk_opt (λ j, fk_job (w_db w) j (r_tenant_id r)) (r_running_job_id r) = true ∧ tenant_referenced (w_db w) (r_id r) (r_tenant_id r) = false.

(** A row is the row of the worker it stands for. *)
Lemma hydrate_row d dr k r : integrity d → db_workers d !! k = Some r → ∃ w, hydrate d dr r = Some w ∧ row_of_worker w = r.
Proof using.
  intros Hi Hr. destruct (int_workers _ Hi k r Hr) as (_ & _ & Hn & Hj). apply fk_node_spec in Hn as (x & Hx & Ht).
  destruct (int_nodes _ Hi _ _ Hx) as [Hid _]. unfold hydrate. rewrite Hx. cbn. eexists. split; [reflexivity|].
  destruct r as [i n t st mg [j|] ls]; unfold row_of_worker, w_tenant_id; cbn in *; [|by f_equal].
  unfold fk_job in Hj. apply bool_decide_eq_true in Hj. apply fmap_Some in Hj as (y & Hy & _). rewrite Hy. destruct (int_jobs _ Hi _ _ Hy) as [Hjd _].
  cbn. by f_equal; [..|f_equal].
Qed.

Lemma pg_hydrated d dr o k : integrity d → (∀ r, o = Some r → db_workers d !! k = Some r) →
  option_Forall2 (λ w r, row_of_worker w = r) (o ≫= hydrate d dr) o.
Proof using.
  intros Hi Ho. destruct o as [r|]; [|constructor]. destruct (hydrate_row d dr k r Hi (Ho r eq_refl)) as (w & Hw & Hr). cbn. rewrite Hw. by constructor.
Qed.

Lemma pg_worker_save_law w m x r : pg_registered w m → row_of_worker x = r → pg_admits w r →
  ∃ w', Repos.WorkerRepository.save x w = (w', inr tt) ∧ pg_registered w' (<[r_id r := r]> m).
Proof using Quiet0.
  intros (Hi & Hl & <-) Hr (Ht & Hn & Hj & Href). destruct w as [d n]. cbn in *. pose proof (upsert_worker_integrity r d Hi) as Hi'.
  unfold Repos.WorkerRepository.save, statement. cbn [w_db w_step]. rewrite quiet, Hr. unfold upsert_worker in *.
  rewrite Ht, Hn, Hj, Href in *. eexists. split; [reflexivity|]. split; [exact Hi'|]. split; [|done]. by destruct Hl.
Qed.

Lemma pg_get_by_id_law w m k t : pg_registered w m →
  ∃ w' o, Repos.WorkerRepository.get_by_id k t w = (w', inr o) ∧ pg_registered w' m ∧ option_Forall2 (λ x r, row_of_worker x = r) o (in_tenant r_tenant_id t (m !! k)).
Proof using Quiet0.
  intros Hw. pose proof Hw as (Hi & Hl & <-). destruct w as [d n]. cbn in *. apply wp_returns, wp_worker_get_by_id; [done|]. intros dr k' _. split; [done|].
  apply (pg_hydrated d dr _ k Hi). intros r Hr. unfold select_worker in Hr. destruct (db_workers d !! k); [|done]. cbn in Hr. by case_bool_decide.
Qed.

Lemma pg_get_across_law w m k : pg_registered w m →
  ∃ w' o, Repos.WorkerRepository.get_by_id_across_tenants k w = (w', inr o) ∧ pg_registered w' m ∧ option_Forall2 (λ x r, row_of_worker x = r) o (m !! k).
Proof using Quiet0.
  intros Hw. pose proof Hw as (Hi & Hl & <-). destruct w as [d n]. cbn in *. apply wp_returns, wp_worker_get_across; [done|]. intros dr k' _. split; [done|].
  by apply (pg_hydrated d dr _ k Hi).
Qed.

Lemma pg_get_by_node_law w m x t : pg_registered w m →
  ∃ w' o r, Repos.WorkerRepository.get_by_node_id x t w = (w', inr o) ∧ pg_registered w' m ∧ option_Forall2 (λ x r, row_of_worker x = r) o r ∧
    match r with
    | Some y => y ∈ rows m ∧ r_node_id y = x ∧ r_tenant_id y = t
    | None => Forall (λ y, ¬ (r_node_id y = x ∧ r_tenant_id y = t)) (rows m)
    end.
Proof using Quiet0.
  intros Hw. pose proof Hw as (Hi & Hl & <-). destruct w as [d n]. cbn in *.
  assert (wp (Repos.WorkerRepository.get_by_node_id x t) (λ o w', ∃ r, pg_registered w' (db_workers d) ∧ option_Forall2 (λ x r, row_of_worker x = r) o r ∧
    match r with
    | Some y => y ∈ rows (db_workers d) ∧ r_node_id y = x ∧ r_tenant_id y = t
    | None => Forall (λ y, ¬ (r_node_id y = x ∧ r_tenant_id y = t)) (rows (db_workers d))
    end) (λ _ _, False) (mkWorld d n)) as Hwp.
  { apply wp_worker_get_by_node_id; [done|]. intros o dr k _ Ho. exists o. split; [done|]. destruct o as [r|].
    - destruct Ho as (i & Hr & Hx & Ht). split; [apply (pg_hydrated d dr _ i Hi); by intros ? [= <-]|]. split; [apply elem_of_rows; eauto|done].
    - split; [constructor|]. apply Forall_forall. intros y [i Hy]%elem_of_rows [Hx Ht]. by eapply Ho. }
  apply wp_returns in Hwp as (w' & o & He & r & Hr). by exists w', o, r.
Qed.

(** Rows of workers, loaded one after the other. *)
Lemma wp_load_workers l d n : integrity d → loadable d → (∀ r, r ∈ l → ∃ k, db_workers d !! k = Some r) →
  wp (load_some Repos.WorkerRepository._to_entity l) (λ ws w', w_db w' = d ∧ Forall2 (λ x r, row_of_worker x = r) ws l) (λ _ _, False) (mkWorld d n).
Proof using Quiet0.
  intros Hi Hl. revert n. induction l as [|r l IH]; intros n Hin; [apply wp_ret; split; [done|constructor]|].
  cbn. apply wp_bind, wp_worker_to_entity; [done|]. intros dr k _. destruct (Hin r) as [i Hr]; [left|].
  destruct (hydrate_row d dr i r Hi Hr) as (x & -> & Hx). apply wp_bind. eapply wp_mono; [apply IH; intros; apply Hin; by right| |done].
  intros ws w' [Hd Hws]. apply wp_ret. split; [done|]. by constructor.
Qed.

Lemma pg_list_rows (P : worker_row → Prop) `{!∀ r, Decision (P r)} w m : pg_registered w m →
  ∃ w' l rs, (l ← select_rows (λ d, filter P (rows (db_workers d))); load_some Repos.WorkerRepository._to_entity l) w = (w', inr l) ∧
    pg_registered w' m ∧ Forall2 (λ x r, row_of_worker x = r) l rs ∧ rs ≡ₚ filter P (rows m).
Proof using Quiet0.
  intros (Hi & Hl & <-). destruct w as [d n]. cbn in *.
  assert (wp (l ← select_rows (λ d, filter P (rows (db_workers d))); load_some Repos.WorkerRepository._to_entity l)
    (λ l w', ∃ rs, pg_registered w' (db_workers d) ∧ Forall2 (λ x r, row_of_worker x = r) l rs ∧ rs ≡ₚ filter P (rows (db_workers d))) (λ _ _, False) (mkWorld d n)) as Hw.
  { apply wp_bind, wp_select_rows. intros l k Hl' _. eapply wp_mono; [apply (wp_load_workers l d k Hi Hl)| |done].
    - intros r Hr. rewrite Hl' in Hr. apply list_elem_of_filter in Hr as [_ Hr]. by apply elem_of_rows in Hr.
    - intros ws [d' k'] [Hd Hws]. cbn in Hd. subst d'. exists l. done. }
  apply wp_returns in Hw as (w' & l & He & rs & Hrs). by exists w', l, rs.
Qed.

Lemma pg_list_across_law w m : pg_registered w m →
  ∃ w' l rs, Repos.WorkerRepository.list_across_tenants w = (w', inr l) ∧ pg_registered w' m ∧ Forall2 (λ x r, row_of_worker x = r) l rs ∧ rs ≡ₚ rows m.
Proof using Quiet0.
  intros (Hi & Hl & <-). destruct w as [d n]. cbn in *.
  assert (wp Repos.WorkerRepository.list_across_tenants (λ l w', ∃ rs, pg_registered w' (db_workers d) ∧ Forall2 (λ x r, row_of_worker x = r) l rs ∧ rs ≡ₚ rows (db_workers d))
    (λ _ _, False) (mkWorld d n)) as Hw.
  { apply wp_bind, wp_select_rows. intros l k Hl' _. eapply wp_mono; [apply (wp_load_workers l d k Hi Hl)| |done].
    - intros r Hr. rewrite Hl' in Hr. by apply elem_of_rows in Hr.
    - intros ws [d' k'] [Hd Hws]. cbn in Hd. subst d'. exists l. done. }
  apply wp_returns in Hw as (w' & l & He & rs & Hrs). by exists w', l, rs.
Qed.

Lemma pg_worker_delete_law w m k t : pg_registered w m →
  ∃ w', Repos.WorkerRepository.delete k t w = (w', inr tt) ∧ pg_registered w' (if in_tenant r_tenant_id t (m !! k) then base.delete k m else m).
Proof using Quiet0.
  intros (Hi & Hl & <-). destruct w as [d n]. cbn in *. pose proof (delete_worker_integrity k t d Hi) as Hi'.
  unfold Repos.WorkerRepository.delete, statement. cbn [w_db w_step]. rewrite quiet. unfold delete_worker in *.
  destruct (db_workers d !! k) as [r|] eqn:Hk; cbn; [case_bool_decide|]; (eexists; split; [reflexivity|]); try done.
  split; [exact Hi'|]. split; [|done]. by destruct Hl.
Qed.

#[global] Instance postgres_workers : WorkerRepository world worker := {|
  save := Repos.WorkerRepository.save; get_by_id := Repos.WorkerRepository.get_by_id; get_by_id_across_tenants := Repos.WorkerRepository.get_by_id_across_tenants;
  get_by_node_id := Repos.WorkerRepository.get_by_node_id; list_ := Repos.WorkerRepository.list; list_across_tenants := Repos.WorkerRepository.list_across_tenants;
  delete := Repos.WorkerRepository.delete;
  seen _ x r := row_of_worker x = r; registered := pg_registered; admits := pg_admits;
  save_law := pg_worker_save_law; get_by_id_law := pg_get_by_id_law; get_by_id_across_tenants_law := pg_get_across_law; get_by_node_id_law := pg_get_by_node_law;
  list_law w m t := pg_list_rows (λ r, r_tenant_id r = t) w m; list_across_tenants_law := pg_list_across_law; delete_law := pg_worker_delete_law |}.
End postgres.

(** ** Memory *)

Section memory.
(** The node and job objects, as they are while a method runs. *)
Context (nodes : list node) (jobs : list job).
Implicit Types (o : memory WorkerId worker_object) (m : gmap WorkerId worker_row).

(** What a worker object shows. *)
Definition object_row (w : worker_object) : option worker_row :=
  n ← nodes !! wo_node w;
  j ← match wo_running_job w with None => Some None | Some p => j ← jobs !! p; Some (Some (j_id j)) end;
  Some (mkWorkerRow (wo_id w) (n_id n) (n_tenant_id n) (wo_status w) (wo_managed_by w) j (wo_last_seen_at w)).

Lemma object_row_spec w r : object_row w = Some r →
  r_id r = wo_id w ∧ InMemoryWorkerRepository.tenant_id nodes w = Some (r_tenant_id r) ∧ n_id <$> InMemoryWorkerRepository.node_of nodes w = Some (r_node_id r).
Proof.
  unfold object_row, InMemoryWorkerRepository.tenant_id, InMemoryWorkerRepository.node_of. intros H. destruct (nodes !! wo_node w) as [n|]; [|done].
  cbn in *. destruct (match wo_running_job w with None => _ | Some p => _ end) as [j|]; [|done]. by injection H as <-.
Qed.

Definition mw_registered o m : Prop :=
  dict_wf wo_id o ∧ Forall (λ w, is_Some (object_row w)) (entities o) ∧ m = table_of r_id (omap object_row (entities o)).

Definition mw_save (w : worker_object) o : memory WorkerId worker_object * (exn + unit) :=
  let '(o1, p) := alloc w o in (InMemoryWorkerRepository.save p o1, inr tt).
Definition mw_get_by_id (k : WorkerId) (t : TenantId) o : memory WorkerId worker_object * (exn + option worker_object) :=
  (o, inr (InMemoryWorkerRepository.get_by_id nodes k t o ≫= λ p, heap o !! p)).
Definition mw_get_by_id_across_tenants (k : WorkerId) o : memory WorkerId worker_object * (exn + option worker_object) :=
  (o, inr (InMemoryWorkerRepository.get_by_id_across_tenants k o ≫= λ p, heap o !! p)).
Definition mw_get_by_node_id (n : NodeId) (t : TenantId) o : memory WorkerId worker_object * (exn + option worker_object) :=
  (o, inr (InMemoryWorkerRepository.get_by_node_id nodes n t o ≫= λ p, heap o !! p)).
Definition mw_list (t : TenantId) o : memory WorkerId worker_object * (exn + list worker_object) :=
  (o, inr (objects o (InMemoryWorkerRepository.list nodes t o))).
Definition mw_list_across_tenants o : memory WorkerId worker_object * (exn + list worker_object) :=
  (o, inr (objects o (InMemoryWorkerRepository.list_across_tenants o))).
Definition mw_delete (k : WorkerId) (t : TenantId) o : memory WorkerId worker_object * (exn + unit) :=
  (InMemoryWorkerRepository.delete nodes k t o, inr tt).

(** The rows of objects that all show one. *)
Lemma rows_of_objects (ws : list worker_object) : Forall (λ w, is_Some (object_row w)) ws → Forall2 (λ w r, object_row w = Some r) ws (omap object_row ws).
Proof. induction 1 as [|w ws [r Hr] _ IH]; [constructor|]. cbn. rewrite Hr. by constructor. Qed.

Lemma filtered_rows (P : worker_object → Prop) (Q : worker_row → Prop) `{!∀ w, Decision (P w), !∀ r, Decision (Q r)} ws :
  (∀ w r, object_row w = Some r → P w ↔ Q r) → Forall (λ w, is_Some (object_row w)) ws → omap object_row (filter P ws) = filter Q (omap object_row ws).
Proof.
  intros HPQ. induction 1 as [|w ws [r Hr] _ IH]; [done|]. rewrite filter_cons. cbn [omap list_omap]. rewrite Hr, filter_cons.
  destruct (HPQ w r Hr). repeat case_decide; try tauto. cbn. by rewrite Hr, IH.
Qed.

Lemma rows_ids (ws : list worker_object) : Forall (λ w, is_Some (object_row w)) ws → r_id <$> omap object_row ws = wo_id <$> ws.
Proof. induction 1 as [|w ws [r Hr] _ IH]; [done|]. cbn. rewrite Hr. cbn. destruct (object_row_spec w r Hr) as [-> _]. by rewrite IH. Qed.

(** The table of rows is that of the objects. *)
Lemma table_rows (ws : list worker_object) k : Forall (λ w, is_Some (object_row w)) ws →
  option_Forall2 (λ w r, object_row w = Some r) (table_of wo_id ws !! k) (table_of r_id (omap object_row ws) !! k).
Proof.
  intros Hws. rewrite !table_of_head. rewrite <- (filtered_rows (λ w, wo_id w = k) (λ r, r_id r = k)); [|intros w r Hr; by destruct (object_row_spec w r Hr) as [-> _]|done].
  assert (Forall (λ w, is_Some (object_row w)) (filter (λ w, wo_id w = k) ws)) as Hf by (by apply Forall_filter).
  destruct Hf as [|w l [r Hr] _]; cbn; [constructor|]. rewrite Hr. by constructor.
Qed.

Lemma registered_rows o m : mw_registered o m → omap object_row (entities o) ≡ₚ rows m ∧ NoDup (r_id <$> omap object_row (entities o)).
Proof.
  intros (Hw & Ho & ->). assert (NoDup (r_id <$> omap object_row (entities o))) as Hn by (rewrite rows_ids by done; by apply entities_nodup).
  split; [by apply rows_table_of|done].
Qed.

Lemma put_in_rows w r ws : object_row w = Some r → Forall (λ w, is_Some (object_row w)) ws →
  omap object_row (put_in wo_id (λ _, mkTenantId 1) w ws).1 = (put_in r_id (λ _, mkTenantId 1) r (omap object_row ws)).1.
Proof.
  intros Hr. destruct (object_row_spec w r Hr) as [Hid _]. induction 1 as [|x ws [y Hy] _ IH]; cbn; [by rewrite Hr|]. rewrite Hy. cbn.
  destruct (object_row_spec x y Hy) as [-> _]. rewrite Hid. case_bool_decide; [case_bool_decide; [|done]; cbn; by rewrite Hr|]. cbn. by rewrite Hy, IH.
Qed.

Lemma mw_save_law o m w r : mw_registered o m → object_row w = Some r → True → ∃ o', mw_save w o = (o', inr tt) ∧ mw_registered o' (<[r_id r := r]> m).
Proof.
  intros (Hw & Ho & ->) Hr _. pose proof (save_plain_new wo_id o w Hw) as Hs. unfold alloc in Hs. destruct Hs as [Hw' He].
  eexists. split; [reflexivity|]. split; [exact Hw'|]. unfold InMemoryWorkerRepository.save. rewrite He. split; [by apply put_in_forall|].
  rewrite (put_in_rows w r) by done. pose proof (table_put_in r_id (λ _, mkTenantId 1) InvalidApiKeyError r (omap object_row (entities o))) as Ht.
  apply (f_equal fst) in Ht. cbn in Ht. rewrite <- Ht. unfold table_put. destruct (_ !! r_id r); [|done]. by rewrite bool_decide_eq_true_2.
Qed.

Lemma mw_find o m k : mw_registered o m → option_Forall2 (λ w r, object_row w = Some r) (find_any k o ≫= λ p, heap o !! p) (m !! k).
Proof. intros (Hw & Ho & ->). rewrite (find_entity wo_id) by done. by apply table_rows. Qed.

Lemma mw_found_in o m k t : mw_registered o m →
  option_Forall2 (λ w r, object_row w = Some r) (InMemoryWorkerRepository.get_by_id nodes k t o ≫= λ p, heap o !! p) (in_tenant r_tenant_id t (m !! k)).
Proof.
  intros Hr. pose proof (mw_find o m k Hr) as Hf. unfold InMemoryWorkerRepository.get_by_id. destruct (find_any k o) as [p|]; cbn in *; [|inversion Hf; constructor].
  destruct (heap o !! p) as [w|] eqn:Hp; [|inversion Hf; constructor]. inversion Hf as [? r Hrow|]; subst. cbn.
  destruct (object_row_spec w r Hrow) as (_ & -> & _). destruct (decide (r_tenant_id r = t)) as [->|Hne].
  - rewrite !bool_decide_eq_true_2 by done. cbn. rewrite Hp. by constructor.
  - rewrite !bool_decide_eq_false_2 by congruence. constructor.
Qed.

Lemma mw_get_by_id_law o m k t : mw_registered o m →
  ∃ o' x, mw_get_by_id k t o = (o', inr x) ∧ mw_registered o' m ∧ option_Forall2 (λ w r, object_row w = Some r) x (in_tenant r_tenant_id t (m !! k)).
Proof. intros Hr. do 2 eexists. split; [reflexivity|]. split; [done|]. by apply mw_found_in. Qed.

Lemma mw_get_across_law o m k : mw_registered o m →
  ∃ o' x, mw_get_by_id_across_tenants k o = (o', inr x) ∧ mw_registered o' m ∧ option_Forall2 (λ w r, object_row w = Some r) x (m !! k).
Proof. intros Hr. do 2 eexists. split; [reflexivity|]. split; [done|]. by apply mw_find. Qed.

(** Lists by a condition that the row decides. *)
Lemma mw_select (P : worker_object → Prop) (Q : worker_row → Prop) `{!∀ w, Decision (P w), !∀ r, Decision (Q r)} o m :
  (∀ w r, object_row w = Some r → P w ↔ Q r) → mw_registered o m →
  ∃ rs, Forall2 (λ w r, object_row w = Some r) (objects o (where_ P o)) rs ∧ rs ≡ₚ filter Q (rows m).
Proof.
  intros HPQ Hr. pose proof Hr as (Hw & Ho & _). destruct (registered_rows o m Hr) as [Hrows _]. rewrite objects_where.
  exists (omap object_row (filter P (entities o))). split; [by apply rows_of_objects, Forall_filter|]. rewrite (filtered_rows P Q) by done. by rewrite Hrows.
Qed.

Lemma mw_list_law o m t : mw_registered o m →
  ∃ o' l rs, mw_list t o = (o', inr l) ∧ mw_registered o' m ∧ Forall2 (λ w r, object_row w = Some r) l rs ∧ rs ≡ₚ filter (λ r, r_tenant_id r = t) (rows m).
Proof.
  intros Hr. destruct (mw_select (λ w, InMemoryWorkerRepository.tenant_id nodes w = Some t) (λ r, r_tenant_id r = t) o m) as (rs & H1 & H2); [|done|].
  - intros w r Hrow. destruct (object_row_spec w r Hrow) as (_ & -> & _). split; congruence.
  - by exists o, (objects o (InMemoryWorkerRepository.list nodes t o)), rs.
Qed.

Lemma mw_list_across_law o m : mw_registered o m →
  ∃ o' l rs, mw_list_across_tenants o = (o', inr l) ∧ mw_registered o' m ∧ Forall2 (λ w r, object_row w = Some r) l rs ∧ rs ≡ₚ rows m.
Proof.
  intros Hr. pose proof Hr as (Hw & Ho & _). destruct (registered_rows o m Hr) as [Hrows _].
  exists o, (entities o), (omap object_row (entities o)). split; [|split; [done|split; [by apply rows_of_objects|done]]].
  unfold mw_list_across_tenants, InMemoryWorkerRepository.list_across_tenants. by rewrite objects_values.
Qed.

Lemma mw_get_by_node_law o m n t : mw_registered o m →
  ∃ o' x r, mw_get_by_node_id n t o = (o', inr x) ∧ mw_registered o' m ∧ option_Forall2 (λ w r, object_row w = Some r) x r ∧
    match r with
    | Some y => y ∈ rows m ∧ r_node_id y = n ∧ r_tenant_id y = t
    | None => Forall (λ y, ¬ (r_node_id y = n ∧ r_tenant_id y = t)) (rows m)
    end.
Proof.
  intros Hr. set (P w := n_id <$> InMemoryWorkerRepository.node_of nodes w = Some n ∧ InMemoryWorkerRepository.tenant_id nodes w = Some t).
  destruct (mw_select P (λ r, r_node_id r = n ∧ r_tenant_id r = t) o m) as (rs & H1 & H2); [|done|].
  { intros w r Hrow. unfold P. destruct (object_row_spec w r Hrow) as (_ & -> & ->). split; intros [? ?]; split; congruence. }
  exists o, (head (objects o (where_ P o))), (head rs). split; [|split; [exact Hr|]].
  - unfold mw_get_by_node_id, InMemoryWorkerRepository.get_by_node_id. do 2 f_equal. fold P. destruct (where_ P o) as [|p r] eqn:Hwh; [done|].
    assert (p ∈ p :: r) as Hp by left. rewrite <- Hwh in Hp. apply list_elem_of_fmap in Hp as ([q w] & -> & [_ Hv]%list_elem_of_filter).
    cbn. by rewrite (values_lookup o q w Hv).
  - destruct H1 as [|w r ws rs Hwr _]; cbn.
    + split; [constructor|]. apply Forall_forall. intros y Hy HQ. eapply elem_of_nil. rewrite H2. by apply list_elem_of_filter.
    + split; [by constructor|]. assert (r ∈ r :: rs) as Hin by left. rewrite H2 in Hin. apply list_elem_of_filter in Hin as [[? ?] ?]. done.
Qed.

Lemma mw_delete_law o m k t : mw_registered o m →
  ∃ o', mw_delete k t o = (o', inr tt) ∧ mw_registered o' (if in_tenant r_tenant_id t (m !! k) then base.delete k m else m).
Proof.
  intros Hr. pose proof Hr as (Hw & Ho & Hm). eexists. split; [reflexivity|]. pose proof (mw_found_in o m k t Hr) as Hf.
  unfold InMemoryWorkerRepository.delete. destruct (InMemoryWorkerRepository.get_by_id nodes k t o) as [p|] eqn:Hp; cbn in Hf.
  - assert (is_Some (heap o !! p)) as [w Hv].
    { unfold InMemoryWorkerRepository.get_by_id in Hp. destruct (find_any k o) as [q|]; [|done]. destruct (heap o !! q) eqn:Hq; [|done].
      case_bool_decide; [|done]. injection Hp as ->. by rewrite Hq. }
    rewrite Hv in Hf. inversion Hf as [? r _ Hx Hr'|]; subst. destruct (registered_rows o _ Hr) as [_ Hn].
    split; [by apply dict_del_wf|]. rewrite (del_entities wo_id) by done. split; [by apply Forall_filter|].
    rewrite (filtered_rows (λ w, wo_id w ≠ k) (λ r, r_id r ≠ k)); [|intros w' r' Hrow; by destruct (object_row_spec w' r' Hrow) as [-> _]|done].
    by rewrite table_of_without.
  - by inversion Hf.
Qed.

#[global] Instance in_memory_workers : WorkerRepository (memory WorkerId worker_object) worker_object := {|
  save := mw_save; get_by_id := mw_get_by_id; get_by_id_across_tenants := mw_get_by_id_across_tenants; get_by_node_id := mw_get_by_node_id;
  list_ := mw_list; list_across_tenants := mw_list_across_tenants; delete := mw_delete;
  seen _ w r := object_row w = Some r; registered := mw_registered; admits _ _ := True;
  save_law := mw_save_law; get_by_id_law := mw_get_by_id_law; get_by_id_across_tenants_law := mw_get_across_law; get_by_node_id_law := mw_get_by_node_law;
  list_law := mw_list_law; list_across_tenants_law := mw_list_across_law; delete_law := mw_delete_law |}.
End memory.
