(* ===== verification/MockPartner.v ===== *)
(** The mock third-party API (src/integrations/resilient_client/mock_partner_server.py)
    and the resilient client calling it.

    A handler is a computation on the [MockState] the handlers share; what an
    exception becomes is a response with status 500.  The hexadecimal digits of
    [uuid.uuid4()] are an argument.  Headers are the list the server received. *)
From Stdlib Require Import Strings.Ascii Floats.SpecFloat.
From S2P Require Import Prelude Values Float64 FloatOrder RateLimiter ApiKey Agent Text Migrations Url Resilient.
Local Open Scope Z_scope.

Definition VALID_CLIENT_ID : string := "test-client".
Definition VALID_CLIENT_SECRET : string := "test-secret".

(** * MockState

    A [defaultdict(int)] is a map with default 0. *)

Record MockState := mkMock {
  token_ttl_s : Z;
  hits : gmap string Z;
  calls : gmap string Z;
  valid_tokens : gset string;
  tokens_issued : Z;
  payments_applied : Z;
  idempotent_results : gmap string Z;
}.

Abbreviation mockM := (stM MockState exn).

Definition set_hits (h : gmap string Z) (m : MockState) : MockState :=
  mkMock (token_ttl_s m) h (calls m) (valid_tokens m) (tokens_issued m) (payments_applied m) (idempotent_results m).
Definition set_calls (c : gmap string Z) (m : MockState) : MockState :=
  mkMock (token_ttl_s m) (hits m) c (valid_tokens m) (tokens_issued m) (payments_applied m) (idempotent_results m).

Definition count (d : gmap string Z) (k : string) : Z := default 0 (d !! k).

Definition reset (m : MockState) : MockState := mkMock (token_ttl_s m) ∅ ∅ ∅ 0 0 ∅.
Definition __init__ : MockState := reset (mkMock 300 ∅ ∅ ∅ 0 0 ∅).

Definition record_hit (path : string) : mockM unit :=
  modify (λ m, set_hits (<[path := count (hits m) path + 1]> (hits m)) m).

Definition next_call (key : string) : mockM Z :=
  modify (λ m, set_calls (<[key := count (calls m) key + 1]> (calls m)) m) ;;
  gets (λ m, count (calls m) key).

Definition issue_token (hex : string) : mockM string :=
  let token := ("token-" +:+ hex)%string in
  modify (λ m, mkMock (token_ttl_s m) (hits m) (calls m) ({[token]} ∪ valid_tokens m) (tokens_issued m + 1)
                 (payments_applied m) (idempotent_results m)) ;;
  mret token.

Definition apply_payment (idempotency_key : option string) : mockM (Z * bool) := λ m,
  match k ← idempotency_key; idempotent_results m !! k with
  | Some payment_id => (m, inr (payment_id, true))
  | None =>
      let n := payments_applied m + 1 in
      (mkMock (token_ttl_s m) (hits m) (calls m) (valid_tokens m) (tokens_issued m) n
         match idempotency_key with
         | Some k => <[k := n]> (idempotent_results m)
         | None => idempotent_results m
         end, inr (n, false))
  end.

Record stats_view := mkStats { sv_hits : gmap string Z; sv_tokens_issued : Z; sv_payments_applied : Z }.
Definition snapshot (m : MockState) : stats_view := mkStats (hits m) (tokens_issued m) (payments_applied m).

(** * Responses *)

Inductive reply_body :=
  | Ok_
  | OkCall (call_number : Z)
  | OkDelay (delay : float)
  | Error (error : string)
  | Detail (detail : string)
  | AccessToken (access_token token_type : string) (expires_in : Z)
  | SecureTrue
  | Payment (payment_id : Z) (replayed : bool)
  | Stats (v : stats_view)
  | ResetTrue
  | InternalServerError.

Record reply := mkReply { r_status : Z; r_retry_after : option string; r_body : reply_body }.
Definition success (b : reply_body) : reply := mkReply 200 None b.
Definition failure (status : Z) (b : reply_body) : reply := mkReply status None b.

(** What the framework sends for what a handler did. *)
Definition respond (out : exn + reply) : reply :=
  match out with inr r => r | inl _ => failure 500 InternalServerError end.

(** [request.headers.get(name)]: the first of that name, whatever its case *)
Definition header (name : string) (hs : list (string * string)) : option string :=
  snd <$> head (filter (λ x, lower x.1 = name) hs).

(** * Sleeping *)

(** [time.sleep]: the delay in nanoseconds must fit 64 bits and not be negative. *)
Definition time_sleep (delay : float) : mockM unit :=
  let ns := fmul delay (float_literal 1000000000 0) in
  let limit := float_literal (2 ^ 63) 0 in
  if negb (fle delay delay) then raise (ValueError "Invalid value NaN (not a number)")
  else if negb (fle (SFopp limit) ns && flt ns limit) then raise OverflowError
  else if flt delay fzero then raise (ValueError "sleep length must be non-negative")
  else mret tt.

(** * parse_qs

    A text is its UTF-8 encoding here. *)

Definition REPLACEMENT : list chr := [chr_of 239; chr_of 191; chr_of 189].

(** The second byte of a sequence that starts with [a]. *)
Definition second_byte (a b : chr) : bool :=
  if (code a =? 224)%N then between 160 191 b
  else if (code a =? 237)%N then between 128 159 b
  else if (code a =? 240)%N then between 144 191 b
  else if (code a =? 244)%N then between 128 143 b
  else continuation b.

(** [bytes.decode("utf-8", errors="replace")] *)
Fixpoint utf8_replace (l : list chr) : list chr :=
  match l with
  | [] => []
  | a :: l1 =>
      if between 0 127 a then a :: utf8_replace l1 else
      if negb (between 194 244 a) then REPLACEMENT ++ utf8_replace l1 else
      match l1 with
      | [] => REPLACEMENT
      | b :: l2 =>
          if negb (second_byte a b) then REPLACEMENT ++ utf8_replace l1 else
          if between 194 223 a then a :: b :: utf8_replace l2 else
          match l2 with
          | [] => REPLACEMENT
          | c :: l3 =>
              if negb (continuation c) then REPLACEMENT ++ utf8_replace l2 else
              if between 224 239 a then a :: b :: c :: utf8_replace l3 else
              match l3 with
              | [] => REPLACEMENT
              | d :: l4 => if continuation d then a :: b :: c :: d :: utf8_replace l4 else REPLACEMENT ++ utf8_replace l3
              end
          end
      end
  end.

Definition hex_value (c : chr) : option N :=
  if between 48 57 c then Some (code c - 48)%N
  else if between 65 70 c then Some (code c - 55)%N
  else if between 97 102 c then Some (code c - 87)%N
  else None.

(** [unquote_to_bytes] *)
Fixpoint unquote_to_bytes (l : list chr) : list chr :=
  match l with
  | [] => []
  | c :: l1 =>
      match l1 with
      | x :: y :: l3 =>
          if (code c =? 37)%N then
            match hex_value x, hex_value y with
            | Some a, Some b => chr_of (16 * a + b) :: unquote_to_bytes l3
            | _, _ => c :: unquote_to_bytes l1
            end
          else c :: unquote_to_bytes l1
      | _ => c :: unquote_to_bytes l1
      end
  end.

(** [unquote]: each run of ASCII characters on its own; [acc] is the current run,
    reversed *)
Fixpoint unquote_from (acc : list chr) (l : list chr) : list chr :=
  let run := utf8_replace (unquote_to_bytes (rev acc)) in
  match l with
  | [] => run
  | c :: l' => if between 0 127 c then unquote_from (c :: acc) l' else run ++ c :: unquote_from [] l'
  end.
Definition unquote (s : string) : string := String.string_of_list_ascii (unquote_from [] (String.list_ascii_of_string s)).

Fixpoint spaces_for_plus (s : string) : string :=
  match s with EmptyString => EmptyString | String c r => String (if bool_decide (c = "+"%char) then " "%char else c) (spaces_for_plus r) end.

(** [s.split(c)] *)
Fixpoint split_at (c : chr) (s : string) : list string :=
  match s with
  | EmptyString => [EmptyString]
  | String x r =>
      if bool_decide (x = c) then EmptyString :: split_at c r
      else match split_at c r with w :: ws => String x w :: ws | [] => [String x EmptyString] end
  end.

(** [parse_qs(body)], as the list of its pairs; [parse_qs(body).get(name, [""])[0]] *)
Definition parse_qs (body : string) : list (string * string) :=
  omap (λ f, match partition "=" f with
             | (_, _, EmptyString) => None
             | (name, _, value) => Some (unquote (spaces_for_plus name), unquote (spaces_for_plus value))
             end) (split_at "&" body).
Definition first_of (name : string) (pairs : list (string * string)) : string :=
  default EmptyString (snd <$> head (filter (λ x, x.1 = name) pairs)).

(** * Handlers of create_app *)

Definition ok : mockM reply := mret (success Ok_).

Definition flaky (key : string) (fail_first status : Z) : mockM reply :=
  call_number ← next_call ("flaky:" +:+ key)%string;
  if call_number <=? fail_first then mret (failure status (Error "transient"))
  else mret (success (OkCall call_number)).

Definition ratelimited (key : string) (fail_first : Z) (retry_after : string) : mockM reply :=
  call_number ← next_call ("ratelimited:" +:+ key)%string;
  if call_number <=? fail_first then mret (mkReply 429 (Some retry_after) (Error "slow down"))
  else mret (success (OkCall call_number)).

Definition always_down : mockM reply := mret (failure 503 (Error "down")).
Definition missing : mockM reply := mret (failure 404 (Detail "not found")).

(** For a finite delay. *)
Definition slow (delay : float) : mockM reply := mret (success (OkDelay delay)).

Definition token (body : string) (hex : string) : mockM reply :=
  if negb (utf8_valid (S (String.length body)) (String.list_ascii_of_string body)) then raise (ValueError "UnicodeDecodeError") else
  let pairs := parse_qs body in
  if bool_decide (first_of "grant_type" pairs ≠ "client_credentials"%string) ||
     bool_decide (first_of "client_id" pairs ≠ VALID_CLIENT_ID) ||
     bool_decide (first_of "client_secret" pairs ≠ VALID_CLIENT_SECRET)
  then mret (failure 401 (Error "invalid_client")) else
  access_token ← issue_token hex;
  ttl ← gets token_ttl_s;
  mret (success (AccessToken access_token "Bearer" ttl)).

Definition removeprefix (p s : string) : string := default s (after_prefix p s).

Definition secure (hs : list (string * string)) : mockM reply :=
  let token := strip (removeprefix "Bearer " (default EmptyString (header "authorization" hs))) in
  tokens ← gets valid_tokens;
  if bool_decide (token ∈ tokens) then mret (success SecureTrue) else mret (failure 401 (Error "unauthorized")).

(** payments, from the call of [next_call] on *)
Definition payments_answer (x : Z * bool) (key : string) (fail_first : Z) (delay : float) : mockM reply :=
  call_number ← next_call ("payments:" +:+ key)%string;
  (if SFeqb delay fzero then mret tt else time_sleep delay) ;;
  if call_number <=? fail_first then mret (failure 503 (Error "gateway timeout"))
  else mret (success (Payment (x.1) (x.2))).

Definition payments (hs : list (string * string)) (key : string) (fail_first : Z) (delay : float) : mockM reply :=
  x ← apply_payment (header "idempotency-key" hs);
  payments_answer x key fail_first delay.

Definition stats : mockM reply := v ← gets snapshot; mret (success (Stats v)).
Definition reset_ : mockM reply := modify reset ;; mret (success ResetTrue).

Inductive request :=
  | GetOk
  | GetFlaky (key : string) (fail_first status : Z)
  | GetRatelimited (key : string) (fail_first : Z) (retry_after : string)
  | GetAlwaysDown
  | GetMissing
  | GetSlow (delay : float)
  | PostToken (body : string)
  | GetSecure (hs : list (string * string))
  | PostPayments (hs : list (string * string)) (key : string) (fail_first : Z) (delay : float)
  | GetStats
  | PostReset.

Definition path_of (q : request) : string :=
  match q with
  | GetOk => "/v1/ok" | GetFlaky _ _ _ => "/v1/flaky" | GetRatelimited _ _ _ => "/v1/ratelimited"
  | GetAlwaysDown => "/v1/always-down" | GetMissing => "/v1/missing" | GetSlow _ => "/v1/slow"
  | PostToken _ => "/oauth/token" | GetSecure _ => "/v1/secure" | PostPayments _ _ _ _ => "/v1/payments"
  | GetStats => "/_stats" | PostReset => "/_reset"
  end.

Definition handler (q : request) (hex : string) : mockM reply :=
  match q with
  | GetOk => ok
  | GetFlaky key n status => flaky key n status
  | GetRatelimited key n retry_after => ratelimited key n retry_after
  | GetAlwaysDown => always_down
  | GetMissing => missing
  | GetSlow delay => slow delay
  | PostToken body => token body hex
  | GetSecure hs => secure hs
  | PostPayments hs key n delay => payments hs key n delay
  | GetStats => stats
  | PostReset => reset_
  end.

(** A request through the middleware count_hits. *)
Definition count_hits (q : request) (hex : string) : mockM reply :=
  record_hit (path_of q) ;; handler q hex.

(** * What the counters promise *)

Lemma count_insert d k v k' : count (<[k := v]> d) k' = if bool_decide (k = k') then v else count d k'.
Proof. unfold count. destruct (bool_decide_reflect (k = k')) as [-> |Hk]; [by rewrite lookup_insert_eq|by rewrite lookup_insert_ne]. Qed.

(** The [n]-th call of a scenario key since the last reset fails exactly while [n] is
    at most [fail_first]. *)
Lemma flaky_spec key n status m :
  let call := count (calls m) ("flaky:" +:+ key) + 1 in
  flaky key n status m =
    (set_calls (<[("flaky:" +:+ key)%string := call]> (calls m)) m,
     inr (if call <=? n then failure status (Error "transient") else success (OkCall call))).
Proof.
  unfold flaky, next_call. stM_unfold. cbn. rewrite count_insert, bool_decide_eq_true_2 by done. by destruct (_ <=? _).
Qed.

(** A token that was issued opens the secure endpoint, until the next reset. *)
Lemma strip_token hex : no_space hex = true → strip ("token-" +:+ hex) = ("token-" +:+ hex)%string.
Proof.
  intros Hs. by apply strip_no_space.
Qed.

Lemma issued_token_works hex m hs :
  no_space hex = true →
  let '(m', out) := issue_token hex m in
  ∃ t, out = inr t ∧ (header "authorization" hs = Some ("Bearer " +:+ t)%string → secure hs m' = (m', inr (success SecureTrue))).
Proof.
  intros Hs. cbn. eexists. split; [done|]. intros Eh. unfold secure. rewrite Eh.
  change (removeprefix "Bearer " (default EmptyString (Some ("Bearer " +:+ ("token-" +:+ hex))))%string)
    with ("token-" +:+ hex)%string.
  rewrite (strip_token hex Hs). stM_unfold. cbn [valid_tokens]. by rewrite bool_decide_eq_true_2 by set_solver.
Qed.

(** * The client calling payments

    The sections under the lock are the atomic operations.  While the client
    makes its attempts, the server runs any operations of other requests and the
    two halves of its handler for the requests of ours that reached it, each at
    any time: a request may be handled long after the client gave up on it. *)

Inductive operation :=
  | RecordHit (path : string)
  | NextCall (key : string)
  | IssueToken (hex : string)
  | ApplyPayment (idempotency_key : option string).

Definition perform (op : operation) (m : MockState) : MockState :=
  match op with
  | RecordHit p => (record_hit p m).1
  | NextCall k => (next_call k m).1
  | IssueToken hex => (issue_token hex m).1
  | ApplyPayment k => (apply_payment k m).1
  end.

(** Every request but a reset amounts to such operations. *)
Lemma request_operations q hex m :
  q ≠ PostReset → ∃ ops, (count_hits q hex m).1 = foldl (λ m op, perform op m) m ops.
Proof.
  intros Hq. unfold count_hits. assert (∃ ops, ∀ m, (handler q hex m).1 = foldl (λ m op, perform op m) m ops) as [ops Hops]; last first.
  { exists (RecordHit (path_of q) :: ops). exact (Hops _). }
  destruct q as [|key n st|key n ra| | |delay|body|hs|hs key n delay| |]; try done; try by exists [].
  - exists [NextCall ("flaky:" +:+ key)]. intros m'. cbn. unfold flaky, next_call. stM_unfold. cbn. by destruct (_ <=? _).
  - exists [NextCall ("ratelimited:" +:+ key)]. intros m'. cbn. unfold ratelimited, next_call. stM_unfold. cbn. by destruct (_ <=? _).
  - cbn [handler]. unfold token. destruct (negb _); [by exists []|]. destruct (_ || _); [by exists []|]. by exists [IssueToken hex].
  - exists []. intros m'. cbn. unfold secure. stM_unfold. by destruct (bool_decide _).
  - exists [ApplyPayment (header "idempotency-key" hs); NextCall ("payments:" +:+ key)]. intros m'. cbn [handler foldl perform].
    unfold payments. unfold mbind at 1, stM_bind at 1. destruct (apply_payment _ m') as [m1 [e|x]] eqn:Ea.
    { unfold apply_payment in Ea. by destruct (mbind _ _). }
    cbn [fst]. unfold payments_answer, next_call. stM_unfold. cbn.
    destruct (SFeqb _ _); cbn; [by destruct (_ <=? _)|]. unfold time_sleep.
    destruct (negb _); [done|]. destruct (negb _); [done|]. destruct (flt _ _); [done|]. cbn. by destruct (_ <=? _).
Qed.

Record exchange := mkExchange {
  ex_server : MockState;
  ex_charged : gmap nat (Z * bool);
  ex_answered : gmap nat reply;
}.
Definition begun (m : MockState) : exchange := mkExchange m ∅ ∅.

Section exchange.
Context (foreign : operation → Prop) (hs : list (string * string)) (key : string) (fail_first : Z) (delay : float).

Inductive exchange_step : exchange → exchange → Prop :=
  | step_foreign op m c a : foreign op → exchange_step (mkExchange m c a) (mkExchange (perform op m) c a)
  | step_charge n m c a m' x :
      c !! n = None → apply_payment (header "idempotency-key" hs) m = (m', inr x) →
      exchange_step (mkExchange m c a) (mkExchange m' (<[n := x]> c) a)
  | step_answer n m c a x m' out :
      c !! n = Some x → a !! n = None → payments_answer x key fail_first delay m = (m', out) →
      exchange_step (mkExchange m c a) (mkExchange m' c (<[n := respond out]> a)).

(** With an idempotency key. *)
Record keyed (k : string) (m0 : MockState) (e : exchange) : Prop := mkKeyed {
  ke_result n id b : ex_charged e !! n = Some (id, b) → idempotent_results (ex_server e) !! k = Some id;
  ke_once i j id id' : ex_charged e !! i = Some (id, false) → ex_charged e !! j = Some (id', false) → i = j;
  ke_fresh : (∀ op, foreign op → op ≠ ApplyPayment (Some k)) → idempotent_results m0 !! k = None →
    ∀ id, idempotent_results (ex_server e) !! k = Some id → ∃ n, ex_charged e !! n = Some (id, false);
}.

Lemma apply_payment_grows o m k id :
  idempotent_results m !! k = Some id → idempotent_results (apply_payment o m).1 !! k = Some id.
Proof using.
  intros Hk. unfold apply_payment. destruct o as [k'|]; [|done]. cbn [mbind option_bind].
  destruct (idempotent_results m !! k') eqn:E; [done|]. cbn. by rewrite lookup_insert_ne by congruence.
Qed.

Lemma perform_grows op m k id : idempotent_results m !! k = Some id → idempotent_results (perform op m) !! k = Some id.
Proof using. destruct op; cbn; try done. apply apply_payment_grows. Qed.

Lemma perform_other op m k : op ≠ ApplyPayment (Some k) → idempotent_results (perform op m) !! k = idempotent_results m !! k.
Proof using.
  destruct op as [p|k'|hex|o]; cbn; try done. intros Ho. unfold apply_payment. destruct o as [k'|]; [|done]. cbn [mbind option_bind].
  destruct (idempotent_results m !! k'); [done|]. cbn. apply lookup_insert_ne. congruence.
Qed.

Lemma answer_keeps_results x m m' out :
  payments_answer x key fail_first delay m = (m', out) → idempotent_results m' = idempotent_results m.
Proof using.
  unfold payments_answer, next_call, time_sleep. stM_unfold. cbn. intros E.
  repeat (case_match; simplify_eq; try done).
Qed.

Lemma keyed_step k m0 e e' :
  header "idempotency-key" hs = Some k → exchange_step e e' → keyed k m0 e → keyed k m0 e'.
Proof using.
  intros Hk Hs [Hr Ho Hf]. destruct Hs as [op m c a Hop|n m c a m' x Hn Ea|n m c a x m' out Hx Ha Eo]; cbn in *.
  - split; cbn; [|done|].
    + intros n id b Hc. by eapply perform_grows, Hr.
    + intros Hfo Hm id. rewrite perform_other by by apply Hfo. by apply Hf.
  - rewrite Hk in Ea. unfold apply_payment in Ea. cbn [mbind option_bind] in Ea.
    destruct (idempotent_results m !! k) as [id0|] eqn:Ek; injection Ea as <- <-.
    + split; cbn.
      * intros i id b. rewrite lookup_insert_Some. intros [[_ [= <- <-]]|[_ Hc]]; [done|]. rewrite Ek. by eapply Hr.
      * intros i j id id'. rewrite !lookup_insert_Some. intros [[_ ?]|[_ Hi]] [[_ ?]|[_ Hj]]; try done. by eapply Ho.
      * intros Hfo Hm id Hid. rewrite Ek in Hid. destruct (Hf Hfo Hm id Hid) as [i Hi]. exists i. rewrite lookup_insert_ne; [done|congruence].
    + assert (∀ i id b, c !! i = Some (id, b) → False) as Hnone by (intros i id b Hc; apply Hr in Hc; congruence).
      split; cbn.
      * intros i id b. rewrite lookup_insert_Some. intros [[_ [= <- <-]]|[_ []%Hnone]]. by rewrite lookup_insert_eq.
      * intros i j id id'. rewrite !lookup_insert_Some. intros [[<- _]|[_ []%Hnone]] [[<- _]|[_ []%Hnone]]. done.
      * intros Hfo Hm id. rewrite lookup_insert_eq. intros [= <-]. exists n. by rewrite lookup_insert_eq.
  - pose proof (answer_keeps_results _ _ _ _ Eo) as E. split; cbn; rewrite ?E; done.
Qed.

Lemma keyed_run k m0 e e' :
  header "idempotency-key" hs = Some k → rtc exchange_step e e' → keyed k m0 e → keyed k m0 e'.
Proof using. intros Hk. induction 1; eauto using keyed_step. Qed.

Lemma keyed_begun k m : keyed k m (begun m).
Proof using. split; cbn; intros *; rewrite ?lookup_empty; try done. congruence. Qed.

(** What a response says. *)
Definition answers_agree (e : exchange) : Prop :=
  ∀ n r, ex_answered e !! n = Some r →
    ∃ id b, ex_charged e !! n = Some (id, b) ∧ r_status r ∈ [200; 500; 503] ∧ r_retry_after r = None ∧
      (r_status r = 200 → r_body r = Payment id b).

Lemma answer_reply x m m' out :
  payments_answer x key fail_first delay m = (m', out) →
  r_status (respond out) ∈ [200; 500; 503] ∧ r_retry_after (respond out) = None ∧
  (r_status (respond out) = 200 → r_body (respond out) = Payment (x.1) (x.2)).
Proof using.
  unfold payments_answer, next_call, time_sleep. stM_unfold. cbn. intros E.
  repeat (case_match; simplify_eq/=; try (split_and!; [set_solver|done|done])).
Qed.

Lemma answers_agree_step e e' : exchange_step e e' → answers_agree e → answers_agree e'.
Proof using.
  intros Hs Ha. destruct Hs as [op m c a Hop|n m c a m' x Hn Ea|n m c a [id b] m' out Hx Hna Eo]; intros i r; cbn.
  - apply Ha.
  - intros Hi. destruct (Ha i r Hi) as (id & b & Hc & H). exists id, b. cbn in Hc. by rewrite lookup_insert_ne by congruence.
  - rewrite lookup_insert_Some. intros [[<- <-]|[_ Hi]]; [|by apply Ha]. exists id, b. split; [done|]. by eapply answer_reply in Eo.
Qed.

Lemma answers_agree_run e e' : rtc exchange_step e e' → answers_agree e → answers_agree e'.
Proof using. induction 1; eauto using answers_agree_step. Qed.

(** Without an idempotency key every charge is applied. *)
Lemma unkeyed_run e e' :
  header "idempotency-key" hs = None → rtc exchange_step e e' →
  (∀ n id b, ex_charged e !! n = Some (id, b) → b = false) → ∀ n id b, ex_charged e' !! n = Some (id, b) → b = false.
Proof using.
  intros Hk. induction 1 as [|e e1 e' Hs _ IH]; [done|]. intros He. apply IH.
  destruct Hs as [op m c a Hop|n m c a m' x Hn Ea|n m c a x m' out Hx Ha Eo]; cbn in *; [done| |done].
  rewrite Hk in Ea. injection Ea as <- <-. intros i id b. rewrite lookup_insert_Some. intros [[_ [= _ <-]]|[_ Hc]]; [done|by eapply He].
Qed.
End exchange.

(** * How a call of the client ends *)

(** The last attempt of a call that returns was answered with a status below 400;
    that of a call that raises was not, [OtherError] aside. *)
Definition accepted (r : attempt_result) : Prop := match r with Response code _ _ _ => code < 400 | _ => False end.
Definition refused (r : attempt_result) : Prop :=
  match r with NeverSent | SentButBroken => True | OtherHttpError => False | Response code _ _ _ => 400 <= code end.

Definition ended (s : client) (e : option api_exn) (s' : client) : Prop :=
  ∃ l, cl_log s' = l ++ cl_log s ∧
    match e with
    | None => ∃ r, head (tries l) = Some r ∧ accepted r
    | Some e => e = OtherError ∨ ∀ r, head (tries l) = Some r → refused r
    end.

Lemma ended_more s s1 l e s' :
  cl_log s1 = l ++ cl_log s → (∀ r, head (tries l) = Some r → refused r) → ended s1 e s' → ended s e s'.
Proof.
  intros El Hl (l' & El' & He). exists (l' ++ l). rewrite El', El, app_assoc. split; [done|]. rewrite tries_app.
  destruct e as [e|]; [|destruct He as (r & Hr & Ha); exists r; by destruct (tries l')].
  destruct He as [-> |He]; [by left|]. right. intros r. destruct (tries l'); [by apply Hl|by apply He].
Qed.

Lemma ended_one s s' h r e :
  cl_log s' = Attempted h r :: cl_log s → match e with None => accepted r | Some e => e = OtherError ∨ refused r end → ended s e s'.
Proof.
  intros El He. exists [Attempted h r]. split; [done|]. cbn. destruct e as [e|]; [|by exists r].
  destruct He as [-> |He]; [by left|]. right. by intros ? [= <-].
Qed.

Section ending.
Context `{Partner} (cfg : RetryConfig) (safe : bool) (h : headers).

Lemma retry_ends left s s1 r attempt ra :
  (∀ s, wp (attempts cfg safe h left) (λ _, ended s None) (λ e, ended s (Some e)) s) →
  cl_log s1 = Attempted h r :: cl_log s → refused r →
  wp (_sleep_before_retry attempt cfg ra ;; attempts cfg safe h left) (λ _, ended s None) (λ e, ended s (Some e)) s1.
Proof using.
  intros IH El Hr. apply wp_bind. apply sleep_log.
  - intros s2 d E2 _.
    assert (∀ e s3, ended s2 e s3 → ended s e s3) as Hm.
    { intros e s3. apply (ended_more s s2 [Paused d; Attempted h r]); [by rewrite E2, El|]. by intros ? [= <-]. }
    eapply wp_mono; [apply IH|intros; by apply Hm..].
  - eapply ended_one; [done|by left].
Qed.

Lemma attempts_end left s : wp (attempts cfg safe h left) (λ _, ended s None) (λ e, ended s (Some e)) s.
Proof using.
  revert s. induction left as [|left IH]; intros s; [exists []; split; [done|by right]|].
  cbn [attempts]. apply wp_bind. unfold wp at 1, http_request. set (r := p_exchange (cl_step s)).
  clearbody r. destruct r as [| | |code ra content json].
  1,2: destruct (_ || _); [apply wp_bind, wp_on_failure; intros s' Hl; eapply ended_one; [exact Hl|by right]|by eapply retry_ends].
  - eapply ended_one; [done|by left].
  - destruct (Z.ltb_spec code 400) as [Hc|Hc].
    { apply wp_bind. unfold wp at 1, on_success. cbn. destruct (content && negb json); (eapply ended_one; [done|]); [by left|done]. }
    destruct (negb _); [eapply ended_one; [done|by right]|]. destruct (_ || _).
    + apply wp_bind, wp_on_failure. intros s' Hl. destruct (code =? 429).
      * apply wp_bind. unfold wp at 1. destruct (parse_retry_after_log ra (max_retry_after_s cfg) s') as (n & o & ->).
        eapply ended_one; [exact Hl|by right].
      * eapply ended_one; [exact Hl|by right].
    + apply wp_bind. unfold wp at 1.
      match goal with |- context [_parse_retry_after ra ?m ?s1] => destruct (parse_retry_after_log ra m s1) as (n & o & ->) end.
      by eapply retry_ends.
Qed.
End ending.

Lemma request_ends `{Partner} c method key at_ s :
  let '(s', out) := _request c method key at_ s in ended s (result_of out) s'.
Proof.
  enough (wp (_request c method key at_) (λ _, ended s None) (λ e, ended s (Some e)) s) as Hw.
  { unfold wp in Hw. by destruct (_request c method key at_ s) as [s' [e|b]]. }
  apply request_wp.
  - intros e s' (l & E & Hl) _. destruct (fetched_tries l Hl) as [Ht _]. exists l. split; [done|]. right. by rewrite Ht.
  - intros h s' (l & E & Hl) _. destruct (fetched_tries l Hl) as [Ht _].
    assert (∀ e s3, ended s' e s3 → ended s e s3) as Hm by (intros e s3; apply (ended_more s s' l); [done|by rewrite Ht]).
    eapply wp_mono; [apply attempts_end|intros; by apply Hm..].
Qed.

(** * One call of the client, one payment *)

(** The attempts, first one first, as the server lived through them: what was
    never sent was not handled, and a response was sent by the handler. *)
Definition explained (rs : list attempt_result) (e : exchange) : Prop :=
  (∀ n x, ex_charged e !! n = Some x → ∃ r, rs !! n = Some r ∧ r ≠ NeverSent) ∧
  (∀ n code ra content json, rs !! n = Some (Response code ra content json) →
    ∃ r, ex_answered e !! n = Some r ∧ code = r_status r ∧ ra = r_retry_after r ∧ (code < 400 → content = true ∧ json = true)).

(** The server receives the headers of the client, and perhaps others. *)
Definition carries (hs : list (string * string)) (h : headers) : Prop :=
  ∀ name v, h !! name = Some v → is_Some (header (lower name) hs).

Lemma lookup_rev_head {A} (l : list A) n x : reverse l !! n = Some x → S n = length l ∧ head l = Some x ∨ x ∈ tail l.
Proof.
  destruct l as [|y l]; [done|]. rewrite reverse_cons. intros [Hn|[Hn Hx]]%lookup_app_Some.
  - right. cbn. apply elem_of_reverse. by eapply list_elem_of_lookup_2.
  - left. rewrite length_reverse in *. apply list_lookup_singleton_Some in Hx as [En ->]. cbn. split; [lia|done].
Qed.

Lemma lookup_rev_last {A} (l : list A) x : head l = Some x → reverse l !! pred (length l) = Some x.
Proof.
  destruct l as [|y l]; [done|]. intros [= ->]. rewrite reverse_cons. cbn.
  rewrite lookup_app_r by (by rewrite length_reverse). by rewrite length_reverse, Nat.sub_diag.
Qed.

Section one_call.
Context (rs : list attempt_result) (e : exchange).
Hypothesis Hexp : explained (reverse rs) e.
Hypothesis Hagree : answers_agree e.

(** A request that is not replayed unless declined is charged on its last attempt only. *)
Lemma charged_last n x :
  Forall (λ r, declined r = true) (tail rs) → ex_charged e !! n = Some x →
  S n = length rs ∧ ∃ r, head rs = Some r ∧ r ≠ NeverSent.
Proof using Hexp Hagree.
  intros Hd Hn. destruct Hexp as [Hc Ha]. destruct (Hc n x Hn) as (r & Hr & Hne).
  destruct (lookup_rev_head _ _ _ Hr) as [[El Eh]|Hin]; [eauto|].
  rewrite Forall_forall in Hd. specialize (Hd r Hin). destruct r as [| | |code ra content json]; try done.
  apply Z.eqb_eq in Hd as ->. destruct (Ha _ _ _ _ _ Hr) as (rep & Hrep & Ecode & _).
  destruct (Hagree _ _ Hrep) as (id & b & _ & Hst & _). rewrite <- Ecode in Hst. set_solver.
Qed.

(** A call that returned got the answer of a charge. *)
Lemma accepted_answer r :
  head rs = Some r → accepted r →
  ∃ n id b rep, ex_charged e !! n = Some (id, b) ∧ ex_answered e !! n = Some rep ∧ rep = success (Payment id b).
Proof using Hexp Hagree.
  intros Hr Ha. destruct Hexp as [_ Hans]. destruct r as [| | |code ra content json]; try done. cbn in Ha.
  apply lookup_rev_last in Hr. destruct (Hans _ _ _ _ _ Hr) as (rep & Hrep & -> & _).
  destruct (Hagree _ _ Hrep) as (id & b & Hc & Hst & Hra & Hb). exists (pred (length rs)), id, b, rep. split_and!; [done..|].
  assert (r_status rep = 200) as E by (set_unfold; lia). destruct rep as [st ra' body]. cbn in *. subst. by rewrite Hb.
Qed.

(** A call that is known to have failed charged nothing. *)
Lemma refused_charge cfg r n x :
  Forall (λ r, declined r = true) (tail rs) → existsb (Z.eqb 500) (retryable_statuses cfg) = true →
  existsb (Z.eqb 503) (retryable_statuses cfg) = true → head rs = Some r → refused r → ambiguous cfg r = false →
  ex_charged e !! n = Some x → False.
Proof using Hexp Hagree.
  intros Hd H500 H503 Hr Href Hamb Hn. destruct (charged_last n x Hd Hn) as (El & r' & Hr' & Hne).
  rewrite Hr in Hr'. injection Hr' as <-. destruct r as [| | |code ra content json]; try done. cbn in Href, Hamb.
  destruct Hexp as [_ Hans]. apply lookup_rev_last in Hr. destruct (Hans _ _ _ _ _ Hr) as (rep & Hrep & Ecode & _).
  destruct (Hagree _ _ Hrep) as (id & b & _ & Hst & _).
  assert (code = 500 ∨ code = 503) as [-> | ->] by (rewrite <- Ecode in Hst; set_unfold; lia).
  - by rewrite H500 in Hamb.
  - by rewrite H503 in Hamb.
Qed.
End one_call.

(** C36: Payments are made once.  A call of the client that posts a payment, over a
    network that may lose the request or the answer of any attempt and hand a request
    over late, to a server that serves others meanwhile at every point where its lock
    is free, applies at most one payment.  If the call returns, one of its attempts was
    charged and answered with that payment: with an idempotency key that nobody else
    uses, exactly one attempt applied it; without any, the attempt answered applied it
    itself.  If the call had no key and raises, any exception but one it does not know
    and any that does not say [outcome_unknown] means that nothing was charged. *)
Theorem payments_exactly_once `{Partner} c key at_ s foreign hs scenario fail_first delay m e l :
  lower (idempotency_header c) = "idempotency-key"%string →
  replay_safe (retry c) "POST" None = false →
  existsb (Z.eqb 500) (retryable_statuses (retry c)) = true → existsb (Z.eqb 503) (retryable_statuses (retry c)) = true →
  let '(s', out) := _request c "POST" key at_ s in
  cl_log s' = l ++ cl_log s → (∀ h r, Attempted h r ∈ l → carries hs h) →
  rtc (exchange_step foreign hs scenario fail_first delay) (begun m) e → explained (reverse (tries l)) e →
  (∀ i j id id', ex_charged e !! i = Some (id, false) → ex_charged e !! j = Some (id', false) → i = j) ∧
  match out with
  | inr _ =>
      ∃ n id b, ex_charged e !! n = Some (id, b) ∧ ex_answered e !! n = Some (success (Payment id b)) ∧
        match header "idempotency-key" hs with
        | None => b = false
        | Some k =>
            (∀ op, foreign op → op ≠ ApplyPayment (Some k)) → idempotent_results m !! k = None →
            ∃ i, ex_charged e !! i = Some (id, false)
        end
  | inl x => key = None → outcome_unknown x = false → x ≠ OtherError → ex_charged e = ∅
  end.
Proof.
  intros Hname Hpost H500 H503. pose proof (request_replayed c "POST" key at_ s) as Hrep. pose proof (request_ends c "POST" key at_ s) as Hend.
  unfold wp in Hrep. destruct (_request c "POST" key at_ s) as [s' out]. intros El Hcar Hrun Hexp.
  assert (request_log c "POST" key s (result_of out) s') as (l' & h & El' & [_ Hh Hd Hf] & Hkey) by by destruct out.
  rewrite El in El'. apply app_inv_tail in El' as <-. destruct Hend as (l' & El' & Hend).
  rewrite El in El'. apply app_inv_tail in El' as <-.
  assert (answers_agree e) as Hag.
  { eapply answers_agree_run; [done|]. intros n r. cbn. by rewrite lookup_empty. }
  assert (∀ k, header "idempotency-key" hs = Some k → keyed foreign k m e) as Hkeyed.
  { intros k Hk. eapply keyed_run; [done..|]. apply keyed_begun. }
  assert (header "idempotency-key" hs = None → ∀ n id b, ex_charged e !! n = Some (id, b) → b = false) as Hunkeyed.
  { intros Hk. eapply unkeyed_run; [done..|]. intros n id b. cbn. by rewrite lookup_empty. }
  assert (key = None → Forall (λ r, declined r = true) (tail (tries l))) as Hlast by (intros ->; by apply Hd).
  split.
  - destruct (header "idempotency-key" hs) as [k|] eqn:Ek; [intros i j id id'; by eapply ke_once, Hkeyed|].
    intros i j id id' Hi Hj. assert (key = None) as Ekey.
    { destruct key as [k|]; [exfalso|done]. destruct Hexp as [Hc _]. destruct (Hc _ _ Hi) as (r & Hr & _).
      assert (tries l ≠ []) as Ht by (by destruct (tries l)). specialize (Hkey k eq_refl Ht).
      pose proof (list_elem_of_lookup_2 _ _ _ Hr) as Hin. rewrite elem_of_reverse in Hin.
      apply list_elem_of_omap in Hin as (a & Ha & Ea). destruct a as [h' r'| |]; [|done..].
      rewrite (Hh _ _ Ha) in Ha. apply Hcar in Ha. destruct (Ha _ _ Hkey) as [v Hv]. congruence. }
    destruct (charged_last _ _ Hexp Hag i _ (Hlast Ekey) Hi) as [Ei _].
    destruct (charged_last _ _ Hexp Hag j _ (Hlast Ekey) Hj) as [Ej _]. lia.
  - destruct out as [x|b]; cbn [result_of] in *.
    + intros -> Hu Hx. apply map_empty. intros n. apply eq_None_not_Some. intros [y Hn]. destruct Hend as [Hend|Hend]; [done|].
      destruct (charged_last _ _ Hexp Hag n _ (Hlast eq_refl) Hn) as (_ & r & Hr & _).
      eapply (refused_charge _ _ Hexp Hag (retry c) r n y); eauto. specialize (Hf x eq_refl). rewrite Hr, Hpost in Hf. cbn in Hf. congruence.
    + destruct Hend as (r & Hr & Ha). destruct (accepted_answer _ _ Hexp Hag r Hr Ha) as (n & id & bb & rep & Hc & Hans & ->).
      exists n, id, bb. split_and!; [done..|]. destruct (header "idempotency-key" hs) as [k|] eqn:Ek; [|by eapply Hunkeyed].
      intros Hfor Hm. destruct (Hkeyed k eq_refl) as [Hres _ Hfresh]. eapply Hfresh; [done..|]. by eapply Hres.
Qed.

(** * A lost answer

    The first attempt is charged and its answer is lost; the second, with the same key,
    is told the payment of the first. *)

Definition losing_partner : Partner.
Proof.
  refine {| p_clock _ := fone; p_random _ := fzero;
            p_exchange n := match n with O => SentButBroken | _ => Response 200 None true true end;
            p_token _ := TokenFailed; p_date _ _ := None; p_is_file _ := false |}.
  by vm_compute.
Defined.

Definition sent_headers : list (string * string) := [("Idempotency-Key", "k1")]%string.
Definition fresh_client : client := mkClient 0 (circuit_breaker default_config) None fzero ∅ [].
Definition paid_once : exchange :=
  mkExchange (mkMock 300 ∅ {["payments:p"%string := 1]} ∅ 0 1 {["k1"%string := 1]})
    {[0%nat := (1, false); 1%nat := (1, true)]} {[1%nat := success (Payment 1 true)]}.

Lemma lost_answer_run :
  rtc (exchange_step (λ _, False) sent_headers "p" 0 fzero) (begun __init__) paid_once.
Proof.
  eapply rtc_l; [by eapply (step_charge _ _ _ _ _ 0%nat); [|vm_compute; reflexivity]|].
  eapply rtc_l; [by eapply (step_charge _ _ _ _ _ 1%nat); [|vm_compute; reflexivity]|].
  eapply rtc_l; [by eapply (step_answer _ _ _ _ _ 1%nat); [vm_compute; reflexivity|..|vm_compute; reflexivity]|].
  match goal with |- rtc _ ?e ?e' => assert (e = e') as -> by (vm_compute; reflexivity) end. apply rtc_refl.
Defined.

Lemma payments_exactly_once_witness :
  let '(s', out) := _request (H := losing_partner) default_config "POST" (Some "k1"%string) None fresh_client in
  out = inr true ∧ explained (reverse (tries (cl_log s'))) paid_once ∧
  ∃ i id, ex_charged paid_once !! i = Some (id, false) ∧ ∀ j id', ex_charged paid_once !! j = Some (id', false) → j = i.
Proof.
  pose proof (@payments_exactly_once losing_partner default_config (Some "k1"%string) None fresh_client (λ _, False)
    sent_headers "p" 0 fzero __init__ paid_once
    (cl_log (_request (H := losing_partner) default_config "POST" (Some "k1"%string) None fresh_client).1)
    ltac:(vm_compute; reflexivity) ltac:(vm_compute; reflexivity) ltac:(vm_compute; reflexivity) ltac:(vm_compute; reflexivity)) as Hw.
  assert (tries (cl_log (_request (H := losing_partner) default_config "POST" (Some "k1"%string) None fresh_client).1) =
    [Response 200 None true true; SentButBroken]) as Et by (vm_compute; reflexivity).
  assert ((_request (H := losing_partner) default_config "POST" (Some "k1"%string) None fresh_client).2 = inr true) as Eo
    by (vm_compute; reflexivity).
  assert (forallb (λ a, match a with Attempted h _ => bool_decide (h = {["Idempotency-Key"%string := "k1"%string]}) | _ => true end)
    (cl_log (_request (H := losing_partner) default_config "POST" (Some "k1"%string) None fresh_client).1) = true) as Eh
    by (vm_compute; reflexivity).
  destruct (_request (H := losing_partner) default_config "POST" (Some "k1"%string) None fresh_client) as [s' out]. cbn [fst snd] in *.
  subst out. assert (explained (reverse (tries (cl_log s'))) paid_once) as Hexp.
  { rewrite Et. split.
    - intros n x Hx. cbn in Hx. apply lookup_insert_Some in Hx as [[<- _]|[_ [<- _]%lookup_singleton_Some]]; by eexists.
    - intros [|[|n]] code ra content json Hx; [done| |done]. injection Hx as <- <- <- <-. eexists. split; [vm_compute; reflexivity|]. by vm_compute. }
  destruct Hw as [Hone (n & id & b & _ & _ & Hk)]; [cbn; by rewrite app_nil_r| |apply lost_answer_run|done|].
  { intros h r Hin. rewrite forallb_forall in Eh. apply list_elem_of_In, Eh, bool_decide_eq_true in Hin as ->.
    intros name v [<- <-]%lookup_singleton_Some. vm_compute. by eexists. }
  split; [done|]. split; [done|]. vm_compute in Hk. destruct Hk as [i Hi]; [done..|]. exists i, id. split; [exact Hi|].
  intros j id' Hj. by eapply Hone.
Defined.

(** The form of the client, with an escape and a plus sign. *)
Example sample_token :
  count_hits (PostToken "grant_type=client_credentials&client_id=test%2Dclient&client_secret=test-secret&scope=a+b") "beef" __init__ =
    (mkMock 300 {["/oauth/token"%string := 1]} ∅ {["token-beef"%string]} 1 0 ∅,
     inr (success (AccessToken "token-beef" "Bearer" 300))).
Proof. vm_compute. reflexivity. Qed.
