(* ===== verification/Findings.v ===== *)
(** Behaviours of the services that leave the cluster in a state its comments do
    not intend, shown on concrete runs or in general. *)
From S2P Require Import Prelude Values Job Node Scheduler Float64 Execution ApiKey Worker Db Prog Repos Services WorkerLoop Cluster Invariant Holding Outcome Scheduling Driving System Guarantees.
Local Open Scope Z_scope.

(** * Removing a node that still runs a job *)

(** RemoveOfflineNodeService strands the job of the node it removes.  When
    the node has missed its heartbeat, the call deletes it whatever it runs: the
    job keeps its status (RUNNING, say) but loses its node, and no lease and no
    worker refers to it any more.  No reconciliation pass ever changes that
    again: the job is neither reclaimed nor requeued. *)
Theorem removed_node_strands_job {E : Env} `{!Quiet E} w r x nd i l d n :
  integrity d → consistent d → minted d n → holding d w r x nd i l →
  is_alive (clock (S n)) nd = false →
  ∃ d' n', remove_offline_node (n_id nd) (n_tenant_id nd) (mkWorld d n) = (mkWorld d' n', inr tt) ∧
    db_jobs d' !! j_id x = Some (set_assigned_node_id None x) ∧
    (∀ k l', db_leases d' !! k = Some l' → l_job_id l' ≠ j_id x) ∧
    (∀ k r', db_workers d' !! k = Some r' → r_running_job_id r' ≠ Some (j_id x)) ∧
    ∀ m, (n' ≤ m)%nat → ∃ w', reconciliation_loop (mkWorld d' m) = (w', inr tt) ∧
      db_jobs (w_db w') !! j_id x = Some (set_assigned_node_id None x).
Proof.
  intros Hint Hd Hm Hh Hdead.
  pose proof (remove_offline_node_good (n_id nd) (n_tenant_id nd) (mkWorld d n)) as Hgood.
  specialize (Hgood (conj Hint (conj Hd Hm))).
  assert (∃ d' n', remove_offline_node (n_id nd) (n_tenant_id nd) (mkWorld d n) = (mkWorld d' n', inr tt) ∧
    d' = (delete_node (n_id nd) (n_tenant_id nd) d).1) as (d' & n' & Hrun & ->).
  { assert (wp (remove_offline_node (n_id nd) (n_tenant_id nd))
      (λ _ s, w_db s = (delete_node (n_id nd) (n_tenant_id nd) d).1) (λ _ _, False) (mkWorld d n)) as H.
    { unfold remove_offline_node. wp_step. apply wp_node_get_by_id; [by apply consistent_loadable|].
      rewrite (select_node_holding _ _ _ nd) by (done || apply Hh). wp_steps. rewrite Hdead.
      unfold NodeRepository.delete. wp_steps. unfold wp, delete_node.
      rewrite (ho_node _ _ _ _ _ _ _ Hh), bool_decide_eq_true_2 by done. done. }
    unfold wp in H. destruct (remove_offline_node _ _ _) as [[d' n'] [e|[]]]; [done|]. eauto. }
  rewrite Hrun in Hgood. destruct Hgood as [Hint' [Hd' Hm']]. cbn in Hint', Hd', Hm'.
  unfold delete_node in *. rewrite (ho_node _ _ _ _ _ _ _ Hh), bool_decide_eq_true_2 in * by done.
  eexists _, _. split; [done|]. cbn in *. set (d' := mkDb _ _ _ _ _ _ _) in *.
  assert (db_jobs d' !! j_id x = Some (set_assigned_node_id None x)) as Hx'.
  { cbn. rewrite lookup_fmap, (ho_job _ _ _ _ _ _ _ Hh). cbn. unfold unassign_from.
    by rewrite bool_decide_eq_true_2 by apply Hh. }
  assert (∀ k r', db_workers d' !! k = Some r' → r_running_job_id r' ≠ Some (j_id x)) as Hnone.
  { intros k r' Hr' Hj. destruct (co_held d' Hd' k r' _ Hr' Hj) as (y & Hy & Ha & _).
    rewrite Hx' in Hy. injection Hy as <-. by destruct x. }
  split_and!; [done| |done|].
  - intros k l' Hl' E'. destruct (co_worker_of d' Hd' k l' Hl') as (r' & Hr' & Hj).
    rewrite E' in Hj. by eapply Hnone.
  - intros m Hle. set (K w := db_jobs (w_db w) !! j_id x = Some (set_assigned_node_id None x)).
    pose proof (wp_reconciliation_loop K (λ _ _, False) d' m) as H. unfold wp in H.
    assert (kept_by_drops K) as HK.
    { split; [done|]. intros d0 n0 w0 r0 r0' x0 x0' nd0 nd0' i0 l0 L0 evs k k0 HK _ Hh0 _ _ _ _ _. unfold K in *. cbn in *.
      rewrite lookup_insert_ne; [done|]. intros E'. pose proof (ho_job _ _ _ _ _ _ _ Hh0) as Hj0. rewrite E', HK in Hj0.
      injection Hj0 as <-. pose proof (ho_assigned _ _ _ _ _ _ _ Hh0). by destruct x. }
    destruct (reconciliation_loop _) as [w' [e|[]]].
    + exfalso. apply H; try done. split; [done|]. by eapply minted_le.
    + exists w'. split; [done|]. apply H; try done. split; [done|]. by eapply minted_le.
Qed.

Lemma removed_node_strands_job_witness :
  ∃ d' n', remove_offline_node (E:=calm) (mkNodeId 0) tenant1 (mkWorld (w_db started_world) 100) = (mkWorld d' n', inr tt) ∧
    j_status <$> db_jobs d' !! mkJobId 14 = Some RUNNING ∧ ∀ k l', db_leases d' !! k = Some l' → l_job_id l' ≠ mkJobId 14.
Proof.
  destruct started_good as [Hint [Hd Hm]].
  destruct (@removed_node_strands_job calm calm_quiet _ _ _ _ _ _ _ 100%nat Hint Hd
    ltac:(eapply minted_le; [|exact Hm]; apply Nat.leb_le; vm_compute; reflexivity) started_holding
    ltac:(vm_compute; reflexivity)) as (d' & n' & Hrun & Hx & Hl & _).
  exists d', n'. split; [exact Hrun|]. split; [|exact Hl]. replace (mkJobId 14) with (j_id started_job) by reflexivity.
  rewrite Hx. reflexivity.
Defined.

(** * A node renamed by its own recovery *)

(** RecoverOfflineNodeService renames the node.  The worker it reads
    carries a node object without the stored name, so saving that object after
    the release overwrites the name the node was registered with by a generated
    one. *)
Theorem offline_recovery_renames_node :
  n_name <$> db_nodes (w_db started_world) !! mkNodeId 0 = Some "n"%string ∧
  n_name <$> db_nodes (w_db (recover_offline_nodes (E:=calm) (mkWorld (w_db started_world) 100)).1) !! mkNodeId 0
    = Some (generate_node_name (mkDraw 0 0 0)).
Proof. split; vm_compute; reflexivity. Qed.

(** * An exit code that does not fit its column *)

(** A report with an exit code outside the INTEGER range is refused too
    late.  The lease is already deleted, the worker freed and the node credited
    when the job's row is refused, so the job stays RUNNING with nobody holding
    it. *)
Theorem wide_exit_code_strands_job :
  let '(w', res) := report_complete (E:=calm) (mkWorkerId 7) (mkJobId 14) tenant1 (mkLeaseId 38) (Some 2147483648)
                      started_world in
  (match res with inl e => Some e | inr _ => None end) = Some NumericValueOutOfRange ∧
  j_status <$> db_jobs (w_db w') !! mkJobId 14 = Some RUNNING ∧
  db_leases (w_db w') !! mkLeaseId 38 = None ∧
  r_running_job_id <$> db_workers (w_db w') !! mkWorkerId 7 = Some None.
Proof. vm_compute. repeat split; reflexivity. Qed.

(** * Registering a worker while the scheduler runs *)

(** A node and a queued job, and no worker yet. *)
Definition queued_world : world :=
  run_calls (E:=calm)
    [CreateNode (mkResources 8 1024 0) tenant1 (Some "n"%string); CreateJob (mkResources 2 256 0) tenant1 None]
    (mkWorld (empty_db {[tenant1]}) 0).

(** The scheduler of the background loop runs between the two saves of POST
    /workers (effect number 16 is the second). *)
Definition scheduler_in_between : Env :=
  sample_env ticking (λ n d, if decide (n = 16%nat) then w_db (scheduler_loop (E:=frozen (seconds 20)) (mkWorld d 1000)).1 else d).

Definition raced_world : world :=
  (post_worker (E:=scheduler_in_between) (mkNodeId 0) AGENT tenant1 queued_world).1.

(** The next job arrives and the scheduler runs again. *)
Definition after_race : world * (exn + unit) :=
  scheduler_loop (E:=frozen (seconds 20))
    (create_job (E:=frozen (seconds 20)) (mkResources 2 256 0) tenant1 None (mkWorld (w_db raced_world) 2000)).1.

(** POST /workers races with the scheduler.  CreateWorkerService saves the
    new worker as IDLE and RegisterWorkerService saves the same object again; if
    the scheduler leases a job to the worker in between, the second save marks it
    idle and free while the lease stays.  The next scheduler pass then offers the
    worker another job, the unique key on [leases.worker_id] refuses the second
    lease with an exception nothing catches, and the pass ends with that job
    SCHEDULED, its resources allocated and no lease or worker holding it. *)
Theorem registration_race_breaks_scheduler :
  l_worker_id <$> db_leases (w_db raced_world) !! mkLeaseId 1018 = Some (mkWorkerId 13) ∧
  (r_status <$> db_workers (w_db raced_world) !! mkWorkerId 13 = Some IDLE ∧
   r_running_job_id <$> db_workers (w_db raced_world) !! mkWorkerId 13 = Some None) ∧
  (match after_race.2 with inl e => Some e | inr _ => None end) = Some (UniqueViolation "leases_worker_id_key") ∧
  j_status <$> db_jobs (w_db after_race.1) !! mkJobId 2000 = Some SCHEDULED ∧
  n_available <$> db_nodes (w_db after_race.1) !! mkNodeId 0 = Some (mkResources 4 512 0) ∧
  existsb (λ l, bool_decide (l_job_id l = mkJobId 2000)) (rows (db_leases (w_db after_race.1))) = false.
Proof. vm_compute. repeat split; reflexivity. Qed.

(** * Losing the lease while a command runs *)

(** A reconciliation pass of another process, long after the lease ran out, comes
    before the first statement of the renewal thread (effect number 56). *)
Definition reclaimed_meanwhile : Env :=
  sample_env ticking (λ n d, if decide (n = 56%nat) then w_db (reconciliation_loop (E:=frozen (seconds 2000)) (mkWorld d 1000)).1 else d).

Definition after_loss : world * (exn + unit) :=
  worker_execution_loop (E:=reclaimed_meanwhile) (mkWorkerId 7) commanded_world.

(** A job that was taken back is still logged as completed.  When
    reconciliation has deleted the lease of a running job, RenewLeaseService raises
    NoActiveLeaseError; the renewal thread catches LeaseNotFoundError only and dies
    unnoticed, so the loop does not drop the result: it records a JobCompleted
    event and only then finds, in ReleaseLeaseService, that the lease is gone.
    The history of the job ends with JobCompleted while the job is FAILED. *)
Theorem reclaimed_job_logged_completed :
  (match after_loss.2 with inl e => Some e | inr _ => None end) = Some (NoActiveLeaseError (mkWorkerId 7)) ∧
  j_status <$> db_jobs (w_db after_loss.1) !! mkJobId 14 = Some FAILED ∧
  e_event_type <$> db_events (w_db after_loss.1) =
    ["JobCreated"; "JobScheduled"; "LeaseAcquired"; "WorkerAssigned"; "JobReclaimed"; "JobCompleted"]%string.
Proof. vm_compute. repeat split; reflexivity. Qed.

(** * Two registrations of one node *)

(** Another POST /workers for the node, complete, before the first save of this one
    (effect number 15), which looked for a worker of the node before. *)
Definition rival_in_between : Env :=
  sample_env ticking (λ n d, if decide (n = 15%nat) then w_db (post_worker (E:=frozen (seconds 20)) (mkNodeId 0) AGENT tenant1 (mkWorld d 1000)).1 else d).

(** A node can have two workers.  CreateWorkerService looks for the worker of a
    node and saves a new one if there is none; nothing in the schema makes the node of
    a worker unique, so two registrations that both look before either saves both
    succeed. *)
Lemma node_with_two_workers :
  let '(w, r) := post_worker (E:=rival_in_between) (mkNodeId 0) AGENT tenant1 queued_world in
  (match r with inr x => Some (w_id x) | inl _ => None end) = Some (mkWorkerId 13) ∧
  length (filter (λ r, r_node_id r = mkNodeId 0) (rows (db_workers (w_db w)))) = 2%nat.
Proof. vm_compute. by split. Qed.
